(* ===== verification/_CoqProject ===== *)
-Q . S2P
Prelude.v
Errors.v
Strconv.v
Bcd.v
Ebcdic.v
Bitmap.v
Decimal.v
Path.v
Schema.v
LengthCodec.v
BitmapCodec.v
Value.v
FieldCodec.v
Message.v
BerTlv.v
Engine.v
Layout.v
Wire.v
Recursion.v
Access.v
Invariant.v
Store.v
EndToEnd.v
Clone.v
Reads.v
Validate.v
GoStrings.v
Framer.v
XmlFrame.v
TlvText.v
Mux.v
Flow.v
Idempotency.v
Space.v
StoreLog.v
Des.v
Cipher.v
PinBlock.v
KeyBlock.v
Vault.v
Dukpt.v
Packager.v
Profiles.v
Loader.v
Rbac.v
Describe.v
Pool.v
Host.v
Deploy.v
Connector.v
Gateway.v
Shown.v
Protobuf.v
Payshield.v
Iso20022.v
Retry.v
Persist.v
SqlStore.v
Bind.v
Pkcs11.v
Config.v
XmlText.v
XmlIo.v
JsonIo.v
Listener.v
Ops.v
Teq.v
Trace.v
Keyer.v
