(* ===== verification/Prelude.v ===== *)
(** * Isopace: a verification of the ISO 8583 core

    Isopace is a Go framework for financial transactions.  Its core reads and
    writes ISO 8583 messages: a message type, a presence bitmap, and up to 192
    data elements, each encoded by a value codec and delimited by a length
    codec, as a schema says.  This library models that core and the layers that
    carry messages between peers, and proves what makes them correct.

    ** How the program is put together

    A [Schema] (iso8583/schema.go) is built by a [SchemaBuilder]
    (schema_builder.go) from field definitions; a definition names a value codec
    (fieldcodec/), a length codec (lengthcodec/), padding, a scale, presence
    rules and validators.  A [Codec] (codec.go) turns wire bytes into a
    [Message] (message.go) without decoding bodies: it records one span per
    field.  Reads decode lazily and memoise; writes make a message [owned];
    [Marshal] returns the retained buffer when nothing was written, copies clean
    fields verbatim and re-encodes the others.  Composite fields hold child
    messages, BER-TLV (fieldcodec/tlv) or positional (fieldcodec/subfield), so
    codecs and messages recurse through each other.  Below, link/ frames
    messages on a byte stream and mux/ matches responses to requests.  Above,
    flow/ drives a transaction through stages in two phases, and space/ passes
    entries between components, in memory or through a durable log.

    ** Files

    - [Prelude]: results with panics, bytes, slices, machine integers, tactics.
    - [Errors], [Path]: the error values; field paths, their parser and printer,
      and the bounded path cache (iso8583/errors.go, path.go).
    - [Strconv]: what the code uses of strconv, encoding/hex, encoding/binary.
    - [Bcd], [Ebcdic]: internal/bcd, internal/ebcdic.
    - [Bitmap], [Decimal]: iso8583/bitmap.go, decimal.go.
    - [Schema]: iso8583/schema.go and schema_builder.go; the catalogue of codecs
      as inductive types with the codecs' names as constructors.
    - [LengthCodec], [BitmapCodec]: lengthcodec/length.go, fieldcodec/bitmap.go;
      the classes [LengthContract] and [WordContract] state what the engine
      relies on, and every codec of the catalogue is shown to satisfy them.
    - [Value], [FieldCodec]: iso8583/value.go and the scalar codecs of
      fieldcodec/.
    - [Message], [BerTlv], [Engine], [Access]: message state, BER-TLV elements,
      the engine with both composite codecs, and the methods that read and
      write.
    - [Layout], [Wire], [Recursion], [Invariant], [Store], [EndToEnd], [Clone],
      [Reads]: the theorems about the engine and messages.
    - [Shown]: what a message shows to its readers, parsed or assembled, and when
      a rebuilt message shows the same; shared by the renderers.
    - [Validate]: iso8583/validate.go and [Codec.Validate].
    - [Framer], [XmlFrame]: link/framer.go, link/xmlframe.go.
    - [TlvText]: tlv/tlv.go.
    - [Mux]: mux/mux.go.
    - [Flow], [Idempotency]: flow/flow.go, stage.go, exchange.go, and the
      in-memory store of flow/idempotency.go, which implements the interface
      [IdempotencyStore] that a flow is proved against.
    - [Space], [StoreLog]: space/local.go and space/store.go.
    - [Des]: the DES and triple DES of crypto/des, executable, with the class
      [BlockLaws] that the vault is proved against.
    - [Cipher], [PinBlock], [KeyBlock], [Vault], [Dukpt]: vault/cipher.go, mac.go
      and cmac.go; pinblock.go; keyblock.go; vault.go and sealed.go; dukpt.go and
      emv.go.
    - [Packager], [Profiles]: the directories and profile constructors of
      packager/, generated line by line from the Go tables, and the theorems
      that connect every profile to the engine.
    - [Loader]: the codec registry (fieldcodec/registry.go) and the loader of
      schema documents (packager/generic.go).
    - [Describe]: iso8583/describe.go and view.go, over views read from the
      message store.
    - [Pool]: link/pool.go.
    - [Rbac]: rbac/rbac.go and credentials.go.
    - [Host], [Deploy]: runtime/host.go and runtime/deploy.go.
    - [Connector], [Gateway]: connector/connector.go and gateway/gateway.go.
    - [Protobuf]: render/protobuf/protobuf.go and the varints of encoding/binary.
    - [Payshield]: adapters/payshield/ (proto.go, client.go, payshield.go,
      simulator.go).
    - [Iso20022]: render/iso20022/iso20022.go.
    - [Retry]: flow/retry.go.
    - [Persist], [SqlStore]: the store interface and the in-memory store of
      store/store.go, and its implementation over SQL, adapters/sql/sql.go.
    - [GoStrings]: what the code uses of the package strings.
    - [Bind]: the typed getters of iso8583/get.go and the struct binding of
      iso8583/bind.go.
    - [Pkcs11]: adapters/pkcs11/pkcs11.go.
    - [Config]: runtime/config.go and runtime/watch.go, with binary64 numbers.
    - [XmlText], [XmlIo], [JsonIo]: xml.EscapeText, the reading of escaped text and
      of documents of field elements; render/xmlio/xmlio.go and
      render/jsonio/jsonio.go.
    - [Listener]: link/link.go and listener/listener.go.
    - [Ops]: ops/health.go, metrics.go, cluster.go and api.go.
    - [Teq]: the container, teq/teq.go and teq/descriptor.go.
    - [Trace]: trace/trace.go.
    - [Keyer]: [FieldKeyer], [Send] and [Err] of mux/mux.go.

    ** How code is represented

    Fallible code returns [res E A]: [Ok], [Err] with an error value, or [Panic]
    for a Go run-time panic (index or slice out of range, nil dereference), so
    that "does not panic" is a theorem.  Machine integers are [Z]; where the Go
    arithmetic can leave 64 bits the wrap-around or the check is written out.
    Messages live in a store, a list indexed by location, because a composite
    value points to a child that other values may share: reads and writes are
    computations [ST A] over the store, and a slice that aliases the retained
    buffer is a window of it.  Nil slices and pointers are [None].  Goroutines
    of the multiplexer, the tuple space, the pool, the connector and the listener
    are interleaved by a step relation, one step per critical section or channel
    operation.

    Recursion that is not structural takes fuel, and the fuel is shown to be
    enough: an iteration over a buffer takes its length plus one
    ([readTLV_bounds], [tlv_Decode_safe]), and the recursion through composites
    takes the nesting depth of the definition ([codec_recursion] proves the Go
    equations, in which no depth appears).

    ** What is proved

    - The wire: parsing is safe on every input and its spans tile the wire
      (Layout); parsing inverts writing, with unedited fields verbatim and
      edited values recovered (EndToEnd); an unmodified message is forwarded
      byte for byte (EndToEnd).
    - Messages: slots, bitmap and buffer agree after any sequence of calls
      (Store); reads are total, memoised and stable (Reads); what a copy shares
      and what it loses (Clone).
    - Codecs: round trips and bounds of the length, bitmap, scalar, amount,
      BER-TLV and text TLV codecs; termination of the composites (Recursion).
    - Schemas, paths, decimals, bitmaps: [Build] is sound, paths print and parse
      back and the cache is transparent, sums are exact or refused, bitmap
      enumeration is exact.
    - Validation: the report is exactly the violations; the Luhn rule detects
      single errors and adjacent swaps.
    - Transport: framing keeps message boundaries and is safe against hostile
      peers; the XML framer stops on the last byte of an element; responses
      reach the request with their key, and when they may not (Mux); the key of
      a marshalled message is made of its correlation elements, so that a request
      and its response meet exactly when these agree (Keyer).
    - Transactions: what a flow calls, in which order, on every outcome; a
      duplicate request is answered without running a stage (Flow), and what
      the in-memory store then replays (Idempotency).
    - Queues: under every interleaving a space hands out each entry once, in
      order, and no waiter sleeps past an entry (Space); the durable queue
      refines a FIFO queue per key across compactions, restarts and crashes,
      up to the first torn record that is followed by new ones (StoreLog).
    - Security: MACs and their padding follow the standard's definition
      (Cipher); a PIN block decodes to exactly the PIN it was made from, and a
      decoded block is one that encoding makes (PinBlock); a key block opens to
      its header and key, and opens only when its authenticator is that of the
      header and the clear text (KeyBlock); translation preserves the PIN, and
      the sealed vault refines the software vault behind a usage policy with one
      audit event per operation (Vault); the session key walk is the key tree
      indexed by the set bits of the counter (Dukpt).
    - Profiles: every built-in profile builds and is well formed at every depth,
      and every message assembled over one by suitable [Set] calls is delivered;
      DE 65, which two layouts declare, shifts the message (Profiles); a schema
      document gives the same schema in every order of its maps, and every
      built-in profile written as a document loads back to itself (Loader).
    - Rendering: a message without composites, parsed from the wire or assembled
      by [Set], rendered to protobuf and read back answers every getter as before
      (Protobuf), and so does one rendered to XML or to JSON (XmlIo, JsonIo);
      escaped text holds no markup and unescapes to itself (XmlText); the elements
      that the ISO 20022 bridge maps survive it (Iso20022).
    - Binding: a struct written to a message and read back is the struct, and
      where narrow and defined types are cut or refused (Bind).
    - Persistence: the in-memory and the SQL store keep the same map as far as the
      collation of the database tells the texts apart, and where the SQL store
      does not (Persist, SqlStore); a retried stage makes the attempts its policy
      allows (Retry).
    - Adapters: the payShield adapter, over its framed commands, gives what the
      vault of the simulator gives, up to the field length four digits can say,
      and the MAC of another message beyond it (Payshield); the MACs of the
      PKCS#11 adapter are those of the vault, on a token that encrypts (Pkcs11).
    - Description: what a dump or a log record shows of a message depends only
      on its redacted form (Describe), and so does the description of a
      transaction's trace, at the time it is rendered (Trace).
    - Connections: under every interleaving each empty slot of a pool has one
      goroutine dialing for it, and a returned [Close] leaves no link open
      (Pool); a connector has at most one multiplexer open for each [Start], gives
      out only one that signed on, and has closed all of them when [Stop] returns,
      which a second [Start] prevents (Connector); a
      gateway without editing hooks relays requests and answers byte for byte
      (Gateway); a listener that has shut down accepts nothing and leaves no
      tracked link open, and may leave one handler that just starts (Listener).
    - Access control: after any history of calls, what a policy answers is what
      the history says (Rbac).
    - Runtime: a host refines a list of components that all run or none, started
      in order and stopped in reverse (Host); a scan without errors leaves the host
      with the components built from the files of the directory as they are, and
      where a failed stop breaks this (Deploy); the names of a container are those
      of its host's components (Teq); environment overrides change exactly the settings they name, and a
      watched file is followed, but for a change before the watcher starts
      (Config).
    - Operations: the metrics registry holds exactly what was recorded, and its
      exposition declares every name once; a readiness report is that of the
      checks; the information page is served to permitted users only (Ops).

    ** What is not modelled

    Sockets, TLS, timers and clocks, signals, the loggers and the observer facade
    (runtime/log.go, observe.go), the OpenTelemetry adapter, the commands, the
    examples and the vector generator: they hold no logic of their own or only
    pass values to the operating system or to a third-party library.  Hooks and
    upstreams of the gateway and the connector are parameters or answer freely,
    and so do the handlers and the socket of a listener.  Error texts are
    constructors rather than strings.  The regular-expression matcher is a
    parameter of [Validate]; the key functions are parameters of [Mux], where
    [Keyer] gives the one of the library; AES-GCM is the class [AEAD] of [Vault];
    PBKDF2 is the class [KDF] of [Rbac]; the calls of a PKCS#11 module are the
    class [Token] of [Pkcs11]; encoding/xml is the class [XML] of [Iso20022], and
    its decoder a parameter of [XmlIo] with the law [decodes_documents], which
    [scan_document] of [XmlText] satisfies; encoding/json is the class [JSON] of [JsonIo] and a
    parameter of [Loader], [Config], [Ops] and [Teq]; a database is the class
    [SqlDB] of [SqlStore], with the class [Collation] for its text columns;
    time.Parse and time.ParseDuration are parameters of [Bind] and [Config]; the texts of floats and times are parameters of [Ops]
    and [Trace], and [unicode.IsPrint] of [Describe]; random bytes are arguments.
*)

From Stdlib Require Export Strings.Byte ZArith Lia.
From stdpp Require Export base tactics list gmap strings numbers.

Declare Scope go_scope.
Delimit Scope go_scope with go.
#[global] Open Scope Z_scope.

(** ** Results of Go calls

    A Go function that returns [(T, error)] is a function into [res E T]: a
    value, an error value, or a run-time panic (slice bounds, nil pointer,
    explicit [panic]).  [E] is the error type of the calling package. *)
Inductive res (E A : Type) : Type :=
| Ok (a : A)
| Err (e : E)
| Panic.
Arguments Ok {E A} a.
Arguments Err {E A} e.
Arguments Panic {E A}.

Definition rbind {E A B} (x : res E A) (f : A -> res E B) : res E B :=
  match x with
  | Ok a => f a
  | Err e => Err e
  | Panic => Panic
  end.

(** [if err != nil { return g(err) }]: the error is rewritten on the way out. *)
Definition rmap_err {E E' A} (g : E -> E') (x : res E A) : res E' A :=
  match x with
  | Ok a => Ok a
  | Err e => Err (g e)
  | Panic => Panic
  end.

Notation "'let!' x := c 'in' k" := (rbind c (fun x => k))
  (at level 10, x pattern, c at level 200, k at level 200,
   format "'[v' 'let!'  x  :=  c  'in' '/' k ']'") : go_scope.
#[global] Open Scope go_scope.

Definition is_Ok {E A} (x : res E A) : bool :=
  match x with Ok _ => true | _ => false end.

Lemma rbind_Ok {E A B} (x : res E A) (f : A -> res E B) b :
  rbind x f = Ok b <-> exists a, x = Ok a /\ f a = Ok b.
Proof. destruct x; simpl; naive_solver. Qed.

Lemma rbind_Err {E A B} (x : res E A) (f : A -> res E B) e :
  rbind x f = Err e <-> x = Err e \/ exists a, x = Ok a /\ f a = Err e.
Proof. destruct x; simpl; naive_solver. Qed.

Lemma rbind_Panic {E A B} (x : res E A) (f : A -> res E B) :
  rbind x f = Panic <-> x = Panic \/ exists a, x = Ok a /\ f a = Panic.
Proof. destruct x; simpl; naive_solver. Qed.

Lemma rmap_err_Ok {E E' A} (g : E -> E') (x : res E A) a :
  rmap_err g x = Ok a <-> x = Ok a.
Proof. destruct x; simpl; naive_solver. Qed.

Lemma rmap_err_Panic {E E' A} (g : E -> E') (x : res E A) :
  rmap_err g x = Panic <-> x = Panic.
Proof. destruct x; simpl; naive_solver. Qed.

(** ** Bytes

    A Go [byte] is [Byte.byte]; [bz] reads it as an integer in [0, 256) and
    [zb] is the conversion [byte(n)], which keeps the low eight bits. *)
Definition bz (b : byte) : Z := Z.of_N (Byte.to_N b).

Definition zb (z : Z) : byte :=
  match Byte.of_N (Z.to_N (z mod 256)) with
  | Some b => b
  | None => x00
  end.

#[export] Instance byte_EqDecision : EqDecision byte := Byte.byte_eq_dec.

Lemma bz_range b : 0 <= bz b < 256.
Proof. unfold bz. pose proof (Byte.to_N_bounded b). lia. Qed.

Lemma zb_bz b : zb (bz b) = b.
Proof.
  unfold zb. rewrite Z.mod_small by apply bz_range.
  unfold bz. by rewrite N2Z.id, Byte.of_to_N.
Qed.

Lemma bz_zb_mod z : bz (zb z) = z mod 256.
Proof.
  unfold zb, bz. pose proof (Z.mod_pos_bound z 256 ltac:(lia)).
  destruct (Byte.of_N (Z.to_N (z mod 256))) eqn:E.
  - apply Byte.to_of_N in E. rewrite E. lia.
  - apply Byte.of_N_None_iff in E. lia.
Qed.

Lemma bz_zb z : 0 <= z < 256 -> bz (zb z) = z.
Proof. intros. rewrite bz_zb_mod. by apply Z.mod_small. Qed.

Lemma bz_inj a b : bz a = bz b -> a = b.
Proof. intros H. rewrite <- (zb_bz a), <- (zb_bz b). by f_equal. Qed.

(** A statement about every byte can be settled by evaluating it at the 256
    bytes; [all_bytes] is that list and [byte_forall] the induction rule. *)
Definition all_bytes : list byte := zb <$> seqZ 0 256.

Lemma all_bytes_complete b : b ∈ all_bytes.
Proof.
  unfold all_bytes. apply list_elem_of_fmap. exists (bz b).
  split; [by rewrite zb_bz|]. apply elem_of_seqZ. pose proof (bz_range b). lia.
Qed.

Lemma byte_forall (P : byte -> bool) :
  forallb P all_bytes = true -> forall b, P b = true.
Proof.
  intros H b. rewrite forallb_forall in H. apply H.
  apply list_elem_of_In, all_bytes_complete.
Qed.

Create Rewrite HintDb bytes.
#[export] Hint Rewrite @zb_bz : bytes.

(** Strings and byte slices are lists of bytes; [go "abc"] is a Go literal. *)
Abbreviation bytes := (list byte).

Definition go (s : string) : bytes := String.list_byte_of_string s.

(** ** Slices *)

(** [len(l)]. *)
Definition len {A} (l : list A) : Z := Z.of_nat (length l).

(** [l[i]], panicking outside [0, len(l)). *)
Definition idx {E A} (l : list A) (i : Z) : res E A :=
  if (i <? 0) then Panic else
  match l !! Z.to_nat i with
  | Some x => Ok x
  | None => Panic
  end.

(** [l[lo:hi]], panicking unless [0 <= lo <= hi <= len(l)]. *)
Definition slice {E A} (l : list A) (lo hi : Z) : res E (list A) :=
  if (0 <=? lo) && (lo <=? hi) && (hi <=? len l)
  then Ok (take (Z.to_nat (hi - lo)) (drop (Z.to_nat lo) l))
  else Panic.

Lemma len_nonneg {A} (l : list A) : 0 <= len l.
Proof. unfold len. lia. Qed.

Lemma len_nil {A} : len (@nil A) = 0.
Proof. reflexivity. Qed.

Lemma len_cons {A} (x : A) l : len (x :: l) = 1 + len l.
Proof. unfold len. simpl. lia. Qed.

Lemma len_app {A} (l k : list A) : len (l ++ k) = len l + len k.
Proof. unfold len. rewrite length_app. lia. Qed.

Lemma len_fmap {A B} (f : A -> B) l : len (f <$> l) = len l.
Proof. unfold len. by rewrite length_fmap. Qed.

Lemma len_replicate {A} n (x : A) : len (replicate n x) = Z.of_nat n.
Proof. unfold len. by rewrite length_replicate. Qed.

Lemma len_0_nil {A} (l : list A) : len l = 0 -> l = [].
Proof. destruct l; [done|]. rewrite len_cons. pose proof (len_nonneg l). lia. Qed.

Create Rewrite HintDb len.
#[export] Hint Rewrite @len_cons @len_app @len_fmap @len_replicate : len.

Lemma slice_ok {E A} (l : list A) lo hi :
  0 <= lo <= hi -> hi <= len l ->
  slice (E:=E) l lo hi = Ok (take (Z.to_nat (hi - lo)) (drop (Z.to_nat lo) l)).
Proof.
  intros. unfold slice.
  by rewrite !(proj2 (Z.leb_le _ _)) by lia.
Qed.

Lemma slice_not_Panic {E A} (l : list A) lo hi :
  0 <= lo <= hi -> hi <= len l -> slice (E:=E) l lo hi <> Panic.
Proof. intros. by rewrite slice_ok. Qed.

Lemma slice_Ok_inv {E A} (l : list A) lo hi k :
  slice (E:=E) l lo hi = Ok k ->
  0 <= lo <= hi /\ hi <= len l /\ len k = hi - lo /\
  k = take (Z.to_nat (hi - lo)) (drop (Z.to_nat lo) l).
Proof.
  unfold slice. destruct ((0 <=? lo) && _ && _) eqn:C; [|done].
  intros [= <-]. apply andb_prop in C as [[C1 C2]%andb_prop C3].
  apply Z.leb_le in C1, C2, C3. repeat split; try lia.
  unfold len in *. rewrite length_take, length_drop. lia.
Qed.

(** The window of [pre ++ mid ++ post] that covers [mid]. *)
Lemma slice_mid {E A} (pre mid post : list A) lo hi :
  lo = len pre -> hi = lo + len mid ->
  slice (E:=E) (pre ++ mid ++ post) lo hi = Ok mid.
Proof.
  intros -> ->. pose proof (len_nonneg pre). pose proof (len_nonneg mid).
  pose proof (len_nonneg post).
  rewrite slice_ok by (rewrite ?len_app; lia). f_equal.
  replace (Z.to_nat (len pre)) with (length pre) by (unfold len; lia).
  rewrite drop_app_length.
  replace (Z.to_nat _) with (length mid) by (unfold len; lia).
  by rewrite take_app_length.
Qed.

Lemma slice_full {E A} (l : list A) : slice (E:=E) l 0 (len l) = Ok l.
Proof.
  pose proof (slice_mid (E:=E) [] l [] 0 (len l) eq_refl ltac:(lia)) as H.
  by rewrite app_nil_l, app_nil_r in H.
Qed.

Lemma idx_mid {E A} (pre : list A) x post i :
  i = len pre -> idx (E:=E) (pre ++ x :: post) i = Ok x.
Proof.
  intros ->. unfold idx. pose proof (len_nonneg pre).
  destruct (Z.ltb_spec (len pre) 0); [lia|].
  rewrite list_lookup_middle; [done|]. unfold len. lia.
Qed.

Lemma idx_Ok_range {E A} (l : list A) i : 0 <= i < len l -> exists x, idx (E:=E) l i = Ok x /\ l !! Z.to_nat i = Some x.
Proof.
  intros. unfold idx. destruct (Z.ltb_spec i 0); [lia|].
  destruct (lookup_lt_is_Some_2 l (Z.to_nat i)) as [x Hx]; [unfold len in *; lia|].
  exists x. by rewrite Hx.
Qed.

(** ** Machine integers *)

Definition wrap64 (z : Z) : Z := (z + 2 ^ 63) mod 2 ^ 64 - 2 ^ 63.
Definition wrapu64 (z : Z) : Z := z mod 2 ^ 64.
Definition int64 (z : Z) : Prop := - 2 ^ 63 <= z < 2 ^ 63.
Definition uint64 (z : Z) : Prop := 0 <= z < 2 ^ 64.

#[export] Instance int64_dec z : Decision (int64 z).
Proof. unfold int64. apply _. Defined.
#[export] Instance uint64_dec z : Decision (uint64 z).
Proof. unfold uint64. apply _. Defined.

Lemma wrap64_range z : int64 (wrap64 z).
Proof. unfold int64, wrap64. pose proof (Z.mod_pos_bound (z + 2 ^ 63) (2 ^ 64)). lia. Qed.

Lemma wrap64_id z : int64 z -> wrap64 z = z.
Proof. unfold int64, wrap64. intros. rewrite Z.mod_small; lia. Qed.

Lemma wrap64_cases z : exists k, wrap64 z = z + k * 2 ^ 64.
Proof.
  unfold wrap64. exists (- ((z + 2 ^ 63) / 2 ^ 64)).
  pose proof (Z.div_mod (z + 2 ^ 63) (2 ^ 64)). lia.
Qed.

(** ** Automation *)

(** Invert [Ok]/[Err] equations on binds and normalise lengths. *)
Ltac go_inv :=
  repeat match goal with
  | H : rbind _ _ = Ok _ |- _ =>
      let a := fresh "a" in let H1 := fresh H in
      apply rbind_Ok in H as (a & H1 & H)
  | H : rmap_err _ _ = Ok _ |- _ => apply rmap_err_Ok in H
  | H : Ok _ = Ok _ |- _ => injection H as H
  | H : Err _ = Ok _ |- _ => discriminate H
  | H : Panic = Ok _ |- _ => discriminate H
  | H : (_, _) = (_, _) |- _ => injection H as ? ?
  end; subst.

Ltac len_nil_simpl :=
  repeat match goal with
  | |- context [len (@nil ?A)] => change (len (@nil A)) with 0
  | H : context [len (@nil ?A)] |- _ => change (len (@nil A)) with 0 in H
  end.
Ltac len_simpl := autorewrite with len in *; len_nil_simpl.

(** Boolean comparisons as propositions. *)
Ltac bool_to_prop :=
  repeat match goal with
  | H : _ && _ = true |- _ => apply andb_prop in H as [? ?]
  | H : _ || _ = false |- _ => apply orb_false_elim in H as [? ?]
  | H : (_ <? _) = true |- _ => apply Z.ltb_lt in H
  | H : (_ <? _) = false |- _ => apply Z.ltb_ge in H
  | H : (_ <=? _) = true |- _ => apply Z.leb_le in H
  | H : (_ <=? _) = false |- _ => apply Z.leb_gt in H
  | H : (_ =? _) = true |- _ => apply Z.eqb_eq in H
  | H : (_ =? _) = false |- _ => apply Z.eqb_neq in H
  end.
