(* ===== verification/Errors.v ===== *)
(** * Errors and paths as data

    The error values the modelled packages return, as one type: the sentinel
    [errors.New] values of each package, and the structured errors of
    [iso8583/errors.go] and [iso8583/path.go] that wrap a cause.  The data of
    a [FieldPath] is declared here because [FieldError] carries one; its
    operations are in [Path]. *)

From S2P Require Import Prelude.

(** [iso8583.PathElem]: a numeric index ([N >= 0], [Tag] empty) or a BER-TLV
    tag in upper-case hexadecimal ([N = -1]). *)
Record PathElem := mkPathElem {
  pe_N : Z;
  pe_Tag : bytes;
}.

(** [iso8583.FieldPath]: the first [n] entries of the inline array. *)
Record FieldPath := mkFieldPath { fp_elems : list PathElem }.

#[export] Instance PathElem_EqDecision : EqDecision PathElem.
Proof. solve_decision. Defined.
#[export] Instance FieldPath_EqDecision : EqDecision FieldPath.
Proof. solve_decision. Defined.

(** Sentinel and structured errors, by package. *)
Inductive error :=
(* strconv, encoding/hex *)
| strconv_ErrSyntax | strconv_ErrRange
| hex_InvalidByte | hex_ErrLength
(* iso8583/errors.go *)
| errNotPresent | errNotText | errNotNumeric | errWrongKind | errTruncated
| errUnknownDE | errSealed | errBadLength | errNoComposite
(* iso8583/decimal.go *)
| ErrDecimalOverflow | ErrDecimalPrecision | ErrScaleTooLarge
(* iso8583/path.go *)
| ErrEmptyPath | ErrPathTooDeep
| PathError (input : bytes) (msg : bytes)
(* internal/bcd *)
| bcd_ErrNonDigit | bcd_ErrBadNibble | bcd_ErrShort | bcd_ErrNegCount
(* lengthcodec *)
| len_ErrTruncated | len_ErrOverflow | len_ErrBadDigit
(* fieldcodec *)
| fc_ErrTooLong | fc_ErrNonDigit | fc_ErrNegative | fc_ErrBadHex | fc_ErrShortBitmap
(* fieldcodec/tlv, fieldcodec/subfield *)
| tlv_ErrTruncated | tlv_ErrIndefinite | tlv_ErrNotComposite
| subfield_ErrNotComposite
(* fmt.Errorf / errors.New with a message built at the call *)
| errorText (msg : bytes)
(* iso8583.FieldError *)
| FieldError (path : FieldPath) (offset : Z) (name : bytes) (cause : error)
(* the fuel of a recursive definition ran out; no Go value *)
| OutOfFuel.

#[export] Instance error_EqDecision : EqDecision error.
Proof. solve_decision. Defined.

Abbreviation result A := (res error A).
