(* ===== verification/Strconv.v ===== *)
(** * The Go standard library the codecs call

    [strconv.FormatUint/FormatInt/Itoa], [ParseUint/ParseInt/Atoi],
    [encoding/hex], [encoding/binary.BigEndian], [strings.ToUpper] and the order
    of [sort.Strings], on byte lists, with the round trips the codecs rely on. *)

From S2P Require Import Prelude Errors.

(** ** Decimal digits *)

Definition is_digit (c : byte) : bool := (48 <=? bz c) && (bz c <=? 57).

Definition digit (d : Z) : byte := zb (48 + d).

(** The number a digit string denotes, most significant digit first. *)
Definition dec_from (n : Z) (b : bytes) : Z :=
  fold_left (fun n c => n * 10 + (bz c - 48)) b n.
Definition dec_value (b : bytes) : Z := dec_from 0 b.

Fixpoint fmt_digits (fuel : nat) (n : Z) (acc : bytes) : bytes :=
  match fuel with
  | O => acc
  | S f =>
      let acc' := digit (n mod 10) :: acc in
      if n / 10 =? 0 then acc' else fmt_digits f (n / 10) acc'
  end.

(** [strconv.FormatUint(n, 10)]. *)
Definition FormatUint (n : Z) : bytes := fmt_digits (S (Z.to_nat (Z.log2 n))) n [].

(** [strconv.FormatInt(n, 10)] and [strconv.Itoa(n)]. *)
Definition FormatInt (n : Z) : bytes :=
  if n <? 0 then zb 45 :: FormatUint (- n) else FormatUint n.

(** The digit loop of [strconv.ParseUint], with its range test at each step. *)
Fixpoint parse_loop (max n : Z) (b : bytes) : result Z :=
  match b with
  | [] => Ok n
  | c :: r =>
      if is_digit c then
        let n' := n * 10 + (bz c - 48) in
        if max <? n' then Err strconv_ErrRange else parse_loop max n' r
      else Err strconv_ErrSyntax
  end.

(** [strconv.ParseUint(s, 10, bits)]. *)
Definition ParseUint (bits : Z) (s : bytes) : result Z :=
  match s with
  | [] => Err strconv_ErrSyntax
  | _ => parse_loop (2 ^ bits - 1) 0 s
  end.

(** [strconv.ParseInt(s, 10, bits)]: one optional sign, then [ParseUint]. *)
Definition ParseInt (bits : Z) (s : bytes) : result Z :=
  match s with
  | [] => Err strconv_ErrSyntax
  | c :: r =>
      let neg := bz c =? 45 in
      let digits := if neg || (bz c =? 43) then r else s in
      let! un := ParseUint bits digits in
      if negb neg && (2 ^ (bits - 1) <=? un) then Err strconv_ErrRange
      else if neg && (2 ^ (bits - 1) <? un) then Err strconv_ErrRange
      else Ok (if neg then - un else un)
  end.

(** [strconv.Atoi(s)] on a 64-bit platform. *)
Definition Atoi (s : bytes) : result Z := ParseInt 64 s.

Lemma is_digit_digit d : 0 <= d < 10 -> is_digit (digit d) = true.
Proof.
  intros. unfold is_digit, digit. rewrite bz_zb by lia.
  rewrite !(proj2 (Z.leb_le _ _)) by lia. done.
Qed.

Lemma is_digit_range c : is_digit c = true <-> 48 <= bz c <= 57.
Proof. unfold is_digit. rewrite andb_true_iff, !Z.leb_le. done. Qed.

Lemma digit_value d : 0 <= d < 10 -> bz (digit d) - 48 = d.
Proof. intros. unfold digit. rewrite bz_zb by lia. lia. Qed.

Lemma digit_of c : is_digit c = true -> digit (bz c - 48) = c.
Proof.
  rewrite is_digit_range. intros. unfold digit.
  replace (48 + (bz c - 48)) with (bz c) by lia. apply zb_bz.
Qed.

Lemma dec_value_nil : dec_value [] = 0.
Proof. reflexivity. Qed.

Lemma dec_from_app n a b : dec_from n (a ++ b) = dec_from (dec_from n a) b.
Proof. unfold dec_from. apply fold_left_app. Qed.

Lemma dec_from_shift n b : dec_from n b = n * 10 ^ len b + dec_value b.
Proof.
  unfold dec_value. revert n. induction b as [|c b IH]; intros n.
  - len_nil_simpl. rewrite Z.pow_0_r. cbn [dec_from fold_left]. lia.
  - cbn [dec_from fold_left]. fold (dec_from (n * 10 + (bz c - 48)) b).
    fold (dec_from (0 * 10 + (bz c - 48)) b).
    rewrite IH, (IH (0 * 10 + _)), len_cons, Z.pow_add_r by (pose proof (len_nonneg b); lia).
    lia.
Qed.

Lemma dec_value_cons c b : dec_value (c :: b) = (bz c - 48) * 10 ^ len b + dec_value b.
Proof.
  unfold dec_value at 1. cbn [dec_from fold_left].
  fold (dec_from (0 * 10 + (bz c - 48)) b). rewrite dec_from_shift. lia.
Qed.

Lemma dec_value_one c : dec_value [c] = bz c - 48.
Proof. unfold dec_value, dec_from. cbn [fold_left]. lia. Qed.

Lemma dec_value_app a b : dec_value (a ++ b) = dec_value a * 10 ^ len b + dec_value b.
Proof. unfold dec_value at 1. rewrite dec_from_app. apply dec_from_shift. Qed.

Lemma dec_value_zeros k b : dec_value (replicate k (zb 48) ++ b) = dec_value b.
Proof.
  induction k as [|k IH]; [done|]. cbn [replicate app].
  rewrite dec_value_cons, IH, bz_zb by lia. lia.
Qed.

Lemma dec_value_bound b :
  forallb is_digit b = true -> 0 <= dec_value b < 10 ^ len b.
Proof.
  induction b as [|c b IH].
  { intros _. rewrite dec_value_nil. len_nil_simpl. rewrite Z.pow_0_r. lia. }
  cbn [forallb]. intros [H1 H2]%andb_prop. specialize (IH H2).
  rewrite dec_value_cons, len_cons, Z.pow_add_r by (pose proof (len_nonneg b); lia).
  apply is_digit_range in H1. nia.
Qed.

(** Digit strings of one length are determined by their value. *)
Lemma dec_value_inj a b :
  forallb is_digit a = true -> forallb is_digit b = true ->
  len a = len b -> dec_value a = dec_value b -> a = b.
Proof.
  revert b. induction a as [|c a IH]; intros [|d b]; len_simpl;
    try (pose proof (len_nonneg a)); try (pose proof (len_nonneg b)); try (intros; lia); [done|].
  cbn [forallb]. intros [Hc Ha]%andb_prop [Hd Hb]%andb_prop Hl.
  assert (len a = len b) as Hl' by lia.
  rewrite !dec_value_cons, Hl'. intros Hv.
  pose proof (dec_value_bound a Ha). pose proof (dec_value_bound b Hb).
  rewrite Hl' in *. apply is_digit_range in Hc, Hd.
  assert (bz c = bz d) as E by nia. apply bz_inj in E as ->.
  f_equal. apply IH; auto. lia.
Qed.

Lemma fmt_digits_acc f n acc : fmt_digits f n acc = fmt_digits f n [] ++ acc.
Proof.
  revert n acc. induction f as [|f IH]; intros n acc; [done|].
  cbn [fmt_digits]. destruct (n / 10 =? 0); [done|].
  rewrite IH, (IH _ [_]). by rewrite <- app_assoc.
Qed.

Lemma fmt_digits_digits f n : 0 <= n -> forallb is_digit (fmt_digits f n []) = true.
Proof.
  revert n. induction f as [|f IH]; intros n Hn; [done|].
  cbn [fmt_digits].
  assert (is_digit (digit (n mod 10)) = true)
    by (apply is_digit_digit; apply Z.mod_pos_bound; lia).
  destruct (n / 10 =? 0); [cbn; by rewrite H|].
  rewrite fmt_digits_acc, forallb_app, IH by (apply Z.div_pos; lia). cbn. by rewrite H.
Qed.

Lemma fmt_digits_value f n :
  0 <= n < 2 ^ Z.of_nat f -> dec_value (fmt_digits f n []) = n.
Proof.
  revert n. induction f as [|f IH]; intros n Hn.
  - change (2 ^ Z.of_nat 0) with 1 in Hn. cbn [fmt_digits]. rewrite dec_value_nil. lia.
  - cbn [fmt_digits]. pose proof (Z.mod_pos_bound n 10 ltac:(lia)).
    pose proof (Z.div_mod n 10 ltac:(lia)).
    destruct (Z.eqb_spec (n / 10) 0).
    + rewrite dec_value_one, digit_value by lia. lia.
    + rewrite fmt_digits_acc, dec_value_app, IH, dec_value_one, digit_value; [|lia|].
      * rewrite len_cons. len_nil_simpl. change (10 ^ (1 + 0)) with 10. lia.
      * rewrite Nat2Z.inj_succ, Z.pow_succ_r in Hn by lia.
        split; [apply Z.div_pos; lia|]. apply Z.div_lt_upper_bound; lia.
Qed.

Lemma FormatUint_digits n : 0 <= n -> forallb is_digit (FormatUint n) = true.
Proof. apply fmt_digits_digits. Qed.

Lemma FormatUint_value n : 0 <= n -> dec_value (FormatUint n) = n.
Proof.
  intros. apply fmt_digits_value. split; [lia|].
  rewrite Nat2Z.inj_succ, Z2Nat.id by apply Z.log2_nonneg.
  destruct (Z.eq_dec n 0) as [->|]; [cbn; lia|].
  apply Z.log2_spec. lia.
Qed.

Lemma FormatUint_ne n : FormatUint n <> [].
Proof.
  unfold FormatUint. cbn [fmt_digits]. destruct (n / 10 =? 0); [done|].
  rewrite fmt_digits_acc. by destruct (fmt_digits _ _ []).
Qed.

(** A rendered number has no leading zero, so it is the shortest rendering. *)
Lemma fmt_digits_len f n w :
  0 <= n < 2 ^ Z.of_nat f -> 0 < w -> n < 10 ^ w -> len (fmt_digits f n []) <= w.
Proof.
  revert n w. induction f as [|f IH]; intros n w Hn Hw Hlt; [cbn; unfold len; simpl; lia|].
  cbn [fmt_digits]. destruct (Z.eqb_spec (n / 10) 0); [len_simpl; lia|].
  rewrite fmt_digits_acc. len_simpl.
  assert (10 <= n) by (destruct (Z.lt_ge_cases n 10); [rewrite Z.div_small in n0; lia|lia]).
  destruct (Z.eq_dec w 1) as [->|]; [lia|].
  assert (len (fmt_digits f (n / 10) []) <= w - 1); [|lia].
  apply IH; [|lia|].
  - rewrite Nat2Z.inj_succ, Z.pow_succ_r in Hn by lia.
    split; [apply Z.div_pos; lia|]. apply Z.div_lt_upper_bound; lia.
  - apply Z.div_lt_upper_bound; [lia|].
    replace w with (Z.succ (w - 1)) in Hlt by lia. rewrite Z.pow_succ_r in Hlt by lia. lia.
Qed.

Lemma FormatUint_len n w : 0 <= n < 10 ^ w -> 0 < w -> len (FormatUint n) <= w.
Proof.
  intros. apply fmt_digits_len; try lia. split; [lia|].
  rewrite Nat2Z.inj_succ, Z2Nat.id by apply Z.log2_nonneg.
  destruct (Z.eq_dec n 0) as [->|]; [cbn; lia|]. apply Z.log2_spec. lia.
Qed.

Lemma FormatUint_len_lower n w : 10 ^ w <= n -> 0 <= w -> w < len (FormatUint n).
Proof.
  intros H Hw. assert (0 <= n) by (pose proof (Z.pow_nonneg 10 w); lia).
  pose proof (dec_value_bound (FormatUint n) (FormatUint_digits n ltac:(lia))) as B.
  rewrite FormatUint_value in B by lia.
  destruct (Z.lt_ge_cases w (len (FormatUint n))); [done|].
  pose proof (Z.pow_le_mono_r 10 (len (FormatUint n)) w). lia.
Qed.

Lemma parse_loop_digits max n b :
  forallb is_digit b = true -> 0 <= n -> dec_from n b <= max ->
  parse_loop max n b = Ok (dec_from n b).
Proof.
  revert n. induction b as [|c b IH]; intros n; [done|].
  cbn [forallb parse_loop]. intros [Hc Hb]%andb_prop Hn Hm. rewrite Hc.
  apply is_digit_range in Hc.
  cbn [dec_from fold_left] in Hm |- *.
  fold (dec_from (n * 10 + (bz c - 48)) b) in Hm |- *.
  pose proof (dec_value_bound b Hb).
  assert (n * 10 + (bz c - 48) <= dec_from (n * 10 + (bz c - 48)) b).
  { rewrite dec_from_shift. pose proof (Z.pow_pos_nonneg 10 (len b) ltac:(lia) (len_nonneg b)). nia. }
  destruct (Z.ltb_spec max (n * 10 + (bz c - 48))); [lia|]. apply IH; [done|lia|lia].
Qed.

(** Whatever a digit loop accepts is the denoted number, within range. *)
Lemma parse_loop_Ok max n b v :
  0 <= n <= max -> parse_loop max n b = Ok v ->
  forallb is_digit b = true /\ v = dec_from n b /\ 0 <= v <= max.
Proof.
  revert n. induction b as [|c b IH]; intros n Hn; cbn [parse_loop forallb].
  - intros [= <-]. cbn. lia.
  - destruct (is_digit c) eqn:Hc; [|done].
    destruct (Z.ltb_spec max (n * 10 + (bz c - 48))); [done|].
    apply is_digit_range in Hc. intros H'. apply IH in H'; [|lia]. done.
Qed.

Lemma ParseUint_digits bits b :
  b <> [] -> forallb is_digit b = true -> dec_value b < 2 ^ bits ->
  ParseUint bits b = Ok (dec_value b).
Proof.
  intros Hne Hd Hv. unfold ParseUint. destruct b; [done|].
  rewrite parse_loop_digits; [done|done|lia|]. fold (dec_value (b :: b0)). lia.
Qed.

Lemma ParseUint_FormatUint bits n :
  0 <= n < 2 ^ bits -> ParseUint bits (FormatUint n) = Ok n.
Proof.
  intros. rewrite ParseUint_digits; rewrite ?FormatUint_value by lia;
    [done|apply FormatUint_ne|apply FormatUint_digits; lia|lia].
Qed.

Lemma ParseInt_digits bits b :
  0 < bits -> b <> [] -> forallb is_digit b = true -> dec_value b < 2 ^ (bits - 1) ->
  ParseInt bits b = Ok (dec_value b).
Proof.
  intros Hb Hne Hd Hv. unfold ParseInt. destruct b as [|c r]; [done|].
  pose proof Hd as Hd'. cbn [forallb] in Hd'. apply andb_prop in Hd' as [Hc _].
  apply is_digit_range in Hc.
  destruct (Z.eqb_spec (bz c) 45); [lia|]. destruct (Z.eqb_spec (bz c) 43); [lia|].
  cbn [orb negb andb]. rewrite ParseUint_digits; [|done|done|].
  - cbn [rbind]. destruct (Z.leb_spec (2 ^ (bits - 1)) (dec_value (c :: r))); [lia|done].
  - pose proof (Z.pow_lt_mono_r 2 (bits - 1) bits). lia.
Qed.

Lemma ParseInt_FormatInt n : int64 n -> ParseInt 64 (FormatInt n) = Ok n.
Proof.
  unfold int64, FormatInt. intros. destruct (Z.ltb_spec n 0).
  - cbn [ParseInt]. rewrite bz_zb by lia. cbn [Z.eqb orb negb andb Pos.eqb].
    rewrite ParseUint_FormatUint by lia. cbn [rbind].
    destruct (Z.ltb_spec (2 ^ (64 - 1)) (- n)); [lia|]. f_equal. lia.
  - rewrite ParseInt_digits; rewrite ?FormatUint_value; try lia; auto using FormatUint_ne.
    apply FormatUint_digits. lia.
Qed.

Lemma ParseUint_Ok bits b v : 0 < bits -> ParseUint bits b = Ok v ->
  b <> [] /\ forallb is_digit b = true /\ v = dec_value b /\ 0 <= v < 2 ^ bits.
Proof.
  intros Hb. unfold ParseUint. destruct b as [|c r]; [done|]. intros H.
  assert (0 < 2 ^ bits) by (apply Z.pow_pos_nonneg; lia).
  apply parse_loop_Ok in H as (? & ? & ?); [|lia]. split_and!; try done; lia.
Qed.

Lemma ParseInt_int64 s v : ParseInt 64 s = Ok v -> int64 v.
Proof.
  unfold ParseInt, int64. destruct s as [|c r]; [done|].
  set (digits := if _ || _ then r else c :: r). intros H. go_inv.
  apply ParseUint_Ok in H0 as (_ & _ & _ & H0); [|lia].
  change (64 - 1) with 63 in *.
  destruct (bz c =? 45); cbn [negb andb] in H.
  - destruct (Z.ltb_spec (2 ^ 63) a); [done|]. injection H as <-. lia.
  - destruct (Z.leb_spec (2 ^ 63) a); [done|]. injection H as <-. lia.
Qed.

(** The loops neither panic nor run out of anything: they are total. *)
Lemma parse_loop_not_Panic max n b : parse_loop max n b <> Panic.
Proof. revert n. induction b as [|c b IH]; intros n; cbn; repeat case_match; done. Qed.

Lemma ParseUint_not_Panic bits b : ParseUint bits b <> Panic.
Proof. destruct b; [done|]. apply parse_loop_not_Panic. Qed.

Lemma ParseInt_not_Panic bits b : ParseInt bits b <> Panic.
Proof.
  unfold ParseInt. destruct b; [done|]. rewrite rbind_Panic.
  intros [H|(v & _ & H)]; [by apply ParseUint_not_Panic in H|].
  repeat case_match; done.
Qed.

(** ** Hexadecimal *)

Definition hex_digit (n : Z) : byte := if n <? 10 then zb (48 + n) else zb (87 + n).

(** [encoding/hex]'s reverse table: both cases are accepted. *)
Definition unhex (c : byte) : option Z :=
  let n := bz c in
  if (48 <=? n) && (n <=? 57) then Some (n - 48)
  else if (97 <=? n) && (n <=? 102) then Some (n - 87)
  else if (65 <=? n) && (n <=? 70) then Some (n - 55)
  else None.

(** [hex.Encode]: lower-case digits, high nibble first. *)
Fixpoint hex_encode (b : bytes) : bytes :=
  match b with
  | [] => []
  | c :: r => hex_digit (Z.shiftr (bz c) 4) :: hex_digit (Z.land (bz c) 15) :: hex_encode r
  end.

(** [hex.Decode]: pairs of digits; an odd tail is [ErrLength] unless its last
    byte is already invalid. *)
Fixpoint hex_decode (b : bytes) : result bytes :=
  match b with
  | [] => Ok []
  | [p] => match unhex p with Some _ => Err hex_ErrLength | None => Err hex_InvalidByte end
  | p :: q :: r =>
      match unhex p, unhex q with
      | Some hi, Some lo =>
          let! t := hex_decode r in Ok (zb (Z.lor (Z.shiftl hi 4) lo) :: t)
      | _, _ => Err hex_InvalidByte
      end
  end.

(** [strings.ToUpper] on ASCII text. *)
Definition upper (c : byte) : byte :=
  if (97 <=? bz c) && (bz c <=? 122) then zb (bz c - 32) else c.
Definition ToUpper (b : bytes) : bytes := upper <$> b.

Lemma list_pair_ind {A} (P : list A -> Prop) :
  P [] -> (forall x, P [x]) -> (forall x y l, P l -> P (x :: y :: l)) -> forall l, P l.
Proof.
  intros H0 H1 H2 l. cut (P l /\ forall x, P (x :: l)); [tauto|].
  induction l as [|y l [IH1 IH2]]; split; auto.
Qed.

(** The facts about one byte, by evaluation over the 256 bytes. *)
Lemma hex_byte_roundtrip c :
  unhex (hex_digit (Z.shiftr (bz c) 4)) = Some (Z.shiftr (bz c) 4) /\
  unhex (hex_digit (Z.land (bz c) 15)) = Some (Z.land (bz c) 15) /\
  unhex (upper (hex_digit (Z.shiftr (bz c) 4))) = Some (Z.shiftr (bz c) 4) /\
  unhex (upper (hex_digit (Z.land (bz c) 15))) = Some (Z.land (bz c) 15) /\
  zb (Z.lor (Z.shiftl (Z.shiftr (bz c) 4) 4) (Z.land (bz c) 15)) = c.
Proof. destruct c; vm_compute; repeat split. Qed.

Lemma hex_decode_encode b : hex_decode (hex_encode b) = Ok b.
Proof.
  induction b as [|c b IH]; [done|]. cbn [hex_encode hex_decode].
  destruct (hex_byte_roundtrip c) as (-> & -> & _ & _ & ->). by rewrite IH.
Qed.

Lemma hex_decode_upper b : hex_decode (ToUpper (hex_encode b)) = Ok b.
Proof.
  induction b as [|c b IH]; [done|]. cbn [hex_encode hex_decode ToUpper fmap list_fmap].
  destruct (hex_byte_roundtrip c) as (_ & _ & -> & -> & ->).
  change (upper <$> hex_encode b) with (ToUpper (hex_encode b)). by rewrite IH.
Qed.

Lemma len_hex_encode b : len (hex_encode b) = 2 * len b.
Proof. induction b; [done|]. cbn [hex_encode]. rewrite !len_cons, IHb. lia. Qed.

Lemma hex_decode_not_Panic b : hex_decode b <> Panic.
Proof.
  induction b as [| p | p q b IH] using list_pair_ind; cbn; repeat case_match; try done.
  destruct (hex_decode b); done.
Qed.

Lemma hex_decode_len b r : hex_decode b = Ok r -> len b = 2 * len r.
Proof.
  revert r. induction b as [| p | p q b IH] using list_pair_ind; intros r; cbn [hex_decode].
  - by intros [= <-].
  - case_match; done.
  - destruct (unhex p), (unhex q); try done. intros H. go_inv.
    rewrite !len_cons, (IH _ H0). lia.
Qed.

Lemma upper_idem c : upper (upper c) = upper c.
Proof. destruct c; reflexivity. Qed.

Lemma ToUpper_idem b : ToUpper (ToUpper b) = ToUpper b.
Proof.
  unfold ToUpper. rewrite <- list_fmap_compose. apply list_fmap_ext.
  intros. apply upper_idem.
Qed.

(** ** Big-endian integers *)

(** [byte(n >> 8*(w-1)), ..., byte(n)]. *)
Fixpoint be_put (w : nat) (n : Z) : bytes :=
  match w with
  | O => []
  | S w' => zb (Z.shiftr n (8 * Z.of_nat w')) :: be_put w' n
  end.

(** [n = n<<8 | int(c)] over the bytes. *)
Definition be_get (b : bytes) : Z :=
  fold_left (fun n c => Z.lor (Z.shiftl n 8) (bz c)) b 0.

Lemma lor_shiftl_byte n c : 0 <= n -> Z.lor (Z.shiftl n 8) (bz c) = n * 256 + bz c.
Proof.
  intros. rewrite Z.lor_comm. pose proof (bz_range c).
  rewrite Z.shiftl_mul_pow2 by lia. change (2 ^ 8) with 256.
  symmetry. rewrite Z.add_comm. apply Z.add_nocarry_lor.
  apply Z.bits_inj'. intros i Hi. rewrite Z.land_spec, Z.bits_0.
  destruct (Z.lt_ge_cases i 8).
  - change 256 with (2 ^ 8).
    rewrite Z.mul_pow2_bits_low by lia. apply andb_false_r.
  - assert (Z.testbit (bz c) i = false) as ->; [|done].
    rewrite <- (Z.mod_small (bz c) (2 ^ 8)) by (change (2 ^ 8) with 256; lia).
    apply Z.mod_pow2_bits_high. lia.
Qed.

Lemma be_get_snoc b c : be_get (b ++ [c]) = Z.lor (Z.shiftl (be_get b) 8) (bz c).
Proof. unfold be_get. by rewrite fold_left_app. Qed.

Lemma be_get_bound b : 0 <= be_get b < 256 ^ len b.
Proof.
  induction b as [|c b IH] using rev_ind; [by vm_compute|].
  rewrite be_get_snoc, lor_shiftl_byte by lia. pose proof (bz_range c).
  rewrite len_app. change (len [c]) with 1.
  rewrite Z.pow_add_r by (pose proof (len_nonneg b); lia). lia.
Qed.

Lemma be_put_snoc w n : be_put (S w) n = be_put w (Z.shiftr n 8) ++ [zb n].
Proof.
  revert n. induction w as [|w IH]; intros n; [done|].
  change (be_put (S (S w)) n) with (zb (Z.shiftr n (8 * Z.of_nat (S w))) :: be_put (S w) n).
  rewrite IH. cbn [be_put app]. f_equal. f_equal.
  rewrite Z.shiftr_shiftr by lia. f_equal. lia.
Qed.

Lemma len_be_put w n : len (be_put w n) = Z.of_nat w.
Proof. induction w; [done|]. cbn [be_put]. rewrite len_cons, IHw. lia. Qed.

Lemma be_get_put w n : 0 <= n < 256 ^ Z.of_nat w -> be_get (be_put w n) = n.
Proof.
  revert n. induction w as [|w IH]; intros n Hn.
  - change (256 ^ Z.of_nat 0) with 1 in Hn. change (be_get (be_put 0 n)) with 0. lia.
  - rewrite be_put_snoc, be_get_snoc, IH.
    + rewrite lor_shiftl_byte by (apply Z.shiftr_nonneg; lia).
      rewrite bz_zb_mod, Z.shiftr_div_pow2 by lia. change (2 ^ 8) with 256.
      pose proof (Z.div_mod n 256). lia.
    + rewrite Z.shiftr_div_pow2 by lia. change (2 ^ 8) with 256.
      rewrite Nat2Z.inj_succ, Z.pow_succ_r in Hn by lia.
      split; [apply Z.div_pos; lia|]. apply Z.div_lt_upper_bound; lia.
Qed.

Lemma be_put_get b : be_put (length b) (be_get b) = b.
Proof.
  induction b as [|c b IH] using rev_ind; [done|].
  rewrite length_app, Nat.add_comm. cbn [length Nat.add].
  rewrite be_put_snoc, be_get_snoc, lor_shiftl_byte by apply be_get_bound.
  pose proof (bz_range c). f_equal.
  - rewrite Z.shiftr_div_pow2 by lia. change (2 ^ 8) with 256.
    rewrite Z.div_add_l, (Z.div_small (bz c)), Z.add_0_r by lia. apply IH.
  - f_equal. apply bz_inj. rewrite bz_zb_mod.
    rewrite Z.add_comm, Z.mod_add by lia. by apply Z.mod_small.
Qed.

(** The order of [sort.Strings]. *)
Fixpoint bytes_leb (a b : bytes) : bool :=
  match a, b with
  | [], _ => true
  | _ :: _, [] => false
  | x :: a, y :: b => (bz x <? bz y) || ((bz x =? bz y) && bytes_leb a b)
  end.

Definition bytes_le (a b : bytes) : Prop := bytes_leb a b = true.
#[export] Instance bytes_le_dec a b : Decision (bytes_le a b) := bool_eq_dec _ _.

#[export] Instance bytes_le_total : Total bytes_le.
Proof.
  unfold bytes_le. intros a. induction a as [|x a IH]; intros [|y b]; cbn; auto.
  destruct (Z.ltb_spec (bz x) (bz y)), (Z.ltb_spec (bz y) (bz x)); cbn; auto.
  replace (bz x =? bz y) with true by (symmetry; apply Z.eqb_eq; lia).
  replace (bz y =? bz x) with true by (symmetry; apply Z.eqb_eq; lia). cbn. apply IH.
Qed.

#[export] Instance bytes_le_trans : Transitive bytes_le.
Proof.
  unfold bytes_le. intros a. induction a as [|x a IH]; intros [|y b] [|z c]; cbn; try done.
  rewrite !orb_true_iff, !andb_true_iff, !Z.ltb_lt, !Z.eqb_eq. intros [H1|[H1 HA]] [H2|[H2 HB]]; [left; lia..|].
  right. split; [lia|]. by apply (IH b).
Qed.

#[export] Instance bytes_le_antisym : AntiSymm (=) bytes_le.
Proof.
  unfold bytes_le. intros a. induction a as [|x a IH]; intros [|y b]; cbn; try done.
  rewrite !orb_true_iff, !andb_true_iff, !Z.ltb_lt, !Z.eqb_eq. intros [H1|[H1 HA]] [H2|[H2 HB]]; [lia..|].
  f_equal; [by apply bz_inj|by apply IH].
Qed.
