(* ===== verification/Bcd.v ===== *)
(** * Packed binary-coded decimal ([internal/bcd])

    Two decimal digits per byte, high nibble first.  [Pack]/[Unpack] put the pad
    nibble of an odd digit count on the left, [PackRight]/[UnpackRight] on the
    right.  The loops over indices become recursions over the slice, one step
    per iteration, with the source's error at each digit. *)

From S2P Require Import Prelude Errors Strconv.

Definition PackedLen (n : Z) : Z := Z.quot (n + 1) 2.

Definition nibble (c : byte) : result Z :=
  if (bz c <? 48) || (57 <? bz c) then Err bcd_ErrNonDigit else Ok (bz c - 48).

(** The two-digits-per-iteration loop of [Pack]; a lone last digit would read
    [digits[di+1]] out of range. *)
Fixpoint pack_pairs (digits : bytes) : result bytes :=
  match digits with
  | [] => Ok []
  | [_] => Panic
  | h :: l :: r =>
      let! hi := nibble h in
      let! lo := nibble l in
      let! t := pack_pairs r in
      Ok (zb (Z.lor (Z.shiftl hi 4) lo) :: t)
  end.

Definition Pack (digits : bytes) : result bytes :=
  if (len digits mod 2 =? 1) then
    match digits with
    | [] => Panic
    | d0 :: r =>
        let! d := nibble d0 in
        let! t := pack_pairs r in
        Ok (zb d :: t)
    end
  else pack_pairs digits.

Fixpoint unpack_pairs (b : bytes) : result bytes :=
  match b with
  | [] => Ok []
  | c :: r =>
      let hi := Z.shiftr (bz c) 4 in
      let lo := Z.land (bz c) 15 in
      if (9 <? hi) || (9 <? lo) then Err bcd_ErrBadNibble else
      let! t := unpack_pairs r in
      Ok (digit hi :: digit lo :: t)
  end.

Definition Unpack (b : bytes) (n : Z) : result bytes :=
  if n <? 0 then Err bcd_ErrNegCount
  else if len b <? PackedLen n then Err bcd_ErrShort
  else
    let used := PackedLen n in
    if n mod 2 =? 1 then
      let! b0 := idx b 0 in
      let lo := Z.land (bz b0) 15 in
      if 9 <? lo then Err bcd_ErrBadNibble else
      let! rest := slice b 1 used in
      let! t := unpack_pairs rest in
      Ok (digit lo :: t)
    else
      let! rest := slice b 0 used in
      unpack_pairs rest.

Fixpoint PackRight (digits : bytes) : result bytes :=
  match digits with
  | [] => Ok []
  | [h] =>
      let! hi := nibble h in
      Ok [zb (Z.lor (Z.shiftl hi 4) 0)]
  | h :: l :: r =>
      let! hi := nibble h in
      let! lo := nibble l in
      let! t := PackRight r in
      Ok (zb (Z.lor (Z.shiftl hi 4) lo) :: t)
  end.

(** The loop of [UnpackRight] from digit [i], [k] digits left. *)
Fixpoint unpack_right_loop (b : bytes) (i : Z) (k : nat) : result bytes :=
  match k with
  | O => Ok []
  | S k' =>
      let! c := idx b (Z.quot i 2) in
      let nib := if i mod 2 =? 0 then Z.shiftr (bz c) 4 else Z.land (bz c) 15 in
      if 9 <? nib then Err bcd_ErrBadNibble else
      let! t := unpack_right_loop b (i + 1) k' in
      Ok (digit nib :: t)
  end.

Definition UnpackRight (b : bytes) (n : Z) : result bytes :=
  if n <? 0 then Err bcd_ErrNegCount
  else if len b <? PackedLen n then Err bcd_ErrShort
  else unpack_right_loop b 0 (Z.to_nat n).

(** ** One byte *)

Lemma PackedLen_div n : 0 <= n -> PackedLen n = (n + 1) / 2.
Proof. intros. unfold PackedLen. rewrite Z.quot_div_nonneg; lia. Qed.

Lemma nibble_digit c : is_digit c = true -> nibble c = Ok (bz c - 48).
Proof.
  rewrite is_digit_range. intros. unfold nibble.
  by rewrite !(proj2 (Z.ltb_ge _ _)) by lia.
Qed.

Lemma nibble_Ok c v : nibble c = Ok v -> is_digit c = true /\ v = bz c - 48 /\ 0 <= v < 10.
Proof.
  unfold nibble. destruct (_ || _) eqn:E; [done|]. intros [= <-].
  bool_to_prop. rewrite is_digit_range. lia.
Qed.

Lemma nibble_cases c :
  (is_digit c = true /\ nibble c = Ok (bz c - 48)) \/
  (is_digit c = false /\ nibble c = Err bcd_ErrNonDigit).
Proof.
  destruct (is_digit c) eqn:E; [left|right].
  - split; [done|]. by apply nibble_digit.
  - split; [done|]. unfold nibble.
    destruct (_ || _) eqn:F; [done|]. bool_to_prop.
    assert (is_digit c = true) by (apply is_digit_range; lia). congruence.
Qed.

Lemma pack_byte hi lo : 0 <= hi < 16 -> 0 <= lo < 16 ->
  bz (zb (Z.lor (Z.shiftl hi 4) lo)) = hi * 16 + lo.
Proof.
  intros Hh Hl.
  assert (Z.lor (Z.shiftl hi 4) lo = hi * 16 + lo) as ->.
  { rewrite Z.shiftl_mul_pow2 by lia. change (2 ^ 4) with 16.
    symmetry. apply Z.add_nocarry_lor, Z.bits_inj'. intros i Hi.
    rewrite Z.land_spec, Z.bits_0. change 16 with (2 ^ 4) in *.
    destruct (Z.lt_ge_cases i 4).
    - by rewrite Z.mul_pow2_bits_low by lia.
    - rewrite <- (Z.mod_small lo (2 ^ 4)), Z.mod_pow2_bits_high by lia. apply andb_false_r. }
  apply bz_zb. lia.
Qed.

Lemma byte_nibbles c :
  bz c = Z.shiftr (bz c) 4 * 16 + Z.land (bz c) 15 /\
  0 <= Z.shiftr (bz c) 4 < 16 /\ 0 <= Z.land (bz c) 15 < 16.
Proof.
  pose proof (bz_range c). change 15 with (Z.ones 4).
  rewrite Z.land_ones, Z.shiftr_div_pow2 by lia. change (2 ^ 4) with 16.
  pose proof (Z.div_mod (bz c) 16). pose proof (Z.mod_pos_bound (bz c) 16).
  assert (bz c / 16 < 16) by (apply Z.div_lt_upper_bound; lia).
  assert (0 <= bz c / 16) by (apply Z.div_pos; lia). lia.
Qed.

Lemma pack_byte_nibbles hi lo : 0 <= hi < 16 -> 0 <= lo < 16 ->
  let c := zb (Z.lor (Z.shiftl hi 4) lo) in
  Z.shiftr (bz c) 4 = hi /\ Z.land (bz c) 15 = lo.
Proof.
  intros Hh Hl c. pose proof (byte_nibbles c). pose proof (pack_byte hi lo Hh Hl) as E.
  fold c in E. lia.
Qed.

Lemma zb_digit_nibble d : 0 <= d < 10 -> Z.land (bz (zb d)) 15 = d.
Proof.
  intros. rewrite bz_zb by lia. change 15 with (Z.ones 4).
  rewrite Z.land_ones by lia. change (2 ^ 4) with 16. apply Z.mod_small. lia.
Qed.

(** ** The pair loops *)

Lemma pack_unpack_pairs ds : forallb is_digit ds = true -> len ds mod 2 = 0 ->
  exists b, pack_pairs ds = Ok b /\ unpack_pairs b = Ok ds /\ 2 * len b = len ds.
Proof.
  induction ds as [| x | h l ds IH] using list_pair_ind.
  - intros. by exists [].
  - done.
  - cbn [forallb]. intros [Hh [Hl Hd]%andb_prop]%andb_prop Hm.
    destruct IH as (b & E1 & E2 & E3); [done| |].
    { rewrite !len_cons in Hm.
      replace (1 + (1 + len ds)) with (len ds + 1 * 2) in Hm by lia.
      by rewrite Z.mod_add in Hm by lia. }
    cbn [pack_pairs]. rewrite !nibble_digit, E1 by done. cbn [rbind].
    eexists; split; [done|]. apply is_digit_range in Hh as Rh, Hl as Rl.
    cbn [unpack_pairs].
    destruct (pack_byte_nibbles (bz h - 48) (bz l - 48)) as [-> ->]; [lia..|].
    rewrite !(proj2 (Z.ltb_ge _ _)) by lia. cbn [orb]. rewrite E2. cbn [rbind].
    rewrite !digit_of by done. split; [done|]. rewrite !len_cons. lia.
Qed.

Lemma unpack_pairs_Ok b ds : unpack_pairs b = Ok ds ->
  forallb is_digit ds = true /\ len ds = 2 * len b /\ pack_pairs ds = Ok b.
Proof.
  revert ds. induction b as [|c b IH]; intros ds; cbn [unpack_pairs].
  - by intros [= <-].
  - destruct (_ || _) eqn:E; [done|]. bool_to_prop. intros H'. go_inv.
    destruct (IH _ H'0) as (F1 & F2 & F3).
    pose proof (byte_nibbles c) as (B1 & B2 & B3).
    cbn [forallb pack_pairs]. rewrite !is_digit_digit, F1 by lia.
    rewrite !nibble_digit, !digit_value, F3 by (try apply is_digit_digit; lia).
    rewrite !len_cons. cbn [rbind]. split_and!; [done|lia|].
    f_equal. f_equal. apply bz_inj. rewrite pack_byte by lia. lia.
Qed.

Lemma pack_pairs_Ok ds b : pack_pairs ds = Ok b -> forallb is_digit ds = true /\ len ds = 2 * len b.
Proof.
  revert b. induction ds as [| x | h l ds IH] using list_pair_ind; intros b; cbn [pack_pairs].
  - by intros [= <-].
  - done.
  - intros H. go_inv. apply nibble_Ok in H0 as [Hh _]. apply nibble_Ok in H1 as [Hl _].
    destruct (IH _ H2) as [? ?]. cbn [forallb]. rewrite Hh, Hl, !len_cons. split; [done|lia].
Qed.

Lemma pack_pairs_not_Panic ds : len ds mod 2 = 0 -> pack_pairs ds <> Panic.
Proof.
  induction ds as [| x | h l ds IH] using list_pair_ind; [done|done|].
  rewrite !len_cons. replace (1 + (1 + len ds)) with (len ds + 1 * 2) by lia.
  rewrite Z.mod_add by lia. intros Hm. cbn [pack_pairs].
  destruct (nibble_cases h) as [[_ ->]|[_ ->]]; [|done].
  destruct (nibble_cases l) as [[_ ->]|[_ ->]]; [|done].
  cbn [rbind]. specialize (IH Hm). by destruct (pack_pairs ds).
Qed.

Lemma unpack_pairs_not_Panic b : unpack_pairs b <> Panic.
Proof.
  induction b as [|c b IH]; [done|]. cbn [unpack_pairs]. case_match; [done|].
  by destruct (unpack_pairs b).
Qed.

(** ** The packing functions *)

Lemma odd_tail {A} (x : A) l : len (x :: l) mod 2 = 1 -> len l mod 2 = 0.
Proof.
  rewrite len_cons. intros H.
  pose proof (Z.div_mod (1 + len l) 2). pose proof (Z.div_mod (len l) 2).
  pose proof (Z.mod_pos_bound (len l) 2). lia.
Qed.

Lemma even_or_odd n : n mod 2 = 0 \/ n mod 2 = 1.
Proof. pose proof (Z.mod_pos_bound n 2). lia. Qed.

Lemma Pack_len ds b : Pack ds = Ok b -> len b = PackedLen (len ds).
Proof.
  unfold Pack. rewrite PackedLen_div by apply len_nonneg. intros H.
  destruct (Z.eqb_spec (len ds mod 2) 1) as [E|E].
  - destruct ds as [|d ds]; [done|]. go_inv. apply pack_pairs_Ok in H1 as [_ H1].
    rewrite !len_cons, H1. symmetry.
    replace (1 + 2 * len a0 + 1) with ((1 + len a0) * 2) by lia. apply Z.div_mul. lia.
  - apply pack_pairs_Ok in H as [_ ->].
    rewrite Z.mul_comm, Z.div_add_l by lia. change (1 / 2) with 0. lia.
Qed.

Lemma Pack_Ok_digits ds b : Pack ds = Ok b -> forallb is_digit ds = true.
Proof.
  unfold Pack. destruct (Z.eqb_spec (len ds mod 2) 1) as [E|E]; intros H.
  - destruct ds as [|d ds]; [done|]. go_inv. apply nibble_Ok in H0 as [Hd _].
    apply pack_pairs_Ok in H1 as [Hr _]. cbn. by rewrite Hd, Hr.
  - by apply pack_pairs_Ok in H as [? _].
Qed.

Lemma Pack_not_Panic ds : Pack ds <> Panic.
Proof.
  unfold Pack. destruct (Z.eqb_spec (len ds mod 2) 1) as [E|E].
  - destruct ds as [|d ds]; [done|].
    destruct (nibble_cases d) as [[_ ->]|[_ ->]]; [|done]. cbn [rbind].
    pose proof (pack_pairs_not_Panic ds (odd_tail _ _ E)). by destruct (pack_pairs ds).
  - apply pack_pairs_not_Panic. destruct (even_or_odd (len ds)); lia.
Qed.

Lemma idx_0 {A} (x : A) l : idx (E:=error) (x :: l) 0 = Ok x.
Proof. reflexivity. Qed.

Lemma slice_1_tail {A} (x : A) l n : n = 1 + len l -> slice (E:=error) (x :: l) 1 n = Ok l.
Proof.
  intros ->. pose proof (slice_mid (E:=error) [x] l [] 1 (1 + len l) eq_refl ltac:(lia)) as H.
  by rewrite app_nil_r in H.
Qed.

(** Every digit string packs, and unpacks to itself. *)
Lemma Unpack_Pack ds : forallb is_digit ds = true ->
  exists b, Pack ds = Ok b /\ Unpack b (len ds) = Ok ds.
Proof.
  intros Hd. pose proof (len_nonneg ds) as Hn. unfold Pack.
  destruct (Z.eqb_spec (len ds mod 2) 1) as [E|E].
  - destruct ds as [|d ds]; [done|]. cbn [forallb] in Hd. apply andb_prop in Hd as [Hd Hr].
    destruct (pack_unpack_pairs ds Hr (odd_tail _ _ E)) as (b & E1 & E2 & E3).
    rewrite nibble_digit, E1 by done. cbn [rbind]. eexists; split; [done|].
    unfold Unpack. destruct (Z.ltb_spec (len (d :: ds)) 0); [lia|].
    assert (PackedLen (len (d :: ds)) = 1 + len b) as EP.
    { rewrite PackedLen_div, len_cons, <- E3 by lia.
      replace (1 + 2 * len b + 1) with ((1 + len b) * 2) by lia. by rewrite Z.div_mul. }
    rewrite EP, len_cons. destruct (Z.ltb_spec (1 + len b) (1 + len b)); [lia|].
    rewrite (proj2 (Z.eqb_eq _ _) E). rewrite idx_0. cbn [rbind].
    apply is_digit_range in Hd as Rd.
    rewrite zb_digit_nibble by lia. destruct (Z.ltb_spec 9 (bz d - 48)); [lia|].
    rewrite slice_1_tail by done. cbn [rbind]. rewrite E2. cbn [rbind].
    by rewrite digit_of.
  - assert (len ds mod 2 = 0) as E0 by (destruct (even_or_odd (len ds)); lia).
    destruct (pack_unpack_pairs ds Hd E0) as (b & E1 & E2 & E3).
    exists b. split; [done|]. unfold Unpack. destruct (Z.ltb_spec (len ds) 0); [lia|].
    assert (PackedLen (len ds) = len b) as EP.
    { rewrite PackedLen_div, <- E3, Z.mul_comm, Z.div_add_l by lia. change (1 / 2) with 0. lia. }
    rewrite EP. destruct (Z.ltb_spec (len b) (len b)); [lia|].
    rewrite E0. cbn [Z.eqb]. rewrite slice_full. done.
Qed.

Lemma Unpack_not_Panic b n : Unpack b n <> Panic.
Proof.
  unfold Unpack. destruct (Z.ltb_spec n 0); [done|].
  destruct (Z.ltb_spec (len b) (PackedLen n)); [done|].
  assert (0 <= PackedLen n) by (rewrite PackedLen_div by lia; apply Z.div_pos; lia).
  destruct (Z.eqb_spec (n mod 2) 1).
  - assert (1 <= PackedLen n).
    { rewrite PackedLen_div by lia. apply Z.div_le_lower_bound; [lia|].
      assert (n <> 0) by (intros ->; done). lia. }
    destruct (idx_Ok_range (E:=error) b 0) as (x & -> & _); [lia|]. cbn [rbind].
    case_match; [done|]. rewrite slice_ok by lia. cbn [rbind].
    pose proof (unpack_pairs_not_Panic (take (Z.to_nat (PackedLen n - 1)) (drop (Z.to_nat 1) b))).
    by destruct (unpack_pairs _).
  - rewrite slice_ok by lia. apply unpack_pairs_not_Panic.
Qed.

Lemma Unpack_Ok b n ds : Unpack b n = Ok ds -> forallb is_digit ds = true /\ len ds = n.
Proof.
  unfold Unpack. destruct (Z.ltb_spec n 0); [done|].
  destruct (Z.ltb_spec (len b) (PackedLen n)); [done|].
  rewrite PackedLen_div in * by lia.
  pose proof (Z.div_mod (n + 1) 2). pose proof (Z.mod_pos_bound (n + 1) 2).
  pose proof (Z.div_mod n 2).
  destruct (Z.eqb_spec (n mod 2) 1); intros HU; go_inv.
  - destruct (Z.ltb_spec 9 (Z.land (bz a) 15)); [done|]. go_inv.
    match goal with H : slice _ _ _ = Ok _ |- _ => apply slice_Ok_inv in H as (_ & _ & HL & _) end.
    match goal with H : unpack_pairs _ = Ok _ |- _ => apply unpack_pairs_Ok in H as (D & L & _) end.
    pose proof (byte_nibbles a). cbn [forallb]. rewrite is_digit_digit, D by lia.
    split; [done|]. rewrite len_cons. lia.
  - match goal with H : slice _ _ _ = Ok _ |- _ => apply slice_Ok_inv in H as (_ & _ & HL & _) end.
    match goal with H : unpack_pairs _ = Ok _ |- _ => apply unpack_pairs_Ok in H as (D & L & _) end.
    destruct (even_or_odd n); split; try done; lia.
Qed.

(** ** Right-aligned packing *)

Lemma PackRight_len ds b : PackRight ds = Ok b -> len b = PackedLen (len ds).
Proof.
  rewrite PackedLen_div by apply len_nonneg. revert b.
  induction ds as [| x | h l ds IH] using list_pair_ind; intros b; cbn [PackRight]; intros H; go_inv.
  - done.
  - done.
  - rewrite !len_cons, (IH _ H2).
    replace (1 + (1 + len ds) + 1) with (1 * 2 + (len ds + 1)) by lia.
    by rewrite Z.div_add_l by lia.
Qed.

Lemma PackRight_not_Panic ds : PackRight ds <> Panic.
Proof.
  induction ds as [| x | h l ds IH] using list_pair_ind; [done|..]; cbn [PackRight].
  - by destruct (nibble_cases x) as [[_ ->]|[_ ->]].
  - destruct (nibble_cases h) as [[_ ->]|[_ ->]]; [|done].
    destruct (nibble_cases l) as [[_ ->]|[_ ->]]; [|done].
    cbn [rbind]. by destruct (PackRight ds).
Qed.

(** Reading digit [i] of a buffer whose first byte was dropped is reading digit
    [i + 2]. *)
Lemma unpack_right_shift c b i k : 0 <= i ->
  unpack_right_loop (c :: b) (i + 2) k = unpack_right_loop b i k.
Proof.
  revert i. induction k as [|k IH]; intros i Hi; [done|]. cbn [unpack_right_loop].
  rewrite !Z.quot_div_nonneg by lia.
  replace (i + 2) with (i + 1 * 2) by lia.
  rewrite Z.div_add, Z.mod_add by lia.
  replace (idx (c :: b) (i / 2 + 1)) with (idx (E:=error) b (i / 2)).
  - destruct (idx b (i / 2)); cbn [rbind]; try done. case_match; [done|].
    replace (i + 1 * 2 + 1) with (i + 1 + 2) by lia. by rewrite IH by lia.
  - unfold idx. assert (0 <= i / 2) by (apply Z.div_pos; lia).
    destruct (Z.ltb_spec (i / 2) 0); [lia|]. destruct (Z.ltb_spec (i / 2 + 1) 0); [lia|].
    replace (Z.to_nat (i / 2 + 1)) with (S (Z.to_nat (i / 2))) by lia. done.
Qed.

Lemma unpack_right_pack ds : forallb is_digit ds = true ->
  exists b, PackRight ds = Ok b /\ unpack_right_loop b 0 (length ds) = Ok ds.
Proof.
  induction ds as [| x | h l ds IH] using list_pair_ind.
  - intros. by exists [].
  - cbn [forallb]. rewrite andb_true_r. intros Hx.
    cbn [PackRight]. rewrite nibble_digit by done. eexists; split; [done|].
    apply is_digit_range in Hx as R. cbn [unpack_right_loop length]. rewrite idx_0. cbn [rbind].
    change (0 mod 2 =? 0) with true. cbn match.
    destruct (pack_byte_nibbles (bz x - 48) 0) as [-> _]; [lia..|].
    destruct (Z.ltb_spec 9 (bz x - 48)); [lia|]. by rewrite digit_of.
  - cbn [forallb]. intros [Hh [Hl Hd]%andb_prop]%andb_prop.
    destruct IH as (b & E1 & E2); [done|]. cbn [PackRight].
    rewrite !nibble_digit, E1 by done. cbn [rbind]. eexists; split; [done|].
    apply is_digit_range in Hh as Rh, Hl as Rl.
    destruct (pack_byte_nibbles (bz h - 48) (bz l - 48)) as [N1 N2]; [lia..|].
    cbn [unpack_right_loop length]. change (0 + 1) with 1. change (Z.quot 0 2) with 0.
    change (Z.quot 1 2) with 0. rewrite idx_0. cbn [rbind].
    change (0 mod 2 =? 0) with true. change (1 mod 2 =? 0) with false. cbn match.
    rewrite N1, N2. destruct (Z.ltb_spec 9 (bz h - 48)); [lia|].
    destruct (Z.ltb_spec 9 (bz l - 48)); [lia|]. change (1 + 1) with (0 + 2).
    rewrite unpack_right_shift, E2 by lia. cbn [rbind]. by rewrite !digit_of.
Qed.

(** Every digit string packs right-aligned, and unpacks to itself. *)
Lemma UnpackRight_PackRight ds : forallb is_digit ds = true ->
  exists b, PackRight ds = Ok b /\ UnpackRight b (len ds) = Ok ds.
Proof.
  intros Hd. destruct (unpack_right_pack ds Hd) as (b & E1 & E2). exists b. split; [done|].
  unfold UnpackRight. pose proof (len_nonneg ds). destruct (Z.ltb_spec (len ds) 0); [lia|].
  rewrite (PackRight_len ds b E1). destruct (Z.ltb_spec (PackedLen (len ds)) (PackedLen (len ds))); [lia|].
  unfold len. by rewrite Nat2Z.id.
Qed.

Lemma PackRight_Ok_digits ds b : PackRight ds = Ok b -> forallb is_digit ds = true.
Proof.
  revert b. induction ds as [| x | h l ds IH] using list_pair_ind; intros b; cbn [PackRight]; intros H; go_inv.
  - done.
  - apply nibble_Ok in H0 as [H0 _]. cbn. by rewrite H0.
  - apply nibble_Ok in H0 as [H0 _]. apply nibble_Ok in H1 as [H1 _]. cbn.
    by rewrite H0, H1, (IH _ H2).
Qed.

Lemma unpack_right_loop_not_Panic b i k :
  0 <= i -> (i + Z.of_nat k + 1) / 2 <= len b -> unpack_right_loop b i k <> Panic.
Proof.
  revert i. induction k as [|k IH]; intros i Hi Hb; [done|]. cbn [unpack_right_loop].
  rewrite Z.quot_div_nonneg by lia.
  assert (i / 2 < (i + Z.of_nat (S k) + 1) / 2).
  { apply Z.lt_le_trans with ((i + 2) / 2); [|apply Z.div_le_mono; lia].
    replace (i + 2) with (i + 1 * 2) by lia. rewrite Z.div_add by lia. lia. }
  assert (0 <= i / 2) by (apply Z.div_pos; lia).
  destruct (idx_Ok_range (E:=error) b (i / 2)) as (x & -> & _); [lia|]. cbn [rbind].
  case_match; [done|]. specialize (IH (i + 1) ltac:(lia)).
  replace (i + 1 + Z.of_nat k + 1) with (i + Z.of_nat (S k) + 1) in IH by lia.
  specialize (IH Hb). by destruct (unpack_right_loop b (i + 1) k).
Qed.

Lemma UnpackRight_not_Panic b n : UnpackRight b n <> Panic.
Proof.
  unfold UnpackRight. destruct (Z.ltb_spec n 0); [done|].
  destruct (Z.ltb_spec (len b) (PackedLen n)); [done|]. rewrite PackedLen_div in * by lia.
  apply unpack_right_loop_not_Panic; [lia|]. rewrite Z2Nat.id by lia.
  change (0 + n + 1) with (n + 1). lia.
Qed.
