(* ===== verification/Ebcdic.v ===== *)
(** * EBCDIC code pages ([internal/ebcdic])

    The two translation tables are built as the source builds them: both arrays
    filled with the placeholder, then overwritten by the invariant pairs, the
    ranges and the page's own pairs, then the space fixed up. *)

From S2P Require Import Prelude Errors Strconv.

Definition sub : byte := zb 63.       (* ASCII '?'   *)
Definition ebcdicQ : byte := zb 111.  (* EBCDIC '?'  *)
Definition ebcdicSP : byte := zb 64.  (* EBCDIC ' '  *)

(** [Table]: the arrays [e2a] and [a2e], of 256 bytes each. *)
Record Table := mkTable { e2a : list byte; a2e : list byte }.

(** [t[b]] on a [256]byte array: a byte index is never out of range. *)
Definition at_byte (t : list byte) (b : byte) : byte := nth (Z.to_nat (bz b)) t x00.

Definition DecodeByte (t : Table) (b : byte) : byte := at_byte (e2a t) b.
Definition EncodeByte (t : Table) (b : byte) : byte := at_byte (a2e t) b.
Definition Decode (t : Table) (b : bytes) : bytes := DecodeByte t <$> b.
Definition Encode (t : Table) (b : bytes) : bytes := EncodeByte t <$> b.

(** Pairs [(EBCDIC, ASCII)]. *)
Definition invariant : list (Z * Z) :=
  [(64, 32); (75, 46); (76, 60); (77, 40); (78, 43); (79, 124); (80, 38);
   (90, 33); (91, 36); (92, 42); (93, 41); (94, 59); (96, 45); (97, 47);
   (107, 44); (108, 37); (109, 95); (110, 62); (111, 63); (121, 96);
   (122, 58); (123, 35); (124, 64); (125, 39); (126, 61); (127, 34);
   (161, 126); (192, 123); (208, 125); (224, 92)].

(** Ranges [(eStart, aStart, n)]: digits, A-I, J-R, S-Z, a-i, j-r, s-z. *)
Definition ranges : list (Z * Z * Z) :=
  [(240, 48, 10); (193, 65, 9); (209, 74, 9); (226, 83, 8);
   (129, 97, 9); (145, 106, 9); (162, 115, 8)].

Definition cp037Extra : list (Z * Z) := [(186, 91); (187, 93)].
Definition cp1047Extra : list (Z * Z) := [(95, 94); (173, 91); (189, 93)].

(** The closure [set] of [newTable]. *)
Definition set_pair (t : Table) (p : Z * Z) : Table :=
  mkTable (<[Z.to_nat p.1 := zb p.2]> (e2a t)) (<[Z.to_nat p.2 := zb p.1]> (a2e t)).

Definition range_pairs (r : Z * Z * Z) : list (Z * Z) :=
  (fun i => (r.1.1 + i, r.1.2 + i)) <$> seqZ 0 r.2.

Definition newTable (extra : list (Z * Z)) : Table :=
  let t := mkTable (replicate 256 sub) (replicate 256 ebcdicQ) in
  let t := fold_left set_pair invariant t in
  let t := fold_left (fun t r => fold_left set_pair (range_pairs r) t) ranges t in
  let t := fold_left set_pair extra t in
  mkTable (e2a t) (<[32%nat := ebcdicSP]> (a2e t)).

Definition CP037 : Table := Eval vm_compute in newTable cp037Extra.
Definition CP1047 : Table := Eval vm_compute in newTable cp1047Extra.

(** The characters a page assigns. *)
Definition covered (extra : list (Z * Z)) : list byte :=
  (fun p => zb p.2) <$> (invariant ++ mjoin (range_pairs <$> ranges) ++ extra).

Definition ascii_ok (extra : list (Z * Z)) (b : byte) : bool :=
  bool_decide (b ∈ covered extra).

Lemma CP037_eq : CP037 = newTable cp037Extra.
Proof. reflexivity. Qed.
Lemma CP1047_eq : CP1047 = newTable cp1047Extra.
Proof. reflexivity. Qed.

(** One character: what the page assigns survives an encode and a decode. *)
Lemma decode_encode_byte037 b : ascii_ok cp037Extra b = true -> DecodeByte CP037 (EncodeByte CP037 b) = b.
Proof.
  intros H. apply (bool_decide_unpack _).
  enough (negb (ascii_ok cp037Extra b) || bool_decide (DecodeByte CP037 (EncodeByte CP037 b) = b) = true) as E.
  { rewrite H in E. cbn [negb orb] in E. by rewrite E. }
  revert b H. intros b _. revert b. apply byte_forall. vm_compute. reflexivity.
Qed.

Lemma decode_encode_byte1047 b : ascii_ok cp1047Extra b = true -> DecodeByte CP1047 (EncodeByte CP1047 b) = b.
Proof.
  intros H. apply (bool_decide_unpack _).
  enough (negb (ascii_ok cp1047Extra b) || bool_decide (DecodeByte CP1047 (EncodeByte CP1047 b) = b) = true) as E.
  { rewrite H in E. cbn [negb orb] in E. by rewrite E. }
  revert b H. intros b _. revert b. apply byte_forall. vm_compute. reflexivity.
Qed.

Lemma map_roundtrip (dec enc : byte -> byte) (ok : byte -> bool) (b : bytes) :
  (forall c, ok c = true -> dec (enc c) = c) ->
  forallb ok b = true -> dec <$> (enc <$> b) = b.
Proof.
  intros H. induction b as [|c b IH]; [done|]. cbn [forallb fmap list_fmap].
  intros [Hc Hb]%andb_prop. by rewrite H, IH.
Qed.

Lemma Decode_Encode037 b : forallb (ascii_ok cp037Extra) b = true -> Decode CP037 (Encode CP037 b) = b.
Proof. apply map_roundtrip, decode_encode_byte037. Qed.

Lemma Decode_Encode1047 b : forallb (ascii_ok cp1047Extra) b = true -> Decode CP1047 (Encode CP1047 b) = b.
Proof. apply map_roundtrip, decode_encode_byte1047. Qed.

Lemma digit_covered c : is_digit c = true -> ascii_ok cp037Extra c = true.
Proof.
  intros H.
  enough (negb (is_digit c) || ascii_ok cp037Extra c = true) as E by (by rewrite H in E).
  revert c H. intros c _. revert c. apply byte_forall. vm_compute. reflexivity.
Qed.

Lemma digits_covered b : forallb is_digit b = true -> forallb (ascii_ok cp037Extra) b = true.
Proof.
  induction b as [|c b IH]; [done|]. cbn [forallb]. intros [Hc Hb]%andb_prop.
  by rewrite digit_covered, IH.
Qed.

Lemma len_Encode t b : len (Encode t b) = len b.
Proof. apply len_fmap. Qed.
Lemma len_Decode t b : len (Decode t b) = len b.
Proof. apply len_fmap. Qed.
#[export] Hint Rewrite len_Encode len_Decode : len.

