(* ===== verification/Bitmap.v ===== *)
(** * The presence bitmap ([iso8583/bitmap.go])

    Three 64-bit words; data element [de] is bit [63 - (de-1) mod 64] of word
    [(de-1) / 64].  Bits 1 and 65 are the continuation bits of the engine. *)

From S2P Require Import Prelude Errors Strconv.

Record Bitmap := mkBitmap { word0 : Z; word1 : Z; word2 : Z }.

#[export] Instance Bitmap_EqDecision : EqDecision Bitmap.
Proof. solve_decision. Defined.

Definition empty_bitmap : Bitmap := mkBitmap 0 0 0.

Definition maxDEIndex : Z := 192.
Definition contSecondary : Z := 1.
Definition contTertiary : Z := 65.

(** [b.words[i]] for the three indices of the array. *)
Definition Word (b : Bitmap) (i : Z) : Z :=
  if i =? 0 then word0 b else if i =? 1 then word1 b else word2 b.

Definition SetWord (b : Bitmap) (i v : Z) : Bitmap :=
  if i =? 0 then mkBitmap v (word1 b) (word2 b)
  else if i =? 1 then mkBitmap (word0 b) v (word2 b)
  else mkBitmap (word0 b) (word1 b) v.

Definition wordBit (de : Z) : Z * Z :=
  let i := de - 1 in (Z.quot i 64, Z.shiftl 1 (63 - Z.rem i 64)).

Definition IsSet (b : Bitmap) (de : Z) : bool :=
  if (de <? 1) || (maxDEIndex <? de) then false else
  let '(w, mask) := wordBit de in
  negb (Z.land (Word b w) mask =? 0).

Definition BSet (b : Bitmap) (de : Z) : Bitmap :=
  if (de <? 1) || (maxDEIndex <? de) then b else
  let '(w, mask) := wordBit de in
  SetWord b w (Z.lor (Word b w) mask).

Definition BClear (b : Bitmap) (de : Z) : Bitmap :=
  if (de <? 1) || (maxDEIndex <? de) then b else
  let '(w, mask) := wordBit de in
  SetWord b w (Z.ldiff (Word b w) mask).

(** [bits.OnesCount64] and [bits.LeadingZeros64]. *)
Definition OnesCount64 (w : Z) : Z := len (List.filter (Z.testbit w) (seqZ 0 64)).
Definition LeadingZeros64 (w : Z) : Z := if w =? 0 then 64 else 63 - Z.log2 w.

Definition Count (b : Bitmap) : Z :=
  let n := OnesCount64 (word0 b) + OnesCount64 (word1 b) + OnesCount64 (word2 b) in
  let n := if IsSet b contSecondary then n - 1 else n in
  if IsSet b contTertiary then n - 1 else n.

Definition Width (b : Bitmap) : Z :=
  if IsSet b contTertiary then 192
  else if IsSet b contSecondary then 128
  else 64.

(** The inner loop of [Range]: the elements of one word, most significant bit
    first.  Each iteration clears a bit, so 64 iterations are enough. *)
Fixpoint range_word (fuel : nat) (word base : Z) : list Z :=
  match fuel with
  | O => []
  | S f =>
      if word =? 0 then [] else
      let lz := LeadingZeros64 word in
      let de := base + lz + 1 in
      let rest := range_word f (Z.ldiff word (Z.shiftl 1 (63 - lz))) base in
      if (de =? contSecondary) || (de =? contTertiary) then rest else de :: rest
  end.

(** The elements [Range] passes to [yield], in order. *)
Definition Range (b : Bitmap) : list Z :=
  range_word 64 (word0 b) 0 ++ range_word 64 (word1 b) 64 ++ range_word 64 (word2 b) 128.

(** [Bitmap.String]: the elements separated by spaces, then the width. *)
Definition BString (b : Bitmap) : bytes :=
  go "Bitmap{" ++ mjoin (imap (fun i de => (if (i =? 0)%nat then [] else go " ") ++ FormatInt de) (Range b))
  ++ go "} width=" ++ FormatInt (Width b).

(** ** Well-formedness: three unsigned 64-bit words *)

Definition bitmap_ok (b : Bitmap) : Prop :=
  uint64 (word0 b) /\ uint64 (word1 b) /\ uint64 (word2 b).

Lemma empty_bitmap_ok : bitmap_ok empty_bitmap.
Proof. by vm_compute. Qed.

Lemma Word_ok b i : bitmap_ok b -> uint64 (Word b i).
Proof. intros (? & ? & ?). unfold Word. by repeat case_match. Qed.

Lemma SetWord_ok b i v : bitmap_ok b -> uint64 v -> bitmap_ok (SetWord b i v).
Proof. intros (? & ? & ?) ?. unfold SetWord. by repeat case_match. Qed.

Lemma uint64_testbit_high w i : uint64 w -> 64 <= i -> Z.testbit w i = false.
Proof.
  intros [? ?] ?. rewrite <- (Z.mod_small w (2 ^ 64)) by lia.
  apply Z.mod_pow2_bits_high. lia.
Qed.

Lemma uint64_of_bits w : 0 <= w -> (forall i, 64 <= i -> Z.testbit w i = false) -> uint64 w.
Proof.
  intros Hw H. split; [done|].
  assert (w = w mod 2 ^ 64) as ->; [|apply Z.mod_pos_bound; lia].
  apply Z.bits_inj'. intros i Hi. destruct (Z.lt_ge_cases i 64).
  - by rewrite Z.mod_pow2_bits_low.
  - by rewrite Z.mod_pow2_bits_high, H by lia.
Qed.

Lemma testbit_mask n i : 0 <= n -> 0 <= i -> Z.testbit (Z.shiftl 1 n) i = (i =? n).
Proof.
  intros. rewrite Z.shiftl_spec by lia. destruct (Z.eqb_spec i n) as [->|].
  - by rewrite Z.sub_diag.
  - destruct (Z.lt_ge_cases i n); [by apply Z.testbit_neg_r; lia|].
    rewrite Z.bits_above_log2; [done|lia|]. change (Z.log2 1) with 0. lia.
Qed.

Lemma uint64_lor_mask w n : uint64 w -> 0 <= n < 64 -> uint64 (Z.lor w (Z.shiftl 1 n)).
Proof.
  intros Hw Hn. apply uint64_of_bits.
  - destruct Hw. apply Z.lor_nonneg. split; [lia|]. apply Z.shiftl_nonneg. lia.
  - intros i Hi. rewrite Z.lor_spec, testbit_mask, (uint64_testbit_high w) by (try done; lia).
    by destruct (Z.eqb_spec i n); [lia|].
Qed.

Lemma uint64_ldiff_mask w n : uint64 w -> 0 <= n < 64 -> uint64 (Z.ldiff w (Z.shiftl 1 n)).
Proof.
  intros Hw Hn. apply uint64_of_bits.
  - destruct Hw. apply Z.ldiff_nonneg. by left.
  - intros i Hi. by rewrite Z.ldiff_spec, (uint64_testbit_high w).
Qed.

(** ** Bit [de] of the bitmap *)

(** The place of a data element: its word and its bit. *)
Lemma wordBit_spec de : 1 <= de <= 192 ->
  wordBit de = ((de - 1) / 64, Z.shiftl 1 (63 - (de - 1) mod 64)) /\
  0 <= (de - 1) / 64 <= 2 /\ 0 <= 63 - (de - 1) mod 64 < 64.
Proof.
  intros. unfold wordBit. rewrite Z.quot_div_nonneg, Z.rem_mod_nonneg by lia.
  split; [done|]. pose proof (Z.mod_pos_bound (de - 1) 64 ltac:(lia)).
  assert ((de - 1) / 64 < 3) by (apply Z.div_lt_upper_bound; lia).
  assert (0 <= (de - 1) / 64) by (apply Z.div_pos; lia). lia.
Qed.

Definition in_range (de : Z) : bool := (1 <=? de) && (de <=? 192).

Lemma in_range_guard de : ((de <? 1) || (maxDEIndex <? de)) = negb (in_range de).
Proof.
  unfold in_range, maxDEIndex.
  destruct (Z.ltb_spec de 1), (Z.ltb_spec 192 de), (Z.leb_spec 1 de), (Z.leb_spec de 192);
    cbn; lia || done.
Qed.

Lemma in_range_iff de : in_range de = true <-> 1 <= de <= 192.
Proof. unfold in_range. rewrite andb_true_iff, !Z.leb_le. done. Qed.

Definition bit_of (b : Bitmap) (de : Z) : bool :=
  Z.testbit (Word b ((de - 1) / 64)) (63 - (de - 1) mod 64).

Lemma land_mask_testbit w n : 0 <= n -> negb (Z.land w (Z.shiftl 1 n) =? 0) = Z.testbit w n.
Proof.
  intros Hn. destruct (Z.testbit w n) eqn:E.
  - destruct (Z.eqb_spec (Z.land w (Z.shiftl 1 n)) 0) as [F|]; [|done].
    assert (Z.testbit (Z.land w (Z.shiftl 1 n)) n = true)
      by (rewrite Z.land_spec, testbit_mask, E, Z.eqb_refl by lia; done).
    by rewrite F, Z.bits_0 in H.
  - assert (Z.land w (Z.shiftl 1 n) = 0) as ->; [|done].
    apply Z.bits_inj'. intros i Hi. rewrite Z.land_spec, testbit_mask, Z.bits_0 by lia.
    destruct (Z.eqb_spec i n) as [->|]; [by rewrite E|apply andb_false_r].
Qed.

Lemma IsSet_bit b de : IsSet b de = in_range de && bit_of b de.
Proof.
  unfold IsSet. rewrite in_range_guard. destruct (in_range de) eqn:R; [|done].
  apply in_range_iff in R. destruct (wordBit_spec de R) as (-> & _ & ?). cbn [negb andb].
  apply land_mask_testbit. lia.
Qed.

Lemma Word_SetWord b i j v : 0 <= i <= 2 -> 0 <= j <= 2 ->
  Word (SetWord b i v) j = if i =? j then v else Word b j.
Proof.
  intros. unfold Word, SetWord. assert (i = 0 \/ i = 1 \/ i = 2) as [-> | [-> | ->]] by lia;
  assert (j = 0 \/ j = 1 \/ j = 2) as [-> | [-> | ->]] by lia; done.
Qed.

(** Two elements in range share word and bit only when they are equal. *)
Lemma place_inj d e :
  (d - 1) / 64 = (e - 1) / 64 -> 63 - (d - 1) mod 64 = 63 - (e - 1) mod 64 -> d = e.
Proof. intros. pose proof (Z.div_mod (d - 1) 64). pose proof (Z.div_mod (e - 1) 64). lia. Qed.

Lemma bit_of_update b d e (f : Z -> Z) (g : bool -> bool) :
  1 <= d <= 192 -> 1 <= e <= 192 ->
  (forall w, Z.testbit (f w) (63 - (d - 1) mod 64) = g (Z.testbit w (63 - (d - 1) mod 64))) ->
  (forall w i, 0 <= i -> i <> 63 - (d - 1) mod 64 -> Z.testbit (f w) i = Z.testbit w i) ->
  bit_of (SetWord b ((d - 1) / 64) (f (Word b ((d - 1) / 64)))) e
  = if d =? e then g (bit_of b e) else bit_of b e.
Proof.
  intros Hd He Hg Hf. unfold bit_of.
  destruct (wordBit_spec d Hd) as (_ & ? & ?). destruct (wordBit_spec e He) as (_ & ? & ?).
  rewrite Word_SetWord by lia.
  destruct (Z.eqb_spec ((d - 1) / 64) ((e - 1) / 64)) as [E|E].
  - rewrite <- E. destruct (Z.eqb_spec d e) as [->|Hne]; [apply Hg|].
    apply Hf; [lia|]. intros F. apply Hne. symmetry in F. by apply place_inj.
  - destruct (Z.eqb_spec d e) as [->|]; [done|]. done.
Qed.

Lemma IsSet_BSet b d e : IsSet (BSet b d) e = (in_range d && (d =? e)) || IsSet b e.
Proof.
  rewrite !IsSet_bit. unfold BSet. rewrite in_range_guard.
  destruct (in_range d) eqn:Rd; [|done]. apply in_range_iff in Rd as Hd.
  destruct (wordBit_spec d Hd) as (-> & ? & ?). cbn [negb andb].
  destruct (in_range e) eqn:Re.
  - apply in_range_iff in Re as He. cbn [andb].
    rewrite (bit_of_update b d e (fun w => Z.lor w _) (fun _ => true)); try done.
    + intros. rewrite Z.lor_spec, testbit_mask, Z.eqb_refl by lia. apply orb_true_r.
    + intros w i Hi Hne. rewrite Z.lor_spec, testbit_mask by lia.
      apply Z.eqb_neq in Hne as ->. apply orb_false_r.
  - cbn [andb orb]. destruct (Z.eqb_spec d e); [congruence|done].
Qed.

Lemma IsSet_BClear b d e : IsSet (BClear b d) e = negb (d =? e) && IsSet b e.
Proof.
  rewrite !IsSet_bit. unfold BClear. rewrite in_range_guard.
  destruct (in_range d) eqn:Rd.
  - apply in_range_iff in Rd as Hd. destruct (wordBit_spec d Hd) as (-> & ? & ?). cbn [negb andb].
    destruct (in_range e) eqn:Re; [|by rewrite andb_false_r].
    apply in_range_iff in Re as He. cbn [andb].
    rewrite (bit_of_update b d e (fun w => Z.ldiff w _) (fun _ => false)); try done.
    + by destruct (d =? e).
    + intros. rewrite Z.ldiff_spec, testbit_mask, Z.eqb_refl by lia. apply andb_false_r.
    + intros w i Hi Hne. rewrite Z.ldiff_spec, testbit_mask by lia.
      apply Z.eqb_neq in Hne as ->. apply andb_true_r.
  - cbn [negb]. destruct (Z.eqb_spec d e) as [->|]; [by rewrite Rd|done].
Qed.

Lemma BSet_ok b d : bitmap_ok b -> bitmap_ok (BSet b d).
Proof.
  intros Hb. unfold BSet. rewrite in_range_guard. destruct (in_range d) eqn:R; [|done].
  apply in_range_iff in R. destruct (wordBit_spec d R) as (-> & ? & ?). cbn [negb].
  apply SetWord_ok; [done|]. apply uint64_lor_mask; [by apply Word_ok|lia].
Qed.

Lemma BClear_ok b d : bitmap_ok b -> bitmap_ok (BClear b d).
Proof.
  intros Hb. unfold BClear. rewrite in_range_guard. destruct (in_range d) eqn:R; [|done].
  apply in_range_iff in R. destruct (wordBit_spec d R) as (-> & ? & ?). cbn [negb].
  apply SetWord_ok; [done|]. apply uint64_ldiff_mask; [by apply Word_ok|lia].
Qed.

Lemma IsSet_empty de : IsSet empty_bitmap de = false.
Proof.
  rewrite IsSet_bit. unfold bit_of. apply andb_false_intro2.
  assert (Word empty_bitmap ((de - 1) / 64) = 0) as -> by (unfold Word; by repeat case_match).
  apply Z.bits_0.
Qed.

(** Bitmaps are determined by their bits. *)
Lemma bitmap_ext a b : bitmap_ok a -> bitmap_ok b ->
  (forall de, 1 <= de <= 192 -> IsSet a de = IsSet b de) -> a = b.
Proof.
  intros Ha Hb H.
  assert (forall w i, 0 <= w <= 2 -> 0 <= i < 64 -> Z.testbit (Word a w) i = Z.testbit (Word b w) i) as HW.
  { intros w i Hw Hi. specialize (H (w * 64 + (63 - i) + 1) ltac:(lia)).
    rewrite !IsSet_bit, !(proj2 (in_range_iff _)) in H by lia. cbn [andb] in H. unfold bit_of in H.
    replace (w * 64 + (63 - i) + 1 - 1) with (w * 64 + (63 - i)) in H by lia.
    rewrite Z.div_add_l, Z.div_small, Z.add_0_r in H by lia.
    rewrite Z.add_comm, Z.mod_add, Z.mod_small in H by lia.
    replace (63 - (63 - i)) with i in H by lia. done. }
  assert (forall w, 0 <= w <= 2 -> Word a w = Word b w) as HE.
  { intros w Hw. apply Z.bits_inj'. intros i Hi. destruct (Z.lt_ge_cases i 64); [by apply HW|].
    by rewrite !uint64_testbit_high by auto using Word_ok. }
  pose proof (HE 0 ltac:(lia)). pose proof (HE 1 ltac:(lia)). pose proof (HE 2 ltac:(lia)).
  destruct a, b; cbn in *; congruence.
Qed.

(** Without elements above 128 the third word is empty. *)
Lemma word2_zero b : bitmap_ok b -> (forall de, 129 <= de <= 192 -> IsSet b de = false) -> word2 b = 0.
Proof.
  intros Hb H. cut (mkBitmap (word0 b) (word1 b) 0 = b); [by intros <-|]. destruct Hb as (H0 & H1 & H2).
  apply bitmap_ext; [split_and!; [done..|]; unfold uint64; cbn; lia|done|].
  intros de Hde. destruct (Z.leb_spec 129 de).
  - rewrite H, IsSet_bit by lia. apply andb_false_intro2. unfold bit_of.
    replace ((de - 1) / 64) with 2 by (apply Z.div_unique with (de - 1 - 128); lia). apply Z.bits_0.
  - rewrite !IsSet_bit. f_equal. unfold bit_of, Word. cbn [word0 word1 word2].
    pose proof (Z.div_lt_upper_bound (de - 1) 64 2). pose proof (Z.div_pos (de - 1) 64).
    destruct (Z.eqb_spec ((de - 1) / 64) 0); [done|]. destruct (Z.eqb_spec ((de - 1) / 64) 1); [done|lia].
Qed.

(** ** Iteration *)

Definition is_cont (de : Z) : bool := (de =? contSecondary) || (de =? contTertiary).

Lemma LeadingZeros64_top w k : 0 <= k -> 2 ^ k <= w < 2 ^ (k + 1) -> LeadingZeros64 w = 63 - k.
Proof.
  intros Hk Hw. unfold LeadingZeros64.
  assert (0 < 2 ^ k) by (apply Z.pow_pos_nonneg; lia).
  destruct (Z.eqb_spec w 0); [lia|].
  rewrite (Z.log2_unique w k); [done|done|]. by rewrite <- Z.add_1_r.
Qed.

(** Clearing the top bit. *)
Lemma ldiff_top w k : 0 <= k -> 2 ^ k <= w < 2 ^ (k + 1) ->
  Z.ldiff w (Z.shiftl 1 k) = w - 2 ^ k.
Proof.
  intros Hk Hw. rewrite Z.shiftl_1_l, <- Z.sub_nocarry_ldiff; [done|].
  apply Z.bits_inj'. intros i Hi. rewrite Z.ldiff_spec, Z.pow2_bits_eqb, Z.bits_0 by lia.
  destruct (Z.eqb_spec k i) as [<-|]; [|done].
  rewrite <- (Z.log2_unique w k Hk), Z.bit_log2; [done| |by rewrite <- Z.add_1_r].
  pose proof (Z.pow_pos_nonneg 2 k). lia.
Qed.

(** The loop over one word yields, in ascending order, the elements whose bit
    is set, from the position of the highest bit that may be set. *)
Lemma range_word_spec (k : nat) (fuel : nat) w base :
  (k <= fuel)%nat -> (k <= 64)%nat -> 0 <= w < 2 ^ Z.of_nat k ->
  range_word fuel w base
  = List.filter (fun de => Z.testbit w (63 - (de - 1 - base)) && negb (is_cont de))
      (seqZ (base + 65 - Z.of_nat k) (Z.of_nat k)).
Proof.
  revert fuel w. induction k as [|k IH]; intros fuel w Hf Hk Hw.
  - change (2 ^ Z.of_nat 0) with 1 in Hw. assert (w = 0) as -> by lia.
    by destruct fuel.
  - destruct fuel as [|fuel]; [lia|].
    rewrite seqZ_cons by lia.
    replace (Z.succ (base + 65 - Z.of_nat (S k))) with (base + 65 - Z.of_nat k) by lia.
    replace (Z.pred (Z.of_nat (S k))) with (Z.of_nat k) by lia. cbn [List.filter].
    replace (63 - (base + 65 - Z.of_nat (S k) - 1 - base)) with (Z.of_nat k) by lia.
    replace (2 ^ Z.of_nat (S k)) with (2 ^ (Z.of_nat k + 1)) in Hw by (f_equal; lia).
    destruct (Z.lt_ge_cases w (2 ^ Z.of_nat k)) as [Hlt|Hge].
    + assert (Z.testbit w (Z.of_nat k) = false) as ->.
      { rewrite <- (Z.mod_small w (2 ^ Z.of_nat k)) by lia. apply Z.mod_pow2_bits_high. lia. }
      cbn [andb]. apply IH; lia.
    + pose proof (Z.pow_pos_nonneg 2 (Z.of_nat k) ltac:(lia) ltac:(lia)).
      assert (Z.testbit w (Z.of_nat k) = true) as ->.
      { rewrite <- (Z.log2_unique w (Z.of_nat k)), Z.bit_log2 by (try lia; by rewrite <- Z.add_1_r). done. }
      cbn [andb range_word]. destruct (Z.eqb_spec w 0); [lia|].
      rewrite (LeadingZeros64_top w (Z.of_nat k)) by lia.
      replace (63 - (63 - Z.of_nat k)) with (Z.of_nat k) by lia.
      rewrite ldiff_top by lia. fold (is_cont (base + (63 - Z.of_nat k) + 1)).
      replace (base + (63 - Z.of_nat k) + 1) with (base + 65 - Z.of_nat (S k)) by lia.
      rewrite (IH fuel (w - 2 ^ Z.of_nat k)) by (rewrite Z.pow_add_r in Hw by lia; lia).
      replace (List.filter _ _) with
        (List.filter (fun de => Z.testbit w (63 - (de - 1 - base)) && negb (is_cont de))
          (seqZ (base + 65 - Z.of_nat k) (Z.of_nat k))); [by destruct (is_cont _)|].
      apply filter_ext_in. intros de Hde. f_equal.
      apply list_elem_of_In, elem_of_seqZ in Hde.
      rewrite <- (ldiff_top w) by lia.
      rewrite Z.ldiff_spec, testbit_mask by lia.
      destruct (Z.eqb_spec (63 - (de - 1 - base)) (Z.of_nat k)); [lia|].
      by rewrite andb_true_r.
Qed.

Lemma range_word_IsSet b w base :
  uint64 (Word b w) -> 0 <= w <= 2 -> base = 64 * w ->
  range_word 64 (Word b w) base
  = List.filter (fun de => IsSet b de && negb (is_cont de)) (seqZ (base + 1) 64).
Proof.
  intros Hu Hw ->. rewrite (range_word_spec 64) by (try done; lia).
  replace (64 * w + 65 - Z.of_nat 64) with (64 * w + 1) by lia.
  apply filter_ext_in. intros de Hde. apply list_elem_of_In, elem_of_seqZ in Hde.
  f_equal. rewrite IsSet_bit, (proj2 (in_range_iff de)) by lia. unfold bit_of. cbn [andb].
  assert ((de - 1) / 64 = w) as -> by (symmetry; apply Z.div_unique with (de - 1 - 64 * w); lia).
  f_equal. assert ((de - 1) mod 64 = de - 1 - 64 * w); [|lia].
  symmetry. apply Z.mod_unique with w; lia.
Qed.

Lemma Range_filter b : bitmap_ok b ->
  Range b = List.filter (fun de => IsSet b de && negb (is_cont de)) (seqZ 1 192).
Proof.
  intros (H0 & H1 & H2). unfold Range.
  change (word0 b) with (Word b 0) in *. change (word1 b) with (Word b 1) in *.
  change (word2 b) with (Word b 2) in *.
  rewrite !range_word_IsSet by (done || lia).
  change 192 with (64 + (64 + 64)). rewrite !seqZ_app by lia.
  by rewrite !List.filter_app.
Qed.

Lemma elem_of_Range b de : bitmap_ok b ->
  de ∈ Range b <-> IsSet b de = true /\ de <> 1 /\ de <> 65.
Proof.
  intros Hb. rewrite Range_filter, list_elem_of_In, filter_In, <- list_elem_of_In, elem_of_seqZ by done.
  unfold is_cont, contSecondary, contTertiary. rewrite andb_true_iff, negb_true_iff, orb_false_iff, !Z.eqb_neq.
  rewrite IsSet_bit, andb_true_iff, in_range_iff.
  split; intros; destruct_and?; split_and?; try done; lia.
Qed.

(** ** Counting *)

Lemma filter_len_app {A} (p : A -> bool) l k :
  len (List.filter p (l ++ k)) = len (List.filter p l) + len (List.filter p k).
Proof. by rewrite List.filter_app, len_app. Qed.

(** Removing one listed value from a filter of a duplicate-free list. *)
Lemma filter_remove (p : Z -> bool) x l : NoDup l -> x ∈ l ->
  len (List.filter p l)
  = len (List.filter (fun d => p d && negb (d =? x)) l) + (if p x then 1 else 0).
Proof.
  induction 1 as [|y l Hy Hl IH]; intros Hx; [by apply not_elem_of_nil in Hx|].
  cbn [List.filter]. destruct (Z.eqb_spec y x) as [->|Hne].
  - rewrite andb_false_r. replace (List.filter (fun d => p d && negb (d =? x)) l) with (List.filter p l).
    + destruct (p x); rewrite ?len_cons; lia.
    + apply filter_ext_in. intros d Hd. apply list_elem_of_In in Hd.
      destruct (Z.eqb_spec d x) as [->|]; [done|]. by rewrite andb_true_r.
  - rewrite andb_true_r. apply elem_of_cons in Hx as [->|Hx]; [done|].
    destruct (p y); rewrite ?len_cons, IH by done; lia.
Qed.

Lemma filter_map_len {A B} (f : A -> B) (p : B -> bool) l :
  len (List.filter p (map f l)) = len (List.filter (fun x => p (f x)) l).
Proof.
  induction l as [|x l IH]; [done|]. cbn [map List.filter].
  destruct (p (f x)); rewrite ?len_cons, IH; done.
Qed.

Lemma OnesCount64_IsSet b w : 0 <= w <= 2 ->
  OnesCount64 (Word b w) = len (List.filter (IsSet b) (seqZ (64 * w + 1) 64)).
Proof.
  intros Hw. rewrite <- (rev_involutive (seqZ (64 * w + 1) 64)).
  replace (rev (seqZ (64 * w + 1) 64)) with (map (fun i => 64 * w + 64 - i) (seqZ 0 64))
    by (assert (w = 0 \/ w = 1 \/ w = 2) as [-> | [-> | ->]] by lia; reflexivity).
  assert (forall l : list Z, len (rev l) = len l) as Hrev
    by (intros; unfold len; by rewrite length_rev).
  rewrite List.filter_rev, Hrev, filter_map_len. unfold OnesCount64. f_equal. apply filter_ext_in.
  intros i Hi. apply list_elem_of_In, elem_of_seqZ in Hi.
  rewrite IsSet_bit, (proj2 (in_range_iff _)) by lia. unfold bit_of. cbn [andb].
  replace (64 * w + 64 - i - 1) with (w * 64 + (63 - i)) by lia.
  rewrite Z.div_add_l, Z.div_small, Z.add_0_r by lia.
  rewrite Z.add_comm, Z.mod_add, Z.mod_small by lia. f_equal. lia.
Qed.

Lemma Count_Range b : bitmap_ok b -> Count b = len (Range b).
Proof.
  intros Hb. unfold Count. change (word0 b) with (Word b 0).
  change (word1 b) with (Word b 1). change (word2 b) with (Word b 2).
  rewrite !OnesCount64_IsSet by lia. rewrite Range_filter by done.
  assert (len (List.filter (IsSet b) (seqZ (64 * 0 + 1) 64)) +
          len (List.filter (IsSet b) (seqZ (64 * 1 + 1) 64)) +
          len (List.filter (IsSet b) (seqZ (64 * 2 + 1) 64))
          = len (List.filter (IsSet b) (seqZ 1 192))) as ->.
  { change 192 with (64 + (64 + 64)). rewrite !seqZ_app, !filter_len_app by lia.
    change (64 * 0 + 1) with 1. change (64 * 1 + 1) with (1 + 64).
    change (64 * 2 + 1) with (1 + 64 + 64). lia. }
  rewrite (filter_remove _ 1), (filter_remove _ 65); [|apply NoDup_seqZ| |apply NoDup_seqZ|];
    try (apply elem_of_seqZ; lia).
  change (negb (65 =? 1)) with true. rewrite andb_true_r.
  replace (List.filter (fun d => IsSet b d && negb (d =? 1) && negb (d =? 65)) (seqZ 1 192))
    with (List.filter (fun de => IsSet b de && negb (is_cont de)) (seqZ 1 192)).
  - unfold contSecondary, contTertiary. destruct (IsSet b 1), (IsSet b 65); lia.
  - apply filter_ext. intros d. unfold is_cont, contSecondary, contTertiary.
    rewrite negb_orb, andb_assoc. done.
Qed.

(** [Range] enumerates in ascending order exactly the present data elements
    other than the continuation bits 1 and 65, and [Count] is their number. *)
Theorem Range_exact b : bitmap_ok b ->
  Range b = List.filter (fun de => IsSet b de && negb (is_cont de)) (seqZ 1 192) /\
  Count b = len (Range b).
Proof. intros. split; [by apply Range_filter|by apply Count_Range]. Qed.

Lemma Range_exact_witness :
  Range (BSet (BSet empty_bitmap 2) 70) = [2; 70] /\ Count (BSet (BSet empty_bitmap 2) 70) = 2.
Proof.
  destruct (Range_exact (BSet (BSet empty_bitmap 2) 70)) as [H1 H2];
    [vm_compute; repeat split; congruence|].
  split; [rewrite H1; vm_compute; reflexivity|rewrite H2, H1; vm_compute; reflexivity].
Defined.
