(* ===== verification/Decimal.v ===== *)
(** * Exact fixed-point amounts ([iso8583/decimal.go])

    [Decimal] is an int64 and a scale; the arithmetic works at machine width and
    detects overflow by the source's tests.  The theorems compare it with exact
    integer arithmetic. *)

From S2P Require Import Prelude Errors Strconv.

Record Decimal := mkDecimal { Unscaled : Z; Scale : Z }.

#[export] Instance Decimal_EqDecision : EqDecision Decimal.
Proof. solve_decision. Defined.

Definition maxScale : Z := 18.

(** [r *= 10], [n] times, on int64. *)
Fixpoint pow10_loop (n : nat) (r : Z) : Z :=
  match n with O => r | S n' => pow10_loop n' (wrap64 (r * 10)) end.

Definition pow10 (n : Z) : option Z :=
  if maxScale <? n then None else Some (pow10_loop (Z.to_nat n) 1).

Definition NewDecimal (unscaled scale : Z) : Decimal := mkDecimal unscaled scale.

(** [Decimal.String]. *)
Definition DString (d : Decimal) : bytes :=
  if Scale d =? 0 then FormatInt (Unscaled d) else
  let neg := Unscaled d <? 0 in
  let mag := if neg then wrapu64 (- (Unscaled d + 1)) + 1 else wrapu64 (Unscaled d) in
  let digits := FormatUint mag in
  let scale := Scale d in
  let sign := if neg then go "-" else [] in
  if len digits <=? scale
  then sign ++ go "0." ++ replicate (Z.to_nat (scale - len digits)) (zb 48) ++ digits
  else
    let split := Z.to_nat (len digits - scale) in
    sign ++ take split digits ++ go "." ++ drop split digits.

Definition mulCheck (a b : Z) : Z * bool :=
  if (a =? 0) || (b =? 0) then (0, true) else
  let r := wrap64 (a * b) in
  if wrap64 (Z.quot r b) =? a then (r, true) else (0, false).

Definition addCheck (a b : Z) : Z * bool :=
  let r := wrap64 (a + b) in
  if Bool.eqb (a <? r) (0 <? b) then (r, true) else (0, false).

Definition Rescale (d : Decimal) (scale : Z) : result Decimal :=
  if maxScale <? scale then Err ErrScaleTooLarge
  else if scale =? Scale d then Ok d
  else if Scale d <? scale then
    match pow10 (scale - Scale d) with
    | None => Err ErrDecimalOverflow
    | Some factor =>
        let '(hi, lo) := mulCheck (Unscaled d) factor in
        if lo then Ok (mkDecimal hi scale) else Err ErrDecimalOverflow
    end
  else
    match pow10 (Scale d - scale) with
    | None => Err ErrDecimalOverflow
    | Some factor =>
        if negb (Z.rem (Unscaled d) factor =? 0) then Err ErrDecimalPrecision
        else Ok (mkDecimal (Z.quot (Unscaled d) factor) scale)
    end.

Definition DAdd (d o : Decimal) : result Decimal :=
  let scale := if Scale d <? Scale o then Scale o else Scale d in
  let! a := Rescale d scale in
  let! b := Rescale o scale in
  let '(sum, ok) := addCheck (Unscaled a) (Unscaled b) in
  if ok then Ok (mkDecimal sum scale) else Err ErrDecimalOverflow.

Definition DIsZero (d : Decimal) : bool := Unscaled d =? 0.

(** [Amount]: a decimal with its ISO 4217 currency. *)
Record Amount := mkAmount { amt_Decimal : Decimal; amt_Currency : bytes }.

(** The range of the Go types: an int64 and a uint8. *)
Definition decimal_ok (d : Decimal) : Prop := int64 (Unscaled d) /\ 0 <= Scale d < 256.

(** Two decimals denote the same number: [u * 10^-s = u' * 10^-s'], cross
    multiplied.  A [Scale] is a uint8, so the [Z.max] is the identity on it. *)
Definition p10 (s : Z) : Z := 10 ^ Z.max 0 s.
#[export] Instance decimal_equiv : Equiv Decimal := fun d e =>
  Unscaled d * p10 (Scale e) = Unscaled e * p10 (Scale d).

(** ** Checked integer arithmetic *)

Lemma pow10_loop_eq n r : 0 <= r -> r * 10 ^ Z.of_nat n < 2 ^ 63 -> pow10_loop n r = r * 10 ^ Z.of_nat n.
Proof.
  revert r. induction n as [|n IH]; intros r Hr Hlt; cbn [pow10_loop].
  - change (10 ^ Z.of_nat 0) with 1. lia.
  - rewrite Nat2Z.inj_succ, Z.pow_succ_r in * by lia.
    pose proof (Z.pow_pos_nonneg 10 (Z.of_nat n) ltac:(lia) ltac:(lia)).
    rewrite wrap64_id by (unfold int64; nia). rewrite IH by nia. lia.
Qed.

Lemma pow10_spec n : 0 <= n ->
  pow10 n = if n <=? 18 then Some (10 ^ n) else None.
Proof.
  intros Hn. unfold pow10, maxScale. destruct (Z.leb_spec n 18).
  - destruct (Z.ltb_spec 18 n); [lia|]. rewrite pow10_loop_eq; rewrite ?Z2Nat.id by lia; f_equal; try lia.
    pose proof (Z.pow_le_mono_r 10 n 18 ltac:(lia) ltac:(lia)).
    change (10 ^ 18) with 1000000000000000000 in *. lia.
  - destruct (Z.ltb_spec 18 n); [done|lia].
Qed.

(** [mulCheck] by a positive factor detects overflow exactly. *)
Lemma mulCheck_spec a b : int64 a -> int64 b -> 0 < b ->
  mulCheck a b = if decide (int64 (a * b)) then (a * b, true) else (0, false).
Proof.
  intros Ha Hb Hp. unfold mulCheck.
  destruct (Z.eqb_spec a 0) as [->|Ha0].
  { cbn [orb]. rewrite decide_True by (unfold int64; lia). by rewrite Z.mul_0_l. }
  destruct (Z.eqb_spec b 0); [lia|]. cbn [orb].
  destruct (wrap64_cases (a * b)) as [k Hk]. pose proof (wrap64_range (a * b)) as R.
  assert (Hq : int64 (Z.quot (wrap64 (a * b)) b)).
  { unfold int64 in *. pose proof (Z.quot_le_mono (- 2 ^ 63) (wrap64 (a * b)) b).
    pose proof (Z.quot_le_mono (wrap64 (a * b)) (2 ^ 63 - 1) b).
    pose proof (Z.quot_le_upper_bound (2 ^ 63 - 1) b (2 ^ 63 - 1)).
    assert (- 2 ^ 63 <= Z.quot (- 2 ^ 63) b).
    { rewrite Z.quot_opp_l by lia. pose proof (Z.quot_le_upper_bound (2 ^ 63) b (2 ^ 63)). nia. }
    nia. }
  rewrite (wrap64_id _ Hq).
  case_decide as D.
  - rewrite (wrap64_id _ D), Z.quot_mul by lia. by rewrite Z.eqb_refl.
  - destruct (Z.eqb_spec (Z.quot (wrap64 (a * b)) b) a) as [E|]; [|done].
    exfalso. apply D.
    pose proof (Z.quot_rem (wrap64 (a * b)) b ltac:(lia)) as QR. rewrite E in QR.
    pose proof (Z.rem_bound_abs (wrap64 (a * b)) b ltac:(lia)) as RB.
    assert (k = 0) by (unfold int64 in *; nia). subst k.
    replace (a * b) with (wrap64 (a * b)) by lia. done.
Qed.

Lemma addCheck_spec a b : int64 a -> int64 b ->
  addCheck a b = if decide (int64 (a + b)) then (a + b, true) else (0, false).
Proof.
  intros Ha Hb. unfold addCheck.
  destruct (wrap64_cases (a + b)) as [k Hk]. pose proof (wrap64_range (a + b)) as R.
  case_decide as D.
  - rewrite (wrap64_id _ D). destruct (Z.ltb_spec a (a + b)), (Z.ltb_spec 0 b); try lia; done.
  - unfold int64 in *.
    destruct (Z.ltb_spec a (wrap64 (a + b))), (Z.ltb_spec 0 b); cbn [Bool.eqb]; try done; exfalso; lia.
Qed.

(** ** Denotation *)

Lemma p10_pos s : 0 < p10 s.
Proof. unfold p10. apply Z.pow_pos_nonneg; lia. Qed.

Lemma p10_split s t : 0 <= s <= t -> p10 t = p10 s * 10 ^ (t - s).
Proof. intros. unfold p10. rewrite !Z.max_r, <- Z.pow_add_r by lia. f_equal. lia. Qed.

#[export] Instance decimal_equivalence : Equivalence (≡@{Decimal}).
Proof.
  split.
  - by intros d.
  - intros d e. unfold equiv, decimal_equiv. lia.
  - intros d e f. unfold equiv, decimal_equiv. intros H1 H2.
    pose proof (p10_pos (Scale d)). pose proof (p10_pos (Scale e)). pose proof (p10_pos (Scale f)).
    apply (Z.mul_reg_r _ _ (p10 (Scale e))); [lia|]. nia.
Qed.

(** Zero-ness depends only on the number denoted. *)
#[export] Instance DIsZero_proper : Proper ((≡) ==> (=)) DIsZero.
Proof.
  intros d e H. unfold equiv, decimal_equiv in H. unfold DIsZero.
  pose proof (p10_pos (Scale d)). pose proof (p10_pos (Scale e)).
  destruct (Z.eqb_spec (Unscaled d) 0), (Z.eqb_spec (Unscaled e) 0); try done; nia.
Qed.

Lemma Rescale_up d s : decimal_ok d -> Scale d < s <= 18 ->
  Rescale d s = if decide (int64 (Unscaled d * 10 ^ (s - Scale d)))
                then Ok (mkDecimal (Unscaled d * 10 ^ (s - Scale d)) s)
                else Err ErrDecimalOverflow.
Proof.
  intros [Hu Hs] Hlt. unfold Rescale, maxScale.
  destruct (Z.ltb_spec 18 s); [lia|]. destruct (Z.eqb_spec s (Scale d)); [lia|].
  destruct (Z.ltb_spec (Scale d) s); [|lia].
  rewrite pow10_spec by lia. destruct (Z.leb_spec (s - Scale d) 18); [|lia].
  rewrite mulCheck_spec; [by case_decide|done| |apply Z.pow_pos_nonneg; lia].
  pose proof (Z.pow_le_mono_r 10 (s - Scale d) 18 ltac:(lia) ltac:(lia)).
  pose proof (Z.pow_pos_nonneg 10 (s - Scale d) ltac:(lia) ltac:(lia)).
  change (10 ^ 18) with 1000000000000000000 in *. unfold int64. lia.
Qed.

Lemma Rescale_down d s : decimal_ok d -> 0 <= s < Scale d -> s <= 18 -> Scale d - s <= 18 ->
  Rescale d s = if Z.rem (Unscaled d) (10 ^ (Scale d - s)) =? 0
                then Ok (mkDecimal (Z.quot (Unscaled d) (10 ^ (Scale d - s))) s)
                else Err ErrDecimalPrecision.
Proof.
  intros [Hu Hs] Hlt H18 Hd. unfold Rescale, maxScale.
  destruct (Z.ltb_spec 18 s); [lia|]. destruct (Z.eqb_spec s (Scale d)); [lia|].
  destruct (Z.ltb_spec (Scale d) s); [lia|].
  rewrite pow10_spec by lia. destruct (Z.leb_spec (Scale d - s) 18); [|lia].
  by destruct (Z.rem _ _ =? 0).
Qed.

(** A successful rescale denotes the same number, at the scale asked for. *)
Lemma Rescale_equiv d s d' : decimal_ok d -> 0 <= s -> Rescale d s = Ok d' ->
  d' ≡ d /\ Scale d' = s /\ decimal_ok d'.
Proof.
  intros Hd Hs H. pose proof Hd as [Hu Hsc].
  assert (s <= 18) as H18.
  { unfold Rescale, maxScale in H. destruct (Z.ltb_spec 18 s); [done|lia]. }
  destruct (Z.lt_trichotomy s (Scale d)) as [L|[->|G]].
  - destruct (Z.le_gt_cases (Scale d - s) 18).
    + rewrite Rescale_down in H by (done || lia). destruct (Z.eqb_spec (Z.rem (Unscaled d) (10 ^ (Scale d - s))) 0) as [E|]; [|done].
      injection H as <-. pose proof (Z.pow_pos_nonneg 10 (Scale d - s) ltac:(lia) ltac:(lia)).
      pose proof (Z.quot_rem (Unscaled d) (10 ^ (Scale d - s)) ltac:(lia)) as QR.
      split_and!; [|done|].
      * unfold equiv, decimal_equiv. cbn [Unscaled Scale].
        rewrite (p10_split s (Scale d)) by lia. nia.
      * split; cbn [Unscaled Scale]; [unfold int64 in *; nia|lia].
    + unfold Rescale, maxScale in H. destruct (Z.ltb_spec 18 s); [lia|].
      destruct (Z.eqb_spec s (Scale d)); [lia|]. destruct (Z.ltb_spec (Scale d) s); [lia|].
      rewrite pow10_spec in H by lia. destruct (Z.leb_spec (Scale d - s) 18); [lia|done].
  - unfold Rescale in H. rewrite Z.eqb_refl in H. destruct (maxScale <? Scale d); [done|].
    injection H as <-. done.
  - rewrite Rescale_up in H by (done || lia). case_decide as D; [|done]. injection H as <-.
    split_and!; [|done|].
    + unfold equiv, decimal_equiv. cbn [Unscaled Scale].
      rewrite (p10_split (Scale d) s) by lia. lia.
    + split; cbn [Unscaled Scale]; [done|lia].
Qed.

Lemma Rescale_not_Panic d s : Rescale d s <> Panic.
Proof. unfold Rescale. repeat case_match; done. Qed.

(** The operand [d] written at scale [s]. *)
Definition scaled (d : Decimal) (s : Z) : Z := Unscaled d * 10 ^ (s - Scale d).

Lemma Rescale_ge d s : decimal_ok d -> Scale d <= s <= 18 ->
  Rescale d s = if decide (int64 (scaled d s)) then Ok (mkDecimal (scaled d s) s)
                else Err ErrDecimalOverflow.
Proof.
  intros Hd Hs. unfold scaled. destruct (Z.eq_dec s (Scale d)) as [->|].
  - rewrite Z.sub_diag, Z.mul_1_r, decide_True by apply Hd.
    unfold Rescale, maxScale. rewrite Z.eqb_refl.
    destruct (Z.ltb_spec 18 (Scale d)); [lia|]. by destruct d.
  - apply Rescale_up; [done|lia].
Qed.

(** [Add] is exact.  For scales up to [maxScale] it returns the sum at the
    larger scale when both rescaled operands and the sum fit an int64, and
    [ErrDecimalOverflow] otherwise; it never wraps. *)
Theorem DAdd_exact d o :
  decimal_ok d -> decimal_ok o -> Scale d <= 18 -> Scale o <= 18 ->
  let s := Z.max (Scale d) (Scale o) in
  DAdd d o =
    if decide (int64 (scaled d s) /\ int64 (scaled o s) /\ int64 (scaled d s + scaled o s))
    then Ok (mkDecimal (scaled d s + scaled o s) s)
    else Err ErrDecimalOverflow.
Proof.
  intros Hd Ho Sd So s. pose proof Hd as [_ ?]. pose proof Ho as [_ ?]. unfold DAdd.
  replace (if Scale d <? Scale o then Scale o else Scale d) with s
    by (unfold s; destruct (Z.ltb_spec (Scale d) (Scale o)); lia).
  rewrite !Rescale_ge by (done || lia).
  destruct (decide (int64 (scaled d s))) as [D1|D1]; cbn [rbind];
    [|rewrite decide_False by tauto; done].
  destruct (decide (int64 (scaled o s))) as [D2|D2]; cbn [rbind];
    [|rewrite decide_False by tauto; done].
  cbn [Unscaled]. rewrite addCheck_spec by done.
  destruct (decide (int64 (scaled d s + scaled o s))).
  - by rewrite decide_True by tauto.
  - by rewrite decide_False by tauto.
Qed.

Lemma DAdd_exact_witness :
  DAdd (mkDecimal 1099 2) (mkDecimal 5 3) = Ok (mkDecimal 10995 3).
Proof.
  pose proof (DAdd_exact (mkDecimal 1099 2) (mkDecimal 5 3)
    ltac:(split; vm_compute; split; congruence) ltac:(split; vm_compute; split; congruence)
    ltac:(vm_compute; congruence) ltac:(vm_compute; congruence)) as H.
  cbv zeta in H. rewrite decide_True in H by (vm_compute; repeat split; congruence). exact H.
Defined.

(** ** Text *)

Lemma forallb_take {A} (p : A -> bool) n l : forallb p l = true -> forallb p (take n l) = true.
Proof. rewrite <- (take_drop n l) at 1. rewrite forallb_app. by intros [? _]%andb_prop. Qed.
Lemma forallb_drop {A} (p : A -> bool) n l : forallb p l = true -> forallb p (drop n l) = true.
Proof. rewrite <- (take_drop n l) at 1. rewrite forallb_app. by intros [_ ?]%andb_prop. Qed.
Lemma forallb_zeros n : forallb is_digit (replicate n (zb 48)) = true.
Proof. induction n; [done|]. cbn. by rewrite IHn. Qed.

(** The magnitude is taken without overflow, also at the least int64. *)
Lemma mag_spec u : int64 u ->
  (if u <? 0 then wrapu64 (- (u + 1)) + 1 else wrapu64 u) = Z.abs u.
Proof.
  unfold int64, wrapu64. intros. destruct (Z.ltb_spec u 0).
  - rewrite Z.mod_small; lia.
  - rewrite Z.mod_small; lia.
Qed.

(** [String] renders the number exactly: an optional minus sign, at least
    one integer digit, a point and [Scale] fraction digits, whose digits read
    as the magnitude of [Unscaled]. *)
Theorem DString_exact d :
  decimal_ok d -> 0 < Scale d ->
  exists ip fp,
    DString d = (if Unscaled d <? 0 then go "-" else []) ++ ip ++ go "." ++ fp /\
    ip <> [] /\ forallb is_digit ip = true /\ forallb is_digit fp = true /\
    len fp = Scale d /\ dec_value (ip ++ fp) = Z.abs (Unscaled d).
Proof.
  intros [Hu Hs] Hpos. unfold DString. destruct (Z.eqb_spec (Scale d) 0); [lia|].
  rewrite mag_spec by done. set (ds := FormatUint (Z.abs (Unscaled d))).
  assert (Hd : forallb is_digit ds = true) by (apply FormatUint_digits; lia).
  assert (Hv : dec_value ds = Z.abs (Unscaled d)) by (apply FormatUint_value; lia).
  destruct (Z.leb_spec (len ds) (Scale d)).
  - exists (go "0"), (replicate (Z.to_nat (Scale d - len ds)) (zb 48) ++ ds).
    split_and!; try done.
    + by rewrite forallb_app, forallb_zeros, Hd.
    + len_simpl. lia.
    + change (go "0") with (replicate 1 (zb 48)). by rewrite !dec_value_zeros.
  - set (k := Z.to_nat (len ds - Scale d)). exists (take k ds), (drop k ds).
    clearbody ds. assert (0 < k < length ds)%nat by (unfold k, len in *; lia).
    split_and!; auto using forallb_take, forallb_drop.
    + intros E. apply (f_equal length) in E. rewrite length_take in E. cbn in E. lia.
    + unfold len in *. rewrite length_drop. unfold k. lia.
    + by rewrite take_drop.
Qed.

Lemma DString_exact_witness :
  exists ip fp, DString (mkDecimal (-5) 3) = go "-" ++ ip ++ go "." ++ fp /\ len fp = 3.
Proof.
  destruct (DString_exact (mkDecimal (-5) 3)) as (ip & fp & E & _ & _ & _ & L & _);
    [split; vm_compute; split; congruence|vm_compute; done|].
  exists ip, fp. split; [exact E|exact L].
Defined.
