(* ===== verification/Path.v ===== *)
(** * Field paths ([iso8583/path.go])

    The textual grammar of field paths, its parser with the bounded memo cache,
    and the printer.  A [FieldPath] is the list of its first [n] elements. *)

From S2P Require Import Prelude Errors Strconv.

Lemma byte_of_to_N b : default x00 (Byte.of_N (Byte.to_N b)) = b.
Proof. by rewrite Byte.of_to_N. Qed.
#[export] Instance byte_countable : Countable byte :=
  inj_countable' Byte.to_N (fun n => default x00 (Byte.of_N n)) byte_of_to_N.

Definition maxPathDepth : Z := 6.

(** [int32(n)]. *)
Definition int32 (n : Z) : Z := (n + 2 ^ 31) mod 2 ^ 32 - 2 ^ 31.

Definition IsTag (e : PathElem) : bool := negb (bool_decide (pe_Tag e = [])).

Definition PathElem_String (e : PathElem) : bytes :=
  if bool_decide (pe_Tag e = []) then FormatInt (pe_N e) else pe_Tag e.

Definition empty_path : FieldPath := mkFieldPath [].

Definition DE (n : Z) : FieldPath := mkFieldPath [mkPathElem (int32 n) []].

Definition path_Len (p : FieldPath) : Z := len (fp_elems p).

Definition path_At (p : FieldPath) (i : Z) : result PathElem := idx (fp_elems p) i.

Definition path_Head (p : FieldPath) : result PathElem := path_At p 0.

Definition path_Tail (p : FieldPath) : FieldPath := mkFieldPath (tail (fp_elems p)).

Definition path_Push (p : FieldPath) (e : PathElem) : result FieldPath :=
  if maxPathDepth <=? path_Len p then Panic else Ok (mkFieldPath (fp_elems p ++ [e])).

(** The elements joined by dots. *)
Fixpoint join_dot (l : list bytes) : bytes :=
  match l with
  | [] => []
  | [x] => x
  | x :: r => x ++ go "." ++ join_dot r
  end.

Definition path_String (p : FieldPath) : bytes := join_dot (PathElem_String <$> fp_elems p).

Definition path_IsZero (p : FieldPath) : bool := path_Len p =? 0.

(** ** Parsing *)

Definition is_hex_letter (c : byte) : bool :=
  ((65 <=? bz c) && (bz c <=? 70)) || ((97 <=? bz c) && (bz c <=? 102)).

(** The classification loop of [parseElem]: [(hasHexLetter, allDigits)]. *)
Fixpoint scan_elem (seg : bytes) (hasHex allDigits : bool) : result (bool * bool) :=
  match seg with
  | [] => Ok (hasHex, allDigits)
  | c :: r =>
      if is_digit c then scan_elem r hasHex allDigits
      else if is_hex_letter c then scan_elem r true false
      else Err (errorText (go "invalid character in path element"))
  end.

Definition parseElem (seg : bytes) : result PathElem :=
  let! (hasHex, allDigits) := scan_elem seg false true in
  if hasHex then Ok (mkPathElem (-1) (ToUpper seg))
  else if negb allDigits then Err (errorText (go "invalid path element"))
  else
    match ParseInt 32 seg with
    | Ok n => Ok (mkPathElem (int32 n) [])
    | Err _ => Err (errorText (go "numeric element out of range"))
    | Panic => Panic
    end.

(** [err.Error()] of the errors [parseElem] returns. *)
Definition error_text (e : error) : bytes :=
  match e with errorText m => m | _ => [] end.

(** What the parser does with one finished segment. *)
Definition add_segment (s seg : bytes) (p : list PathElem) : result (list PathElem) :=
  if bool_decide (seg = []) then Err (PathError s (go "empty path element"))
  else if maxPathDepth <=? len p then Err ErrPathTooDeep
  else
    let! e := rmap_err (fun e => PathError s (error_text e)) (parseElem seg) in
    Ok (p ++ [e]).

(** The loop of [parsePathUncached]: [seg] is [s[start:i]] and [rest] is [s[i:]]. *)
Fixpoint parse_path_loop (s rest seg : bytes) (p : list PathElem) : result (list PathElem) :=
  match rest with
  | [] => add_segment s seg p
  | c :: r =>
      if bz c =? 46 then
        let! p' := add_segment s seg p in parse_path_loop s r [] p'
      else parse_path_loop s r (seg ++ [c]) p
  end.

Definition parsePathUncached (s : bytes) : result FieldPath :=
  let! p := parse_path_loop s s [] [] in
  if len p =? 0 then Err ErrEmptyPath else Ok (mkFieldPath p).

(** ** The cache *)

(** [pathCache]: the memo map, the ring of keys in insertion order and the next
    slot to reuse.  The mutex makes each operation atomic. *)
Record pathCache := mkPathCache {
  pc_m : gmap bytes FieldPath;
  pc_ring : list bytes;
  pc_next : Z;
  pc_limit : Z;
}.

Definition new_pathCache (limit : nat) : pathCache :=
  mkPathCache ∅ (replicate limit []) 0 (Z.of_nat limit).

Definition cacheLookup (pc : pathCache) (s : bytes) : option FieldPath := pc_m pc !! s.

Definition cacheStore (pc : pathCache) (s : bytes) (p : FieldPath) : pathCache :=
  match pc_m pc !! s with
  | Some _ => pc
  | None =>
      let old := default [] (pc_ring pc !! Z.to_nat (pc_next pc)) in
      let m := if (pc_limit pc <=? Z.of_nat (size (pc_m pc))) && negb (bool_decide (old = []))
               then delete old (pc_m pc) else pc_m pc in
      mkPathCache (<[s := p]> m) (<[Z.to_nat (pc_next pc) := s]> (pc_ring pc))
        ((pc_next pc + 1) mod pc_limit pc) (pc_limit pc)
  end.

Definition ParsePath (pc : pathCache) (s : bytes) : result FieldPath * pathCache :=
  if bool_decide (s = []) then (Err ErrEmptyPath, pc) else
  match cacheLookup pc s with
  | Some p => (Ok p, pc)
  | None =>
      match parsePathUncached s with
      | Ok p => (Ok p, cacheStore pc s p)
      | Err e => (Err e, pc)
      | Panic => (Panic, pc)
      end
  end.

Definition MustPath (pc : pathCache) (s : bytes) : result FieldPath * pathCache :=
  match ParsePath pc s with
  | (Err _, pc') => (Panic, pc')
  | r => r
  end.

(** ** Canonical paths *)

Definition is_upper_hex (c : byte) : bool := is_digit c || ((65 <=? bz c) && (bz c <=? 70)).

Definition elem_ok (e : PathElem) : bool :=
  match pe_Tag e with
  | [] => (0 <=? pe_N e) && (pe_N e <? 2 ^ 31)
  | t => (pe_N e =? -1) && forallb is_upper_hex t && existsb is_hex_letter t
  end.

Definition path_ok (p : FieldPath) : Prop :=
  1 <= path_Len p <= 6 /\ forallb elem_ok (fp_elems p) = true.

Lemma is_digit_not_hex c : is_digit c = true -> is_hex_letter c = false.
Proof. destruct c; vm_compute; congruence. Qed.

Lemma upper_hex_char c :
  is_digit c || is_hex_letter c = true -> is_upper_hex (upper c) = true /\ is_hex_letter (upper c) = is_hex_letter c.
Proof. destruct c; vm_compute; try congruence; done. Qed.

Lemma upper_hex_id c : is_upper_hex c = true -> upper c = c /\ is_digit c || is_hex_letter c = true.
Proof. destruct c; vm_compute; try congruence; done. Qed.

Lemma scan_elem_spec seg h a :
  scan_elem seg h a =
    if forallb (fun c => is_digit c || is_hex_letter c) seg
    then Ok (existsb is_hex_letter seg || h, negb (existsb is_hex_letter seg) && a)
    else Err (errorText (go "invalid character in path element")).
Proof.
  revert h a. induction seg as [|c seg IH]; intros h a; [done|].
  cbn [scan_elem forallb existsb]. destruct (is_digit c) eqn:D.
  - rewrite (is_digit_not_hex c D), IH. done.
  - destruct (is_hex_letter c) eqn:X; [|done]. rewrite IH. cbn [orb negb andb].
    by rewrite orb_true_r, andb_false_r.
Qed.

Lemma all_digits_no_hex seg :
  forallb (fun c => is_digit c || is_hex_letter c) seg = true ->
  existsb is_hex_letter seg = false -> forallb is_digit seg = true.
Proof.
  induction seg as [|c seg IH]; [done|]. cbn [forallb existsb].
  intros [Hc Hs]%andb_prop [Hx Hxs]%orb_false_elim. rewrite Hx, orb_false_r in Hc.
  by rewrite Hc, IH.
Qed.

Lemma digits_scan seg : forallb is_digit seg = true ->
  forallb (fun c => is_digit c || is_hex_letter c) seg = true /\ existsb is_hex_letter seg = false.
Proof.
  induction seg as [|c seg IH]; [done|]. cbn [forallb existsb]. intros [Hc Hs]%andb_prop.
  destruct (IH Hs) as [-> ->]. by rewrite Hc, (is_digit_not_hex c Hc).
Qed.

Lemma int32_id n : 0 <= n < 2 ^ 31 -> int32 n = n.
Proof. intros. unfold int32. rewrite Z.mod_small; lia. Qed.

Lemma ParseInt32_digits_Ok seg n : forallb is_digit seg = true -> ParseInt 32 seg = Ok n -> 0 <= n < 2 ^ 31.
Proof.
  intros Hd. unfold ParseInt. destruct seg as [|c r]; [done|].
  cbn [forallb] in Hd. apply andb_prop in Hd as [Hc _]. apply is_digit_range in Hc.
  destruct (Z.eqb_spec (bz c) 45); [lia|]. destruct (Z.eqb_spec (bz c) 43); [lia|].
  cbn [orb negb andb]. intros H. go_inv. apply ParseUint_Ok in H0; [|lia].
  change (32 - 1) with 31 in H. destruct (Z.leb_spec (2 ^ 31) a); [done|]. injection H as <-. lia.
Qed.

(** Whatever the element parser accepts is canonical. *)
Lemma parseElem_ok seg e : seg <> [] -> parseElem seg = Ok e -> elem_ok e = true.
Proof.
  intros Hne. unfold parseElem. rewrite scan_elem_spec.
  destruct (forallb _ seg) eqn:F; [|done]. cbn [rbind]. rewrite orb_false_r, andb_true_r.
  destruct (existsb is_hex_letter seg) eqn:X.
  - intros [= <-]. unfold elem_ok. cbn [pe_Tag pe_N].
    destruct (ToUpper seg) eqn:U; [by destruct seg|]. rewrite <- U.
    cbn [Z.eqb andb]. clear U Hne.
    assert (forallb is_upper_hex (ToUpper seg) = true /\
            existsb is_hex_letter (ToUpper seg) = existsb is_hex_letter seg) as [-> ->].
    { clear X. induction seg as [|c seg IH]; [done|]. cbn [forallb] in F.
      apply andb_prop in F as [Fc Fs]. destruct (IH Fs) as [I1 I2].
      destruct (upper_hex_char c Fc) as [U1 U2].
      change (ToUpper (c :: seg)) with (upper c :: ToUpper seg). cbn [forallb existsb].
      by rewrite U1, U2, I1, I2. }
    done.
  - cbn [negb]. destruct (ParseInt 32 seg) as [n| |] eqn:P; [|done|done].
    intros [= <-]. unfold elem_ok. cbn [pe_Tag pe_N].
    apply all_digits_no_hex in X; [|done]. apply ParseInt32_digits_Ok in P; [|done].
    rewrite int32_id by done. by rewrite (proj2 (Z.leb_le _ _)), (proj2 (Z.ltb_lt _ _)) by lia.
Qed.

(** A canonical element reads back from its text, which is one segment. *)
Lemma parseElem_String e : elem_ok e = true ->
  parseElem (PathElem_String e) = Ok e /\ PathElem_String e <> [] /\
  Forall (fun c => bz c <> 46) (PathElem_String e).
Proof.
  unfold elem_ok, PathElem_String. destruct e as [n t]; cbn [pe_Tag pe_N].
  destruct t as [|c t].
  - intros H. bool_to_prop. rewrite bool_decide_true by done.
    unfold FormatInt. destruct (Z.ltb_spec n 0); [lia|].
    pose proof (FormatUint_digits n ltac:(lia)) as D.
    split_and!; [| |].
    + unfold parseElem. rewrite scan_elem_spec. destruct (digits_scan _ D) as [-> ->].
      cbn [rbind orb negb andb]. rewrite ParseInt_digits; [|lia|apply FormatUint_ne|done|];
      rewrite FormatUint_value by lia; [|change (32 - 1) with 31; lia].
      by rewrite int32_id.
    + apply FormatUint_ne.
    + apply List.Forall_forall. intros x Hx. rewrite forallb_forall in D.
      apply D, is_digit_range in Hx. lia.
  - intros H. apply andb_prop in H as [[HN HU]%andb_prop HX]. apply Z.eqb_eq in HN as ->.
    rewrite bool_decide_false by done.
    assert (forallb (fun c => is_digit c || is_hex_letter c) (c :: t) = true /\ ToUpper (c :: t) = c :: t) as [F U].
    { clear HX. generalize dependent (c :: t). intros l HU. induction l as [|x l IH]; [done|].
      cbn [forallb] in HU. apply andb_prop in HU as [Hx Hl]. destruct (IH Hl) as [I1 I2].
      destruct (upper_hex_id x Hx) as [U1 U2]. cbn [forallb]. rewrite U2, I1.
      split; [done|]. change (ToUpper (x :: l)) with (upper x :: ToUpper l). by rewrite U1, I2. }
    split_and!; [|done|].
    + unfold parseElem. rewrite scan_elem_spec, F, HX. cbn [rbind orb]. by rewrite U.
    + apply List.Forall_forall. intros x Hx E. rewrite forallb_forall in F. apply F in Hx.
      assert (x = zb 46) as -> by (by rewrite <- (zb_bz x), E). done.
Qed.

(** ** The parser on printed paths *)

Lemma parse_path_loop_seg s t rest seg p : Forall (fun c => bz c <> 46) t ->
  parse_path_loop s (t ++ rest) seg p = parse_path_loop s rest (seg ++ t) p.
Proof.
  intros H. revert seg. induction H as [|c t Hc Ht IH]; intros seg.
  - by rewrite app_nil_r.
  - cbn [app parse_path_loop]. apply Z.eqb_neq in Hc as ->. rewrite IH.
    by rewrite <- app_assoc.
Qed.

Lemma add_segment_String s e p : elem_ok e = true -> len p < 6 ->
  add_segment s (PathElem_String e) p = Ok (p ++ [e]).
Proof.
  intros He Hp. destruct (parseElem_String e He) as (P & Hne & _). unfold add_segment.
  rewrite bool_decide_false by done. unfold maxPathDepth.
  destruct (Z.leb_spec 6 (len p)); [lia|]. by rewrite P.
Qed.

Lemma parse_path_loop_String s l p :
  l <> [] -> forallb elem_ok l = true -> len p + len l <= 6 ->
  parse_path_loop s (join_dot (PathElem_String <$> l)) [] p = Ok (p ++ l).
Proof.
  revert p. induction l as [|e l IH]; intros p Hne Hl Hp; [done|].
  cbn [forallb] in Hl. apply andb_prop in Hl as [He Hl]. rewrite len_cons in Hp.
  pose proof (len_nonneg l). destruct (parseElem_String e He) as (_ & _ & Hdot).
  destruct l as [|e' l].
  - cbn [fmap list_fmap join_dot]. rewrite <- (app_nil_r (PathElem_String e)).
    rewrite parse_path_loop_seg by done. cbn [parse_path_loop app].
    apply add_segment_String; [done|lia].
  - replace (join_dot (PathElem_String <$> e :: e' :: l))
      with (PathElem_String e ++ go "." ++ join_dot (PathElem_String <$> e' :: l)) by done.
    rewrite parse_path_loop_seg by done. cbn [app go parse_path_loop].
    change (go "." ++ ?x) with (zb 46 :: x). cbn [parse_path_loop]. change (bz (zb 46) =? 46) with true.
    cbn match. rewrite add_segment_String by (done || lia). cbn [rbind].
    rewrite IH by (done || (len_simpl; lia)). by rewrite <- app_assoc.
Qed.

(** printing and parsing are inverse on canonical paths: the text of a path
    of one to six well-formed elements parses back to that path. *)
Theorem parse_print_path p : path_ok p -> parsePathUncached (path_String p) = Ok p.
Proof.
  intros [Hl He]. unfold parsePathUncached, path_String, path_Len in *. destruct p as [l]; cbn [fp_elems] in *.
  rewrite parse_path_loop_String; [|intros ->; len_nil_simpl; lia|done|change (len []) with 0; lia].
  cbn [rbind app]. destruct (Z.eqb_spec (len l) 0); [lia|done].
Qed.

Lemma parse_print_path_witness :
  parsePathUncached (go "55.9F26") = Ok (mkFieldPath [mkPathElem 55 []; mkPathElem (-1) (go "9F26")]).
Proof.
  apply (parse_print_path (mkFieldPath [mkPathElem 55 []; mkPathElem (-1) (go "9F26")])).
  split; [vm_compute; split; congruence|vm_compute; reflexivity].
Defined.

Lemma add_segment_Ok s seg p p' : add_segment s seg p = Ok p' ->
  exists e, p' = p ++ [e] /\ elem_ok e = true /\ len p < 6.
Proof.
  unfold add_segment, maxPathDepth. case_bool_decide; [done|].
  destruct (Z.leb_spec 6 (len p)); [done|]. intros H'. go_inv.
  exists a. split_and!; try done. by eapply parseElem_ok.
Qed.

Lemma parse_path_loop_ok s rest seg p p' :
  parse_path_loop s rest seg p = Ok p' -> forallb elem_ok p = true ->
  forallb elem_ok p' = true /\ 1 <= len p' <= 6.
Proof.
  revert seg p. induction rest as [|c rest IH]; intros seg p; cbn [parse_path_loop]; intros H Hp.
  - apply add_segment_Ok in H as (e & -> & He & Hl). rewrite forallb_app, Hp. cbn. rewrite He.
    split; [done|]. len_simpl. pose proof (len_nonneg p). lia.
  - destruct (bz c =? 46); [|by eapply IH]. go_inv. eapply IH; [done|].
    apply add_segment_Ok in H0 as (e & -> & He & _). rewrite forallb_app, Hp. cbn. by rewrite He.
Qed.

(** Whatever the parser accepts is canonical. *)
Lemma parse_path_canonical s p : parsePathUncached s = Ok p -> path_ok p.
Proof.
  unfold parsePathUncached. intros H. go_inv. destruct (len a =? 0); [done|]. injection H as <-.
  apply parse_path_loop_ok in H0 as [? ?]; [|done]. by split.
Qed.

(** ** The cache *)

(** The ring is a run of distinct cached keys followed by unused slots; the map
    holds exactly those keys, each with its own parse; the next slot is the
    first unused one until the ring is full. *)
Definition cache_inv (pc : pathCache) : Prop :=
  exists a k,
    pc_ring pc = a ++ replicate k [] /\ Forall (fun s => s <> []) a /\ NoDup a /\
    dom (pc_m pc) = list_to_set a /\ (k = 0%nat \/ pc_next pc = len a) /\
    pc_limit pc = len a + Z.of_nat k /\ 0 <= pc_next pc < pc_limit pc /\
    (forall s p, pc_m pc !! s = Some p -> parsePathUncached s = Ok p).

Lemma new_pathCache_inv limit : (0 < limit)%nat -> cache_inv (new_pathCache limit).
Proof.
  intros. exists [], limit. unfold new_pathCache; cbn [pc_ring pc_m pc_next pc_limit app].
  split_and!; try done; try lia.
  - apply NoDup_nil_2.
  - by right.
Qed.

Lemma cache_size pc a : NoDup a -> dom (pc_m pc) = list_to_set a -> size (pc_m pc) = length a.
Proof. intros Hn Hd. rewrite <- size_dom, Hd. by apply size_list_to_set. Qed.

Lemma cacheStore_inv pc s p :
  cache_inv pc -> s <> [] -> parsePathUncached s = Ok p -> cache_inv (cacheStore pc s p).
Proof.
  intros (a & k & Hr & Hne & Hnd & Hd & Hk & Hl & Hn & Hs) Hs0 Hp. unfold cacheStore.
  destruct (pc_m pc !! s) as [q|] eqn:Hlk; [by exists a, k|].
  assert (s ∉ a) as Hsa.
  { rewrite <- (elem_of_list_to_set (C := gset bytes)), <- Hd, elem_of_dom, Hlk. by intros []. }
  rewrite (cache_size pc a) by done. fold (len a).
  destruct k as [|k].
  - rewrite app_nil_r in Hr. destruct (lookup_lt_is_Some_2 a (Z.to_nat (pc_next pc))) as [old Hold];
      [unfold len in *; lia|].
    rewrite Hr, Hold. cbn [default]. pose proof (Forall_lookup_1 _ _ _ _ Hne Hold) as Hold0.
    destruct (Z.leb_spec (pc_limit pc) (len a)); [|lia]. rewrite bool_decide_false by done. cbn [negb andb].
    apply list_elem_of_split_length in Hold as (a1 & a2 & -> & Hi).
    exists (a1 ++ s :: a2), 0%nat. cbn [pc_ring pc_m pc_next pc_limit]. rewrite app_nil_r.
    rewrite Hi. apply list.NoDup_app in Hnd as (N1 & N2 & N3). apply list.NoDup_cons in N3 as [N3 N4].
    apply list.Forall_app in Hne as [F1 F2]. apply list.Forall_cons in F2 as [_ F2].
    split_and!.
    + by rewrite insert_app_r_alt, Nat.sub_diag by done.
    + apply list.Forall_app; split; [done|]. by constructor.
    + apply list.NoDup_app. split_and!; [done|set_solver|]. apply list.NoDup_cons. split; [set_solver|done].
    + rewrite dom_insert_L, dom_delete_L, Hd. rewrite !list_to_set_app_L, !list_to_set_cons. set_solver.
    + by left.
    + rewrite Hl. len_simpl. lia.
    + apply Z.mod_pos_bound. lia.
    + apply Z.mod_pos_bound. lia.
    + intros s' p' H'. apply lookup_insert_Some in H' as [[<- <-]|[_ H']]; [done|].
      apply lookup_delete_Some in H' as [_ H']. by apply Hs.
  - destruct Hk as [|Hk]; [done|].
    destruct (Z.leb_spec (pc_limit pc) (len a)); [lia|]. cbn [andb].
    exists (a ++ [s]), k. cbn [pc_ring pc_m pc_next pc_limit]. rewrite Hk.
    replace (Z.to_nat (len a)) with (length a + 0)%nat by (unfold len; lia).
    split_and!.
    + by rewrite Hr, insert_app_r, <- app_assoc.
    + apply list.Forall_app; split; [done|]. by repeat constructor.
    + apply list.NoDup_app. split_and!; [done|set_solver|apply NoDup_singleton].
    + rewrite dom_insert_L, Hd, list_to_set_app_L, list_to_set_cons, list_to_set_nil. set_solver.
    + destruct k; [by left|right]. len_simpl. apply Z.mod_small. pose proof (len_nonneg a). lia.
    + rewrite Hl. len_simpl. lia.
    + apply Z.mod_pos_bound. lia.
    + apply Z.mod_pos_bound. lia.
    + intros s' p' H'. apply lookup_insert_Some in H' as [[<- <-]|[_ H']]; [done|]. by apply Hs.
Qed.

(** The cache is transparent and bounded.  From any state the operations
    reach, [ParsePath] answers exactly as the uncached parser, keeps the cache
    invariant, and never holds more entries than its limit. *)
Theorem ParsePath_cached pc s :
  cache_inv pc ->
  fst (ParsePath pc s) = (if bool_decide (s = []) then Err ErrEmptyPath else parsePathUncached s) /\
  cache_inv (snd (ParsePath pc s)) /\
  Z.of_nat (size (pc_m (snd (ParsePath pc s)))) <= pc_limit (snd (ParsePath pc s)).
Proof.
  intros H. assert (cache_inv (snd (ParsePath pc s))) as Hinv.
  { unfold ParsePath. case_bool_decide; [done|]. destruct (cacheLookup pc s); [done|].
    destruct (parsePathUncached s) eqn:E; [|done|done]. by apply cacheStore_inv. }
  split_and!; [|done|].
  - unfold ParsePath, cacheLookup. case_bool_decide; [done|].
    destruct (pc_m pc !! s) eqn:E.
    + destruct H as (? & ? & ? & ? & ? & ? & ? & ? & ? & H). cbn. by rewrite (H _ _ E).
    + by destruct (parsePathUncached s).
  - destruct Hinv as (a & k & _ & _ & Hnd & Hd & _ & -> & _ & _).
    rewrite (cache_size _ a) by done. unfold len. lia.
Qed.

Lemma ParsePath_cached_witness :
  fst (ParsePath (new_pathCache 512) (go "48.2.1")) = parsePathUncached (go "48.2.1").
Proof.
  destruct (ParsePath_cached (new_pathCache 512) (go "48.2.1")) as [H _].
  - apply new_pathCache_inv. apply Nat.lt_0_succ.
  - exact H.
Defined.
