(* ===== verification/Schema.v ===== *)
(** * Schemas ([iso8583/schema.go], [iso8583/schema_builder.go])

    The data model of a message format: kinds, the codec catalogue a field
    definition may name, field definitions and schemas (mutually nested, a
    composite field carries a sub-schema), path lookup, and the builder with its
    deferred validation. *)

From S2P Require Import Prelude Errors Strconv Path.

(** ** Kinds and codec names *)

(** [iso8583.Kind]. *)
Inductive Kind :=
| KindInvalid | KindString | KindNumeric | KindBytes | KindAmount | KindComposite.

#[export] Instance Kind_EqDecision : EqDecision Kind.
Proof. solve_decision. Defined.

Definition Kind_String (k : Kind) : bytes :=
  match k with
  | KindString => go "string"
  | KindNumeric => go "numeric"
  | KindBytes => go "bytes"
  | KindAmount => go "amount"
  | KindComposite => go "composite"
  | KindInvalid => go "invalid"
  end.

(** The value codecs of the repository: every implementation of the interface
    [FieldCodec] outside the tests. *)
Inductive FieldCodec :=
| ascii | ebcdic037 | ebcdic1047 | utf8Char | binaryRaw | hexBinary
| numASCII | numEBCDIC | bcdNum | rbcdNum | binNum
| amountASCII | amountBCD | amountBinary
| berTLV | packager.

#[export] Instance FieldCodec_EqDecision : EqDecision FieldCodec.
Proof. solve_decision. Defined.

(** The method [Kind()] of each codec. *)
Definition codec_Kind (c : FieldCodec) : Kind :=
  match c with
  | ascii | ebcdic037 | ebcdic1047 | utf8Char => KindString
  | binaryRaw | hexBinary => KindBytes
  | numASCII | numEBCDIC | bcdNum | rbcdNum | binNum => KindNumeric
  | amountASCII | amountBCD | amountBinary => KindAmount
  | berTLV | packager => KindComposite
  end.

(** The method [Name()] of each codec: its registry key. *)
Definition codec_Name (c : FieldCodec) : bytes :=
  match c with
  | ascii => go "char.ascii"
  | ebcdic037 => go "char.ebcdic.cp037"
  | ebcdic1047 => go "char.ebcdic.cp1047"
  | utf8Char => go "char.utf8"
  | binaryRaw => go "b.raw"
  | hexBinary => go "b.hex"
  | numASCII => go "num.ascii"
  | numEBCDIC => go "num.ebcdic"
  | bcdNum => go "num.bcd"
  | rbcdNum => go "num.rbcd"
  | binNum => go "num.bin"
  | amountASCII => go "amount.ascii"
  | amountBCD => go "amount.bcd"
  | amountBinary => go "amount.bin"
  | berTLV => go "tlv.ber"
  | packager => go "subfield.iso"
  end.

(** [lengthcodec.repr]. *)
Inductive repr := reprASCII | reprEBCDIC | reprBCD | reprBinary.

(** The length codecs: [lengthcodec.fixed] and [lengthcodec.varLen]. *)
Inductive LengthCodec :=
| fixed
| varLen (name : bytes) (digits : Z) (nbytes : Z) (r : repr).

(** [fieldcodec.wordRepr]: how one bitmap word is written. *)
Inductive BitmapCodec := binWord | hexWord | ebcdicWord.

#[export] Instance repr_EqDecision : EqDecision repr.
Proof. solve_decision. Defined.
#[export] Instance LengthCodec_EqDecision : EqDecision LengthCodec.
Proof. solve_decision. Defined.
#[export] Instance BitmapCodec_EqDecision : EqDecision BitmapCodec.
Proof. solve_decision. Defined.

(** ** Field definitions and schemas *)

Inductive PadSide := PadNone | PadLeft | PadRight.
Record PadRule := mkPadRule { pad_Side : PadSide; pad_Char : byte }.

Inductive RequiredMode := RequiredOptional | RequiredAlways | RequiredOnMTI.
Record RequiredRule := mkRequiredRule { req_Mode : RequiredMode; req_MTIClasses : list bytes }.

(** The validators of [iso8583/validate.go], by their constructors. *)
Inductive Validator :=
| VRequired | VDigits | VLuhn
| VLenBetween (min max : Z)
| VMaxLength (n : Z)
| VOneOf (allowed : list bytes)
| VRegexp (pattern : bytes)
| VCurrencyAmount
| VMTIClass (allowed : list bytes)
| VAll (vs : list Validator).

Record BitmapSpec := mkBitmapSpec { bs_Codec : option BitmapCodec; bs_Levels : Z }.

Inductive FieldDef : Type := mkFieldDef {
  fd_Path : FieldPath;
  fd_Name : bytes;
  fd_Kind : Kind;
  fd_Codec : option FieldCodec;
  fd_Length : option LengthCodec;
  fd_MaxLen : Z;
  fd_Scale : Z;
  fd_Pad : PadRule;
  fd_Validate : list Validator;
  fd_Required : RequiredRule;
  fd_Sub : option Schema;
}
with Schema : Type := mkSchema {
  s_id : bytes;
  s_mti : option FieldDef;
  s_bitmap : BitmapSpec;
  s_defs : list (option FieldDef);
  s_tags : gmap bytes FieldDef;
  s_maxDE : Z;
  s_isTLV : bool;
}.

(** [Schema.Field]: DE 0 is the MTI definition. *)
Definition Schema_Field (s : Schema) (de : Z) : option FieldDef :=
  if de =? 0 then s_mti s
  else if (de <? 0) || (len (s_defs s) <=? de) then None
  else mjoin (s_defs s !! Z.to_nat de).

(** [Schema.tagDef] and [Schema.LookupTag]. *)
Definition tagDef (s : Schema) (tag : bytes) : option FieldDef := s_tags s !! tag.
Definition LookupTag (s : Schema) (tag : bytes) : option FieldDef := s_tags s !! ToUpper tag.

Definition tagKey (e : PathElem) : bytes := if IsTag e then pe_Tag e else PathElem_String e.

(** The loop of [Schema.Lookup] over the path's elements. *)
Fixpoint lookup_elems (cur : Schema) (es : list PathElem) : option FieldDef :=
  match es with
  | [] => None
  | e :: rest =>
      let def := if s_isTLV cur || IsTag e then tagDef cur (tagKey e)
                 else Schema_Field cur (pe_N e) in
      match def with
      | None => None
      | Some d =>
          match rest with
          | [] => Some d
          | _ => match fd_Sub d with None => None | Some sub => lookup_elems sub rest end
          end
      end
  end.

Definition Schema_Lookup (s : Schema) (p : FieldPath) : option FieldDef := lookup_elems s (fp_elems p).

(** ** The builder *)

(** The problems [Build] reports, one constructor per message. *)
Inductive schema_error :=
| DEDuplicate (de : Z)
| TagDuplicate (key : bytes)
| OverrideUndefined (de : Z)
| IdEmpty
| DEOutOfRange (de : Z)
| DENoValueCodec (de : Z)
| DEFixedNoMaxLen (de : Z)
| DEMaxLenExceeds (de n : Z)
| DECompositeNoSub (de : Z)
| TagNoValueCodec (key : bytes)
| TagMaxLenExceeds (key : bytes) (n : Z)
| NoBitmapCodec
| BitmapLevels (n : Z)
| NoMTICodec.

Record SchemaBuilder := mkSchemaBuilder {
  b_id : bytes;
  b_mti : option FieldDef;
  b_bitmap : BitmapSpec;
  b_defs : gmap Z FieldDef;
  b_tags : gmap bytes FieldDef;
  b_order : list bytes;
  b_isTLV : bool;
  b_headerless : bool;
  b_errs : list schema_error;
}.

Definition defaultMTILen : Z := 4.
Definition maxFieldUnits : Z := Z.shiftl 1 20.

Definition kindOf (c : option FieldCodec) : Kind :=
  match c with None => KindInvalid | Some c => codec_Kind c end.

Definition zeroPad : PadRule := mkPadRule PadNone x00.
Definition optionalRule : RequiredRule := mkRequiredRule RequiredOptional [].

Definition NewSchema (id : bytes) : SchemaBuilder :=
  mkSchemaBuilder id None (mkBitmapSpec None 0) ∅ ∅ [] false false [].

(** A [FieldOpt] is a function that modifies a definition. *)
Definition FieldOpt : Type := FieldDef -> FieldDef.
Definition applyOpts (d : FieldDef) (opts : list FieldOpt) : FieldDef :=
  fold_left (fun d o => o d) opts d.

Definition optMaxLen (n : Z) : FieldOpt := fun d =>
  mkFieldDef (fd_Path d) (fd_Name d) (fd_Kind d) (fd_Codec d) (fd_Length d) n (fd_Scale d)
    (fd_Pad d) (fd_Validate d) (fd_Required d) (fd_Sub d).
Definition optScale (n : Z) : FieldOpt := fun d =>
  mkFieldDef (fd_Path d) (fd_Name d) (fd_Kind d) (fd_Codec d) (fd_Length d) (fd_MaxLen d) n
    (fd_Pad d) (fd_Validate d) (fd_Required d) (fd_Sub d).
Definition optPad (p : PadRule) : FieldOpt := fun d =>
  mkFieldDef (fd_Path d) (fd_Name d) (fd_Kind d) (fd_Codec d) (fd_Length d) (fd_MaxLen d) (fd_Scale d)
    p (fd_Validate d) (fd_Required d) (fd_Sub d).
Definition set_required (r : RequiredRule) : FieldOpt := fun d =>
  mkFieldDef (fd_Path d) (fd_Name d) (fd_Kind d) (fd_Codec d) (fd_Length d) (fd_MaxLen d) (fd_Scale d)
    (fd_Pad d) (fd_Validate d) r (fd_Sub d).
Definition optOptional : FieldOpt := set_required optionalRule.
Definition optMustExist : FieldOpt := set_required (mkRequiredRule RequiredAlways []).
Definition optRequiredOn (classes : list bytes) : FieldOpt :=
  set_required (mkRequiredRule RequiredOnMTI classes).
Definition optValidate (vs : list Validator) : FieldOpt := fun d =>
  mkFieldDef (fd_Path d) (fd_Name d) (fd_Kind d) (fd_Codec d) (fd_Length d) (fd_MaxLen d) (fd_Scale d)
    (fd_Pad d) (fd_Validate d ++ vs) (fd_Required d) (fd_Sub d).
Definition optWithCodec (c : option FieldCodec) : FieldOpt := fun d =>
  mkFieldDef (fd_Path d) (fd_Name d) (kindOf c) c (fd_Length d) (fd_MaxLen d) (fd_Scale d)
    (fd_Pad d) (fd_Validate d) (fd_Required d) (fd_Sub d).
Definition optWithLength (l : option LengthCodec) : FieldOpt := fun d =>
  mkFieldDef (fd_Path d) (fd_Name d) (fd_Kind d) (fd_Codec d) l (fd_MaxLen d) (fd_Scale d)
    (fd_Pad d) (fd_Validate d) (fd_Required d) (fd_Sub d).
Definition optWithComposite (sub : option Schema) : FieldOpt := fun d =>
  mkFieldDef (fd_Path d) (fd_Name d) KindComposite (fd_Codec d) (fd_Length d) (fd_MaxLen d) (fd_Scale d)
    (fd_Pad d) (fd_Validate d) (fd_Required d) sub.

(** The definitions [Field], [Composite], [Tag] and [MTI] start from. *)
Definition field_def (p : FieldPath) (name : bytes) (k : Kind) (c : option FieldCodec)
    (l : option LengthCodec) (maxLen : Z) (sub : option Schema) : FieldDef :=
  mkFieldDef p name k c l maxLen 0 zeroPad [] optionalRule sub.

Definition builder_MTI (b : SchemaBuilder) (c : option FieldCodec) : SchemaBuilder :=
  mkSchemaBuilder (b_id b)
    (Some (field_def (DE 0) (go "MTI") (kindOf c) c None defaultMTILen None))
    (b_bitmap b) (b_defs b) (b_tags b) (b_order b) (b_isTLV b) (b_headerless b) (b_errs b).

Definition builder_Bitmap (b : SchemaBuilder) (spec : BitmapSpec) : SchemaBuilder :=
  mkSchemaBuilder (b_id b) (b_mti b) spec (b_defs b) (b_tags b) (b_order b) (b_isTLV b)
    (b_headerless b) (b_errs b).

Definition builder_Headerless (b : SchemaBuilder) : SchemaBuilder :=
  mkSchemaBuilder (b_id b) (b_mti b) (b_bitmap b) (b_defs b) (b_tags b) (b_order b) (b_isTLV b)
    true (b_errs b).

(** The common tail of [Field] and [Composite]: record a duplicate, then store. *)
Definition put_def (b : SchemaBuilder) (de : Z) (d : FieldDef) : SchemaBuilder :=
  mkSchemaBuilder (b_id b) (b_mti b) (b_bitmap b) (<[de := d]> (b_defs b)) (b_tags b) (b_order b)
    (b_isTLV b) (b_headerless b)
    (match b_defs b !! de with Some _ => b_errs b ++ [DEDuplicate de] | None => b_errs b end).

Definition builder_Field (b : SchemaBuilder) (de : Z) (name : bytes) (value : option FieldCodec)
    (length : option LengthCodec) (opts : list FieldOpt) : SchemaBuilder :=
  put_def b de (applyOpts (field_def (DE de) name (kindOf value) value length 0 None) opts).

Definition builder_Composite (b : SchemaBuilder) (de : Z) (name : bytes) (sub : option Schema)
    (length : option LengthCodec) (opts : list FieldOpt) : SchemaBuilder :=
  put_def b de (applyOpts (field_def (DE de) name KindComposite None length 0 sub) opts).

Definition builder_Tag (b : SchemaBuilder) (tag name : bytes) (value : option FieldCodec)
    (opts : list FieldOpt) : SchemaBuilder :=
  let key := ToUpper tag in
  let d := applyOpts (field_def (mkFieldPath [mkPathElem (-1) key]) name (kindOf value) value None 0 None) opts in
  let dup := bool_decide (is_Some (b_tags b !! key)) in
  mkSchemaBuilder (b_id b) (b_mti b) (b_bitmap b) (b_defs b) (<[key := d]> (b_tags b))
    (if dup then b_order b else b_order b ++ [key]) true (b_headerless b)
    (if dup then b_errs b ++ [TagDuplicate key] else b_errs b).

Definition validateDef (de : Z) (d : FieldDef) : list schema_error :=
  let noSub := bool_decide (~ is_Some (fd_Sub d)) in
  let noCodec := bool_decide (~ is_Some (fd_Codec d)) in
  let noLength := bool_decide (~ is_Some (fd_Length d)) in
  (if noSub && noCodec then [DENoValueCodec de] else []) ++
  (if noLength && noSub && (fd_MaxLen d <=? 0) then [DEFixedNoMaxLen de] else []) ++
  (if maxFieldUnits <? fd_MaxLen d then [DEMaxLenExceeds de (fd_MaxLen d)] else []) ++
  (if bool_decide (fd_Kind d = KindComposite) && noSub then [DECompositeNoSub de] else []).

Definition validateTagDef (key : bytes) (d : FieldDef) : list schema_error :=
  if bool_decide (~ is_Some (fd_Codec d)) && bool_decide (~ is_Some (fd_Sub d))
  then [TagNoValueCodec key]
  else if maxFieldUnits <? fd_MaxLen d then [TagMaxLenExceeds key (fd_MaxLen d)]
  else [].

(** One iteration of the loop over [b.defs]. *)
Definition def_errors (p : Z * FieldDef) : list schema_error :=
  if (p.1 <? 1) || (192 <? p.1) then [DEOutOfRange p.1] else validateDef p.1 p.2.

(** The largest defined element in range. *)
Definition builder_maxDE (b : SchemaBuilder) : Z :=
  fold_left (fun m p => if (p.1 <? 1) || (192 <? p.1) then m else Z.max m p.1)
    (map_to_list (b_defs b)) 0.

(** [errs] at the end of the checks of [Build]; Go iterates the map [b.defs] in
    an unspecified order, here the order of [map_to_list]. *)
Definition build_errors (b : SchemaBuilder) : list schema_error :=
  b_errs b ++
  (if bool_decide (b_id b = []) then [IdEmpty] else []) ++
  mjoin (def_errors <$> map_to_list (b_defs b)) ++
  mjoin ((fun key => match b_tags b !! key with Some d => validateTagDef key d | None => [] end)
    <$> b_order b) ++
  (if b_isTLV b then [] else
     (if bool_decide (~ is_Some (bs_Codec (b_bitmap b))) then [NoBitmapCodec] else []) ++
     (if (bs_Levels (b_bitmap b) <? 1) || (3 <? bs_Levels (b_bitmap b))
      then [BitmapLevels (bs_Levels (b_bitmap b))] else []) ++
     (if bool_decide (~ is_Some (b_mti b)) && negb (b_headerless b) then [NoMTICodec] else [])).

(** [SchemaBuilder.Build]: the schema, or every problem at once. *)
Definition Build (b : SchemaBuilder) : list schema_error + Schema :=
  match build_errors b with
  | [] =>
      let maxDE := builder_maxDE b in
      inr (mkSchema (b_id b) (b_mti b) (b_bitmap b)
        ((fun de => b_defs b !! de) <$> seqZ 0 (maxDE + 1))
        (b_tags b) maxDE (b_isTLV b))
  | errs => inl errs
  end.

(** [MustBuild] panics where [Build] reports. *)
Definition MustBuild (b : SchemaBuilder) : result Schema :=
  match Build b with inr s => Ok s | inl _ => Panic end.

(** [Schema.Derive]: a builder holding copies of the definitions. *)
Definition Derive (s : Schema) (id : bytes) : SchemaBuilder :=
  mkSchemaBuilder id (s_mti s) (s_bitmap s)
    (list_to_map (omap (fun '(i, od) => (fun d => (Z.of_nat i, d)) <$> od) (imap pair (s_defs s))))
    (s_tags s) (map_to_list (s_tags s)).*1 (s_isTLV s)
    (match s_mti s with None => negb (s_isTLV s) | Some _ => false end) [].

Definition builder_Override (b : SchemaBuilder) (de : Z) (opts : list FieldOpt) : SchemaBuilder :=
  match b_defs b !! de with
  | None =>
      mkSchemaBuilder (b_id b) (b_mti b) (b_bitmap b) (b_defs b) (b_tags b) (b_order b) (b_isTLV b)
        (b_headerless b) (b_errs b ++ [OverrideUndefined de])
  | Some d =>
      mkSchemaBuilder (b_id b) (b_mti b) (b_bitmap b) (<[de := applyOpts d opts]> (b_defs b)) (b_tags b)
        (b_order b) (b_isTLV b) (b_headerless b) (b_errs b)
  end.

(** ** What a built schema guarantees *)

Record def_ok (d : FieldDef) : Prop := {
  do_codec : is_Some (fd_Sub d) \/ is_Some (fd_Codec d);
  do_fixed : fd_Length d = None -> fd_Sub d = None -> 0 < fd_MaxLen d;
  do_maxlen : fd_MaxLen d <= maxFieldUnits;
  do_composite : fd_Kind d = KindComposite -> is_Some (fd_Sub d);
}.

Record schema_ok (s : Schema) : Prop := {
  so_len : len (s_defs s) = s_maxDE s + 1;
  so_max : 0 <= s_maxDE s <= 192;
  so_defs : forall de d, de <> 0 -> Schema_Field s de = Some d -> 1 <= de <= s_maxDE s /\ def_ok d;
  so_bitmap : s_isTLV s = false -> is_Some (bs_Codec (s_bitmap s)) /\ 1 <= bs_Levels (s_bitmap s) <= 3;
}.

Lemma if_nil {A} (c : bool) (l : list A) : (if c then l else []) = [] -> c = false \/ l = [].
Proof. destruct c; auto. Qed.

Lemma not_some {A} (o : option A) : bool_decide (~ is_Some o) = false <-> is_Some o.
Proof. rewrite bool_decide_eq_false. destruct o; naive_solver. Qed.

Lemma is_none_decide {A} (o : option A) : o = None -> bool_decide (~ is_Some o) = true.
Proof. intros ->. apply bool_decide_true. by intros []. Qed.

Lemma validateDef_nil de d : validateDef de d = [] -> def_ok d.
Proof.
  unfold validateDef. intros H.
  apply app_eq_nil in H as [H1 H]. apply app_eq_nil in H as [H2 H]. apply app_eq_nil in H as [H3 H4].
  apply if_nil in H1 as [H1|H1]; [|done]. apply if_nil in H2 as [H2|H2]; [|done].
  apply if_nil in H3 as [H3|H3]; [|done]. apply if_nil in H4 as [H4|H4]; [|done].
  split.
  - apply andb_false_iff in H1 as [H1|H1]; apply not_some in H1; auto.
  - intros HL HS. rewrite (is_none_decide _ HL), (is_none_decide _ HS) in H2. cbn [andb] in H2. bool_to_prop. lia.
  - bool_to_prop. lia.
  - intros K. rewrite bool_decide_true in H4 by done. cbn [andb] in H4. by apply not_some in H4.
Qed.

Lemma mjoin_nil {A B} (f : A -> list B) l : mjoin (f <$> l) = [] -> forall x, x ∈ l -> f x = [].
Proof.
  induction l as [|y l IH]; intros H x; [by intros ?%not_elem_of_nil|].
  cbn in H. apply app_eq_nil in H as [Hy Hl]. intros [->|Hx]%elem_of_cons; auto.
Qed.

Lemma builder_maxDE_ge b : (forall de d, b_defs b !! de = Some d -> 1 <= de <= 192) ->
  0 <= builder_maxDE b <= 192 /\ forall de d, b_defs b !! de = Some d -> de <= builder_maxDE b.
Proof.
  intros H. unfold builder_maxDE.
  assert (forall l m, 0 <= m <= 192 -> (forall p, p ∈ l -> 1 <= p.1 <= 192) ->
    let r := fold_left (fun m (p : Z * FieldDef) => if (p.1 <? 1) || (192 <? p.1) then m else Z.max m p.1) l m in
    0 <= r <= 192 /\ m <= r /\ forall p, p ∈ l -> p.1 <= r) as Hf.
  { clear H. induction l as [|p l IH]; intros m Hm Hp; cbn [fold_left]; cbv zeta.
    - split_and!; [lia..|]. by intros ? ?%not_elem_of_nil.
    - pose proof (Hp p ltac:(set_solver)).
      destruct (Z.ltb_spec p.1 1); [lia|]. destruct (Z.ltb_spec 192 p.1); [lia|]. cbn [orb].
      specialize (IH (Z.max m p.1) ltac:(lia) ltac:(set_solver)) as (I1 & I2 & I3). cbv zeta in *.
      split_and!; [lia..|]. intros q [->|Hq]%elem_of_cons; [lia|auto]. }
  destruct (Hf (map_to_list (b_defs b)) 0) as (F1 & _ & F3).
  - lia.
  - intros [de d] Hp. apply elem_of_map_to_list in Hp. cbn. eauto.
  - split; [exact F1|]. intros de d Hd. apply (F3 (de, d)). by apply elem_of_map_to_list.
Qed.

(** The definition array holds exactly the builder's definitions. *)
Lemma Build_Field b s : Build b = inr s ->
  (forall de d, b_defs b !! de = Some d -> 1 <= de <= 192) ->
  forall de, de <> 0 -> Schema_Field s de = b_defs b !! de.
Proof.
  intros HB HR de Hde. unfold Build in HB. destruct (build_errors b); [|done]. injection HB as <-.
  destruct (builder_maxDE_ge b HR) as [M1 M2]. unfold Schema_Field. cbn [s_defs s_mti].
  destruct (Z.eqb_spec de 0); [done|]. unfold len. rewrite length_fmap, length_seqZ.
  destruct (Z.ltb_spec de 0); cbn [orb].
  - destruct (b_defs b !! de) eqn:E; [apply HR in E; lia|done].
  - destruct (Z.leb_spec (Z.of_nat (Z.to_nat (builder_maxDE b + 1))) de).
    + destruct (b_defs b !! de) eqn:E; [apply M2 in E; lia|done].
    + rewrite list_lookup_fmap, lookup_seqZ_lt by lia. cbn. f_equal. lia.
Qed.

Lemma Build_facts b s :
  Build b = inr s ->
  schema_ok s /\ (forall de, de <> 0 -> Schema_Field s de = b_defs b !! de) /\
  s_tags s = b_tags b /\ s_mti s = b_mti b /\ build_errors b = [].
Proof.
  intros HB. assert (build_errors b = []) as HE by (unfold Build in HB; by destruct (build_errors b)).
  pose proof HE as HE'. unfold build_errors in HE'.
  apply app_eq_nil in HE' as [_ HE']. apply app_eq_nil in HE' as [_ HE'].
  apply app_eq_nil in HE' as [HD HE']. apply app_eq_nil in HE' as [_ HT].
  assert (HR : forall de d, b_defs b !! de = Some d -> 1 <= de <= 192 /\ def_ok d).
  { intros de d Hd. apply elem_of_map_to_list in Hd.
    pose proof (mjoin_nil _ _ HD (de, d) Hd) as E. unfold def_errors in E. cbn [fst snd] in E.
    destruct ((de <? 1) || (192 <? de)) eqn:G; [discriminate E|]. bool_to_prop. split; [lia|]. by eapply validateDef_nil. }
  assert (HR' : forall de d, b_defs b !! de = Some d -> 1 <= de <= 192) by (intros; by eapply HR).
  pose proof (Build_Field b s HB HR') as HF. destruct (builder_maxDE_ge b HR') as [M1 M2].
  pose proof HB as HB'. unfold Build in HB'. rewrite HE in HB'. injection HB' as HS.
  split_and!; try (by rewrite <- HS); try done. split.
  - rewrite <- HS. cbn [s_defs s_maxDE]. unfold len. rewrite length_fmap, length_seqZ. lia.
  - rewrite <- HS. done.
  - intros de d Hde Hd. rewrite HF in Hd by done. destruct (HR _ _ Hd).
    split; [|done]. rewrite <- HS. cbn [s_maxDE]. split; [lia|]. by eapply M2.
  - intros HTLV. assert (b_isTLV b = false) as Hb by (by rewrite <- HS in HTLV). rewrite Hb in HT.
    apply app_eq_nil in HT as [HT1 HT]. apply app_eq_nil in HT as [HT2 _].
    apply if_nil in HT1 as [HT1|]; [|done]. apply if_nil in HT2 as [HT2|]; [|done].
    apply not_some in HT1. bool_to_prop. rewrite <- HS. cbn [s_bitmap]. split; [done|lia].
Qed.

(** [Build] is all-or-nothing and keeps every definition.  A schema it
    returns has exactly the builder's data elements and tags, each in range and
    well-formed (a codec or a sub-schema, a positive width when fixed, a bounded
    length), and a positional schema has a bitmap codec of one to three levels. *)
Theorem Build_sound b s :
  Build b = inr s ->
  schema_ok s /\ (forall de, de <> 0 -> Schema_Field s de = b_defs b !! de) /\
  s_tags s = b_tags b /\ s_mti s = b_mti b /\ build_errors b = [].
Proof. apply Build_facts. Qed.

Definition sample_builder : SchemaBuilder :=
  builder_Field
    (builder_Bitmap (builder_MTI (NewSchema (go "sample")) (Some numASCII)) (mkBitmapSpec (Some binWord) 2))
    70 (go "Network Management Information Code") (Some numASCII) None [optMaxLen 3].

Lemma Build_sound_witness :
  exists s d, Build sample_builder = inr s /\ Schema_Field s 70 = Some d /\ fd_MaxLen d = 3 /\ s_maxDE s = 70.
Proof.
  destruct (Build sample_builder) as [e|s] eqn:E; [vm_compute in E; discriminate|].
  destruct (Build_sound sample_builder s E) as (_ & F & _).
  exists s. eexists. split; [reflexivity|]. split; [rewrite F by discriminate; vm_compute; reflexivity|].
  split; [reflexivity|]. vm_compute in E. injection E as <-. reflexivity.
Defined.

(** ** Nesting depth

    How many sub-schemas lie below a definition or a schema.  The recursive
    codecs descend one sub-schema per call, so this number bounds them. *)
Fixpoint def_depth (d : FieldDef) : nat :=
  match fd_Sub d with None => O | Some s => S (schema_depth s) end
with schema_depth (s : Schema) : nat :=
  Nat.max (match s_mti s with None => O | Some d => def_depth d end)
    (Nat.max
      (foldr (fun o n => Nat.max n (match o with None => O | Some d => def_depth d end)) O (s_defs s))
      (map_fold (fun _ d n => Nat.max n (def_depth d)) O (s_tags s))).

Lemma schema_depth_unfold s : schema_depth s =
  Nat.max (match s_mti s with None => O | Some d => def_depth d end)
    (Nat.max
      (foldr (fun o n => Nat.max n (match o with None => O | Some d => def_depth d end)) O (s_defs s))
      (map_fold (fun _ d n => Nat.max n (def_depth d)) O (s_tags s))).
Proof. by destruct s. Qed.

Lemma depth_mti s d : s_mti s = Some d -> (def_depth d <= schema_depth s)%nat.
Proof. intros H. rewrite schema_depth_unfold, H. lia. Qed.

Lemma depth_list (l : list (option FieldDef)) i d : l !! i = Some (Some d) ->
  (def_depth d <= foldr (fun o n => Nat.max n (match o with None => O | Some d => def_depth d end)) O l)%nat.
Proof. revert i. induction l as [|o l IH]; intros [|i] H; cbn in *; [done..| |]; simplify_eq; [lia|]. apply IH in H. lia. Qed.

Lemma depth_field s de d : Schema_Field s de = Some d -> (def_depth d <= schema_depth s)%nat.
Proof.
  unfold Schema_Field. case_match; [apply depth_mti|]. case_match; [done|].
  intros Hd. destruct (s_defs s !! Z.to_nat de) as [[d'|]|] eqn:E; cbn in Hd; simplify_eq.
  apply depth_list in E. rewrite schema_depth_unfold. lia.
Qed.

Lemma depth_tag s t d : LookupTag s t = Some d -> (def_depth d <= schema_depth s)%nat.
Proof.
  unfold LookupTag. intros H.
  cut (forall d', s_tags s !! ToUpper t = Some d' ->
    (def_depth d' <= map_fold (fun _ d n => Nat.max n (def_depth d)) O (s_tags s))%nat).
  { intros Hc. apply Hc in H. rewrite schema_depth_unfold. lia. }
  clear H d. apply (map_fold_weak_ind (fun n m => forall d', m !! ToUpper t = Some d' -> (def_depth d' <= n)%nat)).
  - intros d'. by rewrite lookup_empty.
  - intros k d m n _ IH d'. rewrite lookup_insert_Some. intros [[_ <-]|[_ H]]; [lia|]. apply IH in H. lia.
Qed.

Lemma depth_sub d s : fd_Sub d = Some s -> def_depth d = S (schema_depth s).
Proof. destruct d; cbn. by intros ->. Qed.
