(* ===== verification/LengthCodec.v ===== *)
(** * Length prefixes ([lengthcodec/length.go])

    [ReadLen] and [WriteLen] for the no-prefix codec and for a variable prefix
    in ASCII, EBCDIC, packed BCD or binary, and the catalogue.  The interface
    the message engine relies on is the class [LengthContract]. *)

From S2P Require Import Prelude Errors Strconv Bcd Ebcdic Path Schema.

(** [n = n*10 + int(c-'0')] over the digits, on a 64-bit int. *)
Fixpoint atoi_loop (n : Z) (b : bytes) : result Z :=
  match b with
  | [] => Ok n
  | c :: r =>
      if (bz c <? 48) || (57 <? bz c) then Err len_ErrBadDigit
      else atoi_loop (wrap64 (n * 10 + (bz c - 48))) r
  end.

Definition atoiDigits (b : bytes) : result Z := atoi_loop 0 b.

Definition decimalPad (n width : Z) : result bytes :=
  let s := FormatInt n in
  if width <? len s then Err len_ErrOverflow
  else Ok (replicate (Z.to_nat (width - len s)) (zb 48) ++ s).

(** [n = n<<8 | int(src[off+i])], on a 64-bit int. *)
Definition read_bin (b : bytes) : Z :=
  fold_left (fun n c => wrap64 (Z.lor (Z.shiftl n 8) (bz c))) b 0.

Definition ReadLen (l : LengthCodec) (src : bytes) (off : Z) (def : FieldDef) : result (Z * Z) :=
  match l with
  | fixed => Ok (fd_MaxLen def, off)
  | varLen _ digits nbytes r =>
      match r with
      | reprASCII =>
          if len src <? off + digits then Err len_ErrTruncated else
          let! b := slice src off (off + digits) in
          let! n := atoiDigits b in
          Ok (n, off + digits)
      | reprEBCDIC =>
          if len src <? off + digits then Err len_ErrTruncated else
          let! b := slice src off (off + digits) in
          let! n := atoiDigits (Decode CP037 b) in
          Ok (n, off + digits)
      | reprBCD =>
          let nb := PackedLen digits in
          if len src <? off + nb then Err len_ErrTruncated else
          let! b := slice src off (off + nb) in
          let! ds := Unpack b digits in
          let! n := atoiDigits ds in
          Ok (n, off + nb)
      | reprBinary =>
          if len src <? off + nbytes then Err len_ErrTruncated else
          let! b := slice src off (off + nbytes) in
          Ok (read_bin b, off + nbytes)
      end
  end.

Definition WriteLen (l : LengthCodec) (dst : bytes) (units : Z) (def : FieldDef) : result bytes :=
  match l with
  | fixed => Ok dst
  | varLen _ digits nbytes r =>
      if units <? 0 then Err len_ErrOverflow else
      match r with
      | reprASCII => let! s := decimalPad units digits in Ok (dst ++ s)
      | reprEBCDIC => let! s := decimalPad units digits in Ok (dst ++ Encode CP037 s)
      | reprBCD =>
          let! s := decimalPad units digits in
          let! packed := Pack s in
          Ok (dst ++ packed)
      | reprBinary =>
          if wrap64 (Z.shiftl 1 (8 * nbytes)) <=? units then Err len_ErrOverflow
          else Ok (dst ++ be_put (Z.to_nat nbytes) units)
      end
  end.

Definition length_Name (l : LengthCodec) : bytes :=
  match l with fixed => go "len.fixed" | varLen name _ _ _ => name end.

(** The catalogue. *)
Definition LLVarASCII := varLen (go "len.ll.ascii") 2 0 reprASCII.
Definition LLLVarASCII := varLen (go "len.lll.ascii") 3 0 reprASCII.
Definition LLLLVarASCII := varLen (go "len.llll.ascii") 4 0 reprASCII.
Definition LLLLLVarASCII := varLen (go "len.lllll.ascii") 5 0 reprASCII.
Definition LLLLLLVarASCII := varLen (go "len.llllll.ascii") 6 0 reprASCII.
Definition LLVarBCD := varLen (go "len.ll.bcd") 2 0 reprBCD.
Definition LLLVarBCD := varLen (go "len.lll.bcd") 3 0 reprBCD.
Definition LLVarBinary := varLen (go "len.ll.bin") 0 1 reprBinary.
Definition LLLVarBinary := varLen (go "len.lll.bin") 0 2 reprBinary.
Definition LLVarEBCDIC := varLen (go "len.ll.ebcdic") 2 0 reprEBCDIC.
Definition LLLVarEBCDIC := varLen (go "len.lll.ebcdic") 3 0 reprEBCDIC.

Definition length_All : list LengthCodec :=
  [fixed;
   LLVarASCII; LLLVarASCII; LLLLVarASCII; LLLLLVarASCII; LLLLLLVarASCII;
   LLVarBCD; LLLVarBCD; LLVarBinary; LLLVarBinary; LLVarEBCDIC; LLLVarEBCDIC].

(** ** What the engine relies on *)

(** Prefix widths for which the 64-bit arithmetic is exact. *)
Definition length_ok (l : LengthCodec) : bool :=
  match l with
  | fixed => true
  | varLen _ digits nbytes r =>
      match r with
      | reprBinary => (1 <=? nbytes) && (nbytes <=? 2)
      | _ => (1 <=? digits) && (digits <=? 6)
      end
  end.

(** The largest unit count a prefix can carry. *)
Definition length_cap (l : LengthCodec) (def : FieldDef) : Z :=
  match l with
  | fixed => fd_MaxLen def
  | varLen _ digits nbytes r =>
      match r with reprBinary => 256 ^ nbytes - 1 | _ => 10 ^ digits - 1 end
  end.

(** The unit count read back after writing [units]: a no-prefix codec always
    reads [MaxLen]. *)
Definition units_read (l : LengthCodec) (def : FieldDef) (units : Z) : Z :=
  match l with fixed => fd_MaxLen def | _ => units end.

Class LengthContract (l : LengthCodec) : Prop := {
  lc_total : forall src off def, 0 <= off <= len src -> ReadLen l src off def <> Panic;
  lc_bounds : forall src off def u next, 0 <= off <= len src ->
    ReadLen l src off def = Ok (u, next) ->
    off <= next <= len src /\ u <= length_cap l def /\ (l <> fixed -> 0 <= u);
  lc_write : forall dst units def out, WriteLen l dst units def = Ok out ->
    exists prefix, out = dst ++ prefix /\
      forall pre post, ReadLen l (pre ++ prefix ++ post) (len pre) def
        = Ok (units_read l def units, len pre + len prefix);
  lc_accepts : forall dst units def, 0 <= units <= length_cap l def ->
    exists out, WriteLen l dst units def = Ok out;
  (** reading depends on the prefix's bytes only, not on where they stand *)
  lc_local : forall src off def u next p pre post, 0 <= off <= len src ->
    ReadLen l src off def = Ok (u, next) -> slice (E:=error) src off next = Ok p ->
    ReadLen l (pre ++ p ++ post) (len pre) def = Ok (u, len pre + len p);
  lc_append : forall dst units def,
    WriteLen l dst units def = let! p := WriteLen l [] units def in Ok (dst ++ p);
}.

Lemma atoi_loop_digits n b : forallb is_digit b = true -> 0 <= n -> dec_from n b < 2 ^ 63 ->
  atoi_loop n b = Ok (dec_from n b).
Proof.
  revert n. induction b as [|c b IH]; intros n; [done|]. cbn [forallb atoi_loop].
  intros [Hc Hb]%andb_prop Hn Hlt. apply is_digit_range in Hc.
  rewrite !(proj2 (Z.ltb_ge _ _)) by lia. cbn [orb].
  cbn [dec_from fold_left] in Hlt |- *. fold (dec_from (n * 10 + (bz c - 48)) b) in *.
  pose proof (dec_value_bound b Hb).
  assert (n * 10 + (bz c - 48) <= dec_from (n * 10 + (bz c - 48)) b).
  { rewrite dec_from_shift. pose proof (Z.pow_pos_nonneg 10 (len b) ltac:(lia) (len_nonneg b)). nia. }
  rewrite wrap64_id by (unfold int64; lia). apply IH; [done|lia|done].
Qed.

Lemma atoiDigits_digits b : forallb is_digit b = true -> len b <= 18 -> atoiDigits b = Ok (dec_value b).
Proof.
  intros Hb Hl. apply atoi_loop_digits; [done|lia|]. fold (dec_value b).
  pose proof (dec_value_bound b Hb). pose proof (Z.pow_le_mono_r 10 (len b) 18 ltac:(lia) Hl).
  change (10 ^ 18) with 1000000000000000000 in *. lia.
Qed.

Lemma atoi_loop_Ok n b v : atoi_loop n b = Ok v -> forallb is_digit b = true.
Proof.
  revert n. induction b as [|c b IH]; intros n; [done|]. cbn [atoi_loop forallb].
  destruct (_ || _) eqn:E; [done|]. bool_to_prop. intros H'%IH. rewrite H', andb_true_r.
  by apply is_digit_range.
Qed.

Lemma atoi_loop_not_Panic n b : atoi_loop n b <> Panic.
Proof. revert n. induction b as [|c b IH]; intros n; cbn [atoi_loop]; [done|]. by case_match. Qed.

(** A decimal prefix: what [atoiDigits] accepts on [w] digits is below [10^w]. *)
Lemma atoiDigits_bound b v : len b <= 18 -> atoiDigits b = Ok v -> 0 <= v <= 10 ^ len b - 1.
Proof.
  intros Hl H. pose proof (atoi_loop_Ok _ _ _ H) as Hd. rewrite atoiDigits_digits in H by done.
  injection H as <-. pose proof (dec_value_bound b Hd). lia.
Qed.

Lemma decimalPad_Ok n w s : 0 <= n -> 0 < w -> decimalPad n w = Ok s ->
  len s = w /\ forallb is_digit s = true /\ dec_value s = n.
Proof.
  intros Hn Hw. unfold decimalPad, FormatInt. destruct (Z.ltb_spec n 0); [lia|].
  destruct (Z.ltb_spec w (len (FormatUint n))); [done|]. intros [= <-].
  split_and!.
  - len_simpl. lia.
  - rewrite forallb_app, FormatUint_digits by done. rewrite andb_true_r.
    generalize (Z.to_nat (w - len (FormatUint n))). intros k. induction k; [done|]. cbn. by rewrite IHk.
  - by rewrite dec_value_zeros, FormatUint_value.
Qed.

Lemma decimalPad_fits n w : 0 <= n <= 10 ^ w - 1 -> 0 < w -> exists s, decimalPad n w = Ok s.
Proof.
  intros Hn Hw. unfold decimalPad, FormatInt. destruct (Z.ltb_spec n 0); [lia|].
  pose proof (FormatUint_len n w). destruct (Z.ltb_spec w (len (FormatUint n))); [lia|eauto].
Qed.

Lemma read_bin_be b : len b <= 7 -> read_bin b = be_get b.
Proof.
  induction b as [|c b IH] using rev_ind; [done|]. rewrite len_app. change (len [c]) with 1. intros Hl.
  unfold read_bin, be_get in *. rewrite !fold_left_app. cbn [fold_left]. rewrite IH by lia.
  fold (be_get b). apply wrap64_id. pose proof (be_get_bound b).
  rewrite lor_shiftl_byte by lia. pose proof (bz_range c).
  pose proof (Z.pow_le_mono_r 256 (len b) 6 ltac:(lia) ltac:(lia)).
  change (256 ^ 6) with 281474976710656 in *. unfold int64. lia.
Qed.

Lemma prefix_slice {A} (pre mid post : list A) n : n = len pre + len mid ->
  slice (E:=error) (pre ++ mid ++ post) (len pre) n = Ok mid /\ (len (pre ++ mid ++ post) <? n) = false.
Proof.
  intros ->. split; [by apply slice_mid|]. apply Z.ltb_ge. rewrite !len_app. pose proof (len_nonneg post). lia.
Qed.

#[export] Instance fixed_contract : LengthContract fixed.
Proof.
  split.
  - done.
  - intros src off def u next Ho [= <- <-]. cbn. split_and!; try lia. intros H. by destruct H.
  - intros dst units def out [= <-]. exists []. rewrite app_nil_r. split; [done|].
    intros pre post. cbn. change (len []) with 0. by rewrite Z.add_0_r.
  - intros. by eexists.
  - intros src off def u next p pre post Ho [= <- <-] (_ & _ & L & _)%slice_Ok_inv. cbn. do 2 f_equal. lia.
  - intros. cbn. by rewrite app_nil_r.
Qed.


(** *** Variable prefixes

    The four representations read the same way: a window of [prefix_width]
    bytes, then its number. *)
Definition prefix_width (digits nbytes : Z) (r : repr) : Z :=
  match r with
  | reprASCII | reprEBCDIC => digits
  | reprBCD => PackedLen digits
  | reprBinary => nbytes
  end.

Definition prefix_value (digits : Z) (r : repr) (b : bytes) : result Z :=
  match r with
  | reprASCII => atoiDigits b
  | reprEBCDIC => atoiDigits (Decode CP037 b)
  | reprBCD => let! ds := Unpack b digits in atoiDigits ds
  | reprBinary => Ok (read_bin b)
  end.

Lemma ReadLen_prefix name digits nbytes r src off def :
  ReadLen (varLen name digits nbytes r) src off def =
    let w := prefix_width digits nbytes r in
    if len src <? off + w then Err len_ErrTruncated else
    let! b := slice src off (off + w) in
    let! n := prefix_value digits r b in
    Ok (n, off + w).
Proof.
  destruct r; cbn; try done. case_match; [done|].
  destruct (slice _ _ _) as [b| |]; cbn; [|done|done]. by destruct (Unpack b digits).
Qed.

Lemma length_ok_width name digits nbytes r : length_ok (varLen name digits nbytes r) = true ->
  1 <= prefix_width digits nbytes r <= 6 /\ (r = reprBinary \/ 1 <= digits <= 6) /\ (r = reprBinary -> 1 <= nbytes <= 2).
Proof.
  cbn. destruct r; intros H; bool_to_prop; cbn [prefix_width]; split_and!; try lia; try done; auto with lia.
  - rewrite PackedLen_div by lia. apply Z.div_le_lower_bound; lia.
  - rewrite PackedLen_div by lia. assert ((digits + 1) / 2 < 6); [|lia]. apply Z.div_lt_upper_bound; lia.
Qed.

Lemma prefix_value_total digits r b : prefix_value digits r b <> Panic.
Proof.
  destruct r; cbn; try apply atoi_loop_not_Panic; [|done].
  pose proof (Unpack_not_Panic b digits). destruct (Unpack b digits) as [ds| |]; cbn; try done.
  apply atoi_loop_not_Panic.
Qed.

Lemma prefix_value_bound name digits nbytes r def b v :
  length_ok (varLen name digits nbytes r) = true -> len b = prefix_width digits nbytes r ->
  prefix_value digits r b = Ok v -> 0 <= v <= length_cap (varLen name digits nbytes r) def.
Proof.
  intros Hok Hl H. destruct (length_ok_width _ _ _ _ Hok) as (Hw & Hd & Hb). destruct r; cbn in *.
  - rewrite <- Hl. apply atoiDigits_bound; [lia|done].
  - apply atoiDigits_bound in H; rewrite len_Decode, Hl in *; lia.
  - go_inv. apply Unpack_Ok in H0 as [_ HL]. destruct Hd as [|Hd]; [done|].
    apply atoiDigits_bound in H; rewrite HL in *; lia.
  - injection H as <-. rewrite read_bin_be by lia. rewrite <- Hl. pose proof (be_get_bound b). lia.
Qed.

Lemma bin_capacity n : 1 <= n <= 2 -> wrap64 (Z.shiftl 1 (8 * n)) = 256 ^ n.
Proof. intros. assert (n = 1 \/ n = 2) as [-> | ->] by lia; reflexivity. Qed.

Lemma WriteLen_prefix name digits nbytes r dst units def out :
  length_ok (varLen name digits nbytes r) = true ->
  WriteLen (varLen name digits nbytes r) dst units def = Ok out ->
  exists prefix, out = dst ++ prefix /\ len prefix = prefix_width digits nbytes r /\
    prefix_value digits r prefix = Ok units.
Proof.
  intros Hok. destruct (length_ok_width _ _ _ _ Hok) as (Hw & Hd & Hb). cbn [WriteLen].
  destruct (Z.ltb_spec units 0); [done|]. destruct r; cbn [prefix_width prefix_value] in *; intros H';
    try (destruct Hd as [|Hd]; [done|]).
  - go_inv. apply decimalPad_Ok in H'0 as (L & D & V); [|lia..]. exists a. split_and!; [done|done|].
    rewrite atoiDigits_digits, V by (done || lia). done.
  - go_inv. apply decimalPad_Ok in H'0 as (L & D & V); [|lia..]. exists (Encode CP037 a).
    rewrite Decode_Encode037 by (by apply digits_covered). split_and!; [done|by rewrite len_Encode|].
    rewrite atoiDigits_digits, V by (done || lia). done.
  - go_inv. apply decimalPad_Ok in H'0 as (L & D & V); [|lia..].
    destruct (Unpack_Pack a D) as (b & P1 & P2). rewrite P1 in H'1. injection H'1 as <-.
    exists b. rewrite <- L. split_and!; [done|by apply Pack_len|]. rewrite P2. cbn [rbind].
    rewrite atoiDigits_digits, V by (done || lia). done.
  - destruct (Z.leb_spec (wrap64 (Z.shiftl 1 (8 * nbytes))) units); [done|]. injection H' as <-.
    specialize (Hb eq_refl). rewrite bin_capacity in * by done. exists (be_put (Z.to_nat nbytes) units). split; [done|].
    rewrite len_be_put, Z2Nat.id by lia. split; [done|].
    rewrite read_bin_be, be_get_put; [done| |rewrite len_be_put; lia].
    rewrite Z2Nat.id by lia. lia.
Qed.

Lemma WriteLen_accepts name digits nbytes r dst units def :
  length_ok (varLen name digits nbytes r) = true ->
  0 <= units <= length_cap (varLen name digits nbytes r) def ->
  exists out, WriteLen (varLen name digits nbytes r) dst units def = Ok out.
Proof.
  intros Hok Hu. destruct (length_ok_width _ _ _ _ Hok) as (Hw & Hd & Hb). cbn [WriteLen length_cap] in *.
  destruct (Z.ltb_spec units 0); [lia|]. destruct r; try (destruct Hd as [|Hd]; [done|]).
  - destruct (decimalPad_fits units digits) as [s ->]; [lia..|]. by eexists.
  - destruct (decimalPad_fits units digits) as [s ->]; [lia..|]. by eexists.
  - destruct (decimalPad_fits units digits) as [s Hs]; [lia..|]. rewrite Hs.
    apply decimalPad_Ok in Hs as (_ & D & _); [|lia..].
    destruct (Unpack_Pack s D) as (b & P1 & _). cbn [rbind]. rewrite P1. by eexists.
  - specialize (Hb eq_refl). rewrite bin_capacity by done.
    destruct (Z.leb_spec (256 ^ nbytes) units); [lia|by eexists].
Qed.

(** Every prefix of one to six decimal digits or one or two binary bytes meets
    the contract. *)
Lemma varLen_contract name digits nbytes r :
  length_ok (varLen name digits nbytes r) = true -> LengthContract (varLen name digits nbytes r).
Proof.
  intros Hok. destruct (length_ok_width _ _ _ _ Hok) as (Hw & _). split.
  - intros src off def Ho. rewrite ReadLen_prefix. cbv zeta.
    destruct (Z.ltb_spec (len src) (off + prefix_width digits nbytes r)); [done|].
    rewrite slice_ok by lia. cbn [rbind].
    pose proof (prefix_value_total digits r (take (Z.to_nat (off + prefix_width digits nbytes r - off)) (drop (Z.to_nat off) src))).
    by destruct (prefix_value _ _ _).
  - intros src off def u next Ho. rewrite ReadLen_prefix. cbv zeta.
    destruct (Z.ltb_spec (len src) (off + prefix_width digits nbytes r)); [done|]. intros HR. go_inv.
    apply slice_Ok_inv in HR0 as (_ & _ & L & _).
    apply (prefix_value_bound name digits nbytes r def) in HR1; [|done|lia]. split_and!; try lia.
  - intros dst units def out HW. apply WriteLen_prefix in HW as (p & -> & L & V); [|done].
    exists p. split; [done|]. intros pre post. rewrite ReadLen_prefix. cbv zeta. rewrite <- L.
    destruct (prefix_slice pre p post (len pre + len p) eq_refl) as [S1 S2].
    rewrite S1, S2. cbn [rbind]. rewrite V. done.
  - intros. by apply WriteLen_accepts.
  - intros src off def u next p pre post Ho. rewrite !ReadLen_prefix. cbv zeta.
    destruct (Z.ltb_spec (len src) (off + prefix_width digits nbytes r)); [done|]. intros HR HS. go_inv.
    rewrite HS in HR0. injection HR0 as <-. apply slice_Ok_inv in HS as (_ & _ & L & _).
    replace (prefix_width digits nbytes r) with (len p) by lia.
    destruct (prefix_slice pre p post (len pre + len p) eq_refl) as [S1 S2].
    rewrite S1, S2. cbn [rbind]. by rewrite HR1.
  - intros dst units def. unfold WriteLen. repeat case_match; try done;
      repeat (match goal with |- context [decimalPad ?a ?b] => destruct (decimalPad a b); cbn [rbind]; try done
              | |- context [Pack ?a] => destruct (Pack a); cbn [rbind rmap_err]; try done end).
Qed.

Lemma length_ok_contract l : length_ok l = true -> LengthContract l.
Proof. destruct l; [intros; apply _|]. apply varLen_contract. Qed.

(** every codec of the length catalogue round-trips and stays in bounds.
    Reading never panics inside the buffer, advances within it and yields at
    most the prefix's capacity; every count up to the capacity can be written;
    and reading a written prefix, wherever it stands in a buffer, gives the
    count back. *)
Theorem length_catalogue_contract l : l ∈ length_All -> LengthContract l.
Proof.
  intros Hl. apply length_ok_contract. unfold length_All in Hl. repeat (apply elem_of_cons in Hl as [->|Hl]; [reflexivity|]).
  by apply not_elem_of_nil in Hl.
Qed.

Lemma length_catalogue_contract_witness :
  ReadLen LLVarBCD (go "AB" ++ [x19] ++ go "CD") 2 (field_def (DE 2) [] KindNumeric None None 19 None) = Ok (19, 3).
Proof.
  assert (HC : LengthContract LLVarBCD).
  { apply length_catalogue_contract. vm_compute. do 6 apply list_elem_of_further. apply list_elem_of_here. }
  assert (HW : WriteLen LLVarBCD [] 19 (field_def (DE 2) [] KindNumeric None None 19 None) = Ok ([] ++ [x19])) by reflexivity.
  destruct HC as [_ _ HC _ _ _]. destruct (HC _ _ _ _ HW) as (p & E & R).
  rewrite app_inv_head_iff in E. rewrite <- E in R. exact (R (go "AB") (go "CD")).
Defined.
