(* ===== verification/BitmapCodec.v ===== *)
(** * Bitmap wire codecs ([fieldcodec/bitmap.go])

    A bitmap is written as one to three 64-bit words, each in binary, ASCII
    hexadecimal or EBCDIC hexadecimal; the most significant bit of a word says
    that another follows. *)

From S2P Require Import Prelude Errors Strconv Ebcdic Path Schema Bitmap.

Definition contMSB : Z := Z.shiftl 1 63.

(** [levelWords]: the words with their continuation bits, and how many to write. *)
Definition levelWords (bm : Bitmap) (maxLevels : Z) : Bitmap * Z :=
  let w0 := Word bm 0 in let w1 := Word bm 1 in let w2 := Word bm 2 in
  let need3 := negb (w2 =? 0) && (3 <=? maxLevels) in
  let need2 := (negb (w1 =? 0) || need3) && (2 <=? maxLevels) in
  let w0' := if need2 then Z.lor w0 contMSB else w0 in
  let w1' := if need3 then Z.lor w1 contMSB else w1 in
  (mkBitmap w0' w1' w2, if need3 then 3 else if need2 then 2 else 1).

(** The interface [wordRepr]. *)
Definition wireLen (r : BitmapCodec) : Z :=
  match r with binWord => 8 | hexWord | ebcdicWord => 16 end.

Definition upperHex_byte (c : byte) : byte :=
  if (97 <=? bz c) && (bz c <=? 102) then zb (bz c - 97 + 65) else c.
Definition upperHex (b : bytes) : bytes := upperHex_byte <$> b.

Definition put (r : BitmapCodec) (dst : bytes) (w : Z) : bytes :=
  match r with
  | binWord => dst ++ be_put 8 w
  | hexWord => dst ++ upperHex (hex_encode (be_put 8 w))
  | ebcdicWord => dst ++ Encode CP037 (upperHex (hex_encode (be_put 8 w)))
  end.

Definition get (r : BitmapCodec) (src : bytes) : option Z :=
  match r with
  | binWord => Some (be_get src)
  | hexWord => match hex_decode src with Ok raw => Some (be_get raw) | _ => None end
  | ebcdicWord => match hex_decode (Decode CP037 src) with Ok raw => Some (be_get raw) | _ => None end
  end.

(** The loop of [ReadBitmap] at [level], with [k] levels left of the three. *)
Fixpoint read_levels (r : BitmapCodec) (src : bytes) (maxLevels : Z) (k : nat)
    (level off : Z) (bm : Bitmap) : result (Bitmap * Z) :=
  match k with
  | O => Ok (bm, off)
  | S k' =>
      let wl := wireLen r in
      if (off <? 0) || (len src <? off) || (len src - off <? wl) then Err fc_ErrShortBitmap else
      let! win := slice src off (off + wl) in
      match get r win with
      | None => Err fc_ErrBadHex
      | Some w =>
          let bm' := SetWord bm level w in
          let off' := off + wl in
          if (Z.land w contMSB =? 0) || (maxLevels <=? level + 1) then Ok (bm', off')
          else read_levels r src maxLevels k' (level + 1) off' bm'
      end
  end.

Definition ReadBitmap (r : BitmapCodec) (src : bytes) (off maxLevels : Z) : result (Bitmap * Z) :=
  read_levels r src maxLevels 3 0 off empty_bitmap.

(** The loop of [WriteBitmap]: words [i], ..., [i + k - 1]. *)
Fixpoint write_levels (r : BitmapCodec) (w : Bitmap) (k : nat) (i : Z) (dst : bytes) : bytes :=
  match k with
  | O => dst
  | S k' => write_levels r w k' (i + 1) (put r dst (Word w i))
  end.

Definition WriteBitmap (r : BitmapCodec) (dst : bytes) (bm : Bitmap) (maxLevels : Z) : result bytes :=
  let '(w, n) := levelWords bm maxLevels in Ok (write_levels r w (Z.to_nat n) 0 dst).

Definition bitmap_Name (r : BitmapCodec) : bytes :=
  match r with binWord => go "bitmap.bin" | hexWord => go "bitmap.hex" | ebcdicWord => go "bitmap.ebcdic" end.

(** ** One word *)

(** What a representation promises: a word occupies [wireLen] bytes and reads
    back. *)
Class WordContract (r : BitmapCodec) : Prop := {
  wc_len : forall dst w, len (put r dst w) = len dst + wireLen r;
  wc_app : forall dst w, put r dst w = dst ++ put r [] w;
  wc_get : forall w, uint64 w -> get r (put r [] w) = Some w;
  wc_range : forall src w, len src = wireLen r -> get r src = Some w -> uint64 w;
}.

Lemma hex_digit_facts c :
  upperHex_byte (hex_digit (Z.shiftr (bz c) 4)) = upper (hex_digit (Z.shiftr (bz c) 4)) /\
  upperHex_byte (hex_digit (Z.land (bz c) 15)) = upper (hex_digit (Z.land (bz c) 15)) /\
  ascii_ok cp037Extra (upper (hex_digit (Z.shiftr (bz c) 4))) = true /\
  ascii_ok cp037Extra (upper (hex_digit (Z.land (bz c) 15))) = true.
Proof. destruct c; vm_compute; repeat split. Qed.

Lemma upperHex_encode b : upperHex (hex_encode b) = ToUpper (hex_encode b).
Proof.
  induction b as [|c b IH]; [done|]. cbn [hex_encode].
  destruct (hex_digit_facts c) as (H1 & H2 & _).
  unfold upperHex, ToUpper in *. cbn [fmap list_fmap]. by rewrite H1, H2, IH.
Qed.

Lemma upper_hex_covered b : forallb (ascii_ok cp037Extra) (ToUpper (hex_encode b)) = true.
Proof.
  induction b as [|c b IH]; [done|]. cbn [hex_encode].
  destruct (hex_digit_facts c) as (_ & _ & H1 & H2).
  unfold ToUpper in *. cbn [fmap list_fmap forallb]. by rewrite H1, H2, IH.
Qed.

Lemma len_upperHex b : len (upperHex b) = len b.
Proof. apply len_fmap. Qed.
#[export] Hint Rewrite len_upperHex len_hex_encode len_be_put : len.

Lemma be_get_put8 w : uint64 w -> be_get (be_put 8 w) = w.
Proof. intros. apply be_get_put. exact H. Qed.

Lemma be_get_uint64 b : len b = 8 -> uint64 (be_get b).
Proof. intros H. pose proof (be_get_bound b) as B. rewrite H in B. exact B. Qed.

#[export] Instance word_contract r : WordContract r.
Proof.
  split.
  - intros. destruct r; cbn [put wireLen]; len_simpl; lia.
  - intros. destruct r; cbn [put]; by rewrite app_nil_l.
  - intros w Hw. destruct r; cbn [put get app].
    + by rewrite be_get_put8.
    + by rewrite upperHex_encode, hex_decode_upper, be_get_put8.
    + by rewrite upperHex_encode, Decode_Encode037, hex_decode_upper, be_get_put8 by (done || apply upper_hex_covered).
  - intros src w Hl. destruct r; cbn [get wireLen] in *.
    + intros [= <-]. by apply be_get_uint64.
    + destruct (hex_decode src) as [raw| |] eqn:E; [|done|done]. intros [= <-].
      apply hex_decode_len in E. apply be_get_uint64. lia.
    + destruct (hex_decode _) as [raw| |] eqn:E; [|done|done]. intros [= <-].
      apply hex_decode_len in E. rewrite len_Decode in E. apply be_get_uint64. lia.
Qed.

Lemma len_put0 r w : len (put r [] w) = wireLen r.
Proof. rewrite wc_len. change (len []) with 0. lia. Qed.

Lemma wireLen_pos r : 8 <= wireLen r.
Proof. destruct r; cbn; lia. Qed.

(** ** Continuation bits *)

Lemma cont_land w : negb (Z.land w contMSB =? 0) = Z.testbit w 63.
Proof. apply land_mask_testbit. lia. Qed.

Lemma cont_clear w : Z.testbit w 63 = false -> (Z.land w contMSB =? 0) = true.
Proof. intros H. rewrite <- cont_land in H. by apply negb_false_iff in H. Qed.

Lemma cont_set w : (Z.land (Z.lor w contMSB) contMSB =? 0) = false.
Proof.
  apply negb_true_iff. rewrite cont_land, Z.lor_spec. apply orb_true_iff. right. reflexivity.
Qed.

(** The first two words' top bits are elements 1 and 65. *)
Lemma IsSet_top b : IsSet b 1 = Z.testbit (word0 b) 63 /\ IsSet b 65 = Z.testbit (word1 b) 63.
Proof. rewrite !IsSet_bit. split; reflexivity. Qed.

(** Reading one level. *)
Lemma read_levels_step r pre w post ml k level bm :
  uint64 w ->
  read_levels r (pre ++ put r [] w ++ post) ml (S k) level (len pre) bm =
    if (Z.land w contMSB =? 0) || (ml <=? level + 1)
    then Ok (SetWord bm level w, len pre + wireLen r)
    else read_levels r (pre ++ put r [] w ++ post) ml k (level + 1) (len pre + wireLen r) (SetWord bm level w).
Proof.
  intros Hw. cbn [read_levels]. pose proof (wireLen_pos r). pose proof (len_nonneg pre). pose proof (len_nonneg post).
  assert (len (pre ++ put r [] w ++ post) = len pre + wireLen r + len post) as HL
    by (rewrite !len_app, len_put0; lia).
  rewrite HL. rewrite !(proj2 (Z.ltb_ge _ _)) by lia. cbn [orb].
  rewrite slice_mid by (rewrite ?len_put0; lia). cbn [rbind]. by rewrite wc_get.
Qed.

(** The wire form of the first [k] words. *)
Lemma write_levels_app r w k i dst : write_levels r w k i dst = dst ++ write_levels r w k i [].
Proof.
  revert i dst. induction k as [|k IH]; intros i dst; cbn [write_levels]; [by rewrite app_nil_r|].
  rewrite IH, (IH _ (put r [] _)), wc_app. by rewrite <- app_assoc.
Qed.

Lemma WriteBitmap_app r dst bm ml : WriteBitmap r dst bm ml =
  let! w := WriteBitmap r [] bm ml in Ok (dst ++ w).
Proof. unfold WriteBitmap. destruct (levelWords bm ml). cbn. by rewrite write_levels_app. Qed.

(** What must hold of the presence set for its bitmap to be faithful: it fits
    the configured levels and leaves the continuation bits alone. *)
Record presence_ok (bm : Bitmap) (ml : Z) : Prop := {
  po_ok : bitmap_ok bm;
  po_levels : 1 <= ml <= 3;
  po_cont1 : IsSet bm 1 = false;
  po_cont65 : IsSet bm 65 = false;
  po_fits1 : ml = 1 -> word1 bm = 0;
  po_fits2 : ml <= 2 -> word2 bm = 0;
}.

Lemma uint64_cont w : uint64 w -> uint64 (Z.lor w contMSB).
Proof. intros. apply uint64_lor_mask; [done|lia]. Qed.

(** Reading back what was written gives the words written. *)
Lemma read_write_levels r bm ml pre post :
  presence_ok bm ml ->
  exists wire, WriteBitmap r [] bm ml = Ok wire /\
    ReadBitmap r (pre ++ wire ++ post) (len pre) ml = Ok (fst (levelWords bm ml), len pre + len wire).
Proof.
  intros [(U0 & U1 & U2) Hml C1 C65 F1 F2]. unfold WriteBitmap, ReadBitmap.
  destruct (IsSet_top bm) as [T1 T65]. rewrite C1 in T1. rewrite C65 in T65. symmetry in T1, T65.
  apply cont_clear in T1, T65. unfold levelWords. change (Word bm 0) with (word0 bm).
  change (Word bm 1) with (word1 bm). change (Word bm 2) with (word2 bm).
  destruct (Z.eqb_spec (word2 bm) 0) as [E2|E2]; cbn [negb andb].
  - destruct (Z.eqb_spec (word1 bm) 0) as [E1|E1]; cbn [negb andb orb].
    + (* one level *)
      eexists; split; [reflexivity|]. change (Z.to_nat 1) with 1%nat. cbn [write_levels fst].
      change (Word (mkBitmap ?a _ _) 0) with a. rewrite read_levels_step by done.
      rewrite T1. cbn [orb]. rewrite len_put0. unfold SetWord, empty_bitmap. cbn. by rewrite E1, E2.
    + (* two levels *)
      destruct (Z.leb_spec 2 ml); [|exfalso; apply E1, F1; lia].
      eexists; split; [reflexivity|]. change (Z.to_nat 2) with 2%nat. cbn [write_levels fst].
      change (Word (mkBitmap _ ?b _) (0 + 1)) with b. change (Word (mkBitmap ?a _ _) 0) with a.
      rewrite (wc_app (put r [] _)), <- app_assoc.
      rewrite read_levels_step by (by apply uint64_cont).
      rewrite cont_set. destruct (Z.leb_spec ml (0 + 1)); [lia|]. cbn [orb].
      rewrite app_assoc, <- (len_put0 r (Z.lor (word0 bm) contMSB)), <- len_app.
      rewrite read_levels_step by done. rewrite T65. cbn [orb].
      unfold SetWord, empty_bitmap. cbn [Z.eqb word0 word1 word2 Z.add Pos.eqb Pos.add].
      rewrite E2. f_equal. f_equal. rewrite !len_app, !len_put0. lia.
  - destruct (Z.leb_spec 3 ml); [|exfalso; apply E2, F2; lia]. cbn [negb andb orb].
    rewrite orb_true_r. destruct (Z.leb_spec 2 ml); [|lia]. cbn [andb].
    eexists; split; [reflexivity|]. change (Z.to_nat 3) with 3%nat. cbn [write_levels fst].
    change (Word (mkBitmap ?a _ _) 0) with a. change (Word (mkBitmap _ ?b _) (0 + 1)) with b.
    change (Word (mkBitmap _ _ ?c) (0 + 1 + 1)) with c.
    rewrite (wc_app (put r (put r [] _) _)), (wc_app (put r [] _)), <- !app_assoc.
    rewrite read_levels_step by (by apply uint64_cont).
    rewrite cont_set. destruct (Z.leb_spec ml (0 + 1)); [lia|]. cbn [orb].
    rewrite app_assoc, <- (len_put0 r (Z.lor (word0 bm) contMSB)), <- len_app.
    rewrite read_levels_step by (by apply uint64_cont).
    rewrite cont_set. destruct (Z.leb_spec ml (0 + 1 + 1)); [lia|]. cbn [orb].
    rewrite app_assoc, <- (len_put0 r (Z.lor (word1 bm) contMSB)), <- len_app.
    rewrite read_levels_step by done. destruct (Z.leb_spec ml (0 + 1 + 1 + 1)); [|lia].
    rewrite orb_true_r. unfold SetWord, empty_bitmap. cbn [Z.eqb word0 word1 word2 Z.add Pos.eqb Pos.add].
    f_equal. f_equal. rewrite !len_app, !len_put0. lia.
Qed.

(** ** Reading arbitrary bytes *)

Lemma read_levels_total r src ml k level off bm : read_levels r src ml k level off bm <> Panic.
Proof.
  revert level off bm. induction k as [|k IH]; intros level off bm; [done|]. cbn [read_levels].
  destruct (_ || _ || _) eqn:G; [done|]. bool_to_prop. pose proof (wireLen_pos r).
  rewrite slice_ok by lia. cbn [rbind]. destruct (get r _); [|done]. case_match; [done|apply IH].
Qed.

Lemma read_levels_bounds r src ml k level off bm bm' next :
  bitmap_ok bm -> read_levels r src ml k level off bm = Ok (bm', next) ->
  off <= next /\ (k <> 0%nat -> 0 <= off /\ off + 8 <= next <= len src) /\ bitmap_ok bm'.
Proof.
  revert level off bm. induction k as [|k IH]; intros level off bm Hb; cbn [read_levels].
  - by intros [= <- <-].
  - destruct (_ || _ || _) eqn:G; [done|]. bool_to_prop. pose proof (wireLen_pos r).
    rewrite slice_ok by lia. cbn [rbind]. destruct (get r _) as [w|] eqn:E; [|done].
    assert (uint64 w).
    { eapply wc_range; [|exact E]. unfold len in *. rewrite length_take, length_drop. lia. }
    destruct (_ || _).
    + intros [= <- <-]. split_and!; [lia|lia|by apply SetWord_ok].
    + intros HR. destruct k as [|k].
      * injection HR as <- <-. split_and!; [lia|lia|by apply SetWord_ok].
      * apply IH in HR as (I1 & I2 & I3); [|by apply SetWord_ok].
        specialize (I2 ltac:(done)). split_and!; [lia|lia|done].
Qed.

Lemma ReadBitmap_total r src off ml : ReadBitmap r src off ml <> Panic.
Proof. apply read_levels_total. Qed.

Lemma ReadBitmap_bounds r src off ml bm next : ReadBitmap r src off ml = Ok (bm, next) ->
  0 <= off /\ off + 8 <= next <= len src /\ bitmap_ok bm.
Proof.
  intros H. apply read_levels_bounds in H as (_ & H & ?); [|apply empty_bitmap_ok].
  specialize (H ltac:(done)). split_and!; [lia|lia|lia|done].
Qed.

(** The words written are the presence set with its continuation bits. *)
Lemma levelWords_BSet bm ml : presence_ok bm ml ->
  let w := fst (levelWords bm ml) in
  bitmap_ok w /\ forall de, de <> 1 -> de <> 65 -> IsSet w de = IsSet bm de.
Proof.
  intros [(U0 & U1 & U2) _ _ _ _ _]. unfold levelWords. cbn [fst].
  change (Word bm 0) with (word0 bm). change (Word bm 1) with (word1 bm). change (Word bm 2) with (word2 bm).
  set (need3 := negb (word2 bm =? 0) && (3 <=? ml)).
  set (need2 := (negb (word1 bm =? 0) || need3) && (2 <=? ml)).
  assert (mkBitmap (if need2 then Z.lor (word0 bm) contMSB else word0 bm)
            (if need3 then Z.lor (word1 bm) contMSB else word1 bm) (word2 bm)
          = (let b := if need2 then BSet bm 1 else bm in if need3 then BSet b 65 else b)) as ->.
  { destruct need2, need3, bm; reflexivity. }
  cbv zeta. assert (bitmap_ok bm) as Hb by done. split.
  - destruct need2, need3; auto using BSet_ok.
  - intros de H1 H65. destruct need2, need3; rewrite ?IsSet_BSet;
      rewrite ?(proj2 (Z.eqb_neq 1 de)), ?(proj2 (Z.eqb_neq 65 de)) by lia;
      rewrite ?andb_false_r; reflexivity.
Qed.

Lemma read_write_bitmap r bm ml pre post :
  presence_ok bm ml ->
  exists wire bm', WriteBitmap r [] bm ml = Ok wire /\
    ReadBitmap r (pre ++ wire ++ post) (len pre) ml = Ok (bm', len pre + len wire) /\
    Range bm' = Range bm.
Proof.
  intros H. destruct (read_write_levels r bm ml pre post H) as (wire & W & R).
  exists wire, (fst (levelWords bm ml)). split_and!; [done|done|].
  destruct (levelWords_BSet bm ml H) as [Ho Hs]. pose proof (po_ok _ _ H).
  rewrite !Range_filter by done. apply filter_ext. intros de. unfold is_cont, contSecondary, contTertiary.
  destruct (Z.eqb_spec de 1), (Z.eqb_spec de 65); cbn [orb negb]; rewrite ?andb_false_r; try done.
  by rewrite Hs.
Qed.

(** The wire bitmap is faithful.  When the present elements fit the levels
    and avoid the continuation bits, the bitmap written (in any of the three
    representations, anywhere in a buffer) reads back, consuming exactly what
    was written, to a bitmap that iterates over exactly the present elements. *)
Theorem bitmap_roundtrip r bm ml pre post :
  presence_ok bm ml ->
  exists wire bm', WriteBitmap r [] bm ml = Ok wire /\
    ReadBitmap r (pre ++ wire ++ post) (len pre) ml = Ok (bm', len pre + len wire) /\
    Range bm' = Range bm.
Proof. apply read_write_bitmap. Qed.

Lemma bitmap_roundtrip_witness :
  exists wire bm', WriteBitmap hexWord [] (BSet (BSet empty_bitmap 2) 70) 2 = Ok wire /\
    ReadBitmap hexWord (go "0200" ++ wire ++ go "tail") 4 2 = Ok (bm', 4 + len wire) /\ Range bm' = [2; 70].
Proof.
  destruct (bitmap_roundtrip hexWord (BSet (BSet empty_bitmap 2) 70) 2 (go "0200") (go "tail"))
    as (wire & bm' & W & R & G).
  - split; [vm_compute; repeat split; congruence|split; discriminate|reflexivity|reflexivity|discriminate|reflexivity].
  - exists wire, bm'. split; [exact W|]. split; [exact R|]. rewrite G. vm_compute. reflexivity.
Defined.
