(* ===== verification/Value.v ===== *)
(** * Values ([iso8583/value.go])

    A value is its canonical bytes with their interpretation; a composite value
    points to its child message, a location of the message store (see
    [Message]).  The typed getters report a [FieldError] at the value's offset. *)

From S2P Require Import Prelude Errors Strconv Decimal Path Schema.

(** A [*Message] held by a value: an index into the message store. *)
Abbreviation loc := nat.

Record Value := mkValue {
  v_raw : bytes;
  v_kind : Kind;
  v_codec : option FieldCodec;
  v_off : Z;
  v_sub : option loc;
  v_dec : Decimal;
}.

#[export] Instance Value_EqDecision : EqDecision Value.
Proof. solve_decision. Defined.

Definition zeroDecimal : Decimal := mkDecimal 0 0.

(** [Value{}]. *)
Definition zeroValue : Value := mkValue [] KindInvalid None 0 None zeroDecimal.

Definition Value_IsZero (v : Value) : bool := bool_decide (v_kind v = KindInvalid).

(** [BytesCopy]: fresh storage, the same bytes. *)
Definition BytesCopy (v : Value) : bytes := v_raw v.

Definition fieldErr (v : Value) (cause : error) : error := FieldError empty_path (v_off v) [] cause.

Definition Value_String (v : Value) : result bytes :=
  match v_kind v with
  | KindString | KindNumeric | KindBytes => Ok (v_raw v)
  | KindAmount => Ok (DString (v_dec v))
  | _ => Err (fieldErr v errNotText)
  end.

Definition parseInt (b : bytes) : result Z :=
  if len b =? 0 then Err errNotNumeric else ParseInt 64 b.

Definition parseUint (b : bytes) : result Z :=
  if len b =? 0 then Err errNotNumeric else ParseUint 64 b.

Definition Value_Int (v : Value) : result Z :=
  match v_kind v with
  | KindNumeric | KindString => rmap_err (fieldErr v) (parseInt (v_raw v))
  | KindAmount => Ok (Unscaled (v_dec v))
  | _ => Err (fieldErr v errNotNumeric)
  end.

Definition Value_Uint (v : Value) : result Z :=
  match v_kind v with
  | KindNumeric | KindString => rmap_err (fieldErr v) (parseUint (v_raw v))
  | _ => Err (fieldErr v errNotNumeric)
  end.

Definition Value_Decimal (v : Value) : result Decimal :=
  match v_kind v with
  | KindAmount => Ok (v_dec v)
  | KindNumeric =>
      let! n := rmap_err (fieldErr v) (parseInt (v_raw v)) in Ok (mkDecimal n 0)
  | _ => Err (fieldErr v errWrongKind)
  end.

Definition Value_Composite (v : Value) : option loc :=
  if bool_decide (v_kind v = KindComposite) then v_sub v else None.

(** The constructors the codec packages use. *)
Definition StringValue (raw : bytes) : Value := mkValue raw KindString None (-1) None zeroDecimal.
Definition NumericValue (raw : bytes) : Value := mkValue raw KindNumeric None (-1) None zeroDecimal.
Definition BytesValue (raw : bytes) : Value := mkValue raw KindBytes None (-1) None zeroDecimal.
Definition AmountValue (dec : Decimal) (raw : bytes) : Value := mkValue raw KindAmount None (-1) None dec.
Definition CompositeValue (raw : bytes) (sub : option loc) : Value :=
  mkValue raw KindComposite None (-1) sub zeroDecimal.

(** Field updates [v.codec = c], [v.off = o]. *)
Definition set_v_codec (v : Value) (c : option FieldCodec) : Value :=
  mkValue (v_raw v) (v_kind v) c (v_off v) (v_sub v) (v_dec v).
Definition set_v_off (v : Value) (o : Z) : Value :=
  mkValue (v_raw v) (v_kind v) (v_codec v) o (v_sub v) (v_dec v).
Definition set_v_sub (v : Value) (s : option loc) : Value :=
  mkValue (v_raw v) (v_kind v) (v_codec v) (v_off v) s (v_dec v).

Lemma parseInt_not_Panic b : parseInt b <> Panic.
Proof. unfold parseInt. case_match; [done|apply ParseInt_not_Panic]. Qed.
Lemma parseUint_not_Panic b : parseUint b <> Panic.
Proof. unfold parseUint. case_match; [done|apply ParseUint_not_Panic]. Qed.

Lemma Value_Decimal_not_Panic v : Value_Decimal v <> Panic.
Proof.
  unfold Value_Decimal. pose proof (parseInt_not_Panic (v_raw v)).
  case_match; try done. by destruct (parseInt (v_raw v)).
Qed.

Lemma Value_Uint_not_Panic v : Value_Uint v <> Panic.
Proof.
  unfold Value_Uint. pose proof (parseUint_not_Panic (v_raw v)).
  case_match; try done; by destruct (parseUint (v_raw v)).
Qed.
