(* ===== verification/FieldCodec.v ===== *)
(** * Scalar value codecs ([fieldcodec])

    The body encodings of text, binary, numeric and amount fields, one
    definition per method, and the dispatch over the catalogue.  The two
    composite codecs are in [Codec], which ties the recursion through
    sub-messages.  [ScalarContract] is what the message engine relies on. *)

From S2P Require Import Prelude Errors Strconv Bcd Ebcdic Decimal Path Schema BitmapCodec Value.

(** ** Shared helpers ([fieldcodec/fieldcodec.go]) *)

Definition digitCount (units : Z) (def : FieldDef) : Z :=
  if 0 <? units then units
  else if 0 <? fd_MaxLen def then fd_MaxLen def
  else 0.

Definition isFixed (def : FieldDef) : bool :=
  match fd_Length def with None => 0 <? fd_MaxLen def | Some _ => false end.

Definition padFixed (b : bytes) (def : FieldDef) (pad : byte) (left : bool) : result bytes :=
  if negb (isFixed def) then Ok b
  else if fd_MaxLen def <? len b then Err fc_ErrTooLong
  else if len b =? fd_MaxLen def then Ok b
  else
    let gap := Z.to_nat (fd_MaxLen def - len b) in
    Ok (if left then replicate gap pad ++ b else b ++ replicate gap pad).

(** ** Text and binary ([fieldcodec/char.go], [fieldcodec/hex.go]) *)

(** [ascii.EncodeBody] and [utf8Char.EncodeBody]. *)
Definition ascii_EncodeBody (dst : bytes) (v : Value) (def : FieldDef) : result bytes :=
  let! b := padFixed (v_raw v) def (zb 32) false in Ok (dst ++ b).
Definition ascii_DecodeBody (body : bytes) : result Value := Ok (StringValue body).

Definition utf8Char_EncodeBody (dst : bytes) (v : Value) (def : FieldDef) : result bytes :=
  let! b := padFixed (v_raw v) def (zb 32) false in Ok (dst ++ b).
Definition utf8Char_DecodeBody (body : bytes) : result Value := Ok (StringValue body).

Definition ebcdicChar_EncodeBody (tbl : Table) (dst : bytes) (v : Value) (def : FieldDef) : result bytes :=
  let! b := padFixed (v_raw v) def (zb 32) false in Ok (dst ++ Encode tbl b).
Definition ebcdicChar_DecodeBody (tbl : Table) (body : bytes) : result Value :=
  Ok (StringValue (Decode tbl body)).

Definition binaryRaw_EncodeBody (dst : bytes) (v : Value) (def : FieldDef) : result bytes :=
  let! b := padFixed (v_raw v) def x00 false in Ok (dst ++ b).
Definition binaryRaw_DecodeBody (body : bytes) : result Value := Ok (BytesValue body).

Definition hexBinary_EncodeBody (dst : bytes) (v : Value) (def : FieldDef) : result bytes :=
  let! octets := padFixed (v_raw v) def x00 false in
  Ok (dst ++ upperHex (hex_encode octets)).
Definition hexBinary_DecodeBody (body : bytes) : result Value :=
  let! out := rmap_err (fun _ => fc_ErrBadHex) (hex_decode body) in Ok (BytesValue out).

(** ** Numerics ([fieldcodec/numeric.go]) *)

Definition numASCII_EncodeBody (dst : bytes) (v : Value) (def : FieldDef) : result bytes :=
  let! b := padFixed (v_raw v) def (zb 48) true in Ok (dst ++ b).
Definition numASCII_DecodeBody (body : bytes) : result Value := Ok (NumericValue body).

Definition numEBCDIC_EncodeBody (dst : bytes) (v : Value) (def : FieldDef) : result bytes :=
  let! b := padFixed (v_raw v) def (zb 48) true in Ok (dst ++ Encode CP037 b).
Definition numEBCDIC_DecodeBody (body : bytes) : result Value := Ok (NumericValue (Decode CP037 body)).

Definition bcdNum_EncodeBody (dst : bytes) (v : Value) (def : FieldDef) : result bytes :=
  let! digits := padFixed (v_raw v) def (zb 48) true in
  let! packed := rmap_err (fun _ => fc_ErrNonDigit) (Pack digits) in
  Ok (dst ++ packed).
Definition bcdNum_DecodeBody (body : bytes) (units : Z) (def : FieldDef) : result Value :=
  let! digits := Unpack body (digitCount units def) in Ok (NumericValue digits).

Definition rbcdNum_EncodeBody (dst : bytes) (v : Value) (def : FieldDef) : result bytes :=
  let! digits := padFixed (v_raw v) def (zb 48) true in
  let! packed := rmap_err (fun _ => fc_ErrNonDigit) (PackRight digits) in
  Ok (dst ++ packed).
Definition rbcdNum_DecodeBody (body : bytes) (units : Z) (def : FieldDef) : result Value :=
  let! digits := UnpackRight body (digitCount units def) in Ok (NumericValue digits).

(** [n = n<<8 | uint64(c)] over the body. *)
Definition read_uint64 (b : bytes) : Z :=
  fold_left (fun n c => wrapu64 (Z.lor (Z.shiftl n 8) (bz c))) b 0.

(** [buf[i] = byte(n); n >>= 8], from the last byte, in [width] bytes. *)
Definition bin_width (def : FieldDef) : Z := if fd_MaxLen def <=? 0 then 8 else fd_MaxLen def.

Definition binNum_EncodeBody (dst : bytes) (v : Value) (def : FieldDef) : result bytes :=
  let! n := Value_Uint v in Ok (dst ++ be_put (Z.to_nat (bin_width def)) n).
Definition binNum_DecodeBody (body : bytes) : result Value :=
  Ok (NumericValue (FormatUint (read_uint64 body))).

(** ** Amounts ([fieldcodec/amount.go]) *)

(** The decimal of a value at the field's scale, rejected when negative. *)
Definition amount_unscaled (v : Value) (def : FieldDef) : result Z :=
  let! d := Value_Decimal v in
  let! d := Rescale d (fd_Scale def) in
  if Unscaled d <? 0 then Err fc_ErrNegative else Ok (Unscaled d).

Definition amountDigits (v : Value) (def : FieldDef) : result bytes :=
  let! n := amount_unscaled v def in Ok (FormatInt n).

Definition amountASCII_EncodeBody (dst : bytes) (v : Value) (def : FieldDef) : result bytes :=
  let! digits := amountDigits v def in
  let! b := padFixed digits def (zb 48) true in
  Ok (dst ++ b).
Definition amountASCII_DecodeBody (body : bytes) (def : FieldDef) : result Value :=
  let! n := rmap_err (fun _ => fc_ErrNonDigit) (ParseInt 64 body) in
  Ok (AmountValue (NewDecimal n (fd_Scale def)) body).

Definition amountBCD_EncodeBody (dst : bytes) (v : Value) (def : FieldDef) : result bytes :=
  let! digits := amountDigits v def in
  let! digits := padFixed digits def (zb 48) true in
  let! packed := rmap_err (fun _ => fc_ErrNonDigit) (Pack digits) in
  Ok (dst ++ packed).
Definition amountBCD_DecodeBody (body : bytes) (units : Z) (def : FieldDef) : result Value :=
  let! digits := Unpack body (digitCount units def) in
  let! n := rmap_err (fun _ => fc_ErrNonDigit) (ParseInt 64 digits) in
  Ok (AmountValue (NewDecimal n (fd_Scale def)) digits).

Definition amountBinary_EncodeBody (dst : bytes) (v : Value) (def : FieldDef) : result bytes :=
  let! n := amount_unscaled v def in
  Ok (dst ++ be_put (Z.to_nat (bin_width def)) n).
Definition amountBinary_DecodeBody (body : bytes) (def : FieldDef) : result Value :=
  Ok (AmountValue (NewDecimal (wrap64 (read_uint64 body)) (fd_Scale def)) body).

(** ** Dispatch *)

Definition is_composite_codec (c : FieldCodec) : bool :=
  match c with berTLV | packager => true | _ => false end.

(** [c.EncodeBody] and [c.DecodeBody] of the scalar codecs; the composite ones
    are not dispatched here. *)
Definition EncodeScalar (c : FieldCodec) (dst : bytes) (v : Value) (def : FieldDef) : result bytes :=
  match c with
  | ascii => ascii_EncodeBody dst v def
  | ebcdic037 => ebcdicChar_EncodeBody CP037 dst v def
  | ebcdic1047 => ebcdicChar_EncodeBody CP1047 dst v def
  | utf8Char => utf8Char_EncodeBody dst v def
  | binaryRaw => binaryRaw_EncodeBody dst v def
  | hexBinary => hexBinary_EncodeBody dst v def
  | numASCII => numASCII_EncodeBody dst v def
  | numEBCDIC => numEBCDIC_EncodeBody dst v def
  | bcdNum => bcdNum_EncodeBody dst v def
  | rbcdNum => rbcdNum_EncodeBody dst v def
  | binNum => binNum_EncodeBody dst v def
  | amountASCII => amountASCII_EncodeBody dst v def
  | amountBCD => amountBCD_EncodeBody dst v def
  | amountBinary => amountBinary_EncodeBody dst v def
  | berTLV | packager => Err OutOfFuel
  end.

Definition DecodeScalar (c : FieldCodec) (body : bytes) (units : Z) (def : FieldDef) : result Value :=
  match c with
  | ascii => ascii_DecodeBody body
  | ebcdic037 => ebcdicChar_DecodeBody CP037 body
  | ebcdic1047 => ebcdicChar_DecodeBody CP1047 body
  | utf8Char => utf8Char_DecodeBody body
  | binaryRaw => binaryRaw_DecodeBody body
  | hexBinary => hexBinary_DecodeBody body
  | numASCII => numASCII_DecodeBody body
  | numEBCDIC => numEBCDIC_DecodeBody body
  | bcdNum => bcdNum_DecodeBody body units def
  | rbcdNum => rbcdNum_DecodeBody body units def
  | binNum => binNum_DecodeBody body
  | amountASCII => amountASCII_DecodeBody body def
  | amountBCD => amountBCD_DecodeBody body units def
  | amountBinary => amountBinary_DecodeBody body def
  | berTLV | packager => Err OutOfFuel
  end.

(** [BodyBytes] of the codecs that implement [WidthCodec]. *)
Definition BodyBytes (c : FieldCodec) : option (Z -> Z) :=
  match c with
  | bcdNum | rbcdNum | amountBCD => Some PackedLen
  | hexBinary => Some (fun units => units * 2)
  | _ => None
  end.

(** ** The contract *)

(** The wire width of [units] logical units under a codec. *)
Definition width_of (c : FieldCodec) (units : Z) : Z :=
  match BodyBytes c with Some f => f units | None => units end.

(** The codecs whose body holds exactly the bytes of the value. *)
Definition unit_codec (c : FieldCodec) : bool :=
  match c with
  | ascii | ebcdic037 | ebcdic1047 | utf8Char | binaryRaw | hexBinary
  | numASCII | numEBCDIC | bcdNum | rbcdNum => true
  | _ => false
  end.

Class ScalarContract (c : FieldCodec) : Prop := {
  (** append style: [dst] is only extended *)
  sc_append : forall dst v def,
    EncodeScalar c dst v def = let! body := EncodeScalar c [] v def in Ok (dst ++ body);
  sc_encode_total : forall dst v def, EncodeScalar c dst v def <> Panic;
  sc_decode_total : forall body units def, DecodeScalar c body units def <> Panic;
  (** a fixed field fills exactly its width *)
  sc_fixed : forall v def body, isFixed def = true ->
    EncodeScalar c [] v def = Ok body -> len body = width_of c (fd_MaxLen def);
  (** a variable field's body is as wide as its value's unit count *)
  sc_variable : forall v def body, unit_codec c = true -> isFixed def = false ->
    EncodeScalar c [] v def = Ok body -> len body = width_of c (len (v_raw v));
}.

Lemma padFixed_not_Panic b def pad left : padFixed b def pad left <> Panic.
Proof. unfold padFixed. repeat case_match; done. Qed.

Lemma padFixed_fixed b def pad left b' : isFixed def = true -> padFixed b def pad left = Ok b' ->
  len b' = fd_MaxLen def /\ len b <= fd_MaxLen def /\
  b' = if left then replicate (Z.to_nat (fd_MaxLen def - len b)) pad ++ b
       else b ++ replicate (Z.to_nat (fd_MaxLen def - len b)) pad.
Proof.
  intros Hf. unfold padFixed. rewrite Hf. cbn [negb].
  destruct (Z.ltb_spec (fd_MaxLen def) (len b)); [done|].
  destruct (Z.eqb_spec (len b) (fd_MaxLen def)) as [E|E]; intros [= <-].
  - rewrite <- E, Z.sub_diag. cbn. rewrite app_nil_r. split_and!; [done|lia|by destruct left].
  - split_and!; [destruct left; len_simpl; lia|done|done].
Qed.

Lemma padFixed_variable b def pad left : isFixed def = false -> padFixed b def pad left = Ok b.
Proof. intros Hf. unfold padFixed. by rewrite Hf. Qed.

Lemma isFixed_pos def : isFixed def = true -> 0 < fd_MaxLen def /\ fd_Length def = None.
Proof. unfold isFixed. destruct (fd_Length def); [done|]. intros. bool_to_prop. done. Qed.

Lemma amount_unscaled_not_Panic v def : amount_unscaled v def <> Panic.
Proof.
  unfold amount_unscaled. pose proof (Value_Decimal_not_Panic v).
  destruct (Value_Decimal v) as [d| |]; cbn [rbind]; try done.
  pose proof (Rescale_not_Panic d (fd_Scale def)).
  destruct (Rescale d (fd_Scale def)) as [d'| |]; cbn [rbind]; try done. by case_match.
Qed.

Lemma rmap_err_not_Panic {E E' A} (g : E -> E') (x : res E A) : x <> Panic -> rmap_err g x <> Panic.
Proof. by destruct x. Qed.

(** Unfold the codec methods. *)
Ltac unfold_codecs :=
  unfold ascii_EncodeBody, utf8Char_EncodeBody, ebcdicChar_EncodeBody, binaryRaw_EncodeBody,
    hexBinary_EncodeBody, numASCII_EncodeBody, numEBCDIC_EncodeBody, bcdNum_EncodeBody,
    rbcdNum_EncodeBody, binNum_EncodeBody, amountASCII_EncodeBody, amountBCD_EncodeBody,
    amountBinary_EncodeBody, amountDigits in *.

Ltac unfold_decoders :=
  unfold ascii_DecodeBody, utf8Char_DecodeBody, ebcdicChar_DecodeBody, binaryRaw_DecodeBody,
    hexBinary_DecodeBody, numASCII_DecodeBody, numEBCDIC_DecodeBody, bcdNum_DecodeBody,
    rbcdNum_DecodeBody, binNum_DecodeBody, amountASCII_DecodeBody, amountBCD_DecodeBody,
    amountBinary_DecodeBody in *.

(** Case analysis on the next call of a codec method that cannot panic. *)
Ltac call_total :=
  match goal with
  | |- context [padFixed ?b ?d ?p ?l] =>
      pose proof (padFixed_not_Panic b d p l); destruct (padFixed b d p l)
  | |- context [amount_unscaled ?v ?d] =>
      pose proof (amount_unscaled_not_Panic v d); destruct (amount_unscaled v d)
  | |- context [Value_Uint ?v] => pose proof (Value_Uint_not_Panic v); destruct (Value_Uint v)
  | |- context [Pack ?b] => pose proof (Pack_not_Panic b); destruct (Pack b)
  | |- context [PackRight ?b] => pose proof (PackRight_not_Panic b); destruct (PackRight b)
  | |- context [Unpack ?b ?n] => pose proof (Unpack_not_Panic b n); destruct (Unpack b n)
  | |- context [UnpackRight ?b ?n] => pose proof (UnpackRight_not_Panic b n); destruct (UnpackRight b n)
  | |- context [ParseInt ?k ?b] => pose proof (ParseInt_not_Panic k b); destruct (ParseInt k b)
  | |- context [hex_decode ?b] => pose proof (hex_decode_not_Panic b); destruct (hex_decode b)
  end; cbn [rbind rmap_err]; try done.

Lemma scalar_append c dst v def : is_composite_codec c = false ->
  EncodeScalar c dst v def = let! body := EncodeScalar c [] v def in Ok (dst ++ body).
Proof. destruct c; intros; try done; cbn [EncodeScalar]; unfold_codecs; repeat call_total. Qed.

Lemma scalar_encode_total c dst v def : EncodeScalar c dst v def <> Panic.
Proof. destruct c; try done; cbn [EncodeScalar]; unfold_codecs; repeat call_total. Qed.

Lemma scalar_decode_total c body units def : DecodeScalar c body units def <> Panic.
Proof. destruct c; try done; cbn [DecodeScalar]; unfold_decoders; repeat call_total. Qed.

Lemma bin_width_fixed def : isFixed def = true -> bin_width def = fd_MaxLen def.
Proof.
  intros [H _]%isFixed_pos. unfold bin_width. destruct (Z.leb_spec (fd_MaxLen def) 0); [lia|done].
Qed.

Lemma scalar_fixed c v def body : is_composite_codec c = false -> isFixed def = true ->
  EncodeScalar c [] v def = Ok body -> len body = width_of c (fd_MaxLen def).
Proof.
  intros Hc Hf. pose proof (isFixed_pos def Hf) as [Hpos _].
  destruct c; try done; cbn [EncodeScalar]; unfold_codecs; intros H; go_inv; cbn [app];
    unfold width_of; cbn [BodyBytes]; len_simpl;
    repeat match goal with
    | HP : padFixed _ _ _ _ = Ok _ |- _ => apply padFixed_fixed in HP as (HP & _); [|done]
    | HP : Pack _ = Ok _ |- _ => apply Pack_len in HP
    | HP : PackRight _ = Ok _ |- _ => apply PackRight_len in HP
    end; rewrite ?bin_width_fixed by done; try congruence; lia.
Qed.

Lemma scalar_variable c v def body : unit_codec c = true -> isFixed def = false ->
  EncodeScalar c [] v def = Ok body -> len body = width_of c (len (v_raw v)).
Proof.
  intros Hc Hf. destruct c; try done; cbn [EncodeScalar]; unfold_codecs;
    rewrite padFixed_variable by done; cbn [rbind]; intros H; go_inv; cbn [app];
    unfold width_of; cbn [BodyBytes]; len_simpl;
    repeat match goal with
    | HP : Pack _ = Ok _ |- _ => apply Pack_len in HP
    | HP : PackRight _ = Ok _ |- _ => apply PackRight_len in HP
    end; try congruence; lia.
Qed.

Lemma scalar_contract c : is_composite_codec c = false -> ScalarContract c.
Proof.
  split; eauto using scalar_append, scalar_encode_total, scalar_decode_total, scalar_fixed, scalar_variable.
Qed.

(** ** Value round trips *)

(** The raw bytes a fixed or variable field carries for a value: the value
    itself, padded to a fixed field's width. *)
Definition padded (def : FieldDef) (pad : byte) (left : bool) (b : bytes) : bytes :=
  if isFixed def then
    if left then replicate (Z.to_nat (fd_MaxLen def - len b)) pad ++ b
    else b ++ replicate (Z.to_nat (fd_MaxLen def - len b)) pad
  else b.

Lemma padFixed_padded b def pad left b' : padFixed b def pad left = Ok b' -> b' = padded def pad left b.
Proof.
  intros H. unfold padded. destruct (isFixed def) eqn:F.
  - by apply padFixed_fixed in H as (_ & _ & ->).
  - rewrite padFixed_variable in H by done. by injection H as <-.
Qed.

(** What each codec pads with, and on which side. *)
Definition codec_pad (c : FieldCodec) : byte * bool :=
  match c with
  | ascii | ebcdic037 | ebcdic1047 | utf8Char => (zb 32, false)
  | binaryRaw | hexBinary => (x00, false)
  | _ => (zb 48, true)
  end.

(** The text an EBCDIC page can carry; other codecs carry any bytes. *)
Definition encodable (c : FieldCodec) (b : bytes) : bool :=
  match c with
  | ebcdic037 | numEBCDIC => forallb (ascii_ok cp037Extra) b
  | ebcdic1047 => forallb (ascii_ok cp1047Extra) b
  | _ => true
  end.

Lemma forallb_replicate {A} (p : A -> bool) n x : p x = true -> forallb p (replicate n x) = true.
Proof. intros H. induction n; [done|]. cbn. by rewrite H. Qed.

Lemma forallb_padded p def pad left b : p pad = true -> forallb p b = true ->
  forallb p (padded def pad left b) = true.
Proof.
  intros Hp Hb. unfold padded. destruct (isFixed def); [|done].
  destruct left; by rewrite forallb_app, Hb, forallb_replicate.
Qed.

Lemma len_padded def pad left b : isFixed def = true -> len b <= fd_MaxLen def ->
  len (padded def pad left b) = fd_MaxLen def.
Proof. intros Hf Hl. unfold padded. rewrite Hf. destruct left; len_simpl; lia. Qed.

(** The unit count the engine hands to [DecodeBody]: the prefix's for a
    variable field, [MaxLen] for a fixed one. *)
Definition decode_units (def : FieldDef) (b : bytes) : Z :=
  if isFixed def then fd_MaxLen def else len b.

Lemma digitCount_padded def pad left b :
  len b <= fd_MaxLen def \/ isFixed def = false -> b <> [] ->
  digitCount (decode_units def b) def = len (padded def pad left b).
Proof.
  intros Hl Hne. unfold decode_units, digitCount. destruct (isFixed def) eqn:F.
  - destruct Hl as [Hl|]; [|done]. rewrite len_padded by done.
    apply isFixed_pos in F as [F _]. destruct (Z.ltb_spec 0 (fd_MaxLen def)); [done|lia].
  - unfold padded. rewrite F. destruct (Z.ltb_spec 0 (len b)); [done|].
    exfalso. apply Hne, len_0_nil. pose proof (len_nonneg b). lia.
Qed.

Lemma padFixed_Ok_len b def pad left b' : padFixed b def pad left = Ok b' ->
  len b <= fd_MaxLen def \/ isFixed def = false.
Proof.
  intros H. destruct (isFixed def) eqn:F; [left|by right].
  by apply padFixed_fixed in H as (_ & ? & _).
Qed.

Lemma scalar_decode_encode c v def body :
  unit_codec c = true -> encodable c (v_raw v) = true -> v_raw v <> [] ->
  EncodeScalar c [] v def = Ok body ->
  exists v', DecodeScalar c body (decode_units def (v_raw v)) def = Ok v' /\
    v_raw v' = padded def (fst (codec_pad c)) (snd (codec_pad c)) (v_raw v) /\
    v_kind v' = codec_Kind c.
Proof.
  intros Hc He Hne. destruct c; try done; cbn [EncodeScalar DecodeScalar codec_pad fst snd];
    unfold_codecs; unfold_decoders; intros H; go_inv; cbn [app];
    match goal with HP : padFixed _ _ _ _ = Ok _ |- _ =>
      pose proof (padFixed_Ok_len _ _ _ _ _ HP) as HL; apply padFixed_padded in HP as -> end.
  - eexists; split; [done|]. done.
  - eexists; split; [done|]. cbn. rewrite Decode_Encode037; [done|]. by apply forallb_padded.
  - eexists; split; [done|]. cbn. rewrite Decode_Encode1047; [done|]. by apply forallb_padded.
  - eexists; split; [done|]. done.
  - eexists; split; [done|]. done.
  - rewrite upperHex_encode, hex_decode_upper. eexists; split; [done|]. done.
  - eexists; split; [done|]. done.
  - eexists; split; [done|]. cbn. rewrite Decode_Encode037; [done|]. by apply forallb_padded.
  - rewrite (digitCount_padded def (zb 48) true) by done.
    pose proof (Pack_Ok_digits _ _ H1) as D. destruct (Unpack_Pack _ D) as (b & P1 & P2).
    rewrite P1 in H1. injection H1 as <-. rewrite P2. eexists; split; [done|]. done.
  - rewrite (digitCount_padded def (zb 48) true) by done.
    pose proof (PackRight_Ok_digits _ _ H1) as D. destruct (UnpackRight_PackRight _ D) as (b & P1 & P2).
    rewrite P1 in H1. injection H1 as <-. rewrite P2. eexists; split; [done|]. done.
Qed.

(** Value round trip of the ten byte-carrying codecs (text, EBCDIC, binary,
    hex, ASCII/EBCDIC/BCD numerics): encoding succeeds only on bodies whose
    decoding, with the unit count the engine supplies, gives back the value's
    bytes, padded to the width of a fixed field. *)
Theorem scalar_roundtrip c v def body :
  unit_codec c = true -> encodable c (v_raw v) = true -> v_raw v <> [] ->
  EncodeScalar c [] v def = Ok body ->
  exists v', DecodeScalar c body (decode_units def (v_raw v)) def = Ok v' /\
    v_raw v' = padded def (fst (codec_pad c)) (snd (codec_pad c)) (v_raw v) /\
    v_kind v' = codec_Kind c.
Proof. apply scalar_decode_encode. Qed.

Definition sample_pan_def : FieldDef :=
  field_def (DE 2) (go "PAN") KindNumeric (Some bcdNum) (Some (varLen (go "len.ll.bcd") 2 0 reprBCD)) 19 None.

Lemma scalar_roundtrip_witness :
  exists v', DecodeScalar bcdNum [x04; x11; x12] 5 sample_pan_def = Ok v' /\ v_raw v' = go "41112".
Proof.
  destruct (scalar_roundtrip bcdNum (NumericValue (go "41112")) sample_pan_def [x04; x11; x12])
    as (v' & D & R & _); [reflexivity|reflexivity|discriminate|reflexivity|].
  exists v'. split; [exact D|exact R].
Defined.

(** ** Amounts *)

Lemma amount_unscaled_Ok v def n d : 0 <= fd_Scale def ->
  Value_Decimal v = Ok d -> decimal_ok d -> amount_unscaled v def = Ok n ->
  0 <= n < 2 ^ 63 /\ mkDecimal n (fd_Scale def) ≡ d.
Proof.
  intros Hs HV Hd. unfold amount_unscaled. rewrite HV. cbn [rbind]. intros H. go_inv.
  apply Rescale_equiv in H0 as (E & S & O); [|done|done].
  destruct (Z.ltb_spec (Unscaled a) 0); [done|]. injection H as <-.
  destruct O as [[? ?] _]. split; [lia|]. rewrite <- S. by destruct a.
Qed.

Lemma padded_FormatInt def n : 0 <= n ->
  forallb is_digit (padded def (zb 48) true (FormatInt n)) = true /\
  dec_value (padded def (zb 48) true (FormatInt n)) = n /\
  padded def (zb 48) true (FormatInt n) <> [].
Proof.
  intros Hn. unfold FormatInt. destruct (Z.ltb_spec n 0); [lia|].
  pose proof (FormatUint_digits n Hn). split_and!.
  - by apply forallb_padded.
  - unfold padded. destruct (isFixed def); [rewrite dec_value_zeros|]; by apply FormatUint_value.
  - unfold padded. pose proof (FormatUint_ne n). destruct (isFixed def); [|done].
    intros E. apply app_eq_nil in E as [_ E]. done.
Qed.

Lemma ParseInt_padded def n : 0 <= n < 2 ^ 63 ->
  ParseInt 64 (padded def (zb 48) true (FormatInt n)) = Ok n.
Proof.
  intros Hn. destruct (padded_FormatInt def n) as (D & V & N); [lia|].
  rewrite ParseInt_digits by (try done; lia). by rewrite V.
Qed.

(** an amount survives the wire exactly.  For a fixed ASCII or BCD amount
    field, the decoding of what was encoded is the same number as the value
    set, at the field's scale. *)
Theorem amount_roundtrip c v d def body :
  c = amountASCII \/ c = amountBCD -> isFixed def = true -> 0 <= fd_Scale def ->
  Value_Decimal v = Ok d -> decimal_ok d -> EncodeScalar c [] v def = Ok body ->
  exists v', DecodeScalar c body (fd_MaxLen def) def = Ok v' /\
    v_kind v' = KindAmount /\ v_dec v' ≡ d /\ Scale (v_dec v') = fd_Scale def.
Proof.
  intros Hc Hf Hs HV Hd. pose proof (isFixed_pos def Hf) as [Hpos _].
  destruct Hc as [-> | ->]; cbn [EncodeScalar DecodeScalar]; unfold_codecs; unfold_decoders;
    intros H; go_inv; cbn [app];
    match goal with
    | HA : amount_unscaled _ _ = Ok ?n, HP : padFixed (FormatInt ?n) _ _ _ = Ok _ |- _ =>
        apply (amount_unscaled_Ok v def n d Hs HV Hd) in HA as [Hn E];
        pose proof (padFixed_Ok_len _ _ _ _ _ HP) as HL;
        apply padFixed_padded in HP as ->; pose proof (ParseInt_padded def n Hn) as HPI
    end.
  - rewrite HPI. eexists; split; [done|]. done.
  - match goal with HK : Pack ?p = Ok _ |- _ =>
      pose proof (Pack_Ok_digits _ _ HK) as D; destruct (Unpack_Pack _ D) as (b & P1 & P2);
      rewrite P1 in HK; injection HK as <- end.
    unfold digitCount. destruct (Z.ltb_spec 0 (fd_MaxLen def)); [|lia].
    rewrite len_padded in P2 by (first [done | destruct HL; [done|congruence]]).
    rewrite P2. cbn [rbind]. rewrite HPI. eexists; split; [done|]. done.
Qed.

Definition sample_amount_def : FieldDef :=
  optScale 2 (field_def (DE 4) (go "Amount, Transaction") KindAmount (Some amountBCD) None 12 None).

Lemma amount_roundtrip_witness :
  exists v', DecodeScalar amountBCD [x00; x00; x00; x00; x10; x99] 12 sample_amount_def = Ok v' /\
    v_dec v' ≡ mkDecimal 1099 2.
Proof.
  destruct (amount_roundtrip amountBCD (AmountValue (mkDecimal 1099 2) []) (mkDecimal 1099 2)
    sample_amount_def [x00; x00; x00; x00; x10; x99]) as (v' & D & _ & E & _).
  - right; reflexivity.
  - reflexivity.
  - vm_compute; discriminate.
  - reflexivity.
  - split; vm_compute; split; congruence.
  - reflexivity.
  - exists v'. split; [exact D|exact E].
Defined.

(** ** Binary integers *)

Lemma be_get_put_mod w n : 0 <= n -> be_get (be_put w n) = n mod 256 ^ Z.of_nat w.
Proof.
  revert n. induction w as [|w IH]; intros n Hn.
  - change (256 ^ Z.of_nat 0) with 1. by rewrite Z.mod_1_r.
  - rewrite be_put_snoc, be_get_snoc, IH by (apply Z.shiftr_nonneg; lia).
    rewrite Z.shiftr_div_pow2 by lia. change (2 ^ 8) with 256.
    pose proof (Z.mod_pos_bound (n / 256) (256 ^ Z.of_nat w) ltac:(apply Z.pow_pos_nonneg; lia)).
    rewrite lor_shiftl_byte, bz_zb_mod by lia.
    rewrite Nat2Z.inj_succ, Z.pow_succ_r, Z.rem_mul_r by lia. lia.
Qed.

Lemma read_uint64_mod b : read_uint64 b = be_get b mod 2 ^ 64.
Proof.
  induction b as [|c b IH] using rev_ind; [done|].
  unfold read_uint64, be_get in *. rewrite !fold_left_app. cbn [fold_left]. rewrite IH. unfold wrapu64.
  fold (be_get b). pose proof (be_get_bound b). pose proof (bz_range c).
  rewrite !lor_shiftl_byte by (try apply Z.mod_pos_bound; lia).
  rewrite Z.add_mod, Z.mul_mod_idemp_l, <- Z.add_mod by lia. done.
Qed.

Lemma read_uint64_be_put w n : 0 <= n < 2 ^ 64 -> read_uint64 (be_put w n) = n mod 256 ^ Z.of_nat w.
Proof.
  intros Hn. rewrite read_uint64_mod, be_get_put_mod by lia. apply Z.mod_small.
  pose proof (Z.mod_le n (256 ^ Z.of_nat w) ltac:(lia) ltac:(apply Z.pow_pos_nonneg; lia)).
  pose proof (Z.mod_pos_bound n (256 ^ Z.of_nat w) ltac:(apply Z.pow_pos_nonneg; lia)). lia.
Qed.

(** The binary amount codec keeps only the low bytes.  Encoding never
    rejects an amount for its size: what a field of [w] bytes reads back is the
    amount modulo [256^w], which is the amount only when it fits. *)
Theorem amountBinary_mod v d def n :
  0 < fd_MaxLen def -> 0 <= fd_Scale def -> Value_Decimal v = Ok d -> decimal_ok d ->
  amount_unscaled v def = Ok n ->
  exists body v', EncodeScalar amountBinary [] v def = Ok body /\ len body = fd_MaxLen def /\
    DecodeScalar amountBinary body (fd_MaxLen def) def = Ok v' /\
    v_dec v' = mkDecimal (n mod 256 ^ fd_MaxLen def) (fd_Scale def).
Proof.
  intros Hpos Hs HV Hd HA. pose proof (amount_unscaled_Ok v def n d Hs HV Hd HA) as [Hn _].
  cbn [EncodeScalar DecodeScalar]. unfold amountBinary_EncodeBody, amountBinary_DecodeBody.
  rewrite HA. cbn [rbind app]. unfold bin_width. destruct (Z.leb_spec (fd_MaxLen def) 0); [lia|].
  eexists _, _. split_and!; [done|by rewrite len_be_put, Z2Nat.id by lia|done|]. cbn.
  rewrite read_uint64_be_put, Z2Nat.id by lia. unfold NewDecimal. f_equal. apply wrap64_id.
  assert (0 < 256 ^ fd_MaxLen def) by (apply Z.pow_pos_nonneg; lia).
  pose proof (Z.mod_pos_bound n (256 ^ fd_MaxLen def)). pose proof (Z.mod_le n (256 ^ fd_MaxLen def)).
  unfold int64. lia.
Qed.

(** 65536 in a two-byte binary amount field reads back as zero. *)
Lemma amountBinary_mod_witness :
  exists body v', EncodeScalar amountBinary [] (AmountValue (mkDecimal 65536 0) [])
      (field_def (DE 4) [] KindAmount (Some amountBinary) None 2 None) = Ok body /\
    DecodeScalar amountBinary body 2 (field_def (DE 4) [] KindAmount (Some amountBinary) None 2 None) = Ok v' /\
    v_dec v' = mkDecimal 0 0.
Proof.
  destruct (amountBinary_mod (AmountValue (mkDecimal 65536 0) []) (mkDecimal 65536 0)
    (field_def (DE 4) [] KindAmount (Some amountBinary) None 2 None) 65536)
    as (body & v' & E & _ & D & V).
  - reflexivity.
  - vm_compute; discriminate.
  - reflexivity.
  - split; vm_compute; split; congruence.
  - reflexivity.
  - exists body, v'. split; [exact E|]. split; [exact D|]. rewrite V. reflexivity.
Defined.
