(* ===== verification/Message.v ===== *)
(** * Messages ([iso8583/message.go]): data, store and the operations that do not decode

    A Go [*Message] is a location of a store of messages, because values hold
    pointers to child messages and a child is mutated in place through them.
    The methods that may decode a field body are in [Access]; they need the
    codecs of [Engine]. *)

From S2P Require Import Prelude Errors Strconv Bitmap Decimal Path Schema Value.

(** ** Data *)

Record slot := mkSlot {
  sl_v : Value;
  sl_present : bool;
  sl_decoded : bool;
  sl_dirty : bool;
  sl_fromSrc : bool;
  sl_units : Z;
  sl_wireOff : Z;
  sl_bodyOff : Z;
  sl_bodyEnd : Z;
}.

(** [slot{}]. *)
Definition zeroSlot : slot := mkSlot zeroValue false false false false 0 0 0 0.

Record tagSlot := mkTagSlot { ts_v : Value; ts_present : bool }.

(** A nil [tags] map and an empty one behave alike in every method, so both are
    the empty map; a nil [src] and an empty one do not, hence the option. *)
Record Message := mkMessage {
  m_schema : option Schema;
  m_src : option bytes;
  m_bm : Bitmap;
  m_slots : list slot;
  m_owned : bool;
  m_dirty : Bitmap;
  m_sealed : bool;
  m_tags : gmap bytes tagSlot;
  m_tagOrder : list bytes;
}.

(** ** The store

    [ST A] is a computation over the store that returns an [A], fails or panics;
    the store keeps the writes made before a failure, as in Go. *)
Abbreviation heap := (list Message).
Definition ST (A : Type) : Type := heap -> result A * heap.

Definition sret {A} (a : A) : ST A := fun h => (Ok a, h).
Definition sfail {A} (e : error) : ST A := fun h => (Err e, h).
Definition sbind {A B} (c : ST A) (k : A -> ST B) : ST B := fun h =>
  match c h with
  | (Ok a, h') => k a h'
  | (Err e, h') => (Err e, h')
  | (Panic, h') => (Panic, h')
  end.
Definition slift {A} (r : result A) : ST A := fun h => (r, h).

Notation "'let*' x := c 'in' k" := (sbind c (fun x => k))
  (at level 10, x pattern, c at level 200, k at level 200,
   format "'[v' 'let*'  x  :=  c  'in' '/' k ']'") : go_scope.

(** A pointer dereference, a store through a pointer, and [&Message{...}]. *)
Definition hget (m : loc) : ST Message := fun h =>
  match h !! m with Some x => (Ok x, h) | None => (Panic, h) end.
Definition hput (m : loc) (x : Message) : ST unit := fun h => (Ok tt, <[m := x]> h).
Definition halloc (x : Message) : ST loc := fun h => (Ok (length h), h ++ [x]).

(** ** Constructors *)

Definition New (s : Schema) : Message :=
  mkMessage (Some s) None empty_bitmap (replicate (Z.to_nat (s_maxDE s + 1)) zeroSlot)
    true empty_bitmap false ∅ [].

Definition newDecoded (s : Schema) (src : bytes) (sealed : bool) : Message :=
  mkMessage (Some s) (Some src) empty_bitmap (replicate (Z.to_nat (s_maxDE s + 1)) zeroSlot)
    false empty_bitmap sealed ∅ [].

Definition NewTLV (sub : option Schema) : Message :=
  mkMessage sub None empty_bitmap [] true empty_bitmap false ∅ [].

(** [m.def]: panics on a message without a schema. *)
Definition msg_def (m : Message) (de : Z) : result (option FieldDef) :=
  match m_schema m with
  | None => Panic
  | Some s => Ok (if de =? 0 then s_mti s else Schema_Field s de)
  end.

(** [m.slots[de]] where the caller has checked the bounds. *)
Definition slot_at (m : Message) (de : Z) : result slot := idx (m_slots m) de.

Definition with_slots (m : Message) (ss : list slot) : Message :=
  mkMessage (m_schema m) (m_src m) (m_bm m) ss (m_owned m) (m_dirty m) (m_sealed m) (m_tags m) (m_tagOrder m).
Definition with_slot (m : Message) (de : Z) (s : slot) : Message :=
  with_slots m (<[Z.to_nat de := s]> (m_slots m)).
Definition with_owned (m : Message) : Message :=
  mkMessage (m_schema m) (m_src m) (m_bm m) (m_slots m) true (m_dirty m) (m_sealed m) (m_tags m) (m_tagOrder m).
Definition with_bm (m : Message) (bm dirty : Bitmap) : Message :=
  mkMessage (m_schema m) (m_src m) bm (m_slots m) (m_owned m) dirty (m_sealed m) (m_tags m) (m_tagOrder m).

(** ** Presence *)

Definition in_slots (m : Message) (de : Z) : bool := negb ((de <? 0) || (len (m_slots m) <=? de)).

Definition Has (m : Message) (de : Z) : bool :=
  if in_slots m de then
    match m_slots m !! Z.to_nat de with Some s => sl_present s | None => false end
  else false.

(** ** Tag-addressed children *)

Definition PutTag (m : Message) (tag : bytes) (v : Value) : Message :=
  let key := ToUpper tag in
  let order := match m_tags m !! key with Some _ => m_tagOrder m | None => m_tagOrder m ++ [key] end in
  mkMessage (m_schema m) (m_src m) (m_bm m) (m_slots m) (m_owned m) (m_dirty m) (m_sealed m)
    (<[key := mkTagSlot v true]> (m_tags m)) order.

Definition GetTag (m : Message) (tag : bytes) : option Value :=
  match m_tags m !! ToUpper tag with
  | Some ts => if ts_present ts then Some (ts_v ts) else None
  | None => None
  end.

(** The pairs [TagSeq] yields. *)
Definition TagSeq (m : Message) : list (bytes * Value) :=
  omap (fun key => match m_tags m !! key with
                   | Some ts => if ts_present ts then Some (key, ts_v ts) else None
                   | None => None
                   end) (m_tagOrder m).

(** ** Removal and sealing *)

Definition Unset (m : Message) (de : Z) : Message :=
  if m_sealed m || negb (in_slots m de) then m
  else if negb (Has m de) then m
  else
    let m := with_slot m de zeroSlot in
    let m := if 1 <=? de then with_bm m (BClear (m_bm m) de) (m_dirty m) else m in
    with_owned m.

Definition UnsetP (m : Message) (p : FieldPath) : result Message :=
  if path_Len p =? 1 then
    let! h := path_Head p in
    if negb (IsTag h) then Ok (Unset m (pe_N h)) else Ok m
  else Ok m.

Definition Seal (m : Message) : Message :=
  mkMessage (m_schema m) (m_src m) (m_bm m) (m_slots m) (m_owned m) (m_dirty m) true (m_tags m) (m_tagOrder m).

(** ** Building a value for [Set] *)

(** The dynamic types [makeValue] switches on. *)
Inductive any :=
| anyValue (x : Value)
| anyString (x : bytes)
| anyBytes (x : bytes)
| anyInt (x : Z)
| anyInt64 (x : Z)
| anyUint64 (x : Z)
| anyDecimal (x : Decimal)
| anyAmount (x : Amount)
| anyOther (typeName : bytes).

Definition numericKind (k : Kind) : Kind :=
  match k with KindString | KindInvalid => KindNumeric | _ => k end.

Definition scalarFromBytes (kind : Kind) (b : bytes) : result Value :=
  match kind with
  | KindAmount =>
      let! n := rmap_err (FieldError empty_path (-1) []) (ParseInt 64 b) in
      Ok (mkValue b KindAmount None 0 None (mkDecimal n 0))
  | KindBytes => Ok (mkValue b KindBytes None 0 None zeroDecimal)
  | KindNumeric => Ok (mkValue b KindNumeric None 0 None zeroDecimal)
  | _ => Ok (mkValue b KindString None 0 None zeroDecimal)
  end.

Definition scalarFromInt (kind : Kind) (n : Z) : result Value :=
  match kind with
  | KindAmount => Ok (mkValue (FormatInt n) KindAmount None 0 None (mkDecimal n 0))
  | _ => Ok (mkValue (FormatInt n) (numericKind kind) None 0 None zeroDecimal)
  end.

Definition defPath (def : option FieldDef) : FieldPath :=
  match def with None => empty_path | Some d => fd_Path d end.

Definition makeValue (def : option FieldDef) (x : any) : result Value :=
  let kind := match def with
              | Some d => if bool_decide (fd_Kind d = KindInvalid) then KindString else fd_Kind d
              | None => KindString
              end in
  match x with
  | anyValue v => Ok v
  | anyString b => scalarFromBytes kind b
  | anyBytes b =>
      let k := match def with
               | Some d => if bool_decide (fd_Kind d = KindInvalid) then KindBytes else kind
               | None => KindBytes
               end in
      Ok (mkValue b k None 0 None zeroDecimal)
  | anyInt n => scalarFromInt kind n
  | anyInt64 n => scalarFromInt kind n
  | anyUint64 n => Ok (mkValue (FormatUint n) (numericKind kind) None 0 None zeroDecimal)
  | anyDecimal d => Ok (mkValue (DString d) KindAmount None 0 None d)
  | anyAmount a => Ok (mkValue (DString (amt_Decimal a)) KindAmount None 0 None (amt_Decimal a))
  | anyOther t => Err (FieldError (defPath def) (-1) [] (errorText (go "unsupported value type " ++ t)))
  end.

(** ** Writing a top-level element *)

(** [m.bm.Set(de); m.dirty.Set(de)], for data elements only. *)
Definition mark_set (m : Message) (de : Z) : Message :=
  if 1 <=? de then with_bm m (BSet (m_bm m) de) (BSet (m_dirty m) de) else m.

(** A slot that holds a value set directly. *)
Definition set_slot (s : slot) (v : Value) : slot :=
  mkSlot v true true true false (sl_units s) (sl_wireOff s) (sl_bodyOff s) (sl_bodyEnd s).

Definition MSet (m : Message) (de : Z) (x : any) : result Message :=
  if m_sealed m then Err (FieldError (DE de) (-1) [] errSealed) else
  let! def := msg_def m de in
  match def with
  | None => Err (FieldError (DE de) (-1) [] errUnknownDE)
  | Some d =>
      let! v := makeValue (Some d) x in
      let v := set_v_codec v (fd_Codec d) in
      if len (m_slots m) <=? de then Err (FieldError (DE de) (-1) [] errUnknownDE) else
      let! s := slot_at m de in
      Ok (mark_set (with_owned (with_slot m de (set_slot s v))) de)
  end.
