(* ===== verification/BerTlv.v ===== *)
(** * BER-TLV elements ([fieldcodec/tlv/bertlv.go])

    Reading and writing one element: a multi-byte tag, a definite length in
    short or long form, and the value octets.  The composite codec built on
    them is in [Engine]. *)

From S2P Require Import Prelude Errors Strconv.

(** ** Reading *)

(** The loop over the continuation bytes of a multi-byte tag; the fuel is the
    number of bytes of the input, one per iteration. *)
Fixpoint tag_tail (fuel : nat) (b : bytes) (i : Z) : result Z :=
  match fuel with
  | O => Err OutOfFuel
  | S fuel =>
      if len b <=? i then Err tlv_ErrTruncated else
      let! c := idx b i in
      let i := i + 1 in
      if Z.land (bz c) 0x80 =? 0 then Ok i else tag_tail fuel b i
  end.

(** The [nb] bytes of a long-form length; at most four, so no overflow of [int]. *)
Fixpoint long_length (nb : nat) (b : bytes) (i length : Z) : result (Z * Z) :=
  match nb with
  | O => Ok (length, i)
  | S nb =>
      let! c := idx b i in
      long_length nb b (i + 1) (Z.lor (Z.shiftl length 8) (bz c))
  end.

Definition read_length (b : bytes) (i : Z) : result (Z * Z) :=
  if len b <=? i then Err tlv_ErrTruncated else
  let! l0 := idx b i in
  let i := i + 1 in
  if Z.land (bz l0) 0x80 =? 0 then Ok (bz l0, i) else
  let nb := Z.land (bz l0) 0x7F in
  if (nb =? 0) || (4 <? nb) then Err tlv_ErrIndefinite
  else if len b <? i + nb then Err tlv_ErrTruncated
  else long_length (Z.to_nat nb) b i 0.

Definition readTLV (b : bytes) (i : Z) : result (bytes * bytes * Z) :=
  if len b <=? i then Err tlv_ErrTruncated else
  let start := i in
  let! b0 := idx b i in
  let i := i + 1 in
  let! i := if Z.land (bz b0) 0x1F =? 0x1F then tag_tail (S (length b)) b i else Ok i in
  let! t := slice b start i in
  let tag := ToUpper (hex_encode t) in
  let! (n, i) := read_length b i in
  if (n <? 0) || (len b <? i + n) then Err tlv_ErrTruncated else
  let! val := slice b i (i + n) in
  Ok (tag, val, i + n).

(** ** Writing *)

Definition appendBERLen (dst : bytes) (n : Z) : bytes :=
  if n <? 0x80 then dst ++ [zb n]
  else if n <=? 0xFF then dst ++ [zb 0x81; zb n]
  else if n <=? 0xFFFF then dst ++ [zb 0x82; zb (Z.shiftr n 8); zb n]
  else if n <=? 0xFFFFFF then dst ++ [zb 0x83; zb (Z.shiftr n 16); zb (Z.shiftr n 8); zb n]
  else dst ++ [zb 0x84; zb (Z.shiftr n 24); zb (Z.shiftr n 16); zb (Z.shiftr n 8); zb n].

(** ** Well-formed tags *)

(** Continuation bytes: the high bit is set on all but the last. *)
Fixpoint ber_tail (t : bytes) : bool :=
  match t with
  | [] => false
  | c :: t => if Z.land (bz c) 0x80 =? 0 then bool_decide (t = []) else ber_tail t
  end.

Definition ber_tag (t : bytes) : bool :=
  match t with
  | [] => false
  | c :: t => if Z.land (bz c) 0x1F =? 0x1F then ber_tail t else bool_decide (t = [])
  end.

(** One element as it is written. *)
Definition ber_element (t val : bytes) : bytes := appendBERLen t (len val) ++ val.

(** ** Reading is safe *)

Lemma tag_tail_bounds fuel b i : 0 <= i -> (Z.to_nat (len b - i) < fuel)%nat ->
  tag_tail fuel b i <> Panic /\ tag_tail fuel b i <> Err OutOfFuel /\
  forall j, tag_tail fuel b i = Ok j -> i < j <= len b.
Proof.
  revert i. induction fuel as [|fuel IH]; intros i Hi Hf; [lia|]. cbn [tag_tail].
  destruct (Z.leb_spec (len b) i); [done|].
  destruct (idx_Ok_range (E:=error) b i) as (c & -> & _); [lia|]. cbn [rbind].
  case_match; [split_and!; [done..|]; intros j [= <-]; lia|].
  destruct (IH (i + 1)) as (P & F & R); [lia..|]. split_and!; [done..|].
  intros j Hj. apply R in Hj. lia.
Qed.

Lemma long_length_Ok nb b i acc : 0 <= i -> 0 <= acc -> i + Z.of_nat nb <= len b ->
  exists n, long_length nb b i acc = Ok (n, i + Z.of_nat nb) /\ 0 <= n.
Proof.
  revert i acc. induction nb as [|nb IH]; intros i acc Hi Ha Hb; cbn [long_length].
  - exists acc. by rewrite Z.add_0_r.
  - destruct (idx_Ok_range (E:=error) b i) as (c & -> & _); [lia|]. cbn [rbind].
    destruct (IH (i + 1) (Z.lor (Z.shiftl acc 8) (bz c))) as (n & -> & Hn).
    + lia.
    + rewrite lor_shiftl_byte by lia. pose proof (bz_range c). lia.
    + lia.
    + exists n. split; [do 2 f_equal; lia|done].
Qed.

Lemma read_length_bounds b i : 0 <= i ->
  read_length b i <> Panic /\ read_length b i <> Err OutOfFuel /\
  forall n j, read_length b i = Ok (n, j) -> 0 <= n /\ i < j <= len b.
Proof.
  intros Hi. unfold read_length. destruct (Z.leb_spec (len b) i); [done|].
  destruct (idx_Ok_range (E:=error) b i) as (c & -> & _); [lia|]. cbn [rbind].
  case_match; [split_and!; [done..|]; intros n j [= <- <-]; pose proof (bz_range c); lia|].
  destruct (_ || _) eqn:G; [done|]. bool_to_prop.
  destruct (Z.ltb_spec (len b) (i + 1 + Z.land (bz c) 127)); [done|].
  assert (0 <= Z.land (bz c) 127) by (apply Z.land_nonneg; lia).
  destruct (long_length_Ok (Z.to_nat (Z.land (bz c) 127)) b (i + 1) 0) as (n & -> & Hn); [lia..|].
  split_and!; [done..|]. intros ? ? [= <- <-]. lia.
Qed.

Lemma readTLV_safe b i : 0 <= i ->
  readTLV b i <> Panic /\ readTLV b i <> Err OutOfFuel /\
  forall tag val next, readTLV b i = Ok (tag, val, next) ->
    i + 2 <= next <= len b /\ slice (E:=error) b (next - len val) next = Ok val.
Proof.
  intros Hi. unfold readTLV. destruct (Z.leb_spec (len b) i); [done|].
  destruct (idx_Ok_range (E:=error) b i) as (b0 & -> & _); [lia|]. cbn [rbind].
  assert (exists r, (if Z.land (bz b0) 0x1F =? 0x1F then tag_tail (S (length b)) b (i + 1) else Ok (i + 1)) = r /\
    r <> Panic /\ r <> Err OutOfFuel /\ forall j, r = Ok j -> i < j <= len b) as (r & -> & R1 & R2 & R3).
  { eexists; split; [done|]. case_match; [|split_and!; [done..|]; intros ? [= <-]; lia].
    destruct (tag_tail_bounds (S (length b)) b (i + 1)) as (T1 & T2 & T3); [lia|unfold len; lia|].
    split_and!; [done..|]. intros j Hj. apply T3 in Hj. lia. }
  destruct r as [j|e|]; cbn [rbind]; [|split_and!; congruence|done].
  specialize (R3 j eq_refl). rewrite (slice_ok b i j) by lia. cbn [rbind].
  destruct (read_length_bounds b j) as (L1 & L2 & L3); [lia|].
  destruct (read_length b j) as [[n k]|e|]; cbn [rbind]; [|split_and!; congruence|done].
  destruct (L3 n k eq_refl). destruct (_ || _) eqn:G; [done|]. bool_to_prop.
  rewrite (slice_ok b k (k + n)) by lia. cbn [rbind]. split_and!; [done..|].
  intros tag val next [= _ <- <-]. split; [lia|].
  assert (len (take (Z.to_nat (k + n - k)) (drop (Z.to_nat k) b)) = n) as ->.
  { unfold len in *. rewrite length_take, length_drop. lia. }
  rewrite slice_ok by lia. do 2 f_equal; [lia|]. f_equal. lia.
Qed.

(** ** Writing then reading *)

Lemma tag_tail_ber fuel pre t post i : ber_tail t = true -> i = len pre -> (length t < fuel)%nat ->
  tag_tail fuel (pre ++ t ++ post) i = Ok (i + len t).
Proof.
  revert pre t i. induction fuel as [|fuel IH]; intros pre t i Ht -> Hf; [lia|]. cbn [tag_tail].
  destruct t as [|c t]; [done|]. cbn [ber_tail] in Ht. pose proof (len_nonneg t). pose proof (len_nonneg post).
  destruct (Z.leb_spec (len (pre ++ (c :: t) ++ post)) (len pre)); [len_simpl; lia|].
  cbn [app]. rewrite idx_mid by done. cbn [rbind].
  destruct (Z.land (bz c) 0x80 =? 0).
  - apply bool_decide_eq_true in Ht as ->. done.
  - replace (pre ++ c :: t ++ post) with ((pre ++ [c]) ++ t ++ post) by (by rewrite <- app_assoc).
    cbn [length] in Hf. rewrite IH by (try done; len_simpl; lia). f_equal. len_simpl. lia.
Qed.

Lemma long_length_mid w pre mid post acc i : i = len pre -> length mid = w -> 0 <= acc ->
  long_length w (pre ++ mid ++ post) i acc =
    Ok (fold_left (fun n c => Z.lor (Z.shiftl n 8) (bz c)) mid acc, i + len mid).
Proof.
  revert pre mid acc i. induction w as [|w IH]; intros pre [|c mid] acc i -> [=] Ha; cbn [long_length fold_left].
  - do 2 f_equal. by rewrite Z.add_0_r.
  - cbn [app]. rewrite idx_mid by done. cbn [rbind].
    replace (pre ++ c :: mid ++ post) with ((pre ++ [c]) ++ mid ++ post) by (by rewrite <- app_assoc).
    rewrite IH; [|len_simpl; lia|done|rewrite lor_shiftl_byte by lia; pose proof (bz_range c); lia].
    do 2 f_equal. len_simpl. lia.
Qed.

(** The long form of a length in [w] bytes. *)
Lemma read_length_long w pre n post i : i = len pre -> (1 <= w <= 4)%nat -> 0 <= n < 256 ^ Z.of_nat w ->
  read_length (pre ++ (zb (128 + Z.of_nat w) :: be_put w n) ++ post) i = Ok (n, i + 1 + Z.of_nat w).
Proof.
  intros -> Hw Hn. unfold read_length. pose proof (len_nonneg pre). pose proof (len_nonneg post).
  pose proof (len_be_put w n) as Hl.
  destruct (Z.leb_spec (len (pre ++ (zb (128 + Z.of_nat w) :: be_put w n) ++ post)) (len pre)); [len_simpl; lia|].
  cbn [app]. rewrite idx_mid by done. cbn [rbind].
  assert ((Z.land (bz (zb (128 + Z.of_nat w))) 128 =? 0) = false /\
          Z.land (bz (zb (128 + Z.of_nat w))) 127 = Z.of_nat w) as [-> ->].
  { destruct w as [|[|[|[|[|]]]]]; try lia; split; reflexivity. }
  destruct (_ || _) eqn:G; [apply orb_true_iff in G as [G|G]; bool_to_prop; [apply Z.eqb_eq in G|apply Z.ltb_lt in G]; lia|].
  destruct (Z.ltb_spec (len (pre ++ zb (128 + Z.of_nat w) :: be_put w n ++ post)) (len pre + 1 + Z.of_nat w));
    [len_simpl; lia|].
  replace (pre ++ zb (128 + Z.of_nat w) :: be_put w n ++ post)
    with ((pre ++ [zb (128 + Z.of_nat w)]) ++ be_put w n ++ post) by (by rewrite <- app_assoc).
  rewrite Nat2Z.id, long_length_mid; [|len_simpl; lia|unfold len in Hl; lia|lia].
  fold (be_get (be_put w n)). rewrite be_get_put by done. do 2 f_equal. lia.
Qed.

(** The form [appendBERLen] picks is read back as the length. *)
Lemma read_length_append pre n post i : i = len pre -> 0 <= n < 2 ^ 32 ->
  read_length (pre ++ appendBERLen [] n ++ post) i = Ok (n, i + len (appendBERLen [] n)).
Proof.
  intros Hi Hn. unfold appendBERLen. cbn [app].
  destruct (Z.ltb_spec n 0x80).
  { unfold read_length. pose proof (len_nonneg pre). pose proof (len_nonneg post).
    destruct (Z.leb_spec (len (pre ++ [zb n] ++ post)) i); [len_simpl; lia|].
    cbn [app]. rewrite idx_mid by done. cbn [rbind]. rewrite bz_zb by lia.
    assert ((Z.land n 128 =? 0) = true) as ->; [|by do 2 f_equal].
    apply Z.eqb_eq. change 128 with (2 ^ 7). apply Z.bits_inj'. intros k Hk.
    rewrite Z.land_spec, Z.pow2_bits_eqb, Z.bits_0 by lia. destruct (Z.eqb_spec 7 k); [subst|by rewrite andb_false_r].
    rewrite andb_true_r, Z.testbit_eqb, Z.div_small by lia. done. }
  destruct (Z.leb_spec n 0xFF).
  { etransitivity; [apply (read_length_long 1 pre n post i); try done; lia|]. do 2 f_equal. len_simpl. lia. }
  destruct (Z.leb_spec n 0xFFFF).
  { etransitivity; [apply (read_length_long 2 pre n post i); try done; lia|]. do 2 f_equal. len_simpl. lia. }
  destruct (Z.leb_spec n 0xFFFFFF).
  { etransitivity; [apply (read_length_long 3 pre n post i); try done; lia|]. do 2 f_equal. len_simpl. lia. }
  etransitivity; [apply (read_length_long 4 pre n post i); try done; lia|]. do 2 f_equal. len_simpl. lia.
Qed.

Lemma appendBERLen_app dst n : appendBERLen dst n = dst ++ appendBERLen [] n.
Proof. unfold appendBERLen. repeat case_match; done. Qed.

Lemma readTLV_element pre t val post :
  ber_tag t = true -> len val < 2 ^ 32 ->
  readTLV (pre ++ ber_element t val ++ post) (len pre) =
    Ok (ToUpper (hex_encode t), val, len pre + len (ber_element t val)).
Proof.
  intros Ht Hv. unfold ber_element. rewrite appendBERLen_app.
  set (L := appendBERLen [] (len val)).
  assert (HL : 0 < len L) by (unfold L, appendBERLen; repeat case_match; len_simpl; lia).
  pose proof (len_nonneg pre). pose proof (len_nonneg val). pose proof (len_nonneg post). pose proof (len_nonneg t).
  unfold readTLV. destruct t as [|c t]; [done|]. pose proof (len_nonneg t).
  destruct (Z.leb_spec (len (pre ++ (((c :: t) ++ L) ++ val) ++ post)) (len pre)); [len_simpl; lia|].
  assert (idx (E:=error) (pre ++ (((c :: t) ++ L) ++ val) ++ post) (len pre) = Ok c) as ->.
  { rewrite <- !app_assoc. cbn [app]. by apply idx_mid. }
  cbn [rbind].
  assert ((if Z.land (bz c) 0x1F =? 0x1F
           then tag_tail (S (length (pre ++ (((c :: t) ++ L) ++ val) ++ post)))
                  (pre ++ (((c :: t) ++ L) ++ val) ++ post) (len pre + 1)
           else Ok (len pre + 1)) = Ok (len pre + len (c :: t))) as ->.
  { cbn [ber_tag] in Ht. case_match.
    - replace (pre ++ (((c :: t) ++ L) ++ val) ++ post) with ((pre ++ [c]) ++ t ++ (L ++ val ++ post))
        by (cbn [app]; rewrite <- !app_assoc; done).
      rewrite tag_tail_ber; [f_equal; len_simpl; lia|done|len_simpl; lia|rewrite !length_app; lia].
    - apply bool_decide_eq_true in Ht as ->. f_equal. }
  cbn [rbind].
  replace (pre ++ (((c :: t) ++ L) ++ val) ++ post) with (pre ++ (c :: t) ++ (L ++ val ++ post))
    by (rewrite <- !app_assoc; done).
  rewrite (slice_mid pre (c :: t)) by (len_simpl; lia). cbn [rbind].
  replace (pre ++ (c :: t) ++ (L ++ val ++ post)) with ((pre ++ (c :: t)) ++ L ++ (val ++ post))
    by (rewrite <- !app_assoc; done).
  unfold L at 1. rewrite read_length_append by (len_simpl; lia). fold L. cbn [rbind].
  destruct (_ || _) eqn:G; [apply orb_true_iff in G as [G|G]; [apply Z.ltb_lt in G|apply Z.ltb_lt in G; len_simpl]; lia|].
  replace ((pre ++ (c :: t)) ++ L ++ (val ++ post)) with ((pre ++ (c :: t) ++ L) ++ val ++ post)
    by (rewrite <- !app_assoc; done).
  rewrite slice_mid by (len_simpl; lia). cbn [rbind]. do 2 f_equal. len_simpl. lia.
Qed.

(** BER-TLV round trip of one element.  Wherever it sits in the buffer, an
    element written with a well-formed tag of any length and a value of less
    than 4 GiB is read back whole: the tag in canonical upper-case hexadecimal,
    the value octets, and the offset just past them. *)
Theorem readTLV_roundtrip pre t val post :
  ber_tag t = true -> len val < 2 ^ 32 ->
  readTLV (pre ++ appendBERLen t (len val) ++ val ++ post) (len pre) =
    Ok (ToUpper (hex_encode t), val, len pre + len (appendBERLen t (len val)) + len val).
Proof.
  intros Ht Hv. pose proof (readTLV_element pre t val post Ht Hv) as H. unfold ber_element in H.
  rewrite <- app_assoc in H. rewrite H. do 2 f_equal. len_simpl. lia.
Qed.

Lemma readTLV_roundtrip_witness :
  readTLV [x00; x9f; x26; x02; xab; xcd; xff] 1 = Ok (go "9F26", [xab; xcd], 6).
Proof.
  apply (readTLV_roundtrip [x00] [x9f; x26] [xab; xcd] [xff]); vm_compute; reflexivity.
Defined.

(** reading is safe on hostile input.  At any non-negative offset of any
    buffer, [readTLV] never indexes out of range and its loops finish; when it
    returns an element, the element is at least two bytes, its value is the
    window that ends where the next element starts, inside the buffer. *)
Theorem readTLV_bounds b i : 0 <= i ->
  readTLV b i <> Panic /\ readTLV b i <> Err OutOfFuel /\
  forall tag val next, readTLV b i = Ok (tag, val, next) ->
    i + 2 <= next <= len b /\ slice (E:=error) b (next - len val) next = Ok val.
Proof. apply readTLV_safe. Qed.

Lemma readTLV_bounds_witness :
  readTLV [x9f; x81; x84; xff; xff; xff; xff] 0 <> Panic /\
  readTLV [x9f; x81; x84; xff; xff; xff; xff] 0 <> Err OutOfFuel.
Proof. destruct (readTLV_bounds [x9f; x81; x84; xff; xff; xff; xff] 0) as (A & B & _); [lia|]. split; assumption. Defined.
