(* ===== verification/Engine.v ===== *)
(** * The message engine ([iso8583/codec.go]) and the composite codecs

    [Unmarshal] records a span per present field without decoding bodies;
    [Marshal] copies clean fields verbatim and re-encodes the others.  The two
    composite value codecs ([fieldcodec/tlv], [fieldcodec/subfield]) close the
    recursion: their bodies are sub-messages.  One call descends one
    sub-schema, so the nesting depth of the definition bounds the recursion. *)

From S2P Require Import Prelude Errors Strconv Bcd Bitmap Path Schema LengthCodec BitmapCodec Value FieldCodec Message BerTlv.

(** ** Options *)

Record CodecOptions := mkCodecOptions { opt_Immutable : bool; opt_Strict : bool }.
Definition CodecOption : Type := CodecOptions -> CodecOptions.
Definition Immutable : CodecOption := fun o => mkCodecOptions true (opt_Strict o).
Definition Strict : CodecOption := fun o => mkCodecOptions (opt_Immutable o) true.

Record Codec := mkCodec { c_schema : Schema; c_opts : CodecOptions }.

Definition NewCodec (s : Schema) (opts : list CodecOption) : Codec :=
  mkCodec s (fold_left (fun o f => f o) opts (mkCodecOptions false false)).

(** ** Reading the structure *)

Definition wireBytes (def : FieldDef) (units : Z) : Z :=
  match fd_Codec def with Some c => width_of c units | None => units end.

(** The unit count and the body's offset of the field at [off]. *)
Definition read_prefix (def : FieldDef) (src : bytes) (off : Z) : result (Z * Z) :=
  match fd_Length def with
  | None => Ok (fd_MaxLen def, off)
  | Some l =>
      let! (units, afterPrefix) := ReadLen l src off def in
      if (units <? 0) || (afterPrefix <? off) then Err errBadLength else Ok (units, afterPrefix)
  end.

Definition fieldBodySpan (def : FieldDef) (src : bytes) (off : Z) : result (Z * Z * Z * Z) :=
  if (off <? 0) || (len src <? off) then Err errTruncated else
  let! (units, bodyOff) := read_prefix def src off in
  let bodyEnd := bodyOff + wireBytes def units in
  if len src <? bodyEnd then Err errTruncated else
  Ok (bodyOff, bodyEnd, bodyEnd, units).

(** [slot{present: true, fromSrc: true, ...}]. *)
Definition span_slot (wireOff bodyOff bodyEnd units : Z) : slot :=
  mkSlot zeroValue true false false true units wireOff bodyOff bodyEnd.

(** The callback of [bm.Range], over the elements it is called with. *)
Fixpoint unmarshal_fields (s : Schema) (wire : bytes) (des : list Z) (off : Z) (slots : list slot)
    : result (Z * list slot) :=
  match des with
  | [] => Ok (off, slots)
  | de :: des =>
      match Schema_Field s de with
      | None => Err (FieldError (DE de) off [] errUnknownDE)
      | Some def =>
          let! (bodyOff, bodyEnd, nx, units) :=
            rmap_err (FieldError (DE de) off (fd_Name def)) (fieldBodySpan def wire off) in
          let slots := if de <? len slots
                       then <[Z.to_nat de := span_slot off bodyOff bodyEnd units]> slots
                       else slots in
          unmarshal_fields s wire des nx slots
      end
  end.

(** The MTI's slot and the offset past it. *)
Definition unmarshal_mti (s : Schema) (wire : bytes) (m : Message) : result (Message * Z) :=
  match s_mti s with
  | None => Ok (m, 0)
  | Some mti =>
      let! (bodyOff, bodyEnd, next, units) :=
        rmap_err (FieldError (DE 0) 0 (fd_Name mti)) (fieldBodySpan mti wire 0) in
      let! _ := slot_at m 0 in
      Ok (with_slot m 0 (span_slot 0 bodyOff bodyEnd units), next)
  end.

Definition Unmarshal (c : Codec) (wire : bytes) : result Message :=
  let s := c_schema c in
  let m := newDecoded s wire (opt_Immutable (c_opts c)) in
  let! (m, off) := unmarshal_mti s wire m in
  match bs_Codec (s_bitmap s) with
  | None => Err (FieldError (DE 1) off [] errUnknownDE)
  | Some bc =>
      let! (bm, off) := rmap_err (FieldError (DE 1) off []) (ReadBitmap bc wire off (bs_Levels (s_bitmap s))) in
      let m := with_bm m bm (m_dirty m) in
      let! (_, slots) := unmarshal_fields s wire (Range bm) off (m_slots m) in
      Ok (with_slots m slots)
  end.

(** ** Writing *)

Definition encodeUnits (def : FieldDef) (v : Value) (body : bytes) : Z :=
  match v_kind v with
  | KindNumeric | KindString | KindBytes => len (v_raw v)
  | KindComposite => len body
  | KindAmount => let n := len (v_raw v) in if 0 <? n then n else fd_MaxLen def
  | KindInvalid => len body
  end.

(** The type of [EncodeBody] and [DecodeBody], dispatched on the codec. *)
Definition encoder : Type := FieldCodec -> bytes -> Value -> FieldDef -> result bytes.
Definition decoder : Type := FieldCodec -> bytes -> Z -> FieldDef -> ST Value.

Section Writing.
Context (EncodeBody : encoder).

(** The body of a field that is re-encoded. *)
Definition encode_field (def : FieldDef) (v : Value) : result bytes :=
  match fd_Codec def with
  | Some c => rmap_err (FieldError (fd_Path def) (-1) (fd_Name def)) (EncodeBody c [] v def)
  | None => Ok (v_raw v)
  end.

(** The guard [sl.fromSrc && !sl.dirty && src != nil] of the verbatim copy. *)
Definition clean_src (sl : slot) (src : option bytes) : option bytes :=
  if sl_fromSrc sl && negb (sl_dirty sl) then src else None.

Definition appendField (dst : bytes) (def : FieldDef) (sl : slot) (src : option bytes) : result bytes :=
  match clean_src sl src with
  | Some src =>
      let! w := slice src (sl_wireOff sl) (sl_bodyEnd sl) in Ok (dst ++ w)
  | None =>
      let! body := encode_field def (sl_v sl) in
      let! dst := match fd_Length def with
                  | Some l => rmap_err (FieldError (fd_Path def) (-1) (fd_Name def))
                                (WriteLen l dst (encodeUnits def (sl_v sl) body) def)
                  | None => Ok dst
                  end in
      Ok (dst ++ body)
  end.

(** The second loop of [Marshal]: the present elements in ascending order. *)
Fixpoint marshal_fields (s : Schema) (m : Message) (des : list Z) (dst : bytes) : result bytes :=
  match des with
  | [] => Ok dst
  | de :: des =>
      let! sl := slot_at m de in
      if negb (sl_present sl) then marshal_fields s m des dst else
      match Schema_Field s de with
      | None => Err (FieldError (DE de) (-1) [] errUnknownDE)
      | Some def =>
          let! dst := appendField dst def sl (m_src m) in
          marshal_fields s m des dst
      end
  end.

(** The elements of the loops [for de := 1; de < len(m.slots); de++]. *)
Definition slot_range (m : Message) : list Z := seqZ 1 (len (m_slots m) - 1).

(** The presence bitmap derived from the slots. *)
Definition present_bitmap (m : Message) : Bitmap :=
  fold_left (fun bm de => if Has m de then BSet bm de else bm) (slot_range m) empty_bitmap.

Definition marshal_mti (s : Schema) (m : Message) (dst : bytes) : result bytes :=
  match s_mti s with
  | None => Ok dst
  | Some mti => let! s0 := slot_at m 0 in appendField dst mti s0 (m_src m)
  end.

(** [Marshal] past its fast path. *)
Definition remarshal (c : Codec) (m : Message) (dst : bytes) : result bytes :=
  let s := c_schema c in
  let! dst := marshal_mti s m dst in
  match bs_Codec (s_bitmap s) with
  | None => Err (FieldError (DE 1) (-1) [] errUnknownDE)
  | Some bc =>
      let! dst := rmap_err (FieldError (DE 1) (-1) [])
                    (WriteBitmap bc dst (present_bitmap m) (bs_Levels (s_bitmap s))) in
      marshal_fields s m (slot_range m) dst
  end.

Definition marshal (c : Codec) (m : Message) (dst : bytes) : result bytes :=
  match m_src m with
  | Some src => if negb (m_owned m) then Ok src else remarshal c m dst
  | None => remarshal c m dst
  end.
End Writing.

(** ** The BER-TLV codec ([fieldcodec/tlv]) *)

Definition lookupTag (def : FieldDef) (tag : bytes) : option FieldDef :=
  match fd_Sub def with None => None | Some sub => LookupTag sub tag end.

(** The definition of a tag that has a value codec, with the codec. *)
Definition tag_codec (def : FieldDef) (tag : bytes) : option (FieldDef * FieldCodec) :=
  match lookupTag def tag with
  | Some td => match fd_Codec td with Some c => Some (td, c) | None => None end
  | None => None
  end.

Definition tag_units (td : FieldDef) (val : bytes) : Z :=
  if 0 <? fd_MaxLen td then fd_MaxLen td else len val.

Section Composites.
Context (DecodeBody : decoder) (EncodeBody : encoder) (h : heap).

(** The loop of [DecodeBody]; an element is at least two bytes, so the length
    of the body bounds the iterations. *)
Fixpoint ber_decode_loop (fuel : nat) (body : bytes) (def : FieldDef) (i : Z) (child : Message) : ST Message :=
  match fuel with
  | O => sfail OutOfFuel
  | S fuel =>
      if len body <=? i then sret child else
      let* (tag, val, next) := slift (readTLV body i) in
      let* tv := match tag_codec def tag with
                 | Some (td, c) => DecodeBody c val (tag_units td val) td
                 | None => sret (BytesValue val)
                 end in
      ber_decode_loop fuel body def next (PutTag child tag tv)
  end.

(** The child is allocated when it is complete: no one else holds it before. *)
Definition berTLV_DecodeBody (body : bytes) (def : FieldDef) : ST Value :=
  let* child := ber_decode_loop (S (length body)) body def 0 (NewTLV (fd_Sub def)) in
  let* l := halloc child in
  sret (CompositeValue body (Some l)).

Fixpoint ber_encode_loop (def : FieldDef) (tags : list (bytes * Value)) (dst : bytes) : result bytes :=
  match tags with
  | [] => Ok dst
  | (tag, tv) :: tags =>
      let! tagBytes := hex_decode tag in
      let! val := match tag_codec def tag with
                  | Some (td, c) => EncodeBody c [] tv td
                  | None => Ok (v_raw tv)
                  end in
      ber_encode_loop def tags (appendBERLen (dst ++ tagBytes) (len val) ++ val)
  end.

(** The child a composite value points to. *)
Definition child_of (v : Value) : option Message := Value_Composite v ≫= fun l => h !! l.

Definition berTLV_EncodeBody (dst : bytes) (v : Value) (def : FieldDef) : result bytes :=
  match child_of v with
  | None => Err tlv_ErrNotComposite
  | Some child => ber_encode_loop def (TagSeq child) dst
  end.

(** ** The positional sub-message codec ([fieldcodec/subfield]) *)

Definition packager_DecodeBody (body : bytes) (def : FieldDef) : ST Value :=
  match fd_Sub def with
  | None => sfail subfield_ErrNotComposite
  | Some sub =>
      let* child := slift (Unmarshal (NewCodec sub []) body) in
      let* l := halloc child in
      sret (CompositeValue body (Some l))
  end.

Definition packager_EncodeBody (dst : bytes) (v : Value) (def : FieldDef) : result bytes :=
  match fd_Sub def with
  | None => Err subfield_ErrNotComposite
  | Some sub =>
      match child_of v with
      | None => Err subfield_ErrNotComposite
      | Some child =>
          let! body := marshal EncodeBody (NewCodec sub []) child [] in
          Ok (dst ++ body)
      end
  end.
End Composites.

(** ** Closing the recursion *)

Fixpoint DecodeBody_n (n : nat) (c : FieldCodec) (body : bytes) (units : Z) (def : FieldDef) : ST Value :=
  match c with
  | berTLV =>
      berTLV_DecodeBody (match n with O => fun _ _ _ _ => sfail OutOfFuel | S n => DecodeBody_n n end) body def
  | packager => packager_DecodeBody body def
  | _ => slift (DecodeScalar c body units def)
  end.

Fixpoint EncodeBody_n (n : nat) (h : heap) (c : FieldCodec) (dst : bytes) (v : Value) (def : FieldDef)
    : result bytes :=
  let rec := match n with O => fun _ _ _ _ => Err OutOfFuel | S n => EncodeBody_n n h end in
  match c with
  | berTLV => berTLV_EncodeBody rec h dst v def
  | packager => packager_EncodeBody rec h dst v def
  | _ => EncodeScalar c dst v def
  end.

(** [c.DecodeBody], [c.EncodeBody] and [Codec.Marshal], at the depth their
    definition or schema needs. *)
Definition DecodeBody : decoder := fun c body units def => DecodeBody_n (def_depth def) c body units def.
Definition EncodeBody (h : heap) : encoder := fun c dst v def => EncodeBody_n (def_depth def) h c dst v def.
Definition Marshal (h : heap) (c : Codec) (m : Message) (dst : bytes) : result bytes :=
  marshal (EncodeBody h) c m dst.

(** ** Spans *)

(** What a definition needs for its span to be readable: a length codec of the
    catalogue's shape, or a width. *)
Definition def_wire (d : FieldDef) : Prop :=
  match fd_Length d with None => 0 <= fd_MaxLen d | Some l => length_ok l = true end.

Record schema_wire (s : Schema) : Prop := {
  sw_ok : schema_ok s;
  sw_defs : forall de d, Schema_Field s de = Some d -> def_wire d;
}.

(** The same, decided on a schema. *)
Definition def_wireb (d : FieldDef) : bool :=
  match fd_Length d with None => 0 <=? fd_MaxLen d | Some l => length_ok l end.
Definition schema_wireb (s : Schema) : bool :=
  forallb (fun o => match o with Some d => def_wireb d | None => true end) (s_mti s :: s_defs s).

Lemma def_wireb_ok d : def_wireb d = true -> def_wire d.
Proof. unfold def_wireb, def_wire. case_match; [done|]. intros. by bool_to_prop. Qed.

Lemma schema_wireb_ok s : schema_ok s -> schema_wireb s = true -> schema_wire s.
Proof.
  intros Hs H. unfold schema_wireb in H. cbn [forallb] in H.
  apply andb_prop in H as [Hm Hl]. split; [done|].
  intros de d Hd. apply def_wireb_ok. unfold Schema_Field in Hd. case_match; [by rewrite Hd in Hm|]. case_match; [done|].
  destruct (s_defs s !! Z.to_nat de) as [[d'|]|] eqn:E; cbn in Hd; simplify_eq.
  rewrite forallb_forall in Hl. apply (Hl (Some d)). apply list_elem_of_In. by eapply list_elem_of_lookup_2.
Qed.

Lemma Build_wire b s : Build b = inr s -> schema_wireb s = true -> schema_wire s.
Proof. intros H. apply schema_wireb_ok. by apply (Build_facts b s). Qed.

Lemma width_of_nonneg c u : 0 <= u -> 0 <= width_of c u.
Proof.
  intros. unfold width_of. destruct c; cbn; try lia;
    rewrite PackedLen_div by lia; apply Z.div_pos; lia.
Qed.

Lemma wireBytes_nonneg d u : 0 <= u -> 0 <= wireBytes d u.
Proof. unfold wireBytes. case_match; [apply width_of_nonneg|done]. Qed.

Lemma read_prefix_safe d src off : def_wire d -> 0 <= off <= len src ->
  read_prefix d src off <> Panic /\
  forall u bo, read_prefix d src off = Ok (u, bo) -> 0 <= u /\ off <= bo <= len src.
Proof.
  unfold def_wire, read_prefix. intros Hw Ho. destruct (fd_Length d) as [l|].
  - pose proof (length_ok_contract l Hw) as HC. pose proof (lc_total src off d Ho).
    destruct (ReadLen l src off d) as [[u n]| |] eqn:E; cbn [rbind]; [|done|done].
    destruct (_ || _) eqn:G; [done|]. bool_to_prop. split; [done|]. intros ? ? [= <- <-].
    apply lc_bounds in E; [|done]. lia.
  - split; [done|]. intros ? ? [= <- <-]. lia.
Qed.

Lemma fieldBodySpan_inv d src off bo be nx u : fieldBodySpan d src off = Ok (bo, be, nx, u) ->
  read_prefix d src off = Ok (u, bo) /\ 0 <= off <= len src /\ be = bo + wireBytes d u /\ nx = be /\ be <= len src.
Proof.
  unfold fieldBodySpan. destruct (_ || _) eqn:G; [done|]. bool_to_prop.
  destruct (read_prefix d src off) as [[u' bo']| |]; cbn [rbind]; [|done|done].
  destruct (Z.ltb_spec (len src) (bo' + wireBytes d u')); [done|]. intros [= <- <- <- <-].
  split_and!; try done; lia.
Qed.

Lemma fieldBodySpan_safe d src off : def_wire d ->
  fieldBodySpan d src off <> Panic /\
  forall bo be nx u, fieldBodySpan d src off = Ok (bo, be, nx, u) ->
    0 <= off <= bo /\ bo <= be <= len src /\ nx = be /\ 0 <= u /\ be = bo + wireBytes d u.
Proof.
  intros Hw. unfold fieldBodySpan. destruct (_ || _) eqn:G; [done|]. bool_to_prop.
  destruct (read_prefix_safe d src off Hw) as [S1 S2]; [lia|].
  destruct (read_prefix d src off) as [[u bo]| |]; cbn [rbind]; [|done|done].
  destruct (S2 u bo eq_refl). pose proof (wireBytes_nonneg d u ltac:(lia)).
  destruct (Z.ltb_spec (len src) (bo + wireBytes d u)); [done|]. split; [done|].
  intros ? ? ? ? [= <- <- <- <-]. lia.
Qed.

(** A field is delimited when its bytes determine its span, wherever they
    stand: [po] is where the body starts in them and [u] its unit count. *)
Definition delimited (d : FieldDef) (w : bytes) (po u : Z) : Prop :=
  0 <= po <= len w /\
  forall pre post, fieldBodySpan d (pre ++ w ++ post) (len pre) =
    Ok (len pre + po, len pre + len w, len pre + len w, u).

(** A body after its prefix is delimited when the prefix announces its width. *)
Lemma delimited_intro d p body u :
  (forall pre post, read_prefix d (pre ++ p ++ post) (len pre) = Ok (u, len pre + len p)) ->
  wireBytes d u = len body -> delimited d (p ++ body) (len p) u.
Proof.
  intros HR HW. pose proof (len_nonneg p). pose proof (len_nonneg body).
  split; [len_simpl; lia|]. intros pre post. pose proof (len_nonneg pre). pose proof (len_nonneg post).
  unfold fieldBodySpan. destruct (_ || _) eqn:G.
  { apply orb_true_iff in G as [G|G]; apply Z.ltb_lt in G; len_simpl; lia. }
  rewrite <- app_assoc, HR. cbn [rbind]. rewrite HW.
  destruct (Z.ltb_spec (len (pre ++ p ++ body ++ post)) (len pre + len p + len body)); [len_simpl; lia|].
  by rewrite !len_app, !Z.add_assoc.
Qed.

(** Reading is local: what was read as a field once is delimited. *)
Lemma fieldBodySpan_delimited d src off bo be nx u w : def_wire d ->
  fieldBodySpan d src off = Ok (bo, be, nx, u) -> slice (E:=error) src off be = Ok w ->
  delimited d w (bo - off) u.
Proof.
  intros Hw HF HS. pose proof (fieldBodySpan_safe d src off Hw) as [_ S2].
  destruct (S2 _ _ _ _ HF) as ((? & ?) & (? & ?) & -> & ? & HB). clear S2.
  assert (exists p body, w = p ++ body /\ len p = bo - off /\ len body = wireBytes d u /\
    slice (E:=error) src off bo = Ok p) as (p & body & -> & Lp & Lb & Sp).
  { apply slice_Ok_inv in HS as (_ & _ & L & ->). exists (take (Z.to_nat (bo - off)) (drop (Z.to_nat off) src)).
    exists (drop (Z.to_nat (bo - off)) (take (Z.to_nat (be - off)) (drop (Z.to_nat off) src))).
    assert (take (Z.to_nat (bo - off)) (drop (Z.to_nat off) src) =
            take (Z.to_nat (bo - off)) (take (Z.to_nat (be - off)) (drop (Z.to_nat off) src))) as E.
    { rewrite take_take. f_equal. lia. }
    split_and!.
    - by rewrite E, take_drop.
    - unfold len in *. rewrite length_take, length_drop. lia.
    - unfold len in *. rewrite length_drop, length_take, length_drop. lia.
    - by apply slice_ok; lia. }
  replace (bo - off) with (len p). apply delimited_intro; [|lia].
  intros pre post. apply fieldBodySpan_inv in HF as (HP & Ho & _).
  unfold def_wire, read_prefix in *. destruct (fd_Length d) as [l|].
  - destruct (ReadLen l src off d) as [[u' bo']| |] eqn:HR; cbn [rbind] in HP; [|done|done].
    destruct (_ || _) eqn:G; [done|]. injection HP as -> ->. bool_to_prop.
    pose proof (length_ok_contract l Hw) as HC.
    erewrite lc_local; [|exact Ho|exact HR|exact Sp]. cbn [rbind].
    destruct (_ || _) eqn:G'; [|done]. apply orb_true_iff in G' as [G'|G']; apply Z.ltb_lt in G';
      pose proof (len_nonneg p); lia.
  - injection HP as -> ->. assert (len p = 0) as E0 by lia. rewrite E0. do 2 f_equal. lia.
Qed.
