(* ===== verification/Layout.v ===== *)
(** * The layout of a decoded message

    What [Unmarshal] establishes, as a relation between a wire image and the
    message: the MTI, the bitmap and then one span per present element, each
    starting where the previous one ends. *)

From S2P Require Import Prelude Errors Bitmap Path Schema LengthCodec BitmapCodec Value FieldCodec Message Engine.

(** The spans of [des] tile the wire from [off] to [last]. *)
Fixpoint tiled (s : Schema) (wire : bytes) (slots : list slot) (des : list Z) (off last : Z) : Prop :=
  match des with
  | [] => off = last
  | de :: des =>
      exists def bo be u,
        Schema_Field s de = Some def /\
        fieldBodySpan def wire off = Ok (bo, be, be, u) /\
        slots !! Z.to_nat de = Some (span_slot off bo be u) /\
        tiled s wire slots des be last
  end.

(** The MTI's slot, and where the bitmap starts. *)
Definition mti_layout (s : Schema) (wire : bytes) (m : Message) (off : Z) : Prop :=
  match s_mti s with
  | None => off = 0
  | Some mti => exists bo u,
      fieldBodySpan mti wire 0 = Ok (bo, off, off, u) /\
      m_slots m !! 0%nat = Some (span_slot 0 bo off u)
  end.

Record layout (s : Schema) (bc : BitmapCodec) (wire : bytes) (m : Message) (off0 off1 last : Z) : Prop := {
  lay_schema : m_schema m = Some s;
  lay_src : m_src m = Some wire;
  lay_owned : m_owned m = false;
  lay_len : len (m_slots m) = s_maxDE s + 1;
  lay_mti : mti_layout s wire m off0;
  lay_bitmap : ReadBitmap bc wire off0 (bs_Levels (s_bitmap s)) = Ok (m_bm m, off1);
  lay_tiled : tiled s wire (m_slots m) (Range (m_bm m)) off1 last;
  lay_last : off1 <= last <= len wire;
  lay_present : forall de, 1 <= de -> Has m de = true <-> de ∈ Range (m_bm m);
  lay_absent : forall i sl, m_slots m !! i = Some sl -> sl_present sl = false -> sl = zeroSlot;
  lay_nomti : s_mti s = None -> m_slots m !! 0%nat = Some zeroSlot;
  lay_clean : m_tags m = ∅ /\ m_dirty m = empty_bitmap;
}.

Lemma tiled_ext s wire slots slots' des off last :
  (forall de, de ∈ des -> slots' !! Z.to_nat de = slots !! Z.to_nat de) ->
  tiled s wire slots des off last -> tiled s wire slots' des off last.
Proof.
  revert off. induction des as [|de des IH]; intros off HE; cbn [tiled]; [done|].
  intros (def & bo & be & u & ? & ? & ? & ?). exists def, bo, be, u. split_and!; [done|done| |].
  - rewrite HE; [done|]. by left.
  - apply IH; [|done]. intros. apply HE. by right.
Qed.

Section Fields.
Context (s : Schema) (Hs : schema_wire s) (wire : bytes).

Lemma unmarshal_fields_safe des off slots : unmarshal_fields s wire des off slots <> Panic.
Proof.
  revert off slots. induction des as [|de des IH]; intros off slots; cbn [unmarshal_fields]; [done|].
  destruct (Schema_Field s de) as [def|] eqn:F; [|done].
  destruct (fieldBodySpan_safe def wire off) as [S _]; [by eapply sw_defs|].
  destruct (fieldBodySpan def wire off) as [[[[bo be] nx] u]| |]; cbn [rmap_err rbind]; [apply IH|done|done].
Qed.

Lemma unmarshal_fields_tiled des off slots last slots' :
  NoDup des -> (forall de, de ∈ des -> 1 <= de) -> len slots = s_maxDE s + 1 ->
  unmarshal_fields s wire des off slots = Ok (last, slots') ->
  tiled s wire slots' des off last /\ len slots' = len slots /\
  (0 <= off <= len wire -> off <= last <= len wire) /\
  (forall i, ~ (Z.of_nat i ∈ des) -> slots' !! i = slots !! i).
Proof.
  revert off slots. induction des as [|de des IH]; intros off slots HN HP HL; cbn [unmarshal_fields].
  { intros [= <- <-]. split_and!; [done..|lia|lia|done]. }
  destruct (Schema_Field s de) as [def|] eqn:F; [|done].
  apply list.NoDup_cons in HN as [Hd HN]. pose proof (HP de ltac:(left)) as Hde.
  destruct (so_defs s (sw_ok s Hs) de def) as [Hmax _]; [lia|done|].
  destruct (fieldBodySpan def wire off) as [[[[bo be] nx] u]| |] eqn:E; cbn [rmap_err rbind]; [|done|done].
  destruct (fieldBodySpan_safe def wire off) as [_ S2]; [by eapply sw_defs|].
  destruct (S2 _ _ _ _ E) as (? & ? & -> & ? & ?).
  destruct (Z.ltb_spec de (len slots)); [|lia]. intros HU.
  apply IH in HU as (T & L & B & O); [|done|intros; apply HP; by right|unfold len in *; rewrite length_insert; done].
  split_and!.
  - exists def, bo, be, u. split_and!; [done|done| |done]. rewrite O.
    + rewrite list_lookup_insert_eq; [done|]. unfold len in *; lia.
    + by rewrite Z2Nat.id by lia.
  - rewrite L. unfold len. by rewrite length_insert.
  - specialize (B ltac:(lia)). lia.
  - intros i Hi. apply not_elem_of_cons in Hi as [Hi1 Hi2]. rewrite O by done.
    apply list_lookup_insert_ne. lia.
Qed.
End Fields.

Lemma Range_NoDup b : bitmap_ok b -> NoDup (Range b).
Proof. intros. rewrite Range_filter by done. apply NoDup_ListNoDup, List.NoDup_filter, NoDup_ListNoDup, NoDup_seqZ. Qed.

Lemma Range_pos b de : bitmap_ok b -> de ∈ Range b -> 1 <= de <= 192.
Proof.
  intros. apply elem_of_Range in H0 as [H0 _]; [|done]. rewrite IsSet_bit in H0.
  apply andb_prop in H0 as [H0 _]. by apply in_range_iff.
Qed.

Lemma tiled_lookup s wire slots des off last de : tiled s wire slots des off last -> de ∈ des ->
  exists sl def, slots !! Z.to_nat de = Some sl /\ sl_present sl = true /\ Schema_Field s de = Some def.
Proof.
  revert off. induction des as [|d des IH]; intros off; cbn [tiled]; [by intros _ ?%not_elem_of_nil|].
  intros (def & bo & be & u & ? & ? & ? & ?) [->|Hd]%elem_of_cons; [|eauto].
  eexists _, _. by split_and!.
Qed.

Lemma zero_slots n i sl : replicate n zeroSlot !! i = Some sl -> sl = zeroSlot.
Proof. by intros [-> _]%lookup_replicate. Qed.

(** ** Unmarshal establishes the layout *)

Section Unmarshal.
Context (c : Codec) (Hs : schema_wire (c_schema c)) (wire : bytes).

Lemma unmarshal_mti_layout imm :
  let s := c_schema c in let m0 := newDecoded s wire imm in
  unmarshal_mti s wire m0 <> Panic /\
  forall m off, unmarshal_mti s wire m0 = Ok (m, off) ->
    mti_layout s wire m off /\ 0 <= off <= len wire /\ len (m_slots m) = s_maxDE s + 1 /\
    (forall i, (0 < i)%nat -> m_slots m !! i = m_slots m0 !! i) /\
    m_schema m = Some s /\ m_src m = Some wire /\ m_owned m = false /\ m_tags m = ∅ /\ m_dirty m = empty_bitmap /\
    (forall sl, m_slots m !! 0%nat = Some sl -> sl_present sl = false -> sl = zeroSlot) /\
    (s_mti s = None -> m_slots m !! 0%nat = Some zeroSlot).
Proof.
  cbv zeta. pose proof (so_max _ (sw_ok _ Hs)) as Hmax. pose proof (len_nonneg wire).
  unfold unmarshal_mti, mti_layout. destruct (s_mti (c_schema c)) as [mti|] eqn:EM.
  - assert (def_wire mti) as Hw by (apply (sw_defs _ Hs 0); by rewrite <- EM).
    destruct (fieldBodySpan_safe mti wire 0 Hw) as [S1 S2].
    destruct (fieldBodySpan mti wire 0) as [[[[bo be] nx] u]| |] eqn:EF; cbn [rmap_err rbind]; [|done|done].
    destruct (S2 _ _ _ _ eq_refl) as (? & ? & -> & ? & ?).
    assert (exists k, Z.to_nat (s_maxDE (c_schema c) + 1) = S k) as [k Hk] by (exists (Z.to_nat (s_maxDE (c_schema c))); lia).
    unfold slot_at, newDecoded, idx. cbn [m_slots]. rewrite Hk. cbn [Z.ltb Z.compare replicate lookup list_lookup Z.to_nat rbind].
    split; [done|]. intros m off [= <- <-]. cbn [with_slot with_slots m_slots m_schema m_src m_owned m_tags m_dirty].
    split_and!; try done; try lia.
    + exists bo, u. split; [done|]. done.
    + unfold len. rewrite length_insert. cbn [length]. rewrite length_replicate. lia.
    + intros i Hi. apply list_lookup_insert_ne. lia.
    + intros sl. cbn. by intros [= <-].
  - split; [done|]. intros m off [= <- <-]. cbn. split_and!; try done; try lia.
    + rewrite len_replicate. lia.
    + intros sl HS _. by apply zero_slots in HS.
    + intros _. apply lookup_replicate. split; [done|lia].
Qed.

Lemma Unmarshal_layout :
  Unmarshal c wire <> Panic /\
  forall m, Unmarshal c wire = Ok m ->
    m_sealed m = opt_Immutable (c_opts c) /\
    exists bc off0 off1 last, bs_Codec (s_bitmap (c_schema c)) = Some bc /\
      layout (c_schema c) bc wire m off0 off1 last.
Proof.
  unfold Unmarshal. set (s := c_schema c) in *.
  destruct (unmarshal_mti_layout (opt_Immutable (c_opts c))) as [M1 M2]. fold s in M1, M2.
  assert (forall m off, unmarshal_mti s wire (newDecoded s wire (opt_Immutable (c_opts c))) = Ok (m, off) ->
    m_sealed m = opt_Immutable (c_opts c)) as MS.
  { unfold unmarshal_mti. intros m off Hm. destruct (s_mti s); [|by injection Hm as <- <-]. go_inv.
    destruct a as [[[? ?] ?] ?]. go_inv. done. }
  destruct (unmarshal_mti s wire _) as [[m off0]| |]; cbn [rbind]; [|done|done].
  destruct (M2 _ _ eq_refl) as (L0 & Ho & HL & HI & E1 & E2 & E3 & E4 & E5 & Z1 & Z2). specialize (MS _ _ eq_refl).
  destruct (bs_Codec (s_bitmap s)) as [bc|] eqn:HB; [|done].
  pose proof (ReadBitmap_total bc wire off0 (bs_Levels (s_bitmap s))) as T.
  destruct (ReadBitmap bc wire off0 (bs_Levels (s_bitmap s))) as [[bm off1]| |] eqn:ER; cbn [rmap_err rbind]; [|done|done].
  apply ReadBitmap_bounds in ER as HR. destruct HR as (? & ? & Hbm).
  cbn [with_bm m_slots].
  pose proof (unmarshal_fields_safe s Hs wire (Range bm) off1 (m_slots m)) as FS.
  destruct (unmarshal_fields s wire (Range bm) off1 (m_slots m)) as [[last slots]| |] eqn:EU; cbn [rbind]; [|done|done].
  apply unmarshal_fields_tiled in EU as (FT & FL & FB & FO); [|done|by apply Range_NoDup|by intros; eapply Range_pos|done].
  split; [done|]. intros m' [= <-]. split; [done|]. exists bc, off0, off1, last. split; [done|].
  split; cbn [with_slots with_bm m_schema m_src m_owned m_slots m_bm m_tags m_dirty]; try done.
  - by rewrite FL.
  - unfold mti_layout in *. destruct (s_mti s); [|done]. destruct L0 as (bo & u & ? & ?). exists bo, u. split; [done|].
    cbn [with_slots with_bm m_slots]. rewrite FO; [done|]. intros Hin. apply Range_pos in Hin; [lia|done].
  - apply FB. lia.
  - intros de Hde. unfold Has, in_slots. cbn [with_slots with_bm m_slots]. split.
    + destruct (_ || _) eqn:G; [done|]. cbn [negb]. bool_to_prop.
      destruct (decide (de ∈ Range bm)) as [|Hn]; [done|]. rewrite FO by (by rewrite Z2Nat.id by lia).
      rewrite HI by lia. unfold newDecoded. cbn [m_slots].
      destruct (replicate _ zeroSlot !! Z.to_nat de) as [sl|] eqn:EZ; [|done].
      apply zero_slots in EZ as ->. done.
    + intros Hin. destruct (tiled_lookup _ _ _ _ _ _ _ FT Hin) as (sl & def & E & P & _).
      apply lookup_lt_Some in E as E'. rewrite E, P.
      destruct (_ || _) eqn:G; [|done]. apply orb_true_iff in G as [G|G];
        [apply Z.ltb_lt in G|apply Z.leb_le in G; unfold len in G]; lia.
  - intros i sl HSl HPr. destruct (decide (Z.of_nat i ∈ Range bm)) as [Hin|Hn].
    + destruct (tiled_lookup _ _ _ _ _ _ _ FT Hin) as (sl' & def & E & P & _).
      rewrite Nat2Z.id, HSl in E. injection E as <-. congruence.
    + rewrite FO in HSl by done. destruct i as [|i]; [by apply Z1|].
      rewrite HI in HSl by lia. by apply zero_slots in HSl.
  - intros HN. rewrite FO; [by apply Z2|]. intros Hin. apply Range_pos in Hin; [lia|done].
Qed.
End Unmarshal.

(** Every error of [Unmarshal] is a [FieldError] at an offset of the wire. *)
Lemma Unmarshal_errors c wire e : schema_wire (c_schema c) -> Unmarshal c wire = Err e ->
  exists p off name cause, e = FieldError p off name cause /\ 0 <= off <= len wire.
Proof.
  intros Hs. pose proof (len_nonneg wire).
  assert (forall des off slots, 0 <= off <= len wire ->
    unmarshal_fields (c_schema c) wire des off slots = Err e ->
    exists p off name cause, e = FieldError p off name cause /\ 0 <= off <= len wire) as HF.
  { induction des as [|de des IH]; intros off slots Ho; cbn [unmarshal_fields]; [done|].
    destruct (Schema_Field (c_schema c) de) as [def|] eqn:F; [|intros [= <-]; by eexists _, _, _, _].
    destruct (fieldBodySpan_safe def wire off) as [_ S]; [by eapply sw_defs|].
    destruct (fieldBodySpan def wire off) as [[[[bo be] nx] u]| |]; cbn [rmap_err rbind]; [|intros [= <-]; by eexists _, _, _, _|done].
    destruct (S _ _ _ _ eq_refl) as (? & ? & -> & _). apply IH. lia. }
  unfold Unmarshal. destruct (unmarshal_mti_layout c Hs wire (opt_Immutable (c_opts c))) as [_ M2].
  destruct (unmarshal_mti (c_schema c) wire _) as [[m off0]|e'|] eqn:EM; cbn [rbind]; [| |done].
  - destruct (M2 _ _ eq_refl) as (_ & Ho & _).
    destruct (bs_Codec _) as [bc|]; [|intros [= <-]; by eexists _, _, _, _].
    destruct (ReadBitmap bc wire off0 _) as [[bm off1]| |] eqn:ER; cbn [rmap_err rbind];
      [|intros [= <-]; by eexists _, _, _, _|done].
    apply ReadBitmap_bounds in ER as (? & ? & _). intros H'. apply rbind_Err in H' as [H'|(? & _ & H')].
    + eapply HF; [|exact H']. lia.
    + by destruct x.
  - intros [= <-]. unfold unmarshal_mti in EM. destruct (s_mti _) as [mti|]; [|done].
    apply rbind_Err in EM as [EM|([[[? ?] ?] ?] & _ & EM)].
    + destruct (fieldBodySpan mti wire 0); try done. injection EM as <-. by eexists _, _, _, _.
    + apply rbind_Err in EM as [EM|(? & _ & EM)]; [|done].
      unfold slot_at, idx in EM. repeat case_match; done.
Qed.

(** C29: structural parsing is safe and exact on every input.  For a schema
    whose definitions have readable widths, [Unmarshal] never panics; an
    error is a [FieldError] at an offset of the wire; and a message it returns
    keeps the wire, holds one span per element of the wire's bitmap, and the
    spans (MTI, bitmap, elements) tile the wire from its start without gap or
    overlap, in bounds. *)
Theorem Unmarshal_spans c wire : schema_wire (c_schema c) ->
  Unmarshal c wire <> Panic /\
  (forall e, Unmarshal c wire = Err e ->
    exists p off name cause, e = FieldError p off name cause /\ 0 <= off <= len wire) /\
  (forall m, Unmarshal c wire = Ok m ->
    m_sealed m = opt_Immutable (c_opts c) /\
    exists bc off0 off1 last, bs_Codec (s_bitmap (c_schema c)) = Some bc /\
      layout (c_schema c) bc wire m off0 off1 last).
Proof.
  intros Hs. destruct (Unmarshal_layout c Hs wire) as [P L].
  split; [exact P|]. split; [|exact L]. intros e. by apply Unmarshal_errors.
Qed.

(** A schema of a PAN, an amount and a network code. *)
Definition sample_wire_builder : SchemaBuilder :=
  let b := builder_Bitmap (builder_MTI (NewSchema (go "sample")) (Some numASCII)) (mkBitmapSpec (Some binWord) 2) in
  let b := builder_Field b 2 (go "PAN") (Some bcdNum) (Some LLVarASCII) [optMaxLen 19] in
  let b := builder_Field b 4 (go "Amount") (Some amountASCII) None [optMaxLen 12; optScale 2] in
  builder_Field b 70 (go "Network Management Information Code") (Some numASCII) None [optMaxLen 3].

Definition sample_schema : Schema :=
  match Build sample_wire_builder with inr s => s | inl _ => mkSchema [] None (mkBitmapSpec None 0) [] ∅ 0 false end.

Lemma sample_schema_wire : schema_wire sample_schema.
Proof. apply (Build_wire sample_wire_builder); vm_compute; reflexivity. Qed.

(** [0800], the bitmap of DE 2, DE 70 and its secondary word, then the two fields. *)
Definition sample_wire : bytes :=
  go "0800" ++ [xc0; x00; x00; x00; x00; x00; x00; x00] ++ [x04; x00; x00; x00; x00; x00; x00; x00] ++
  go "05" ++ [x04; x11; x12] ++ go "301".

Lemma Unmarshal_spans_witness :
  Unmarshal (NewCodec sample_schema []) sample_wire <> Panic /\
  exists m bc off0 off1 last, Unmarshal (NewCodec sample_schema []) sample_wire = Ok m /\
    layout sample_schema bc sample_wire m off0 off1 last.
Proof.
  destruct (Unmarshal_spans (NewCodec sample_schema []) sample_wire sample_schema_wire) as (P & _ & L).
  split; [exact P|].
  destruct (Unmarshal (NewCodec sample_schema []) sample_wire) as [m| |] eqn:E; [|vm_compute in E; discriminate..].
  destruct (L m eq_refl) as (_ & bc & off0 & off1 & last & _ & Hl).
  exists m, bc, off0, off1, last. split; [reflexivity|exact Hl].
Defined.
