(* ===== verification/Wire.v ===== *)
(** * Marshal and Unmarshal are inverse

    [Marshal] writes the MTI, the derived bitmap and the present fields one
    after the other; when every field written is delimited, [Unmarshal] finds
    exactly these fields again. *)

From S2P Require Import Prelude Errors Bitmap Path Schema LengthCodec BitmapCodec Value FieldCodec Message Engine Layout.

(** ** What Marshal writes *)

Section Marshal.
Context (E : encoder) (s : Schema) (Hs : schema_wire s).

Lemma appendField_app dst d sl src : def_wire d ->
  appendField E dst d sl src = let! w := appendField E [] d sl src in Ok (dst ++ w).
Proof.
  intros Hw. unfold appendField. destruct (clean_src sl src) as [b|].
  - by destruct (slice b (sl_wireOff sl) (sl_bodyEnd sl)).
  - destruct (encode_field E d (sl_v sl)) as [body| |]; cbn [rbind]; [|done|done].
    unfold def_wire in Hw. destruct (fd_Length d) as [l|]; [|done].
    pose proof (length_ok_contract l Hw) as HC. rewrite (lc_append dst).
    destruct (WriteLen l [] _ d); cbn [rbind rmap_err]; [|done|done]. by rewrite app_assoc.
Qed.

(** The bytes the field [de] of [m] becomes. *)
Definition field_bytes (m : Message) (de : Z) (w : bytes) : Prop :=
  exists sl d, slot_at m de = Ok sl /\ Schema_Field s de = Some d /\ appendField E [] d sl (m_src m) = Ok w.

Lemma Has_slot m de sl : slot_at m de = Ok sl -> Has m de = sl_present sl.
Proof.
  unfold slot_at, idx, Has, in_slots. destruct (Z.ltb_spec de 0); [done|]. cbn [orb].
  destruct (m_slots m !! Z.to_nat de) as [x|] eqn:EL; [|done]. intros [= ->].
  apply lookup_lt_Some in EL. unfold len. by destruct (Z.leb_spec (Z.of_nat (length (m_slots m))) de); [lia|].
Qed.

Lemma marshal_fields_concat m des dst out :
  marshal_fields E s m des dst = Ok out ->
  exists ws, out = dst ++ concat ws /\ Forall2 (field_bytes m) (List.filter (Has m) des) ws.
Proof.
  revert dst. induction des as [|de des IH]; intros dst; cbn [marshal_fields List.filter].
  { intros [= <-]. exists []. rewrite app_nil_r. split; [done|constructor]. }
  destruct (slot_at m de) as [sl| |] eqn:ES; cbn [rbind]; [|done|done]. rewrite (Has_slot m de sl ES).
  destruct (sl_present sl); cbn [negb]; [|apply IH].
  destruct (Schema_Field s de) as [d|] eqn:EF; [|done]. rewrite appendField_app by (by eapply sw_defs).
  destruct (appendField E [] d sl (m_src m)) as [w| |] eqn:EA; cbn [rbind]; [|done|done].
  intros HM. apply IH in HM as (ws & -> & HF). exists (w :: ws). split; [by rewrite <- app_assoc|].
  constructor; [|done]. by exists sl, d.
Qed.

Lemma marshal_fields_total m des dst :
  (forall de, de ∈ des -> exists sl, slot_at m de = Ok sl /\
     (sl_present sl = true -> forall d dst, Schema_Field s de = Some d -> appendField E dst d sl (m_src m) <> Panic)) ->
  marshal_fields E s m des dst <> Panic.
Proof.
  revert dst. induction des as [|de des IH]; intros dst H; cbn [marshal_fields]; [done|].
  destruct (H de) as (sl & -> & HS); [by left|]. cbn [rbind].
  destruct (sl_present sl) eqn:EP; cbn [negb]; [|apply IH; intros; apply H; by right].
  destruct (Schema_Field s de) as [d|]; [|done]. specialize (HS eq_refl d dst eq_refl).
  destruct (appendField E dst d sl (m_src m)); cbn [rbind]; [apply IH; intros; apply H; by right|done|done].
Qed.
End Marshal.

(** ** The derived bitmap *)

Lemma present_fold m l bm : bitmap_ok bm ->
  bitmap_ok (fold_left (fun bm de => if Has m de then BSet bm de else bm) l bm) /\
  forall de, IsSet (fold_left (fun bm de => if Has m de then BSet bm de else bm) l bm) de =
    IsSet bm de || (in_range de && Has m de && bool_decide (de ∈ l)).
Proof.
  revert bm. induction l as [|x l IH]; intros bm Hb; cbn [fold_left].
  { split; [done|]. intros de. rewrite (bool_decide_false (de ∈ [])) by apply not_elem_of_nil. by rewrite andb_false_r, orb_false_r. }
  destruct (IH (if Has m x then BSet bm x else bm)) as [I1 I2]; [case_match; auto using BSet_ok|].
  split; [done|]. intros de. rewrite I2. destruct (decide (de = x)) as [->|Hn].
  - rewrite (bool_decide_true (x ∈ x :: l)) by left. destruct (Has m x) eqn:HX.
    + rewrite IsSet_BSet, Z.eqb_refl, !andb_true_r. by destruct (in_range x), (IsSet bm x), (bool_decide (x ∈ l)).
    + by rewrite !andb_false_r.
  - assert (bool_decide (de ∈ x :: l) = bool_decide (de ∈ l)) as ->.
    { apply bool_decide_ext. rewrite elem_of_cons. naive_solver. }
    f_equal. destruct (Has m x); [|done]. rewrite IsSet_BSet.
    destruct (Z.eqb_spec x de); [congruence|]. by rewrite andb_false_r.
Qed.

Lemma Has_range m de : Has m de = true -> 0 <= de < len (m_slots m).
Proof. unfold Has, in_slots. destruct (_ || _) eqn:G; [done|]. intros _. bool_to_prop. lia. Qed.

Lemma present_bitmap_ok m : bitmap_ok (present_bitmap m).
Proof. unfold present_bitmap. by destruct (present_fold m (slot_range m) empty_bitmap empty_bitmap_ok). Qed.

Lemma IsSet_present m de : IsSet (present_bitmap m) de = in_range de && Has m de.
Proof.
  unfold present_bitmap. destruct (present_fold m (slot_range m) empty_bitmap empty_bitmap_ok) as [_ ->].
  rewrite IsSet_empty. cbn [orb]. destruct (in_range de) eqn:R; [|done]. destruct (Has m de) eqn:HH; [|done].
  apply bool_decide_true. apply in_range_iff in R. apply Has_range in HH. unfold slot_range.
  rewrite elem_of_seqZ. lia.
Qed.

(** The elements the bitmap announces are the present slots, in slot order. *)
Lemma Range_present m ml : presence_ok (present_bitmap m) ml -> len (m_slots m) <= 193 ->
  Range (present_bitmap m) = List.filter (Has m) (slot_range m).
Proof.
  intros HP HL. rewrite Range_filter by apply present_bitmap_ok. unfold slot_range.
  pose proof (len_nonneg (m_slots m)).
  replace (seqZ 1 192) with (seqZ 1 (Z.max 0 (len (m_slots m) - 1)) ++ seqZ (1 + Z.max 0 (len (m_slots m) - 1)) (192 - Z.max 0 (len (m_slots m) - 1)))
    by (rewrite <- seqZ_app by lia; f_equal; lia).
  rewrite List.filter_app.
  assert (forall l, (forall de, de ∈ l -> Has m de = false) ->
    List.filter (fun de => IsSet (present_bitmap m) de && negb (is_cont de)) l = []) as HN.
  { induction l as [|x l IH]; [done|]. intros Hx. cbn [List.filter].
    rewrite IsSet_present, (Hx x) by left. rewrite andb_false_r. apply IH. intros. apply Hx. by right. }
  rewrite (HN (seqZ (1 + _) _)), app_nil_r.
  2:{ intros de [Hd _]%elem_of_seqZ. destruct (Has m de) eqn:HH; [|done]. apply Has_range in HH. lia. }
  assert (seqZ 1 (Z.max 0 (len (m_slots m) - 1)) = seqZ 1 (len (m_slots m) - 1)) as ->.
  { destruct (Z.max_spec 0 (len (m_slots m) - 1)) as [[? ->]|[? ->]]; [done|].
    rewrite !seqZ_nil by lia. done. }
  apply List.filter_ext_in. intros de Hde. apply list_elem_of_In, elem_of_seqZ in Hde.
  rewrite IsSet_present, (proj2 (in_range_iff de)) by lia. cbn [andb].
  destruct (is_cont de) eqn:HC; cbn [negb]; [|by rewrite andb_true_r]. rewrite andb_false_r.
  unfold is_cont, contSecondary, contTertiary in HC. apply orb_true_iff in HC as [HC|HC]; apply Z.eqb_eq in HC as ->.
  - pose proof (po_cont1 _ _ HP) as C. rewrite IsSet_present in C. by destruct (Has m 1).
  - pose proof (po_cont65 _ _ HP) as C. rewrite IsSet_present in C. by destruct (Has m 65).
Qed.

(** ** Reading it back *)

(** The slot [de] spans a copy of the bytes [w] of the source. *)
Definition spans_bytes (d : FieldDef) (src : bytes) (slots : list slot) (de : Z) (w : bytes) : Prop :=
  exists o po u, delimited d w po u /\ slots !! Z.to_nat de = Some (span_slot o (o + po) (o + len w) u) /\
    slice (E:=error) src o (o + len w) = Ok w.

Lemma unmarshal_fields_complete s (Hs : schema_wire s) des ws pre post slots :
  Forall2 (fun de w => exists d po u, Schema_Field s de = Some d /\ delimited d w po u) des ws ->
  NoDup des -> (forall de, de ∈ des -> 1 <= de) -> len slots = s_maxDE s + 1 ->
  exists slots', unmarshal_fields s (pre ++ concat ws ++ post) des (len pre) slots
      = Ok (len pre + len (concat ws), slots') /\
    Forall2 (fun de w => exists d, Schema_Field s de = Some d /\
      spans_bytes d (pre ++ concat ws ++ post) slots' de w) des ws.
Proof.
  intros HF. revert pre slots. induction HF as [|de w des ws (d & po & u & Hd & Hw) HF IH]; intros pre slots HN HP HL.
  { exists slots. cbn [unmarshal_fields concat]. len_nil_simpl. rewrite Z.add_0_r. split; [done|constructor]. }
  apply list.NoDup_cons in HN as [Hde HN]. cbn [unmarshal_fields concat]. rewrite Hd.
  replace (pre ++ (w ++ concat ws) ++ post) with (pre ++ w ++ (concat ws ++ post)) by (by rewrite <- app_assoc).
  destruct Hw as [Hpo Hspan]. rewrite Hspan. cbn [rmap_err rbind].
  destruct (so_defs s (sw_ok s Hs) de d) as [Hmax _]; [specialize (HP de ltac:(left)); lia|done|].
  destruct (Z.ltb_spec de (len slots)); [|lia].
  set (slots1 := <[Z.to_nat de := span_slot (len pre) (len pre + po) (len pre + len w) u]> slots).
  replace (pre ++ w ++ (concat ws ++ post)) with ((pre ++ w) ++ concat ws ++ post) by (by rewrite <- app_assoc).
  replace (len pre + len w) with (len (pre ++ w)) by (by rewrite len_app).
  assert (len slots1 = s_maxDE s + 1) as HL1 by (unfold slots1, len in *; by rewrite length_insert).
  destruct (IH (pre ++ w) slots1) as (slots' & HU & HR); [done|intros; apply HP; by right|done|].
  exists slots'. split; [rewrite HU; do 2 f_equal; len_simpl; lia|].
  apply (unmarshal_fields_tiled s Hs) in HU as (_ & _ & _ & HO); [|done|intros; apply HP; by right|done].
  constructor; [|done]. exists d. split; [done|]. exists (len pre), po, u. split; [by split|].
  split.
  - rewrite HO; [|by rewrite Z2Nat.id by lia]. unfold slots1. rewrite list_lookup_insert_eq; [done|unfold len in *; lia].
  - rewrite <- app_assoc. by apply slice_mid.
Qed.

(** A message is deliverable when the engine can tell its fields apart on the
    wire: its present elements fit the bitmap, and what is written for each is
    delimited. *)
Record deliverable (E : encoder) (s : Schema) (m : Message) : Prop := {
  dl_slots : len (m_slots m) = s_maxDE s + 1;
  dl_presence : presence_ok (present_bitmap m) (bs_Levels (s_bitmap s));
  dl_mti : forall mti sl w, s_mti s = Some mti -> slot_at m 0 = Ok sl ->
    appendField E [] mti sl (m_src m) = Ok w -> exists po u, delimited mti w po u;
  dl_fields : forall de d sl w, Has m de = true -> 1 <= de -> Schema_Field s de = Some d -> slot_at m de = Ok sl ->
    appendField E [] d sl (m_src m) = Ok w -> exists po u, delimited d w po u;
}.

(** ** The round trip *)

(** The bytes of the MTI, written at the start of the wire, are read back. *)
Lemma unmarshal_mti_complete E s (Hs : schema_wire s) m mw post imm :
  deliverable E s m -> marshal_mti E s m [] = Ok mw ->
  exists m0, unmarshal_mti s (mw ++ post) (newDecoded s (mw ++ post) imm) = Ok (m0, len mw) /\
    len (m_slots m0) = s_maxDE s + 1 /\ m_src m0 = Some (mw ++ post) /\
    (forall i, (0 < i)%nat -> m_slots m0 !! i = m_slots (newDecoded s (mw ++ post) imm) !! i) /\
    (forall mti, s_mti s = Some mti -> spans_bytes mti (mw ++ post) (m_slots m0) 0 mw).
Proof.
  intros HD HM. unfold marshal_mti in HM. unfold unmarshal_mti.
  pose proof (so_max s (sw_ok s Hs)). destruct (s_mti s) as [mti|] eqn:EM.
  - destruct (slot_at m 0) as [sl| |] eqn:E0; cbn [rbind] in HM; [|done|done].
    destruct (dl_mti E s m HD mti sl mw EM E0 HM) as (po & u & Hpo & Hsp).
    specialize (Hsp [] post) as Hs0. cbn [app] in Hs0. change (len []) with 0 in Hs0.
    rewrite Hs0. cbn [rmap_err rbind]. rewrite !Z.add_0_l.
    assert (exists k, Z.to_nat (s_maxDE s + 1) = S k) as [k Hk] by (exists (Z.to_nat (s_maxDE s)); lia).
    unfold slot_at, newDecoded, idx. cbn [m_slots]. rewrite Hk. cbn [Z.ltb Z.compare replicate lookup list_lookup Z.to_nat rbind].
    eexists; split; [done|]. cbn [with_slot with_slots m_slots m_src]. split_and!.
    + unfold len. rewrite length_insert. cbn [length]. rewrite length_replicate. lia.
    + done.
    + intros i Hi. apply list_lookup_insert_ne. lia.
    + intros mti' [= <-]. exists 0, po, u. split; [by split|]. split; [done|].
      rewrite Z.add_0_l. apply (slice_mid [] mw post); done.
  - injection HM as <-. eexists; split; [done|]. cbn. split_and!; try done. rewrite len_replicate. lia.
Qed.

Lemma Forall2_impl_l {A B} (P Q : A -> B -> Prop) l k :
  Forall2 P l k -> (forall x y, x ∈ l -> P x y -> Q x y) -> Forall2 Q l k.
Proof.
  induction 1 as [|x y l k Hxy HF IH]; intros HI; constructor; [apply HI; [left|done]|].
  apply IH. intros. apply HI; [by right|done].
Qed.

Lemma remarshal_split E c m wire : schema_wire (c_schema c) -> remarshal E c m [] = Ok wire ->
  exists bc mw bw ws, bs_Codec (s_bitmap (c_schema c)) = Some bc /\
    marshal_mti E (c_schema c) m [] = Ok mw /\
    WriteBitmap bc [] (present_bitmap m) (bs_Levels (s_bitmap (c_schema c))) = Ok bw /\
    wire = mw ++ bw ++ concat ws /\
    Forall2 (field_bytes E (c_schema c) m) (List.filter (Has m) (slot_range m)) ws.
Proof.
  intros Hs H. unfold remarshal in H. apply rbind_Ok in H as (mw & HM & H).
  destruct (bs_Codec (s_bitmap (c_schema c))) as [bc|]; [|done].
  apply rbind_Ok in H as (d & HB & H). apply rmap_err_Ok in HB. rewrite WriteBitmap_app in HB.
  apply rbind_Ok in HB as (bw & HB & [= <-]).
  apply marshal_fields_concat in H as (ws & -> & HF); [|done].
  exists bc, mw, bw, ws. split_and!; try done. by rewrite app_assoc.
Qed.

Section Roundtrip.
Context (E : encoder) (c : Codec) (Hs : schema_wire (c_schema c)).

Lemma remarshal_Unmarshal m wire post :
  deliverable E (c_schema c) m -> remarshal E c m [] = Ok wire ->
  exists m', Unmarshal c (wire ++ post) = Ok m' /\ m_src m' = Some (wire ++ post) /\
    (forall de, 1 <= de -> Has m' de = Has m de) /\
    (forall de, 1 <= de -> Has m de = true -> exists d sl w,
      Schema_Field (c_schema c) de = Some d /\ slot_at m de = Ok sl /\
      appendField E [] d sl (m_src m) = Ok w /\ spans_bytes d (wire ++ post) (m_slots m') de w) /\
    (forall mti, s_mti (c_schema c) = Some mti -> exists sl w, slot_at m 0 = Ok sl /\
      appendField E [] mti sl (m_src m) = Ok w /\ spans_bytes mti (wire ++ post) (m_slots m') 0 w).
Proof.
  set (s := c_schema c) in *. intros HD HM.
  destruct (remarshal_split E c m wire Hs HM) as (bc & mw & bw & ws & HBC & HMT & HBW & -> & HF). fold s in HBC, HMT, HBW, HF.
  replace ((mw ++ bw ++ concat ws) ++ post) with (mw ++ (bw ++ concat ws ++ post)) by (by rewrite <- !app_assoc).
  destruct (unmarshal_mti_complete E s Hs m mw (bw ++ concat ws ++ post) (opt_Immutable (c_opts c)) HD HMT)
    as (m0 & HU0 & HL0 & HS0 & HI0 & HT0).
  destruct (read_write_bitmap bc (present_bitmap m) (bs_Levels (s_bitmap s)) mw (concat ws ++ post) (dl_presence E s m HD))
    as (bw' & bm' & HW' & HR & HRange). rewrite HBW in HW'. injection HW' as <-.
  apply ReadBitmap_bounds in HR as HRb. destruct HRb as (_ & _ & Hbm').
  pose proof (dl_slots E s m HD) as HL. pose proof (so_max s (sw_ok s Hs)).
  rewrite (Range_present m _ (dl_presence E s m HD)) in HRange by lia.
  destruct (unmarshal_fields_complete s Hs (Range bm') ws (mw ++ bw) post (m_slots m0)) as (slots & HUF & HSp).
  { rewrite HRange. eapply Forall2_impl_l; [exact HF|]. intros de w Hde (sl & d & E1 & E2 & E3).
    apply list_elem_of_In, filter_In in Hde as [Hr Hh]. apply list_elem_of_In, elem_of_seqZ in Hr.
    destruct (dl_fields E s m HD de d sl w) as (po & u & ?); [done|lia|done..|]. by exists d, po, u. }
  { by apply Range_NoDup. }
  { by intros; eapply Range_pos. }
  { done. }
  assert (Unmarshal c (mw ++ bw ++ concat ws ++ post) = Ok (with_slots (with_bm m0 bm' (m_dirty m0)) slots)) as HU.
  { unfold Unmarshal. fold s. rewrite HU0. cbn [rbind]. rewrite HBC, HR. cbn [rmap_err rbind with_bm m_slots].
    replace (mw ++ bw ++ concat ws ++ post) with ((mw ++ bw) ++ concat ws ++ post) by (by rewrite <- app_assoc).
    replace (len mw + len bw) with (len (mw ++ bw)) by (by rewrite len_app). by rewrite HUF. }
  eexists; split; [exact HU|]. cbn [with_slots with_bm m_src m_slots].
  destruct (Unmarshal_layout c Hs (mw ++ bw ++ concat ws ++ post)) as [_ HLay].
  destruct (HLay _ HU) as (_ & ? & ? & ? & ? & _ & LY). pose proof (lay_present _ _ _ _ _ _ _ LY) as HPres.
  cbn [with_slots with_bm m_bm] in HPres. rewrite HRange in HPres.
  assert (HPres' : forall de, 1 <= de -> de ∈ List.filter (Has m) (slot_range m) <-> Has m de = true).
  { intros de Hde. rewrite list_elem_of_In, filter_In, <- list_elem_of_In. split; [by intros [_ ?]|].
    intros Hh. split; [|done]. apply Has_range in Hh. apply elem_of_seqZ. lia. }
  split_and!; [done| | |].
  - intros de Hde. specialize (HPres de Hde). specialize (HPres' de Hde). apply eq_true_iff_eq. tauto.
  - intros de Hde Hh. apply HPres' in Hh; [|done]. rewrite HRange in HSp. rewrite <- app_assoc in HSp.
    apply list_elem_of_lookup in Hh as [i Hi].
    destruct (Forall2_lookup_l _ _ _ _ _ HSp Hi) as (w & Hw & d & Hd & HB).
    destruct (Forall2_lookup_l _ _ _ _ _ HF Hi) as (w' & Hw' & sl & d' & ? & Hd' & ?). simplify_eq.
    exists d, sl, w. by split_and!.
  - intros mti HMti. destruct (HT0 mti HMti) as (o & po & u & D1 & D2 & D3).
    unfold marshal_mti in HMT. rewrite HMti in HMT. apply rbind_Ok in HMT as (sl & S0 & A0).
    exists sl, mw. split_and!; [done..|]. exists o, po, u. split_and!; [done| |done].
    apply (unmarshal_fields_tiled s Hs) in HUF as (_ & _ & _ & HO); [|by apply Range_NoDup|by intros; eapply Range_pos|done].
    rewrite HO; [done|]. intros Hin. apply Range_pos in Hin; [|done]. change (Z.to_nat 0) with 0%nat in Hin. lia.
Qed.
End Roundtrip.
