(* ===== verification/Recursion.v ===== *)
(** * The recursion of the composite codecs

    [EncodeBody] and [DecodeBody] are defined with a depth; here they are shown
    to satisfy the equations of the Go methods, in which no depth appears, and
    to be total. *)

From S2P Require Import Prelude Errors Strconv Bitmap Path Schema LengthCodec BitmapCodec Value FieldCodec Message BerTlv Engine Layout.

(** ** Encoding *)

Section Ext.
Context (E1 E2 : encoder).

Lemma appendField_ext d dst sl src : (forall c dst v, E1 c dst v d = E2 c dst v d) ->
  appendField E1 dst d sl src = appendField E2 dst d sl src.
Proof.
  intros H. unfold appendField, encode_field. case_match; [done|]. destruct (fd_Codec d); [by rewrite H|done].
Qed.

Lemma marshal_fields_ext s m des dst :
  (forall c dst v d, (def_depth d <= schema_depth s)%nat -> E1 c dst v d = E2 c dst v d) ->
  marshal_fields E1 s m des dst = marshal_fields E2 s m des dst.
Proof.
  intros H. revert dst. induction des as [|de des IH]; intros dst; cbn [marshal_fields]; [done|].
  destruct (slot_at m de) as [sl| |]; cbn [rbind]; [|done|done]. destruct (negb _); [done|].
  destruct (Schema_Field s de) as [d|] eqn:F; [|done]. apply depth_field in F.
  rewrite (appendField_ext d) by (intros; by apply H).
  destruct (appendField E2 dst d sl (m_src m)); cbn [rbind]; done.
Qed.

Lemma marshal_ext c m dst :
  (forall k dst v d, (def_depth d <= schema_depth (c_schema c))%nat -> E1 k dst v d = E2 k dst v d) ->
  marshal E1 c m dst = marshal E2 c m dst.
Proof.
  intros H. assert (remarshal E1 c m dst = remarshal E2 c m dst) as HR.
  { unfold remarshal, marshal_mti. destruct (s_mti (c_schema c)) as [mti|] eqn:EM.
    - apply depth_mti in EM. destruct (slot_at m 0) as [s0| |]; cbn [rbind]; [|done|done].
      rewrite (appendField_ext mti) by (intros; by apply H).
      destruct (appendField E2 dst mti s0 (m_src m)); cbn [rbind]; [|done|done]. case_match; [|done].
      destruct (WriteBitmap _ _ _ _); cbn [rmap_err rbind]; [|done|done]. by apply marshal_fields_ext.
    - cbn [rbind]. case_match; [|done]. destruct (WriteBitmap _ _ _ _); cbn [rmap_err rbind]; [|done|done].
      by apply marshal_fields_ext. }
  unfold marshal. by rewrite HR.
Qed.

Lemma ber_encode_loop_ext def tags dst :
  (forall c dst v td tag, lookupTag def tag = Some td -> E1 c dst v td = E2 c dst v td) ->
  ber_encode_loop E1 def tags dst = ber_encode_loop E2 def tags dst.
Proof.
  intros H. revert dst. induction tags as [|[tag tv] tags IH]; intros dst; cbn [ber_encode_loop]; [done|].
  destruct (hex_decode tag); cbn [rbind]; [|done|done].
  assert (match tag_codec def tag with Some (td, c) => E1 c [] tv td | None => Ok (v_raw tv) end =
          match tag_codec def tag with Some (td, c) => E2 c [] tv td | None => Ok (v_raw tv) end) as ->.
  { unfold tag_codec. destruct (lookupTag def tag) as [td|] eqn:EL; [|done]. destruct (fd_Codec td); [|done]. by eapply H. }
  match goal with |- rbind ?x _ = rbind ?x _ => destruct x end; cbn [rbind]; done.
Qed.
End Ext.

Lemma lookupTag_depth def tag td : lookupTag def tag = Some td -> (def_depth td < def_depth def)%nat.
Proof.
  unfold lookupTag. destruct (fd_Sub def) as [sub|] eqn:ES; [|done]. intros H%depth_tag.
  rewrite (depth_sub def sub ES). lia.
Qed.

Lemma EncodeBody_n_depth n k h c dst v def : (def_depth def <= n)%nat -> (def_depth def <= k)%nat ->
  EncodeBody_n n h c dst v def = EncodeBody_n k h c dst v def.
Proof.
  revert k c dst v def. induction n as [|n IH]; intros k c dst v def Hn Hk.
  - assert (fd_Sub def = None) as ES.
    { destruct (fd_Sub def) as [sub|] eqn:ES; [|done]. rewrite (depth_sub def sub ES) in Hn. lia. }
    destruct c, k; try done; cbn [EncodeBody_n]; [|unfold packager_EncodeBody; by rewrite ES].
    unfold berTLV_EncodeBody. case_match; [|done]. apply ber_encode_loop_ext.
    intros. unfold lookupTag in *. by rewrite ES in *.
  - destruct c; try (by destruct k); cbn [EncodeBody_n].
    + assert (forall tag td, lookupTag def tag = Some td -> exists k', k = S k' /\ (def_depth td <= k')%nat /\ (def_depth td <= n)%nat) as HT.
      { intros tag td H%lookupTag_depth. exists (Nat.pred k). lia. }
      destruct k as [|k]; cbn [EncodeBody_n]; unfold berTLV_EncodeBody; (case_match; [|done]); apply ber_encode_loop_ext;
        intros c' dst' v' td tag EL; destruct (HT tag td EL) as (k' & [=] & ? & ?). subst k'. by apply IH.
    + unfold packager_EncodeBody. destruct k as [|k]; cbn [EncodeBody_n]; unfold packager_EncodeBody.
      * destruct (fd_Sub def) as [sub|] eqn:ES; [|done]. rewrite (depth_sub def sub ES) in Hk. lia.
      * destruct (fd_Sub def) as [sub|] eqn:ES; [|done]. rewrite (depth_sub def sub ES) in Hk, Hn.
        case_match; [|done]. f_equal. apply marshal_ext. intros. cbn in *. apply IH; lia.
Qed.

Lemma EncodeBody_ber h dst v def :
  EncodeBody h berTLV dst v def = berTLV_EncodeBody (EncodeBody h) h dst v def.
Proof.
  unfold EncodeBody at 1. destruct (def_depth def) as [|n] eqn:ED; cbn [EncodeBody_n]; unfold berTLV_EncodeBody;
    (case_match; [|done]); apply ber_encode_loop_ext; intros c' dst' v' td tag EL; apply lookupTag_depth in EL; [lia|].
  apply EncodeBody_n_depth; lia.
Qed.

Lemma EncodeBody_packager h dst v def :
  EncodeBody h packager dst v def = packager_EncodeBody (EncodeBody h) h dst v def.
Proof.
  unfold EncodeBody at 1. destruct (def_depth def) as [|n] eqn:ED; cbn [EncodeBody_n]; unfold packager_EncodeBody;
    (destruct (fd_Sub def) as [sub|] eqn:ES; [|done]); rewrite (depth_sub def sub ES) in ED; [lia|].
  case_match; [|done]. f_equal. apply marshal_ext. intros. cbn in *. apply EncodeBody_n_depth; lia.
Qed.

Lemma EncodeBody_scalar h c dst v def : is_composite_codec c = false ->
  EncodeBody h c dst v def = EncodeScalar c dst v def.
Proof. unfold EncodeBody. by destruct c, (def_depth def). Qed.

(** ** Decoding *)

(** Computations over the store are compared store by store. *)
Definition st_eq {A} (x y : ST A) : Prop := forall h, x h = y h.

#[export] Instance st_eq_equiv {A} : Equivalence (@st_eq A).
Proof. split; [done|by intros x y H h|]. intros x y z H1 H2 h. by rewrite H1. Qed.

Lemma sbind_ext {A B} (c : ST A) (k k' : A -> ST B) :
  (forall a, st_eq (k a) (k' a)) -> st_eq (sbind c k) (sbind c k').
Proof. intros H h. unfold sbind. destruct (c h) as [[a|e|] h']; [apply H|done|done]. Qed.

#[export] Instance sbind_Proper {A B} :
  Proper (st_eq ==> pointwise_relation A st_eq ==> st_eq) (@sbind A B).
Proof. intros x y H k k' HK h. unfold sbind. rewrite H. destruct (y h) as [[a|e|] h']; [apply HK|done|done]. Qed.

Lemma sbind_slift {A B} (a : A) (k : A -> ST B) : st_eq (sbind (slift (Ok a)) k) (k a).
Proof. done. Qed.

Section DecodeExt.
Context (D1 D2 : decoder).

Lemma ber_decode_loop_ext fuel body def i child :
  (forall c b u td tag, lookupTag def tag = Some td -> st_eq (D1 c b u td) (D2 c b u td)) ->
  st_eq (ber_decode_loop D1 fuel body def i child) (ber_decode_loop D2 fuel body def i child).
Proof.
  intros H. revert i child. induction fuel as [|fuel IH]; intros i child; cbn [ber_decode_loop]; [done|].
  case_match; [done|]. apply sbind_ext. intros [[tag val] next].
  assert (st_eq match tag_codec def tag with Some (td, c) => D1 c val (tag_units td val) td | None => sret (BytesValue val) end
                match tag_codec def tag with Some (td, c) => D2 c val (tag_units td val) td | None => sret (BytesValue val) end) as ->.
  { unfold tag_codec. destruct (lookupTag def tag) as [td|] eqn:EL; [|done]. destruct (fd_Codec td); [|done]. by eapply H. }
  apply sbind_ext. intros tv. apply IH.
Qed.

Lemma berTLV_DecodeBody_ext body def :
  (forall c b u td tag, lookupTag def tag = Some td -> st_eq (D1 c b u td) (D2 c b u td)) ->
  st_eq (berTLV_DecodeBody D1 body def) (berTLV_DecodeBody D2 body def).
Proof. intros H. unfold berTLV_DecodeBody. by rewrite (ber_decode_loop_ext _ body def 0 _ H). Qed.
End DecodeExt.

Lemma DecodeBody_n_depth n k c body units def : (def_depth def <= n)%nat -> (def_depth def <= k)%nat ->
  st_eq (DecodeBody_n n c body units def) (DecodeBody_n k c body units def).
Proof.
  revert k c body units def. induction n as [|n IH]; intros k c body units def Hn Hk.
  - destruct c, k; try done. cbn [DecodeBody_n]. apply berTLV_DecodeBody_ext.
    intros c b u td tag EL%lookupTag_depth. lia.
  - destruct c; try (by destruct k). destruct k as [|k]; cbn [DecodeBody_n]; apply berTLV_DecodeBody_ext;
      intros c b u td tag EL%lookupTag_depth; [lia|]. apply IH; lia.
Qed.

Lemma DecodeBody_ber body units def :
  st_eq (DecodeBody berTLV body units def) (berTLV_DecodeBody DecodeBody body def).
Proof.
  unfold DecodeBody at 1. destruct (def_depth def) as [|n] eqn:ED; cbn [DecodeBody_n]; apply berTLV_DecodeBody_ext;
    intros c b u td tag EL%lookupTag_depth; [lia|]. apply DecodeBody_n_depth; lia.
Qed.

Lemma DecodeBody_packager body units def : DecodeBody packager body units def = packager_DecodeBody body def.
Proof. unfold DecodeBody. by destruct (def_depth def). Qed.

Lemma DecodeBody_scalar c body units def : is_composite_codec c = false ->
  DecodeBody c body units def = slift (DecodeScalar c body units def).
Proof. unfold DecodeBody. by destruct c, (def_depth def). Qed.

(** The loop over a BER body stops before its fuel does: more changes nothing. *)
Lemma ber_decode_loop_fuel D f f' body def i child : 0 <= i ->
  (Z.to_nat (len body - i) < f)%nat -> (Z.to_nat (len body - i) < f')%nat ->
  st_eq (ber_decode_loop D f body def i child) (ber_decode_loop D f' body def i child).
Proof.
  revert f' i child. induction f as [|f IH]; intros f' i child Hi Hf Hf'; [lia|].
  destruct f' as [|f']; [lia|]. cbn [ber_decode_loop]. destruct (Z.leb_spec (len body) i); [done|].
  destruct (readTLV_safe body i Hi) as (_ & _ & HR).
  destruct (readTLV body i) as [[[tag val] next]| |]; [|done|done]. destruct (HR _ _ _ eq_refl) as [Hn _].
  rewrite !sbind_slift. apply sbind_ext. intros tv. apply IH; lia.
Qed.

(** The recursive calls of the Go methods. *)
Definition go_DecodeBody (c : FieldCodec) (body : bytes) (units : Z) (def : FieldDef) : ST Value :=
  match c with
  | berTLV => berTLV_DecodeBody DecodeBody body def
  | packager => packager_DecodeBody body def
  | _ => slift (DecodeScalar c body units def)
  end.

Definition go_EncodeBody (h : heap) (c : FieldCodec) (dst : bytes) (v : Value) (def : FieldDef) : result bytes :=
  match c with
  | berTLV => berTLV_EncodeBody (EncodeBody h) h dst v def
  | packager => packager_EncodeBody (EncodeBody h) h dst v def
  | _ => EncodeScalar c dst v def
  end.

(** C31: the recursion through sub-messages terminates.  [EncodeBody] and
    [DecodeBody] satisfy the equations of the Go methods, which call each other
    with no bound, on every schema, value and store: the nesting depth of the
    schema is always enough (also on a cyclic store), and the iterations over a
    BER body never exceed its length. *)
Theorem codec_recursion h c def :
  (forall dst v, EncodeBody h c dst v def = go_EncodeBody h c dst v def) /\
  (forall body units, st_eq (DecodeBody c body units def) (go_DecodeBody c body units def)) /\
  (forall D fuel body child, (length body < fuel)%nat ->
    st_eq (ber_decode_loop D fuel body def 0 child) (ber_decode_loop D (S (length body)) body def 0 child)).
Proof.
  split_and!.
  - intros dst v. destruct (is_composite_codec c) eqn:EC.
    + destruct c; try done; [apply EncodeBody_ber|apply EncodeBody_packager].
    + rewrite EncodeBody_scalar by done. by destruct c.
  - intros body units. destruct (is_composite_codec c) eqn:EC.
    + destruct c; try done; [apply DecodeBody_ber|]. intros h'. by rewrite DecodeBody_packager.
    + intros h'. rewrite DecodeBody_scalar by done. by destruct c.
  - intros D fuel body child Hf. apply ber_decode_loop_fuel; unfold len; lia.
Qed.

(** ** Decoding is total *)

(** Every sub-schema reachable from a definition can be parsed. *)
Inductive deep_def (d : FieldDef) : Prop :=
| deep_def_intro :
    (forall sub, fd_Sub d = Some sub -> fd_Codec d = Some packager -> schema_wire sub) ->
    (forall sub tag td, fd_Sub d = Some sub -> LookupTag sub tag = Some td -> deep_def td) ->
    deep_def d.

Lemma sbind_not_Panic {A B} (c : ST A) (k : A -> ST B) h :
  fst (c h) <> Panic -> (forall a h', c h = (Ok a, h') -> fst (k a h') <> Panic) -> fst (sbind c k h) <> Panic.
Proof. unfold sbind. destruct (c h) as [[a|e|] h']; cbn; [|done|done]. intros _ H. by apply H. Qed.

Lemma ber_decode_loop_total D fuel body def i child h : 0 <= i ->
  (forall c b u td tag h, lookupTag def tag = Some td -> fd_Codec td = Some c -> fst (D c b u td h) <> Panic) ->
  fst (ber_decode_loop D fuel body def i child h) <> Panic.
Proof.
  intros Hi HD. revert i child h Hi. induction fuel as [|fuel IH]; intros i child h Hi; cbn [ber_decode_loop]; [done|].
  case_match; [done|]. destruct (readTLV_safe body i Hi) as (HP & _ & HR).
  apply sbind_not_Panic; [done|]. intros [[tag val] next] h1 [= HE <-]. destruct (HR _ _ _ HE) as [Hn _].
  apply sbind_not_Panic; [|intros; apply IH; lia]. unfold tag_codec.
  destruct (lookupTag def tag) as [td|] eqn:EL; [|done]. destruct (fd_Codec td) eqn:EC; [|done]. by eapply HD.
Qed.

Lemma DecodeBody_total def c body units h : deep_def def -> fd_Codec def = Some c ->
  fst (DecodeBody c body units def h) <> Panic.
Proof.
  intros HD. revert c body units h. induction HD as [def HW HD IH]. intros c body units h HC.
  destruct (is_composite_codec c) eqn:EC.
  - destruct c; try done.
    + rewrite (DecodeBody_ber body units def h). unfold berTLV_DecodeBody.
      apply sbind_not_Panic; [|done]. apply ber_decode_loop_total; [lia|].
      intros c b u td tag h' EL ETC. unfold lookupTag in EL. destruct (fd_Sub def) as [sub|] eqn:ES; [|done].
      by eapply IH.
    + rewrite DecodeBody_packager. unfold packager_DecodeBody. destruct (fd_Sub def) as [sub|] eqn:ES; [|done].
      apply sbind_not_Panic; [|done]. cbn. apply Unmarshal_layout. by apply (HW sub).
  - rewrite DecodeBody_scalar by done. cbn. apply scalar_decode_total.
Qed.
