(* ===== verification/Access.v ===== *)
(** * Reading and writing messages ([iso8583/message.go])

    The methods that decode lazily, follow paths into sub-messages, write
    through them, and copy a message.  They act on the store: a read memoises
    what it decodes, and a write through a path reaches the child that the
    parent's value points to. *)

From S2P Require Import Prelude Errors Strconv Bitmap Decimal Path Schema LengthCodec BitmapCodec Value FieldCodec Message BerTlv Engine.

(** [if err != nil { return Value{}, false }]: a failure becomes an absence. *)
Definition sattempt {A} (c : ST A) : ST (option A) := fun h =>
  match c h with
  | (Ok a, h') => (Ok (Some a), h')
  | (Err _, h') => (Ok None, h')
  | (Panic, h') => (Panic, h')
  end.

(** [m.src[lo:hi]]; a nil slice has no elements. *)
Definition src_slice (m : Message) (lo hi : Z) : result bytes := slice (default [] (m_src m)) lo hi.

(** [s.v = v; s.decoded = true]. *)
Definition memo_slot (s : slot) (v : Value) : slot :=
  mkSlot v (sl_present s) true (sl_dirty s) (sl_fromSrc s) (sl_units s) (sl_wireOff s) (sl_bodyOff s) (sl_bodyEnd s).

(** ** Lazy decoding *)

(** The value of a body, before it is memoised. *)
Definition decode_body (def : FieldDef) (s : slot) (body : bytes) : ST (option Value) :=
  match fd_Codec def with
  | Some c =>
      let* ov := sattempt (DecodeBody c body (sl_units s) def) in
      sret ((fun v => set_v_off (set_v_codec v (Some c)) (sl_bodyOff s)) <$> ov)
  | None => sret (Some (mkValue body KindBytes None (sl_bodyOff s) None zeroDecimal))
  end.

(** Store a memoised value: the slot is updated in place. *)
Definition memoise (l : loc) (de : Z) (v : Value) : ST unit :=
  let* m := hget l in
  let* s := slift (slot_at m de) in
  hput l (with_slot m de (memo_slot s v)).

Definition decodeSlot (l : loc) (de : Z) : ST (option Value) :=
  let* m := hget l in
  let* s := slift (slot_at m de) in
  if negb (sl_present s) then sret None else
  if sl_decoded s then sret (Some (sl_v s)) else
  let* def := slift (msg_def m de) in
  match def with
  | None => sret None
  | Some def =>
      if negb (sl_fromSrc s) then
        let* _ := memoise l de (sl_v s) in
        sret (Some (sl_v s))
      else
        let* body := slift (src_slice m (sl_bodyOff s) (sl_bodyEnd s)) in
        let* ov := decode_body def s body in
        match ov with
        | None => sret None
        | Some v => let* _ := memoise l de v in sret (Some v)
        end
  end.

Definition Get (l : loc) (de : Z) : ST (option Value) :=
  let* m := hget l in
  if in_slots m de then decodeSlot l de else sret None.

Definition MTI (l : loc) : ST (option Value) := Get l 0.

(** ** Paths *)

Definition msg_isTLV (m : Message) : bool :=
  match m_schema m with Some s => s_isTLV s | None => false end.

(** [GetP], one element per call. *)
Fixpoint get_elems (l : loc) (es : list PathElem) : ST (option Value) :=
  match es with
  | [] => sret None
  | head :: rest =>
      let* m := hget l in
      let* r := if msg_isTLV m then sret (GetTag m (tagKey head))
                else if IsTag head then sret None
                else Get l (pe_N head) in
      match r, rest with
      | None, _ => sret None
      | Some v, [] => sret (Some v)
      | Some v, _ =>
          match Value_Composite v with
          | None => sret None
          | Some sub => get_elems sub rest
          end
      end
  end.

Definition GetP (l : loc) (p : FieldPath) : ST (option Value) := get_elems l (fp_elems p).

Definition HasP (l : loc) (p : FieldPath) : ST bool :=
  match fp_elems p with
  | [e] => if negb (IsTag e) then let* m := hget l in sret (Has m (pe_N e))
           else let* r := GetP l p in sret (bool_decide (is_Some r))
  | _ => let* r := GetP l p in sret (bool_decide (is_Some r))
  end.

(** The textual variants go through the path cache, which is threaded. *)
Definition GetS (pc : pathCache) (l : loc) (s : bytes) : ST (option Value) * pathCache :=
  match ParsePath pc s with
  | (Ok p, pc) => (GetP l p, pc)
  | (Err _, pc) => (sret None, pc)
  | (Panic, pc) => (slift Panic, pc)
  end.

Definition HasS (pc : pathCache) (l : loc) (s : bytes) : ST bool * pathCache :=
  match ParsePath pc s with
  | (Ok p, pc) => (HasP l p, pc)
  | (Err _, pc) => (sret false, pc)
  | (Panic, pc) => (slift Panic, pc)
  end.

(** ** Iteration *)

Fixpoint fields_loop (l : loc) (des : list Z) : ST (list (FieldPath * Value)) :=
  match des with
  | [] => sret []
  | de :: des =>
      let* m := hget l in
      if negb (Has m de) then fields_loop l des else
      let* ov := decodeSlot l de in
      let* rest := fields_loop l des in
      sret (match ov with Some v => (DE de, v) :: rest | None => rest end)
  end.

(** The pairs [Fields] yields to a consumer that takes them all. *)
Definition Fields (l : loc) : ST (list (FieldPath * Value)) :=
  let* m := hget l in fields_loop l (slot_range m).

(** ** Writing *)

Definition SetDE (l : loc) (de : Z) (x : any) : ST unit :=
  let* m := hget l in
  let* m' := slift (MSet m de x) in
  hput l m'.

(** [s.dirty = true; s.fromSrc = false]. *)
Definition dirty_slot (s : slot) : slot :=
  mkSlot (sl_v s) (sl_present s) (sl_decoded s) true false (sl_units s) (sl_wireOff s) (sl_bodyOff s) (sl_bodyEnd s).

Definition fresh_child (sub : Schema) : Message := if s_isTLV sub then NewTLV (Some sub) else New sub.

Definition ensureChild (l : loc) (de : Z) (sub : Schema) : ST loc :=
  let* m := hget l in
  if len (m_slots m) <=? de then sfail (FieldError (DE de) (-1) [] errUnknownDE) else
  let* existing := if Has m de then let* v := decodeSlot l de in sret (v ≫= Value_Composite) else sret None in
  match existing with
  | Some child =>
      let* m := hget l in
      let* s := slift (slot_at m de) in
      let* _ := hput l (with_owned (with_slot m de (dirty_slot s))) in
      sret child
  | None =>
      let* child := halloc (fresh_child sub) in
      let* m := hget l in
      let* s := slift (slot_at m de) in
      let* _ := hput l (mark_set (with_owned (with_slot m de (set_slot s (CompositeValue [] (Some child))))) de) in
      sret child
  end.

Definition quote (b : bytes) : bytes := [zb 34] ++ b ++ [zb 34].

(** Setting a tag of a TLV sub-message. *)
Definition set_tag (l : loc) (sub : Schema) (tag : bytes) (x : any) : ST unit :=
  let* m := hget l in
  let tagDef := LookupTag sub tag in
  let* v := slift (makeValue tagDef x) in
  let v := match tagDef with Some d => set_v_codec v (fd_Codec d) | None => v end in
  hput l (with_owned (PutTag m tag v)).

(** [SetP], one element per call. *)
Fixpoint set_elems (l : loc) (es : list PathElem) (x : any) : ST unit :=
  let* m := hget l in
  let p := mkFieldPath es in
  if m_sealed m then sfail (FieldError p (-1) [] errSealed) else
  match es with
  | [] => sfail (FieldError p (-1) [] errNotPresent)
  | head :: rest =>
      match m_schema m with
      | Some s =>
          if s_isTLV s then
            match rest with
            | [] => set_tag l s (tagKey head) x
            | _ => sfail (FieldError p (-1) []
                     (errorText (go "nested constructed TLV write " ++ quote (path_String p) ++ go " not supported")))
            end
          else if IsTag head then sfail (FieldError p (-1) [] errUnknownDE)
          else
            match rest with
            | [] => SetDE l (pe_N head) x
            | _ =>
                let* def := slift (msg_def m (pe_N head)) in
                match def ≫= fd_Sub with
                | None => sfail (FieldError p (-1) [] (errorText (go "DE " ++ FormatInt (pe_N head) ++ go " is not a composite")))
                | Some sub =>
                    let* child := ensureChild l (pe_N head) sub in
                    set_elems child rest x
                end
            end
      | None =>
          if IsTag head then sfail (FieldError p (-1) [] errUnknownDE)
          else match rest with
               | [] => SetDE l (pe_N head) x
               | _ => slift Panic
               end
      end
  end.

Definition SetP (l : loc) (p : FieldPath) (x : any) : ST unit := set_elems l (fp_elems p) x.

Definition SetS (pc : pathCache) (l : loc) (s : bytes) (x : any) : ST unit * pathCache :=
  match ParsePath pc s with
  | (Ok p, pc) => (SetP l p x, pc)
  | (Err e, pc) => (sfail e, pc)
  | (Panic, pc) => (slift Panic, pc)
  end.

Definition UnsetDE (l : loc) (de : Z) : ST unit :=
  let* m := hget l in hput l (Unset m de).

Definition UnsetS (pc : pathCache) (l : loc) (s : bytes) : ST unit * pathCache :=
  match ParsePath pc s with
  | (Ok p, pc) => (let* m := hget l in let* m' := slift (UnsetP m p) in hput l m', pc)
  | (Err _, pc) => (sret tt, pc)
  | (Panic, pc) => (slift Panic, pc)
  end.

(** ** Copying *)

Section Clone.
Context (clone : loc -> ST loc).

(** The loop over the copied slots: composite children are cloned. *)
Fixpoint clone_slots (ss : list slot) : ST (list slot) :=
  match ss with
  | [] => sret []
  | s :: ss =>
      let* s := match v_sub (sl_v s) with
                | Some sub =>
                    let* sub := clone sub in
                    sret (mkSlot (set_v_sub (sl_v s) (Some sub)) (sl_present s) (sl_decoded s) (sl_dirty s)
                            (sl_fromSrc s) (sl_units s) (sl_wireOff s) (sl_bodyOff s) (sl_bodyEnd s))
                | None => sret s
                end in
      let* ss := clone_slots ss in
      sret (s :: ss)
  end.
End Clone.

(** [Clone] recurses into the children's children; the fuel bounds the nesting,
    which on a store without cycles is less than its size. *)
Fixpoint clone_n (n : nat) (l : loc) : ST loc :=
  match n with
  | O => sfail OutOfFuel
  | S n =>
      let* m := hget l in
      let* ss := clone_slots (clone_n n) (m_slots m) in
      halloc (mkMessage (m_schema m) (m_src m) (m_bm m) ss false (m_dirty m) false (m_tags m) (m_tagOrder m))
  end.

Definition Clone (l : loc) : ST loc := fun h => clone_n (S (length h)) l h.

(** [Codec.Unmarshal] as it is called: the message is allocated. *)
Definition UnmarshalNew (c : Codec) (wire : bytes) : ST loc :=
  let* m := slift (Unmarshal c wire) in halloc m.

Definition MarshalAt (c : Codec) (l : loc) (dst : bytes) : ST bytes := fun h =>
  match h !! l with
  | Some m => (Marshal h c m dst, h)
  | None => (Panic, h)
  end.
