(* ===== verification/Invariant.v ===== *)
(** * The message invariant

    What holds of every message built with the API: slots and bitmap agree,
    spans lie inside the retained buffer, and a message that is not [owned]
    still is what was decoded, which is what the verbatim fast path of
    [Marshal] relies on. *)

From S2P Require Import Prelude Errors Strconv Bitmap Decimal Path Schema LengthCodec BitmapCodec Value FieldCodec Message BerTlv Engine Layout Wire Access.

Record slot_ok (src : option bytes) (s : slot) : Prop := {
  sk_span : sl_fromSrc s = true -> exists b, src = Some b /\
    0 <= sl_wireOff s <= sl_bodyOff s /\ sl_bodyOff s <= sl_bodyEnd s <= len b;
  sk_set : sl_present s = true -> sl_fromSrc s = false -> sl_decoded s = true /\ sl_dirty s = true;
  sk_absent : sl_present s = false -> s = zeroSlot;
  sk_clean : sl_fromSrc s = true -> sl_dirty s = false;
}.

Record msg_ok (s : Schema) (m : Message) : Prop := {
  mo_schema : m_schema m = Some s;
  mo_len : len (m_slots m) = s_maxDE s + 1;
  mo_slots : Forall (slot_ok (m_src m)) (m_slots m);
  mo_bitmap : bitmap_ok (m_bm m);
  mo_present : forall de, 1 <= de <= s_maxDE s -> is_cont de = false -> IsSet (m_bm m) de = Has m de;
  mo_spans : forall de d sl src, Schema_Field s de = Some d -> slot_at m de = Ok sl ->
    sl_fromSrc sl = true -> m_src m = Some src ->
    fieldBodySpan d src (sl_wireOff sl) = Ok (sl_bodyOff sl, sl_bodyEnd sl, sl_bodyEnd sl, sl_units sl);
  mo_unowned : m_owned m = false -> is_Some (m_src m) ->
    Forall (fun sl => sl_present sl = true -> sl_fromSrc sl = true) (m_slots m);
}.

(** ** Slots *)

Lemma zeroSlot_ok src : slot_ok src zeroSlot.
Proof. by split. Qed.

Lemma set_slot_ok src s v : slot_ok src (set_slot s v).
Proof. by split. Qed.

Lemma dirty_slot_ok src s : sl_present s = true -> sl_decoded s = true -> slot_ok src (dirty_slot s).
Proof. intros P D. split; cbn; try done. congruence. Qed.

Lemma memo_slot_ok src s v : sl_present s = true -> slot_ok src s -> slot_ok src (memo_slot s v).
Proof.
  intros P [H1 H2 H3 H4]. split; cbn; try done; [|congruence].
  intros _ F. split; [done|]. by apply H2.
Qed.

Lemma span_slot_ok b wo bo be u : 0 <= wo <= bo -> bo <= be <= len b -> slot_ok (Some b) (span_slot wo bo be u).
Proof. intros. split; cbn; try done. intros _. by exists b. Qed.

Lemma Has_lookup m de : 0 <= de -> Has m de = match m_slots m !! Z.to_nat de with Some s => sl_present s | None => false end.
Proof.
  intros Hde. unfold Has, in_slots. destruct (Z.ltb_spec de 0); [lia|]. cbn [orb].
  destruct (Z.leb_spec (len (m_slots m)) de); [|done]. cbn [negb].
  rewrite lookup_ge_None_2; [done|]. unfold len in *. lia.
Qed.

Lemma slot_at_lookup m de s : slot_at m de = Ok s <-> 0 <= de /\ m_slots m !! Z.to_nat de = Some s.
Proof.
  unfold slot_at, idx. destruct (Z.ltb_spec de 0); [split; [done|lia]|].
  destruct (m_slots m !! Z.to_nat de); naive_solver.
Qed.

(** Replacing slot [de] in a message that keeps the rest. *)
Lemma Has_with_slot m de e s : 0 <= de < len (m_slots m) -> 0 <= e ->
  Has (with_slot m de s) e = if e =? de then sl_present s else Has m e.
Proof.
  intros Hd He. rewrite !Has_lookup by done. cbn [with_slot with_slots m_slots].
  destruct (Z.eqb_spec e de) as [->|Hne].
  - rewrite list_lookup_insert_eq; [done|]. unfold len in Hd. lia.
  - rewrite list_lookup_insert_ne; [done|]. lia.
Qed.

Lemma slot_at_with_slot m de sl e s' : 0 <= de -> slot_at (with_slot m de sl) e = Ok s' ->
  (e = de /\ s' = sl) \/ (e <> de /\ slot_at m e = Ok s').
Proof.
  rewrite !slot_at_lookup. cbn [with_slot with_slots m_slots]. intros Hde [He H].
  destruct (decide (Z.to_nat e = Z.to_nat de)) as [E|E].
  - rewrite E in H. destruct (decide (Z.to_nat de < length (m_slots m))%nat) as [Hl|Hl].
    + rewrite list_lookup_insert_eq in H by done. injection H as <-. left. split; [lia|done].
    + rewrite list_insert_ge in H by lia. apply lookup_lt_Some in H. lia.
  - rewrite list_lookup_insert_ne in H by done. right. split; [intros ->; done|done].
Qed.

Section Preserve.
Context (s : Schema).

Lemma msg_ok_slot m de sl : msg_ok s m -> slot_at m de = Ok sl ->
  slot_ok (m_src m) sl /\ 0 <= de <= s_maxDE s.
Proof.
  intros HM [H1 H2]%slot_at_lookup. split.
  - eapply Forall_lookup_1; [exact (mo_slots s m HM)|exact H2].
  - apply lookup_lt_Some in H2. pose proof (mo_len s m HM). unfold len in *. lia.
Qed.

(** A write of a data slot, the pattern of [Set], [Unset] and [ensureChild]. *)
Lemma msg_ok_write m de sl bm dirty : msg_ok s m -> 0 <= de <= s_maxDE s ->
  slot_ok (m_src m) sl -> sl_fromSrc sl = false -> bitmap_ok bm ->
  (forall e, 1 <= e <= s_maxDE s -> is_cont e = false ->
     IsSet bm e = if e =? de then sl_present sl else IsSet (m_bm m) e) ->
  msg_ok s (with_owned (with_bm (with_slot m de sl) bm dirty)).
Proof.
  intros [H1 H2 H3 H4 H5 HSp H6] Hde Hsl Hfs Hbm HI. split; cbn [with_owned with_bm with_slot with_slots m_schema m_slots m_src m_bm m_owned]; try done.
  - unfold len in *. by rewrite length_insert.
  - apply Forall_insert; done.
  - intros e He Hc. rewrite (HI e He Hc).
    change (Has _ e) with (Has (with_slot m de sl) e). rewrite Has_with_slot by lia.
    case_match; [done|]. by apply H5.
  - intros e d sl' src HD HS HF HSrc. apply (slot_at_with_slot m de sl) in HS as [[_ ->]|[_ HS]]; [congruence|by eapply HSp|lia].
Qed.

Lemma with_bm_id m : with_bm m (m_bm m) (m_dirty m) = m.
Proof. by destruct m. Qed.

Lemma mark_set_write m de sl : 0 <= de ->
  exists bm dirty, mark_set (with_owned (with_slot m de sl)) de = with_owned (with_bm (with_slot m de sl) bm dirty) /\
    bm = if 1 <=? de then BSet (m_bm m) de else m_bm m.
Proof.
  intros Hde. unfold mark_set. destruct (1 <=? de).
  - eexists _, _. split; [|reflexivity]. reflexivity.
  - eexists (m_bm m), (m_dirty m). split; [|reflexivity]. by destruct m.
Qed.

Lemma set_write_ok m de s0 v : msg_ok s m -> slot_at m de = Ok s0 -> s_maxDE s <= 192 ->
  msg_ok s (mark_set (with_owned (with_slot m de (set_slot s0 v))) de).
Proof.
  intros HM HS Hmax. destruct (msg_ok_slot m de s0 HM HS) as [_ Hde].
  destruct (mark_set_write m de (set_slot s0 v)) as (bm & dirty & -> & ->); [lia|].
  apply msg_ok_write; [done|done|apply set_slot_ok|done| |].
  - case_match; [apply BSet_ok|]; apply (mo_bitmap s m HM).
  - intros e He Hc. cbn [set_slot sl_present]. destruct (Z.leb_spec 1 de).
    + rewrite IsSet_BSet, (proj2 (in_range_iff de)) by lia. cbn [andb]. rewrite (Z.eqb_sym de e).
      by destruct (e =? de).
    + destruct (Z.eqb_spec e de); [lia|done].
Qed.

Lemma MSet_ok m de x m' : msg_ok s m -> s_maxDE s <= 192 -> MSet m de x = Ok m' -> msg_ok s m'.
Proof.
  intros HM Hmax. unfold MSet. destruct (m_sealed m); [done|]. intros H. apply rbind_Ok in H as ([d|] & _ & H); [|done].
  apply rbind_Ok in H as (v & _ & H). destruct (Z.leb_spec (len (m_slots m)) de); [done|].
  apply rbind_Ok in H as (s0 & HS & [= <-]). by apply set_write_ok.
Qed.

Lemma Unset_ok m de : msg_ok s m -> s_maxDE s <= 192 -> msg_ok s (Unset m de).
Proof.
  intros HM Hmax. unfold Unset. destruct (_ || _) eqn:G; [done|]. destruct (Has m de) eqn:HH; cbn [negb]; [|done].
  pose proof (Has_range m de HH) as Hr. pose proof (mo_len s m HM).
  assert (forall bm, bitmap_ok bm ->
    (forall e, 1 <= e <= s_maxDE s -> is_cont e = false -> IsSet bm e = if e =? de then false else IsSet (m_bm m) e) ->
    msg_ok s (with_owned (with_bm (with_slot m de zeroSlot) bm (m_dirty m)))) as HW.
  { intros bm Hb HI. apply msg_ok_write; [done|lia|apply zeroSlot_ok|done|done|done]. }
  destruct (Z.leb_spec 1 de).
  - apply HW; [apply BClear_ok, (mo_bitmap s m HM)|]. intros e He Hc. cbn [with_slot with_slots m_bm].
    rewrite IsSet_BClear, (Z.eqb_sym de e). by destruct (e =? de).
  - specialize (HW (m_bm m) (mo_bitmap s m HM)).
    replace (with_slot m de zeroSlot) with (with_bm (with_slot m de zeroSlot) (m_bm m) (m_dirty m)) by (by destruct m).
    apply HW. intros e He Hc. destruct (Z.eqb_spec e de); [lia|done].
Qed.

Lemma Seal_ok m : msg_ok s m -> msg_ok s (Seal m).
Proof. intros [H1 H2 H3 H4 H5 H6 H7]. by split. Qed.

(** Reading memoises a value: the slot's other fields stay. *)
Lemma memo_ok m de s0 v : msg_ok s m -> slot_at m de = Ok s0 -> sl_present s0 = true ->
  msg_ok s (with_slot m de (memo_slot s0 v)).
Proof.
  intros HM HS HP. destruct (msg_ok_slot m de s0 HM HS) as [Hs0 Hde]. pose proof (mo_len s m HM) as HL.
  destruct HM as [H1 H2 H3 H4 H5 HSp H6]. split; cbn [with_slot with_slots m_schema m_slots m_src m_bm m_owned]; try done.
  - unfold len in *. by rewrite length_insert.
  - apply Forall_insert; [done|]. by apply memo_slot_ok.
  - intros e He Hc. rewrite (H5 e He Hc), Has_with_slot by lia. cbn [memo_slot sl_present].
    destruct (Z.eqb_spec e de) as [->|]; [|done]. apply slot_at_lookup in HS as [? HS]. by rewrite Has_lookup, HS by lia.
  - intros e d sl' src HD HS' HF HSrc. apply slot_at_with_slot in HS' as [[-> ->]|[_ HS']]; [|by eapply HSp|lia].
    by apply (HSp de d s0 src).
  - intros Ho Hsrc. specialize (H6 Ho Hsrc) as HF. apply Forall_insert; [done|]. cbn. intros _.
    apply slot_at_lookup in HS as [? HS]. by apply (Forall_lookup_1 _ _ _ _ HF HS).
Qed.

(** The child path of [ensureChild]: the parent's slot is marked dirty. *)
Lemma dirty_ok m de s0 : msg_ok s m -> slot_at m de = Ok s0 -> sl_present s0 = true -> sl_decoded s0 = true ->
  msg_ok s (with_owned (with_slot m de (dirty_slot s0))).
Proof.
  intros HM HS HP HD. destruct (msg_ok_slot m de s0 HM HS) as [Hs0 Hde].
  replace (with_slot m de (dirty_slot s0)) with (with_bm (with_slot m de (dirty_slot s0)) (m_bm m) (m_dirty m)) by (by destruct m).
  apply msg_ok_write; [done|done|by apply dirty_slot_ok|done|apply (mo_bitmap s m HM)|].
  intros e He Hc. cbn [dirty_slot sl_present]. destruct (Z.eqb_spec e de) as [->|]; [|done].
  rewrite (mo_present s m HM de He Hc). apply slot_at_lookup in HS as [? HS]. by rewrite Has_lookup, HS by lia.
Qed.
End Preserve.

(** ** Where messages start *)

Lemma Has_New s de : Has (New s) de = false.
Proof.
  unfold Has. case_match; [|done]. case_match; [|done].
  cbn in *. match goal with H : replicate _ _ !! _ = Some _ |- _ => apply lookup_replicate in H as [-> _] end. done.
Qed.

Lemma New_ok s : schema_ok s -> msg_ok s (New s).
Proof.
  intros Hs. pose proof (so_max s Hs). split; try done.
  - cbn. rewrite len_replicate. lia.
  - apply (Forall_replicate (slot_ok None)), zeroSlot_ok.
  - intros de _ _. rewrite Has_New. apply IsSet_empty.
Qed.

Lemma tiled_span s wire slots des off last de sl : schema_wire s -> tiled s wire slots des off last -> de ∈ des ->
  slots !! Z.to_nat de = Some sl -> slot_ok (Some wire) sl /\ sl_fromSrc sl = true.
Proof.
  intros Hs. revert off. induction des as [|d des IH]; intros off; cbn [tiled]; [by intros _ ?%not_elem_of_nil|].
  intros (def & bo & be & u & HF & HB & HL & HT) [->|Hd]%elem_of_cons HS; [|by eapply IH].
  rewrite HL in HS. injection HS as <-. split; [|done].
  destruct (fieldBodySpan_safe def wire off) as [_ S2]; [by eapply sw_defs|].
  destruct (S2 _ _ _ _ HB) as (? & ? & _ & ? & ?). apply span_slot_ok; lia.
Qed.

Lemma tiled_fieldspan s wire slots des off last de d sl : tiled s wire slots des off last -> de ∈ des ->
  Schema_Field s de = Some d -> slots !! Z.to_nat de = Some sl ->
  fieldBodySpan d wire (sl_wireOff sl) = Ok (sl_bodyOff sl, sl_bodyEnd sl, sl_bodyEnd sl, sl_units sl).
Proof.
  revert off. induction des as [|e des IH]; intros off; cbn [tiled]; [by intros _ ?%not_elem_of_nil|].
  intros (def & bo & be & u & HF & HB & HL & HT) [->|Hd]%elem_of_cons HD HS; [|by eapply IH].
  by simplify_eq.
Qed.

Lemma layout_ok s bc wire m off0 off1 last : schema_wire s -> layout s bc wire m off0 off1 last -> msg_ok s m.
Proof.
  intros Hs L. pose proof (lay_src _ _ _ _ _ _ _ L) as HSrc. pose proof (lay_len _ _ _ _ _ _ _ L) as HL.
  pose proof (lay_bitmap _ _ _ _ _ _ _ L) as HB. apply ReadBitmap_bounds in HB as (_ & _ & HB).
  pose proof (so_max s (sw_ok s Hs)).
  assert (forall i sl, m_slots m !! i = Some sl -> slot_ok (m_src m) sl /\ (sl_present sl = true -> sl_fromSrc sl = true)) as HA.
  { intros i sl HI. destruct (sl_present sl) eqn:EP.
    2:{ rewrite (lay_absent _ _ _ _ _ _ _ L i sl HI EP) in *. split; [apply zeroSlot_ok|done]. }
    destruct i as [|i].
    - pose proof (lay_mti _ _ _ _ _ _ _ L) as HM. unfold mti_layout in HM. destruct (s_mti s) as [mti|] eqn:EM.
      + destruct HM as (bo & u & HF & H0). rewrite H0 in HI. injection HI as <-. rewrite HSrc. split; [|done].
        destruct (fieldBodySpan_safe mti wire 0) as [_ S2]; [apply (sw_defs s Hs 0); by rewrite <- EM|].
        destruct (S2 _ _ _ _ HF) as (? & ? & _ & ? & ?). apply span_slot_ok; lia.
      + pose proof (lay_nomti _ _ _ _ _ _ _ L EM) as H0. rewrite H0 in HI. injection HI as <-. done.
    - assert (Has m (Z.of_nat (S i)) = true) as HH by (rewrite Has_lookup, Nat2Z.id, HI by lia; done).
      apply (lay_present _ _ _ _ _ _ _ L) in HH; [|lia]. rewrite HSrc.
      destruct (tiled_span s wire (m_slots m) _ _ _ (Z.of_nat (S i)) sl Hs (lay_tiled _ _ _ _ _ _ _ L) HH) as [? ?];
        [by rewrite Nat2Z.id|]. done. }
  split; [apply L|done| |done| | |].
  - apply Forall_lookup. intros i sl HI. by apply HA in HI as [? _].
  - intros de Hde Hc. apply eq_true_iff_eq. rewrite (lay_present _ _ _ _ _ _ _ L de) by lia.
    rewrite elem_of_Range by done. unfold is_cont, contSecondary, contTertiary in Hc. bool_to_prop. naive_solver.
  - intros de d sl src HD HS HF HSrc'. rewrite HSrc in HSrc'. injection HSrc' as <-.
    destruct (decide (de = 0)) as [->|Hne].
    + pose proof (lay_mti _ _ _ _ _ _ _ L) as HM. unfold mti_layout in HM. change (s_mti s = Some d) in HD. rewrite HD in HM.
      destruct HM as (bo & u & HM & H0). apply slot_at_lookup in HS as [_ HS]. change (Z.to_nat 0) with 0%nat in HS.
      rewrite H0 in HS. injection HS as <-. done.
    + apply slot_at_lookup in HS as [Hge HS].
      assert (Has m de = true) as HH.
      { rewrite Has_lookup, HS by lia. destruct (sl_present sl) eqn:EP; [done|].
        rewrite (lay_absent _ _ _ _ _ _ _ L _ _ HS EP) in HF. done. }
      apply (lay_present _ _ _ _ _ _ _ L) in HH; [|lia].
      by apply (tiled_fieldspan s wire _ _ _ _ de d sl (lay_tiled _ _ _ _ _ _ _ L) HH).
  - intros _ _. apply Forall_lookup. intros i sl HI. by apply HA in HI as [_ ?].
Qed.
