(* ===== verification/Store.v ===== *)
(** * The invariant of the message store

    Every positional message of the store satisfies [msg_ok], whatever sequence
    of API calls built it: the calls are the steps of a relation on stores, and
    the invariant is proved by induction on the steps. *)

From S2P Require Import Prelude Errors Strconv Bitmap Decimal Path Schema LengthCodec BitmapCodec Value FieldCodec Message BerTlv Engine Layout Wire Recursion Access Invariant.

(** Every schema reachable through sub-schemas can be parsed. *)
Inductive deep_schema (s : Schema) : Prop :=
| deep_schema_intro :
    schema_wire s ->
    (forall de d sub, Schema_Field s de = Some d -> fd_Sub d = Some sub -> deep_schema sub) ->
    (forall tag d sub, LookupTag s tag = Some d -> fd_Sub d = Some sub -> deep_schema sub) ->
    deep_schema s.

Lemma deep_wire s : deep_schema s -> schema_wire s.
Proof. by destruct 1. Qed.

Lemma deep_field s de d sub : deep_schema s -> Schema_Field s de = Some d -> fd_Sub d = Some sub -> deep_schema sub.
Proof. destruct 1. eauto. Qed.

Lemma deep_tag s tag d sub : deep_schema s -> LookupTag s tag = Some d -> fd_Sub d = Some sub -> deep_schema sub.
Proof. destruct 1. eauto. Qed.

(** A tag-addressed message has no slots; any other satisfies the invariant. *)
Definition msg_fine (m : Message) : Prop :=
  m_slots m = [] \/ exists s, deep_schema s /\ msg_ok s m.

Definition heap_ok (h : heap) : Prop := Forall msg_fine h.

Definition sub_deep (d : FieldDef) : Prop := forall sub, fd_Sub d = Some sub -> deep_schema sub.

(** ** Computations that only allocate *)

(** [c] adds well-formed messages to the store, changes none, and its result
    satisfies [Q]. *)
Definition grows {A} (Q : A -> Prop) (c : ST A) : Prop := forall h,
  exists k, snd (c h) = h ++ k /\ Forall msg_fine k /\ forall a, fst (c h) = Ok a -> Q a.

Lemma grows_ret {A} (Q : A -> Prop) a : Q a -> grows Q (sret a).
Proof. intros HQ h. exists []. rewrite app_nil_r. split_and!; [done|constructor|]. by intros ? [= <-]. Qed.

Lemma grows_lift {A} (Q : A -> Prop) r : (forall a, r = Ok a -> Q a) -> grows Q (slift r).
Proof. intros HQ h. exists []. rewrite app_nil_r. split_and!; [done|constructor|]. intros a. apply HQ. Qed.

Lemma grows_fail {A} (Q : A -> Prop) e : grows Q (sfail e).
Proof. intros h. exists []. rewrite app_nil_r. by split_and!; [done|constructor|]. Qed.

Lemma grows_bind {A B} (Q : A -> Prop) (R : B -> Prop) c k :
  grows Q c -> (forall a, Q a -> grows R (k a)) -> grows R (sbind c k).
Proof.
  intros HC HK h. destruct (HC h) as (k1 & E1 & F1 & Q1). unfold sbind.
  destruct (c h) as [[a|e|] h1]; cbn in *; [|by exists k1; split_and!..].
  destruct (HK a (Q1 a eq_refl) h1) as (k2 & E2 & F2 & Q2). exists (k1 ++ k2). split_and!.
  - by rewrite E2, E1, app_assoc.
  - by apply Forall_app_2.
  - done.
Qed.

Lemma grows_alloc {A} (Q : A -> Prop) m k : msg_fine m -> (forall l, grows Q (k l)) -> grows Q (sbind (halloc m) k).
Proof.
  intros HM HK. apply (grows_bind (fun _ => True)); [|intros; apply HK].
  intros h. exists [m]. split_and!; [done|by constructor|done].
Qed.

Lemma grows_attempt {A} (Q : A -> Prop) c : grows Q c -> grows (fun _ => True) (sattempt c).
Proof.
  intros HC h. destruct (HC h) as (k & E & F & _). exists k. unfold sattempt.
  by destruct (c h) as [[a|e|] h1].
Qed.

Lemma ber_loop_grows D fuel body def i child : m_slots child = [] ->
  (forall c b u td tag, lookupTag def tag = Some td -> grows (fun _ => True) (D c b u td)) ->
  grows (fun m => m_slots m = []) (ber_decode_loop D fuel body def i child).
Proof.
  intros HC HD. revert i child HC. induction fuel as [|fuel IH]; intros i child HC; cbn [ber_decode_loop]; [apply grows_fail|].
  case_match; [by apply grows_ret|]. apply (grows_bind (fun _ => True)); [by apply grows_lift|]. intros [[tag val] next] _.
  apply (grows_bind (fun _ => True)); [|intros tv _; by apply IH].
  unfold tag_codec. destruct (lookupTag def tag) as [td|] eqn:EL; [|by apply grows_ret].
  destruct (fd_Codec td); [by eapply HD|by apply grows_ret].
Qed.

Lemma Unmarshal_fine c wire m : deep_schema (c_schema c) -> Unmarshal c wire = Ok m -> msg_fine m.
Proof.
  intros Hs HU. right. exists (c_schema c). split; [done|]. pose proof (deep_wire _ Hs) as Hw.
  destruct (Unmarshal_layout c Hw wire) as [_ HL]. destruct (HL m HU) as (_ & bc & off0 & off1 & last & _ & L).
  by eapply layout_ok.
Qed.

Lemma DecodeBody_grows n c body units def : sub_deep def -> grows (fun _ => True) (DecodeBody_n n c body units def).
Proof.
  revert c body units def. induction n as [|n IH]; intros c body units def HD;
    destruct c; cbn [DecodeBody_n]; try (by apply grows_lift).
  2, 4: unfold packager_DecodeBody; destruct (fd_Sub def) as [sub|] eqn:ES; [|apply grows_fail];
    (apply (grows_bind msg_fine); [apply grows_lift; intros m HM; eapply Unmarshal_fine; [|exact HM]; by apply HD|]);
    intros m Hm; apply grows_alloc; [done|]; intros; by apply grows_ret.
  - apply (grows_bind (fun m => m_slots m = [])).
    + apply ber_loop_grows; [done|]. intros. apply grows_fail.
    + intros m Hm. apply grows_alloc; [by left|]. intros. by apply grows_ret.
  - apply (grows_bind (fun m => m_slots m = [])).
    + apply ber_loop_grows; [done|]. intros c b u td tag EL. apply IH.
      unfold lookupTag in EL. destruct (fd_Sub def) as [sub|] eqn:ES; [|done].
      intros sub' ES'. eapply deep_tag; [by apply HD|done|done].
    + intros m Hm. apply grows_alloc; [by left|]. intros. by apply grows_ret.
Qed.

Lemma decode_body_grows def s body : sub_deep def -> grows (fun _ => True) (decode_body def s body).
Proof.
  intros HD. unfold decode_body. destruct (fd_Codec def); [|by apply grows_ret].
  apply (grows_bind (fun _ => True)); [|intros; by apply grows_ret].
  eapply grows_attempt. by apply DecodeBody_grows.
Qed.

(** ** Calls that write *)

(** [c] keeps the store well-formed, and keeps the length from shrinking. *)
Definition safe {A} (c : ST A) : Prop := forall h, heap_ok h -> heap_ok (snd (c h)).

Lemma safe_grows {A} (Q : A -> Prop) c : grows Q c -> safe c.
Proof. intros HC h Hh. destruct (HC h) as (k & -> & F & _). by apply Forall_app_2. Qed.

Lemma safe_ret {A} (a : A) : safe (sret a). Proof. by intros h. Qed.
Lemma safe_fail {A} e : safe (@sfail A e). Proof. by intros h. Qed.
Lemma safe_lift {A} (r : result A) : safe (slift r). Proof. by intros h. Qed.

Lemma safe_bind {A B} (c : ST A) (k : A -> ST B) : safe c -> (forall a, safe (k a)) -> safe (sbind c k).
Proof.
  intros HC HK h Hh. specialize (HC h Hh). unfold sbind. destruct (c h) as [[a|e|] h1]; [|done|done]. by apply HK.
Qed.

Lemma safe_get {A} l (k : Message -> ST A) :
  (forall h m, heap_ok h -> h !! l = Some m -> heap_ok (snd (k m h))) -> safe (let* m := hget l in k m).
Proof. intros HK h Hh. unfold sbind, hget. destruct (h !! l) eqn:E; [|done]. by apply HK. Qed.

Lemma heap_ok_put h l m : heap_ok h -> msg_fine m -> heap_ok (<[l := m]> h).
Proof. intros. by apply Forall_insert. Qed.

Lemma heap_ok_lookup h l m de s0 : heap_ok h -> h !! l = Some m -> slot_at m de = Ok s0 ->
  exists s, deep_schema s /\ msg_ok s m /\ s_maxDE s <= 192.
Proof.
  intros Hh Hl HS. destruct (Forall_lookup_1 _ _ _ _ Hh Hl) as [HN|(s & HD & HM)].
  - apply slot_at_lookup in HS as [_ HS]. by rewrite HN in HS.
  - exists s. split_and!; [done..|]. apply (so_max s), sw_ok, deep_wire, HD.
Qed.

Create HintDb store.
#[export] Hint Resolve safe_ret safe_fail safe_lift : store.

Lemma hget_run l (h : heap) m : h !! l = Some m -> hget l h = (Ok m, h).
Proof. unfold hget. by intros ->. Qed.

Lemma memo_slot_id s0 : sl_decoded s0 = true -> memo_slot s0 (sl_v s0) = s0.
Proof. destruct s0; cbn. by intros ->. Qed.

Lemma with_slot_id m de s0 : slot_at m de = Ok s0 -> with_slot m de s0 = m.
Proof.
  intros [_ H]%slot_at_lookup. unfold with_slot. rewrite list_insert_id by done. by destruct m.
Qed.

Lemma memoise_run l de v h m s0 : h !! l = Some m -> slot_at m de = Ok s0 ->
  memoise l de v h = (Ok tt, <[l := with_slot m de (memo_slot s0 v)]> h).
Proof. intros Hl HS. unfold memoise, sbind, hget, slift. by rewrite Hl, HS. Qed.

Lemma msg_def_deep h l m de d s0 : heap_ok h -> h !! l = Some m -> slot_at m de = Ok s0 ->
  msg_def m de = Ok (Some d) -> sub_deep d.
Proof.
  intros Hh Hl HS HD sub ES. destruct (heap_ok_lookup _ _ _ _ _ Hh Hl HS) as (s & HDS & HM & _).
  unfold msg_def in HD. rewrite (mo_schema s m HM) in HD. destruct (Z.eqb_spec de 0) as [->|].
  - eapply (deep_field s 0); [done| |done]. by injection HD.
  - eapply (deep_field s de); [done| |done]. by injection HD.
Qed.

(** What a read does to the store: it memoises the slot it returns, and adds the
    children it decoded; or it fails and only adds. *)
Lemma decodeSlot_run h l de r h' : heap_ok h -> decodeSlot l de h = (r, h') ->
  exists k, Forall msg_fine k /\
  match r with
  | Ok (Some v) => exists m s0, h !! l = Some m /\ slot_at m de = Ok s0 /\ sl_present s0 = true /\
      (sl_decoded s0 = true \/ sl_fromSrc s0 = false -> v = sl_v s0) /\
      h' = <[l := with_slot m de (memo_slot s0 v)]> (h ++ k)
  | _ => h' = h ++ k
  end.
Proof.
  intros Hh. unfold decodeSlot, sbind at 1, hget. destruct (h !! l) as [m|] eqn:Hl.
  2:{ intros [= <- <-]. exists []. rewrite app_nil_r. split; [constructor|done]. }
  unfold sbind at 1, slift. destruct (slot_at m de) as [s0|e|] eqn:HS.
  2,3: intros [= <- <-]; exists []; rewrite app_nil_r; by split; [constructor|].
  assert (forall k, Forall msg_fine k -> (h ++ k) !! l = Some m) as HK by (intros; by apply lookup_app_l_Some).
  destruct (sl_present s0) eqn:EP; cbn [negb].
  2:{ intros [= <- <-]. exists []. rewrite app_nil_r. by split; [constructor|]. }
  destruct (sl_decoded s0) eqn:ED.
  { intros [= <- <-]. exists []. split; [constructor|]. exists m, s0. split_and!; [done..|].
    rewrite app_nil_r, memo_slot_id, (with_slot_id m de s0) by done. by rewrite list_insert_id. }
  unfold sbind at 1. destruct (msg_def m de) as [[d|]|e|] eqn:EDf.
  2,3,4: intros [= <- <-]; exists []; rewrite app_nil_r; by split; [constructor|].
  destruct (sl_fromSrc s0) eqn:EF; cbn [negb].
  2:{ unfold sbind. rewrite (memoise_run l de (sl_v s0) h m s0 Hl HS). intros [= <- <-]. exists []. split; [constructor|].
      exists m, s0. rewrite app_nil_r. by split_and!. }
  unfold sbind at 1. destruct (src_slice m (sl_bodyOff s0) (sl_bodyEnd s0)) as [body|e|].
  2,3: intros [= <- <-]; exists []; rewrite app_nil_r; by split; [constructor|].
  unfold sbind at 1. destruct (decode_body_grows d s0 body (msg_def_deep h l m de d s0 Hh Hl HS EDf) h) as (k & EK & FK & _).
  destruct (decode_body d s0 body h) as [[[v|]|e|] h1]; cbn in EK; subst h1;
    [|intros [= <- <-]; by exists k..].
  unfold sbind. rewrite (memoise_run l de v (h ++ k) m s0 (HK k FK) HS). intros [= <- <-].
  exists k. split; [done|]. exists m, s0. split_and!; try done. intros []; congruence.
Qed.

Lemma decodeSlot_safe l de : safe (decodeSlot l de).
Proof.
  intros h Hh. destruct (decodeSlot l de h) as [r h'] eqn:E. apply decodeSlot_run in E as (k & FK & HR); [|done]. cbn.
  assert (heap_ok (h ++ k)) by (by apply Forall_app_2).
  destruct r as [[v|]|e|]; try by subst. destruct HR as (m & s0 & Hl & HS & HP & _ & ->).
  destruct (heap_ok_lookup h l m de s0) as (s & HD & HM & Hmax); [done..|].
  apply heap_ok_put; [done|]. right. exists s. split; [done|]. by apply memo_ok.
Qed.

Lemma Get_safe l de : safe (Get l de).
Proof. apply safe_get. intros h m Hh Hl. case_match; [by apply decodeSlot_safe|done]. Qed.

Lemma get_elems_safe l es : safe (get_elems l es).
Proof.
  revert l. induction es as [|e es IH]; intros l; cbn [get_elems]; [auto with store|].
  apply safe_get. intros h m Hh Hl. apply safe_bind; [|intros [v|]|done].
  - repeat case_match; auto using Get_safe with store.
  - case_match; [auto with store|]. case_match; [apply IH|auto with store].
  - auto with store.
Qed.

Lemma fields_loop_safe l des : safe (fields_loop l des).
Proof.
  induction des as [|de des IH]; cbn [fields_loop]; [auto with store|].
  apply safe_get. intros h m Hh Hl. case_match; [by apply IH|].
  apply safe_bind; [apply decodeSlot_safe|intros ov|done]. apply safe_bind; [done|]. auto with store.
Qed.

Lemma with_owned_fine m : msg_fine m -> msg_fine (with_owned m).
Proof.
  intros [H|(s & HD & [H1 H2 H3 H4 H5 H6 H7])]; [by left|]. right. exists s. split; [done|]. by split.
Qed.

Lemma PutTag_fine m tag v : msg_fine m -> msg_fine (PutTag m tag v).
Proof. intros [H|(s & HD & [H1 H2 H3 H4 H5 H6 H7])]; [by left|]. right. exists s. split; [done|]. by split. Qed.

Lemma SetDE_safe l de x : safe (SetDE l de x).
Proof.
  apply safe_get. intros h m Hh Hl. unfold sbind, slift. destruct (MSet m de x) as [m'|e|] eqn:EM; [|done|done].
  cbn. apply heap_ok_put; [done|].
  assert (exists s0, slot_at m de = Ok s0) as [s0 HS].
  { unfold MSet in EM. destruct (m_sealed m); [done|]. apply rbind_Ok in EM as ([d|] & _ & EM); [|done].
    apply rbind_Ok in EM as (v & _ & EM). case_match; [done|]. apply rbind_Ok in EM as (s0 & HS & _). by exists s0. }
  destruct (heap_ok_lookup h l m de s0) as (s & HD & HM & Hmax); [done..|].
  right. exists s. split; [done|]. by eapply MSet_ok.
Qed.

Lemma Unset_safe l de : safe (UnsetDE l de).
Proof.
  apply safe_get. intros h m Hh Hl. cbn. apply heap_ok_put; [done|].
  destruct (Forall_lookup_1 _ _ _ _ Hh Hl) as [HN|(s & HD & HM)].
  - left. unfold Unset, in_slots. rewrite HN. len_nil_simpl.
    destruct (m_sealed m); [done|]. destruct (Z.ltb_spec de 0); [done|]. destruct (Z.leb_spec 0 de); [done|lia].
  - right. exists s. split; [done|]. apply Unset_ok; [done|]. apply (so_max s), sw_ok, deep_wire, HD.
Qed.

Lemma Seal_fine m : msg_fine m -> msg_fine (Seal m).
Proof. intros [H|(s & HD & HM)]; [by left|]. right. exists s. split; [done|]. by apply Seal_ok. Qed.

Lemma fresh_child_fine sub : deep_schema sub -> msg_fine (fresh_child sub).
Proof.
  intros HD. unfold fresh_child. case_match; [by left|]. right. exists sub. split; [done|].
  apply New_ok, sw_ok, deep_wire, HD.
Qed.

(** The last write of [ensureChild], in its two cases. *)
Lemma attach_safe h l de child m s0 : heap_ok h -> h !! l = Some m -> slot_at m de = Ok s0 ->
  heap_ok (<[l := mark_set (with_owned (with_slot m de (set_slot s0 (CompositeValue [] (Some child))))) de]> h).
Proof.
  intros Hh Hl HS. destruct (heap_ok_lookup h l m de s0) as (s & HD & HM & Hmax); [done..|].
  apply heap_ok_put; [done|]. right. exists s. split; [done|]. by apply set_write_ok.
Qed.

Lemma ensureChild_safe l de sub : deep_schema sub -> safe (ensureChild l de sub).
Proof.
  intros HSub. apply safe_get. intros h m Hh Hl. case_match; [done|].
  assert (forall h, heap_ok h -> heap_ok (snd ((let* child := halloc (fresh_child sub) in
      let* m := hget l in let* s := slift (slot_at m de) in
      let* _ := hput l (mark_set (with_owned (with_slot m de (set_slot s (CompositeValue [] (Some child))))) de) in
      sret child) h))) as HNew.
  { intros h1 Hh1. unfold sbind at 1, halloc. apply safe_get; [|by apply Forall_app_2; [|constructor; [apply fresh_child_fine|]]].
    intros h2 m2 Hh2 Hl2. unfold sbind, slift. destruct (slot_at m2 de) as [s0|e|] eqn:HS; [|done|done].
    by apply attach_safe. }
  destruct (Has m de); [|by apply HNew]. unfold sbind at 1 2.
  destruct (decodeSlot l de h) as [r h1] eqn:EDS. pose proof (decodeSlot_safe l de h Hh) as Hh1.
  rewrite EDS in Hh1. cbn in Hh1. destruct r as [ov|e|]; [|done|done]. cbn [sret].
  destruct (ov ≫= Value_Composite) as [child|] eqn:EV; [|by apply HNew].
  destruct ov as [v|]; [|done]. apply decodeSlot_run in EDS as (k & FK & m0 & s0 & Hl0 & HS0 & HP0 & _ & ->); [|done].
  simplify_eq. set (m1 := with_slot m de (memo_slot s0 v)) in *.
  assert (HS1 : slot_at m1 de = Ok (memo_slot s0 v)).
  { apply slot_at_lookup in HS0 as [? HS0]. apply slot_at_lookup. split; [done|]. cbn.
    apply list_lookup_insert_eq. by apply lookup_lt_Some in HS0. }
  assert (HL1 : <[l:=m1]> (h ++ k) !! l = Some m1).
  { apply list_lookup_insert_eq. apply lookup_lt_Some in Hl. rewrite length_app. lia. }
  unfold sbind at 1. rewrite (hget_run _ _ _ HL1). unfold sbind, slift, hput, sret. rewrite HS1. cbn [snd].
  destruct (heap_ok_lookup _ l m1 de (memo_slot s0 v) Hh1 HL1 HS1) as (s & HD & HM & Hmax).
  apply heap_ok_put; [done|]. right. exists s. split; [done|]. by apply dirty_ok.
Qed.

Lemma set_elems_safe l es x : safe (set_elems l es x).
Proof.
  revert l. induction es as [|e es IH]; intros l; cbn [set_elems];
    apply safe_get; intros h m Hh Hl; (destruct (m_sealed m); [done|]); [done|].
  destruct (m_schema m) as [s|] eqn:ES.
  - destruct (s_isTLV s).
    + destruct es; [|done]. unfold set_tag. apply safe_get; [|done]. intros h1 m1 Hh1 Hl1. unfold sbind, slift.
      destruct (makeValue _ _); [|done|done]. cbn. apply heap_ok_put; [done|].
      apply with_owned_fine, PutTag_fine. by apply (Forall_lookup_1 _ _ _ _ Hh1 Hl1).
    + destruct (IsTag e); [done|]. destruct es as [|e' es]; [by apply SetDE_safe|].
      unfold sbind at 1, slift. destruct (msg_def m (pe_N e)) as [d|er|] eqn:ED; [|done|done].
      destruct (d ≫= fd_Sub) as [sub|] eqn:ESub; [|done]. destruct d as [d|]; [|done]. cbn in ESub.
      destruct (slot_at m (pe_N e)) as [s0|er|] eqn:HS.
      * apply safe_bind; [|intros; apply IH|done]. apply ensureChild_safe.
        by apply (msg_def_deep h l m (pe_N e) d s0 Hh Hl HS ED).
      * unfold slot_at, idx in HS. by repeat case_match.
      * unfold ensureChild, sbind, hget. rewrite Hl.
        unfold slot_at, idx in HS. destruct (Z.leb_spec (len (m_slots m)) (pe_N e)); [done|].
        destruct (Z.ltb_spec (pe_N e) 0).
        -- exfalso. unfold msg_def in ED. rewrite ES in ED. unfold Schema_Field in ED.
           destruct (Z.eqb_spec (pe_N e) 0); [lia|]. destruct (Z.ltb_spec (pe_N e) 0); [done|lia].
        -- destruct (lookup_lt_is_Some_2 (m_slots m) (Z.to_nat (pe_N e))) as [y Hy]; [unfold len in *; lia|].
           by rewrite Hy in HS.
  - destruct (IsTag e); [done|]. destruct es; [by apply SetDE_safe|done].
Qed.

(** ** The store as a state machine *)

(** One call of the API: its effect on the store. *)
Inductive api_step : heap -> heap -> Prop :=
| step_New h s : deep_schema s -> api_step h (h ++ [New s])
| step_NewTLV h sub : api_step h (h ++ [NewTLV sub])
| step_Unmarshal h c wire : deep_schema (c_schema c) -> api_step h (snd (UnmarshalNew c wire h))
| step_Get h l de : api_step h (snd (Get l de h))
| step_GetP h l p : api_step h (snd (GetP l p h))
| step_Fields h l : api_step h (snd (Fields l h))
| step_SetP h l p x : api_step h (snd (SetP l p x h))
| step_Unset h l de : api_step h (snd (UnsetDE l de h))
| step_Seal h l m : h !! l = Some m -> api_step h (<[l := Seal m]> h).

Lemma api_step_ok h h' : api_step h h' -> heap_ok h -> heap_ok h'.
Proof.
  destruct 1; intros Hh.
  - apply Forall_app_2; [done|]. constructor; [|done]. right. exists s. split; [done|]. apply New_ok, sw_ok, deep_wire. done.
  - apply Forall_app_2; [done|]. constructor; [|done]. by left.
  - unfold UnmarshalNew, sbind, slift. destruct (Unmarshal c wire) as [m|e|] eqn:EU; [|done|done].
    apply Forall_app_2; [done|]. constructor; [|done]. by eapply Unmarshal_fine.
  - by apply Get_safe.
  - by apply get_elems_safe.
  - apply safe_get; [|done]. intros. by apply fields_loop_safe.
  - by apply set_elems_safe.
  - by apply Unset_safe.
  - apply heap_ok_put; [done|]. apply Seal_fine. by apply (Forall_lookup_1 _ _ _ _ Hh H).
Qed.

Lemma api_steps_ok h h' : rtc api_step h h' -> heap_ok h -> heap_ok h'.
Proof. induction 1 as [|x y z HS _ IH]; [done|]. intros. apply IH. by eapply api_step_ok. Qed.

(** C30: the message invariant.  After any sequence of API calls on any
    messages (creation, parsing, reads that decode lazily, writes through paths
    that reach sub-messages, removals, sealing), every message with slots is
    consistent: its slots match its schema, its derived bitmap agrees with the
    slots, every span lies in the retained buffer, and a decoded message that
    is not marked [owned] has no field set after decoding, which is what lets
    [Marshal] return the buffer verbatim. *)
Theorem store_invariant h l m :
  rtc api_step [] h -> h !! l = Some m -> m_slots m <> [] ->
  exists s, m_schema m = Some s /\ msg_ok s m.
Proof.
  intros HR Hl HN.
  pose proof (api_steps_ok [] h HR ltac:(constructor)) as Hh.
  destruct (Forall_lookup_1 _ _ _ _ Hh Hl) as [|(s & _ & HM)]; [done|].
  exists s. split; [apply (mo_schema s m HM)|done].
Qed.

(** ** Checking a schema by evaluation *)

Definition schema_okb (s : Schema) : bool :=
  (len (s_defs s) =? s_maxDE s + 1) && (0 <=? s_maxDE s) && (s_maxDE s <=? 192) &&
  forallb (fun o => match o with Some d => bool_decide (validateDef 0 d = []) | None => true end) (s_defs s) &&
  (s_isTLV s || (bool_decide (is_Some (bs_Codec (s_bitmap s))) &&
                 (1 <=? bs_Levels (s_bitmap s)) && (bs_Levels (s_bitmap s) <=? 3))).

#[export] Instance schema_error_EqDecision : EqDecision schema_error.
Proof. solve_decision. Defined.

Lemma Schema_Field_defs s de d : de <> 0 -> Schema_Field s de = Some d ->
  0 < de < len (s_defs s) /\ Some d ∈ s_defs s.
Proof.
  intros Hde. unfold Schema_Field. destruct (Z.eqb_spec de 0); [done|].
  destruct (_ || _) eqn:G; [done|]. bool_to_prop. intros HD.
  destruct (s_defs s !! Z.to_nat de) as [[d'|]|] eqn:E; cbn in HD; simplify_eq.
  split; [lia|]. by eapply list_elem_of_lookup_2.
Qed.

Lemma forallb_elem {A} (f : A -> bool) l x : forallb f l = true -> x ∈ l -> f x = true.
Proof. rewrite forallb_forall. intros H Hx. apply H. by apply list_elem_of_In. Qed.

Lemma schema_okb_ok s : schema_okb s = true -> schema_ok s.
Proof.
  unfold schema_okb. intros H. apply andb_prop in H as [H HB]. apply andb_prop in H as [H HD]. bool_to_prop.
  split; [done|lia| |].
  - intros de d Hde HF. apply Schema_Field_defs in HF as [? HF]; [|done]. split; [lia|].
    apply (forallb_elem _ _ _ HD) in HF. apply bool_decide_eq_true in HF. by eapply validateDef_nil.
  - intros HT. rewrite HT in HB. cbn [orb] in HB. bool_to_prop.
    match goal with H : bool_decide _ = true |- _ => apply bool_decide_eq_true in H end. split; [done|lia].
Qed.

Fixpoint deep_schemab (n : nat) (s : Schema) : bool :=
  match n with
  | O => false
  | S n =>
      let sub_ok d := match fd_Sub d with Some sub => deep_schemab n sub | None => true end in
      schema_okb s && schema_wireb s &&
      forallb (fun o => match o with Some d => sub_ok d | None => true end) (s_mti s :: s_defs s) &&
      forallb (fun p => sub_ok p.2) (map_to_list (s_tags s))
  end.

Lemma deep_schemab_ok n s : deep_schemab n s = true -> deep_schema s.
Proof.
  revert s. induction n as [|n IH]; intros s; [done|]. cbn [deep_schemab]. cbv zeta. intros H.
  apply andb_prop in H as [H HT]. apply andb_prop in H as [H HF]. apply andb_prop in H as [HO HW].
  split; [apply schema_wireb_ok; [by apply schema_okb_ok|done]| |].
  - intros de d sub HD HS. assert (Some d ∈ s_mti s :: s_defs s) as Hin.
    { destruct (decide (de = 0)) as [->|]; [rewrite <- HD; left|]. right. by eapply Schema_Field_defs. }
    apply (forallb_elem _ _ _ HF) in Hin. cbv beta iota in Hin. rewrite HS in Hin. by apply IH.
  - intros tag d sub HD HS. unfold LookupTag in HD. apply elem_of_map_to_list in HD.
    apply (forallb_elem _ _ _ HT) in HD. cbn in HD. rewrite HS in HD. by apply IH.
Qed.

(** An EMV element (DE 55) and a positional sub-message (DE 48). *)
Definition chip_schema : Schema :=
  match Build (builder_Tag (builder_Tag (NewSchema (go "emv"))
                (go "9F26") (go "Application Cryptogram") (Some binaryRaw) [optMaxLen 8])
                (go "9A") (go "Transaction Date") (Some bcdNum) [optMaxLen 6]) with
  | inr s => s | inl _ => sample_schema
  end.

Definition nested_schema : Schema :=
  let b := builder_Bitmap (builder_MTI (NewSchema (go "nested")) (Some numASCII)) (mkBitmapSpec (Some hexWord) 1) in
  let b := builder_Field b 2 (go "PAN") (Some numASCII) (Some LLVarASCII) [optMaxLen 19] in
  let b := builder_Composite b 48 (go "Additional data") (Some sample_schema) (Some LLLVarASCII) [optWithCodec (Some packager)] in
  let b := builder_Composite b 55 (go "ICC data") (Some chip_schema) (Some LLLVarASCII) [optWithCodec (Some berTLV)] in
  match Build b with inr s => s | inl _ => sample_schema end.

Lemma nested_schema_deep : deep_schema nested_schema.
Proof. apply (deep_schemab_ok 3). vm_compute. reflexivity. Qed.

(** Setting a tag of DE 55 through a path allocates the child and marks the parent. *)
Lemma store_invariant_witness :
  exists h m s, rtc api_step [] h /\ h !! 0%nat = Some m /\ length h = 2%nat /\ Has m 55 = true /\ msg_ok s m.
Proof.
  set (p := mkFieldPath [mkPathElem 55 []; mkPathElem (-1) (go "9F26")]).
  set (h := snd (SetP 0 p (anyBytes [x01; x02]) [New nested_schema])).
  assert (R : rtc api_step [] h).
  { eapply rtc_l; [exact (step_New [] nested_schema nested_schema_deep)|].
    apply rtc_once. exact (step_SetP [New nested_schema] 0 p (anyBytes [x01; x02])). }
  assert (C : match h !! 0%nat with Some m => Has m 55 && (0 <? len (m_slots m)) | None => false end = true)
    by (vm_compute; reflexivity).
  destruct (h !! 0%nat) as [m|] eqn:E; [|discriminate C]. apply andb_prop in C as [C1 C2].
  destruct (store_invariant h 0 m R E) as (s & HS & HM); [intros N; rewrite N in C2; discriminate C2|].
  exists h, m, s. split; [exact R|]. split; [exact E|]. split; [vm_compute; reflexivity|]. split; [exact C1|exact HM].
Defined.
