(* ===== verification/EndToEnd.v ===== *)
(** * The engine, end to end

    Which values the engine can tell apart on the wire, and what a receiver
    reads of a message built, marshalled and parsed. *)

From S2P Require Import Prelude Errors Strconv Bcd Bitmap Decimal Path Schema LengthCodec BitmapCodec Value FieldCodec Message BerTlv Engine Layout Wire Recursion Access Invariant Store.

(** ** Delimited values *)

(** The combinations of definition and value whose prefix announces the width
    that is written: fixed scalars; variable fields of the codecs that carry
    their value's bytes; variable composites; raw fields. *)
Definition delimitable (d : FieldDef) (v : Value) : Prop :=
  match fd_Length d with
  | None => exists c, fd_Codec d = Some c /\ is_composite_codec c = false /\ 0 < fd_MaxLen d
  | Some l =>
      length_ok l = true /\ l <> fixed /\
      match fd_Codec d with
      | Some c =>
          if is_composite_codec c then v_kind v = KindComposite
          else unit_codec c = true /\ (v_kind v = KindNumeric \/ v_kind v = KindString \/ v_kind v = KindBytes)
      | None => v_kind v <> KindAmount
      end
  end.

(** The unit count the prefix of a delimitable value announces. *)
Definition announced (d : FieldDef) (v : Value) (body : bytes) : Z :=
  match fd_Length d with None => fd_MaxLen d | Some _ => encodeUnits d v body end.

Lemma encoded_width h d v body : delimitable d v -> encode_field (EncodeBody h) d v = Ok body ->
  wireBytes d (announced d v body) = len body.
Proof.
  unfold delimitable, encode_field, announced, wireBytes. destruct (fd_Length d) as [l|] eqn:EL.
  - intros (Hl & Hf & Hk). destruct (fd_Codec d) as [c|] eqn:EC.
    + intros HE. apply rmap_err_Ok in HE. destruct (is_composite_codec c) eqn:ECC.
      * unfold encodeUnits. rewrite Hk. by destruct c.
      * destruct Hk as [Hu Hk]. rewrite EncodeBody_scalar in HE by done.
        assert (isFixed d = false) as HF by (unfold isFixed; by rewrite EL).
        rewrite (scalar_variable c v d body Hu HF HE). f_equal.
        unfold encodeUnits. by destruct Hk as [-> | [-> | ->]].
    + intros [= <-]. unfold encodeUnits. by destruct (v_kind v).
  - intros (c & EC & ECC & Hpos) HE. rewrite EC in *. apply rmap_err_Ok in HE. rewrite EncodeBody_scalar in HE by done.
    assert (isFixed d = true) as HF by (unfold isFixed; rewrite EL; by apply Z.ltb_lt).
    by rewrite (scalar_fixed c v d body ECC HF HE).
Qed.

(** What is written for a value set since decoding: a prefix and the body. *)
Lemma encoded_delimited h d sl src w : delimitable d (sl_v sl) -> clean_src sl src = None ->
  appendField (EncodeBody h) [] d sl src = Ok w ->
  exists p body, w = p ++ body /\ encode_field (EncodeBody h) d (sl_v sl) = Ok body /\
    delimited d w (len p) (announced d (sl_v sl) body).
Proof.
  intros HD HC HA. unfold appendField in HA. rewrite HC in HA. apply rbind_Ok in HA as (body & HE & HA).
  pose proof (encoded_width h d (sl_v sl) body HD HE) as HW.
  unfold delimitable, announced in *. destruct (fd_Length d) as [l|] eqn:EL.
  - destruct HD as (Hl & Hf & _). apply rbind_Ok in HA as (p & HP & [= <-]). apply rmap_err_Ok in HP.
    pose proof (length_ok_contract l Hl) as HLC. destruct (lc_write _ _ _ _ HP) as (p' & E & HR). cbn in E. subst p'.
    exists p, body. split_and!; [done..|]. apply delimited_intro; [|done].
    intros pre post. unfold read_prefix. rewrite EL, HR. cbn [rbind].
    assert (units_read l d (encodeUnits d (sl_v sl) body) = encodeUnits d (sl_v sl) body) as -> by (by destruct l).
    assert (0 <= encodeUnits d (sl_v sl) body).
    { destruct (Z.leb_spec 0 (encodeUnits d (sl_v sl) body)); [done|]. exfalso.
      unfold WriteLen in HP. destruct l as [|name digits nbytes r]; [done|].
      destruct (Z.ltb_spec (encodeUnits d (sl_v sl) body) 0); [done|lia]. }
    destruct (_ || _) eqn:G; [|done]. apply orb_true_iff in G as [G|G]; apply Z.ltb_lt in G; [lia|].
    pose proof (len_nonneg p). lia.
  - injection HA as <-. exists [], body. split_and!; [done..|]. apply (delimited_intro d [] body); [|done].
    intros pre post. unfold read_prefix. rewrite EL. len_nil_simpl. by rewrite Z.add_0_r.
Qed.

(** A clean field is copied as it was read, so it is delimited. *)
Lemma clean_delimited E s m de d sl src w : schema_wire s -> msg_ok s m ->
  Schema_Field s de = Some d -> slot_at m de = Ok sl -> clean_src sl (m_src m) = Some src ->
  appendField E [] d sl (m_src m) = Ok w ->
  slice (E:=error) src (sl_wireOff sl) (sl_bodyEnd sl) = Ok w /\
  delimited d w (sl_bodyOff sl - sl_wireOff sl) (sl_units sl).
Proof.
  intros Hs HM HF HS HC HA. unfold appendField in HA. rewrite HC in HA. apply rbind_Ok in HA as (w' & HSl & [= <-]).
  cbn [app]. split; [done|]. unfold clean_src in HC. destruct (sl_fromSrc sl) eqn:EF; [|done]. cbn in HC.
  destruct (negb (sl_dirty sl)); [|done].
  pose proof (mo_spans s m HM de d sl src HF HS EF HC) as HB.
  eapply fieldBodySpan_delimited; [by eapply sw_defs|exact HB|done].
Qed.

(** A consistent message whose edited fields are delimitable is deliverable. *)
Lemma msg_deliverable h s m : schema_wire s -> msg_ok s m ->
  presence_ok (present_bitmap m) (bs_Levels (s_bitmap s)) ->
  (forall de d sl, Schema_Field s de = Some d -> slot_at m de = Ok sl -> (de = 0 \/ sl_present sl = true) ->
     clean_src sl (m_src m) = None -> delimitable d (sl_v sl)) ->
  deliverable (EncodeBody h) s m.
Proof.
  intros Hs HM HP HD.
  assert (forall de d sl w, Schema_Field s de = Some d -> slot_at m de = Ok sl -> (de = 0 \/ sl_present sl = true) ->
    appendField (EncodeBody h) [] d sl (m_src m) = Ok w -> exists po u, delimited d w po u) as HA.
  { intros de d sl w HF HS Hp HA. destruct (clean_src sl (m_src m)) as [src|] eqn:EC.
    - destruct (clean_delimited (EncodeBody h) s m de d sl src w) as [_ ?]; [done..|]. by eexists _, _.
    - destruct (encoded_delimited h d sl (m_src m) w) as (p & body & _ & _ & ?); [by eapply HD|done..|]. by eexists _, _. }
  split; [apply HM|done| |].
  - intros mti sl w EM HS HAF. apply (HA 0 mti sl w); [by rewrite <- EM|done|by left|done].
  - intros de d sl w HH Hde HF HS HAF. apply (HA de d sl w); try done. right.
    by rewrite <- (Has_slot m de sl HS).
Qed.

(** ** Reading a delimited field *)

Lemma delimited_unique d w po u po' u' : delimited d w po u -> delimited d w po' u' -> po = po' /\ u = u'.
Proof.
  intros [_ H1] [_ H2]. specialize (H1 [] []). specialize (H2 [] []). rewrite H1 in H2. injection H2 as H2 H3. split; [lia|done].
Qed.

Lemma slice_tail {A} (src p body : list A) o : slice (E:=error) src o (o + len (p ++ body)) = Ok (p ++ body) ->
  slice (E:=error) src (o + len p) (o + len (p ++ body)) = Ok body.
Proof.
  intros (Ho & Hb & _ & HE)%slice_Ok_inv. rewrite len_app in *. pose proof (len_nonneg p). pose proof (len_nonneg body).
  rewrite slice_ok by lia. f_equal.
  replace (Z.to_nat (o + len p)) with (Z.to_nat o + length p)%nat by (unfold len; lia).
  rewrite <- drop_drop. replace (Z.to_nat _) with (length body) by (unfold len; lia).
  replace (Z.to_nat (o + (len p + len body) - o)) with (length p + length body)%nat in HE by (unfold len; lia).
  rewrite <- take_take_drop in HE. apply app_inj_1 in HE as [_ HE]; [by symmetry|].
  rewrite length_take, length_drop. unfold len in *. lia.
Qed.

(** What a read of a scalar element gives: the value its slot holds already, or
    the value its span of the source decodes to. *)
Definition reads (m : Message) (de : Z) (v : Value) : Prop :=
  exists sl, slot_at m de = Ok sl /\ sl_present sl = true /\
    (sl_decoded sl = true /\ v = sl_v sl \/
     sl_decoded sl = false /\ sl_fromSrc sl = true /\ exists d c body v0,
       msg_def m de = Ok (Some d) /\ fd_Codec d = Some c /\ is_composite_codec c = false /\
       src_slice m (sl_bodyOff sl) (sl_bodyEnd sl) = Ok body /\ DecodeScalar c body (sl_units sl) d = Ok v0 /\
       v = set_v_off (set_v_codec v0 (Some c)) (sl_bodyOff sl)).

Lemma in_slots_at m de sl : slot_at m de = Ok sl -> in_slots m de = true.
Proof.
  intros [Hde HS]%slot_at_lookup. unfold in_slots. apply lookup_lt_Some in HS. destruct (Z.ltb_spec de 0); [lia|]. unfold len.
  by destruct (Z.leb_spec (Z.of_nat (length (m_slots m))) de); [lia|].
Qed.

Lemma reads_memo m de sl v : slot_at m de = Ok sl -> reads m de v -> forall de' v', reads m de' v' -> reads (with_slot m de (memo_slot sl v)) de' v'.
Proof.
  intros HS HR de' v' HR'. pose proof HS as [Hde HL]%slot_at_lookup. destruct (decide (de' = de)) as [->|Hne].
  - assert (v' = v) as ->.
    { destruct HR as (s1 & E1 & P1 & C1), HR' as (s2 & E2 & P2 & C2). rewrite HS in E1, E2. injection E1 as <-. injection E2 as <-.
      destruct C1 as [[? ->]|(? & ? & d1 & c1 & b1 & w1 & D1 & F1 & _ & B1 & V1 & ->)], C2 as [[? ->]|(? & ? & d2 & c2 & b2 & w2 & D2 & F2 & _ & B2 & V2 & ->)]; congruence. }
    exists (memo_slot sl v). destruct HR as (s1 & E1 & P1 & _). rewrite HS in E1. injection E1 as <-.
    split; [|split; [done|by left]]. apply slot_at_lookup. split; [done|]. cbn. apply list_lookup_insert_eq. by apply lookup_lt_Some in HL.
  - destruct HR' as (s2 & E2 & P2 & C2). exists s2. split; [|done]. apply slot_at_lookup in E2 as [Hde' E2]. apply slot_at_lookup. split; [done|].
    cbn. by rewrite list_lookup_insert_ne by lia.
Qed.

(** [Get] gives it, and what else can be read stays the same. *)
Lemma reads_Get (h : heap) l m de v : h !! l = Some m -> reads m de v ->
  exists m', Get l de h = (Ok (Some v), <[l := m']> h) /\ forall de' v', reads m de' v' -> reads m' de' v'.
Proof.
  intros Hl HR. pose proof HR as (sl & HS & HP & HC). unfold Get, sbind at 1. rewrite (hget_run l h m Hl), (in_slots_at _ _ _ HS).
  unfold decodeSlot, sbind at 1. rewrite (hget_run l h m Hl). unfold sbind at 1, slift. rewrite HS, HP. cbn [negb].
  destruct HC as [[-> ->]|(-> & HFS & d & c & body & v0 & HD & HF & HCC & HB & HV & ->)].
  - exists m. split; [|done]. by rewrite list_insert_id.
  - unfold sbind at 1. rewrite HD, HFS. cbn [negb]. unfold sbind at 1. rewrite HB. unfold sbind at 1, decode_body. rewrite HF. unfold sbind at 1, sattempt.
    rewrite DecodeBody_scalar by done. unfold slift. rewrite HV. cbn [sret fmap option_fmap option_map].
    unfold sbind. rewrite (memoise_run l de _ h m _ Hl HS). eexists. split; [reflexivity|]. by apply reads_memo.
Qed.

(** A span of a field of the schema reads as what its body decodes to. *)
Lemma reads_span s m de d c o p body u src v : m_schema m = Some s -> 0 <= de ->
  Schema_Field s de = Some d -> m_src m = Some src -> fd_Codec d = Some c -> is_composite_codec c = false ->
  m_slots m !! Z.to_nat de = Some (span_slot o (o + len p) (o + len (p ++ body)) u) ->
  slice (E:=error) src o (o + len (p ++ body)) = Ok (p ++ body) -> DecodeScalar c body u d = Ok v ->
  reads m de (set_v_off (set_v_codec v (Some c)) (o + len p)).
Proof.
  intros Hs Hde HF HSrc HC HCC HS HSl HD. eexists. split; [by apply slot_at_lookup|]. split; [done|]. right. split; [done|]. split; [done|].
  exists d, c, body, v. split.
  { unfold msg_def. rewrite Hs. unfold Schema_Field in *. destruct (de =? 0); by rewrite HF. }
  split_and!; [done..| |done|done]. unfold src_slice. rewrite HSrc. cbn [span_slot sl_bodyOff sl_bodyEnd default id]. by apply slice_tail.
Qed.

(** ** Properties *)

(** The fields set since decoding, and the MTI, which is always written. *)
Definition edited (s : Schema) (m : Message) (de : Z) (d : FieldDef) (sl : slot) : Prop :=
  Schema_Field s de = Some d /\ slot_at m de = Ok sl /\ (de = 0 \/ sl_present sl = true) /\
  clean_src sl (m_src m) = None.

(** A message the engine can deliver: consistent, present elements inside the
    bitmap's levels, edited fields delimitable. *)
Record sendable (s : Schema) (m : Message) : Prop := {
  sd_wire : schema_wire s;
  sd_ok : msg_ok s m;
  sd_presence : presence_ok (present_bitmap m) (bs_Levels (s_bitmap s));
  sd_edited : forall de d sl, edited s m de d sl -> delimitable d (sl_v sl);
}.

Lemma sendable_deliverable h s m : sendable s m -> deliverable (EncodeBody h) s m.
Proof.
  intros [H1 H2 H3 H4]. apply msg_deliverable; [done..|]. intros. eapply H4. split_and!; try done.
Qed.

Lemma Marshal_remarshal h c m dst : m_owned m = true \/ m_src m = None ->
  Marshal h c m dst = remarshal (EncodeBody h) c m dst.
Proof. unfold Marshal, marshal. intros [-> | ->]; [by destruct (m_src m)|done]. Qed.

Lemma marshal_unmarshal_facts h c m wire post :
  sendable (c_schema c) m -> m_owned m = true \/ m_src m = None -> Marshal h c m [] = Ok wire ->
  exists m', Unmarshal c (wire ++ post) = Ok m' /\
    (forall de, 1 <= de -> Has m' de = Has m de) /\
    (forall de d sl src, 1 <= de -> Has m de = true -> Schema_Field (c_schema c) de = Some d ->
       slot_at m de = Ok sl -> clean_src sl (m_src m) = Some src ->
       exists w, slice (E:=error) src (sl_wireOff sl) (sl_bodyEnd sl) = Ok w /\
         spans_bytes d (wire ++ post) (m_slots m') de w) /\
    (forall de d sl, 1 <= de -> edited (c_schema c) m de d sl ->
       exists p body, encode_field (EncodeBody h) d (sl_v sl) = Ok body /\
         delimited d (p ++ body) (len p) (announced d (sl_v sl) body) /\
         spans_bytes d (wire ++ post) (m_slots m') de (p ++ body)).
Proof.
  intros HS Ho HM. rewrite Marshal_remarshal in HM by done. pose proof (sd_wire _ _ HS) as Hw.
  destruct (remarshal_Unmarshal (EncodeBody h) c Hw m wire post (sendable_deliverable h _ m HS) HM)
    as (m' & HU & _ & HP & HF & _).
  exists m'. split_and!; [done|done| |].
  - intros de d sl src Hde HH HD HSl HC. destruct (HF de Hde HH) as (d' & sl' & w & HD' & HSl' & HA & HB).
    rewrite HD in HD'; injection HD' as <-. rewrite HSl in HSl'; injection HSl' as <-.
    destruct (clean_delimited (EncodeBody h) (c_schema c) m de d sl src w Hw (sd_ok _ _ HS)) as [HSp _]; [done..|].
    by exists w.
  - intros de d sl Hde HE. pose proof HE as (HD & HSl & Hpr & HC). destruct Hpr as [->|Hpr]; [lia|].
    destruct (HF de Hde) as (d' & sl' & w & HD' & HSl' & HA & HB); [by rewrite (Has_slot m de sl HSl)|].
    rewrite HD in HD'; injection HD' as <-. rewrite HSl in HSl'; injection HSl' as <-.
    destruct (encoded_delimited h d sl (m_src m) w) as (p & body & -> & HEn & HDl); [by eapply sd_edited|done..|].
    by exists p, body.
Qed.

(** C1: [Unmarshal] inverts [Marshal], and re-encoding is selective.  For a
    deliverable message with edits, the wire image parses back (even with
    trailing bytes) to a message with the same present elements; every field
    not edited since it was decoded keeps its original bytes, prefix and body;
    every edited field is its length prefix followed by its encoded body. *)
Theorem marshal_unmarshal h c m wire post :
  sendable (c_schema c) m -> m_owned m = true \/ m_src m = None -> Marshal h c m [] = Ok wire ->
  exists m', Unmarshal c (wire ++ post) = Ok m' /\
    (forall de, 1 <= de -> Has m' de = Has m de) /\
    (forall de d sl src, 1 <= de -> Has m de = true -> Schema_Field (c_schema c) de = Some d ->
       slot_at m de = Ok sl -> clean_src sl (m_src m) = Some src ->
       exists w, slice (E:=error) src (sl_wireOff sl) (sl_bodyEnd sl) = Ok w /\
         spans_bytes d (wire ++ post) (m_slots m') de w) /\
    (forall de d sl, 1 <= de -> edited (c_schema c) m de d sl ->
       exists p body, encode_field (EncodeBody h) d (sl_v sl) = Ok body /\
         delimited d (p ++ body) (len p) (announced d (sl_v sl) body) /\
         spans_bytes d (wire ++ post) (m_slots m') de (p ++ body)).
Proof. apply marshal_unmarshal_facts. Qed.

Lemma announced_decode_units d v body cd : delimitable d v -> fd_Codec d = Some cd -> unit_codec cd = true ->
  announced d v body = decode_units d (v_raw v).
Proof.
  unfold delimitable, announced, decode_units, isFixed. intros HD HC HU. rewrite HC in HD.
  assert (is_composite_codec cd = false) as HN by (by destruct cd). destruct (fd_Length d) as [l|].
  - destruct HD as (_ & _ & HD). rewrite HN in HD. destruct HD as (_ & HK). unfold encodeUnits. by destruct HK as [-> | [-> | ->]].
  - destruct HD as (c & _ & _ & Hp). by rewrite (proj2 (Z.ltb_lt 0 _)).
Qed.

(** An edited text, numeric or binary element that its codec can represent. *)
Definition representable (s : Schema) (m : Message) (de : Z) (d : FieldDef) (sl : slot) (cd : FieldCodec) : Prop :=
  edited s m de d sl /\ fd_Codec d = Some cd /\ unit_codec cd = true /\ encodable cd (v_raw (sl_v sl)) = true /\ v_raw (sl_v sl) <> [].

Lemma delivered_reads h c m wire post : sendable (c_schema c) m -> m_owned m = true \/ m_src m = None -> Marshal h c m [] = Ok wire ->
  exists m', Unmarshal c (wire ++ post) = Ok m' /\
    forall de d sl cd, 1 <= de -> representable (c_schema c) m de d sl cd ->
      exists v', reads m' de v' /\ v_raw v' = padded d (fst (codec_pad cd)) (snd (codec_pad cd)) (v_raw (sl_v sl)) /\ v_kind v' = codec_Kind cd.
Proof.
  intros HS Ho HM. destruct (marshal_unmarshal_facts h c m wire post HS Ho HM) as (m' & HUn & _ & _ & HF).
  exists m'. split; [done|]. intros de d sl cd Hde (HE & HC & HU & HEn & Hne).
  destruct (HF de d sl Hde HE) as (p & body & HB & HD & o & po & u & HD' & HSl & HSp). clear HF.
  destruct (delimited_unique _ _ _ _ _ _ HD HD') as [<- <-].
  pose proof (sd_edited _ _ HS de d sl HE) as HDl. rewrite (announced_decode_units d _ body cd HDl HC HU) in HSl.
  assert (is_composite_codec cd = false) as HN by (by destruct cd).
  unfold encode_field in HB. rewrite HC in HB. apply rmap_err_Ok in HB. rewrite EncodeBody_scalar in HB by done.
  destruct (scalar_decode_encode cd (sl_v sl) d body HU HEn Hne HB) as (v' & HV & HR & HK).
  destruct (Unmarshal_layout c (sd_wire _ _ HS) (wire ++ post)) as [_ HL].
  destruct (HL m' HUn) as (_ & bc & ? & ? & ? & _ & L).
  exists (set_v_off (set_v_codec v' (Some cd)) (o + len p)). split; [|done].
  destruct HE as (HFd & _). eapply (reads_span (c_schema c) m' de d cd o p body); [apply L|lia|done|apply L|done..].
Qed.

Lemma edited_value_facts h c m wire post de d sl cd :
  sendable (c_schema c) m -> m_owned m = true \/ m_src m = None -> Marshal h c m [] = Ok wire ->
  1 <= de -> edited (c_schema c) m de d sl ->
  fd_Codec d = Some cd -> unit_codec cd = true -> encodable cd (v_raw (sl_v sl)) = true -> v_raw (sl_v sl) <> [] ->
  exists l h' v', UnmarshalNew c (wire ++ post) h = (Ok l, h') /\ fst (Get l de h') = Ok (Some v') /\
    v_raw v' = padded d (fst (codec_pad cd)) (snd (codec_pad cd)) (v_raw (sl_v sl)) /\
    v_kind v' = codec_Kind cd.
Proof.
  intros HS Ho HM Hde HE HC HU HEn Hne. destruct (delivered_reads h c m wire post HS Ho HM) as (m' & HUn & HR).
  destruct (HR de d sl cd Hde) as (v' & HV & Hraw & HK); [by split_and!|].
  exists (length h), (h ++ [m']), v'. split_and!; [unfold UnmarshalNew, sbind, slift; by rewrite HUn| |done|done].
  destruct (reads_Get (h ++ [m']) (length h) m' de v') as (m2 & -> & _); [by rewrite lookup_app_r, Nat.sub_diag|done..].
Qed.

(** values survive the wire.  What a receiver gets for an edited field of
    a deliverable message, after parsing the marshalled bytes and decoding
    lazily, is the value that was set, padded to the width of a fixed field,
    with the field's kind. *)
Theorem edited_value_survives h c m wire post de d sl cd :
  sendable (c_schema c) m -> m_owned m = true \/ m_src m = None -> Marshal h c m [] = Ok wire ->
  1 <= de -> edited (c_schema c) m de d sl ->
  fd_Codec d = Some cd -> unit_codec cd = true -> encodable cd (v_raw (sl_v sl)) = true -> v_raw (sl_v sl) <> [] ->
  exists l h' v', UnmarshalNew c (wire ++ post) h = (Ok l, h') /\ fst (Get l de h') = Ok (Some v') /\
    v_raw v' = padded d (fst (codec_pad cd)) (snd (codec_pad cd)) (v_raw (sl_v sl)) /\
    v_kind v' = codec_Kind cd.
Proof. apply edited_value_facts. Qed.

(** A decoded message marshals to the bytes it was parsed from, after any reads. *)
Lemma verbatim_facts c wire h l h1 des h2 dst :
  heap_ok h -> deep_schema (c_schema c) ->
  UnmarshalNew c wire h = (Ok l, h1) ->
  h2 = fold_left (fun h de => snd (Get l de h)) des h1 ->
  fst (MarshalAt c l dst h2) = Ok wire.
Proof.
  intros Hh HD HU ->. pose proof (deep_wire _ HD) as Hw. unfold UnmarshalNew, sbind, slift in HU.
  destruct (Unmarshal c wire) as [m|e|] eqn:EU; [|done|done]. injection HU as <- <-.
  destruct (Unmarshal_layout c Hw wire) as [_ HL]. destruct (HL m EU) as (_ & bc & ? & ? & ? & _ & L).
  assert (heap_ok (h ++ [m])) as Hh1 by (apply Forall_app_2; [done|constructor; [by eapply Unmarshal_fine|constructor]]).
  assert (forall h2, heap_ok h2 -> (exists m2, h2 !! length h = Some m2 /\ m_src m2 = Some wire /\ m_owned m2 = false) ->
    fst (MarshalAt c (length h) dst (fold_left (fun h0 de => snd (Get (length h) de h0)) des h2)) = Ok wire) as HG.
  { induction des as [|de des IH]; intros h2 Hh2 (m2 & E1 & E2 & E3); cbn [fold_left].
    - unfold MarshalAt. rewrite E1. unfold Marshal, marshal. by rewrite E2, E3.
    - apply IH; [by apply Get_safe|]. unfold Get, sbind at 1. rewrite (hget_run _ _ _ E1).
      destruct (in_slots m2 de); [|cbn; by exists m2].
      destruct (decodeSlot (length h) de h2) as [r h3] eqn:EDS. apply decodeSlot_run in EDS as (k & FK & HR); [|done]. cbn.
      destruct r as [[v|]|e|]; [|subst; exists m2; split_and!; [by apply lookup_app_l_Some|done|done]..].
      destruct HR as (m0 & s0 & Hl & _ & _ & _ & ->). rewrite E1 in Hl. injection Hl as <-.
      exists (with_slot m2 de (memo_slot s0 v)). split_and!; [|done|done].
      apply list_lookup_insert_eq. rewrite length_app. apply lookup_lt_Some in E1. lia. }
  apply HG; [done|]. exists m. split_and!; [|apply L|apply L]. rewrite lookup_app_r, Nat.sub_diag; done.
Qed.

(** Store and forward is verbatim.  A decoded message marshals to exactly
    the bytes it was parsed from, trailing bytes included, whatever was read of
    it in between: reads memoise values in the slots and never make the message
    [owned]. *)
Theorem forward_verbatim c wire h l h1 des h2 dst :
  heap_ok h -> deep_schema (c_schema c) ->
  UnmarshalNew c wire h = (Ok l, h1) ->
  h2 = fold_left (fun h de => snd (Get l de h)) des h1 ->
  fst (MarshalAt c l dst h2) = Ok wire.
Proof. apply verbatim_facts. Qed.

(** ** Checking a message by evaluation *)

Definition delimitableb (d : FieldDef) (v : Value) : bool :=
  match fd_Length d with
  | None => match fd_Codec d with Some c => negb (is_composite_codec c) && (0 <? fd_MaxLen d) | None => false end
  | Some l =>
      length_ok l && negb (bool_decide (l = fixed)) &&
      match fd_Codec d with
      | Some c =>
          if is_composite_codec c then bool_decide (v_kind v = KindComposite)
          else unit_codec c && match v_kind v with KindNumeric | KindString | KindBytes => true | _ => false end
      | None => negb (bool_decide (v_kind v = KindAmount))
      end
  end.

Lemma delimitableb_ok d v : delimitableb d v = true -> delimitable d v.
Proof.
  unfold delimitableb, delimitable. destruct (fd_Length d) as [l|].
  - intros H. apply andb_prop in H as [[H1 H2]%andb_prop H3]. apply negb_true_iff, bool_decide_eq_false in H2.
    split_and!; [done..|]. destruct (fd_Codec d) as [c|].
    + destruct (is_composite_codec c); [by apply bool_decide_eq_true in H3|]. apply andb_prop in H3 as [H3 H4].
      split; [done|]. destruct (v_kind v); auto; discriminate.
    + by apply negb_true_iff, bool_decide_eq_false in H3.
  - destruct (fd_Codec d) as [c|]; [|done]. intros H. apply andb_prop in H as [H1 H2]. exists c.
    split_and!; [done|by apply negb_true_iff|by apply Z.ltb_lt].
Qed.

Definition uint64b (z : Z) : bool := (0 <=? z) && (z <? 2 ^ 64).

Definition presence_okb (bm : Bitmap) (ml : Z) : bool :=
  uint64b (word0 bm) && uint64b (word1 bm) && uint64b (word2 bm) && (1 <=? ml) && (ml <=? 3) &&
  negb (IsSet bm 1) && negb (IsSet bm 65) && (negb (ml =? 1) || (word1 bm =? 0)) && ((3 <=? ml) || (word2 bm =? 0)).

Lemma uint64b_ok z : uint64b z = true -> uint64 z.
Proof. unfold uint64b, uint64. intros. bool_to_prop. lia. Qed.

Lemma presence_okb_ok bm ml : presence_okb bm ml = true -> presence_ok bm ml.
Proof.
  unfold presence_okb. intros H. do 8 (apply andb_prop in H as [H ?]). split.
  - split_and!; by apply uint64b_ok.
  - bool_to_prop. lia.
  - by apply negb_true_iff.
  - by apply negb_true_iff.
  - intros ->. match goal with H : negb (1 =? 1) || _ = true |- _ => cbn in H; by apply Z.eqb_eq in H end.
  - intros Hle. match goal with H : (3 <=? ml) || _ = true |- _ => destruct (Z.leb_spec 3 ml); [lia|]; by apply Z.eqb_eq in H end.
Qed.

(** One slot of the check. *)
Definition slot_sendableb (s : Schema) (m : Message) (de : Z) : bool :=
  match Schema_Field s de, m_slots m !! Z.to_nat de with
  | Some d, Some sl =>
      negb (((de =? 0) || sl_present sl) && match clean_src sl (m_src m) with None => true | Some _ => false end)
      || delimitableb d (sl_v sl)
  | _, _ => true
  end.

Definition sendableb (s : Schema) (m : Message) : bool :=
  presence_okb (present_bitmap m) (bs_Levels (s_bitmap s)) &&
  forallb (slot_sendableb s m) (seqZ 0 (len (m_slots m))).

Lemma sendableb_ok s m : schema_wire s -> msg_ok s m -> sendableb s m = true -> sendable s m.
Proof.
  intros Hs HM H. apply andb_prop in H as [HP HF]. split; [done|done|by apply presence_okb_ok|].
  intros de d sl (HD & HS & Hpr & HC). apply delimitableb_ok.
  pose proof HS as HS'. apply slot_at_lookup in HS' as [Hde HL].
  assert (de ∈ seqZ 0 (len (m_slots m))) as Hin.
  { apply elem_of_seqZ. apply lookup_lt_Some in HL. unfold len. lia. }
  apply (forallb_elem _ _ _ HF) in Hin. unfold slot_sendableb in Hin. rewrite HD, HL, HC in Hin.
  destruct Hpr as [->|Hpr]; [exact Hin|]. rewrite Hpr, orb_true_r in Hin. exact Hin.
Qed.

(** ** Witnesses: a decoded message whose PAN is replaced and an amount added *)

Definition sample_codec : Codec := NewCodec sample_schema [].

Definition edited_sample : result Message :=
  let! m := Unmarshal sample_codec sample_wire in
  let! m := MSet m 2 (anyString (go "4111222233334444")) in
  MSet m 4 (anyDecimal (mkDecimal 1099 2)).

Lemma edited_sample_ok m : edited_sample = Ok m -> msg_ok sample_schema m.
Proof.
  unfold edited_sample. intros H. apply rbind_Ok in H as (m0 & HU & H). apply rbind_Ok in H as (m1 & H1 & H2).
  destruct (Unmarshal_layout sample_codec sample_schema_wire sample_wire) as [_ HL].
  destruct (HL m0 HU) as (_ & bc & ? & ? & ? & _ & L).
  assert (s_maxDE sample_schema <= 192) by (vm_compute; discriminate).
  eapply MSet_ok; [eapply MSet_ok; [by eapply layout_ok; [apply sample_schema_wire|]|done|exact H1]|done|exact H2].
Qed.

Definition edited_wire : bytes :=
  go "0800" ++ [xd0; x00; x00; x00; x00; x00; x00; x00] ++ [x04; x00; x00; x00; x00; x00; x00; x00] ++
  go "16" ++ [x41; x11; x22; x22; x33; x33; x44; x44] ++ go "000000001099" ++ go "301".

Lemma edited_sample_facts m : edited_sample = Ok m ->
  sendable sample_schema m /\ m_owned m = true /\ Marshal [] sample_codec m [] = Ok edited_wire.
Proof.
  intros E. assert (C : match edited_sample with Ok m => sendableb sample_schema m && m_owned m &&
      match Marshal [] sample_codec m [] with Ok w => bool_decide (w = edited_wire) | _ => false end | _ => false end = true)
    by (vm_compute; reflexivity).
  rewrite E in C. apply andb_prop in C as [[C1 C2]%andb_prop C3].
  split; [apply sendableb_ok; [apply sample_schema_wire|by apply edited_sample_ok|done]|]. split; [done|].
  destruct (Marshal [] sample_codec m []) as [w|e|]; [|done|done]. by apply bool_decide_eq_true in C3 as ->.
Qed.

Lemma marshal_unmarshal_witness :
  exists m m', edited_sample = Ok m /\ Unmarshal sample_codec (edited_wire ++ go "tail") = Ok m' /\
    (forall de, 1 <= de -> Has m' de = Has m de).
Proof.
  destruct edited_sample as [m|e|] eqn:E; [|vm_compute in E; discriminate..].
  destruct (edited_sample_facts m E) as (HS & HO & HM).
  destruct (marshal_unmarshal [] sample_codec m edited_wire (go "tail") HS (or_introl HO) HM) as (m' & HU & HP & _).
  exists m, m'. split; [reflexivity|]. split; [exact HU|exact HP].
Defined.

Lemma edited_value_survives_witness :
  exists l h' v', UnmarshalNew sample_codec edited_wire [] = (Ok l, h') /\ fst (Get l 2 h') = Ok (Some v') /\
    v_raw v' = go "4111222233334444".
Proof.
  destruct edited_sample as [m|e|] eqn:E; [|vm_compute in E; discriminate..].
  destruct (edited_sample_facts m E) as (HS & HO & HM).
  assert (C : match edited_sample with
    | Ok m => match Schema_Field sample_schema 2, slot_at m 2 with
              | Some d, Ok sl => bool_decide (v_raw (sl_v sl) = go "4111222233334444") && sl_present sl &&
                  bool_decide (fd_Codec d = Some bcdNum) && negb (sl_fromSrc sl) && negb (isFixed d)
              | _, _ => false end
    | _ => false end = true) by (vm_compute; reflexivity).
  rewrite E in C.
  destruct (Schema_Field sample_schema 2) as [d|] eqn:ED; [|discriminate C].
  destruct (slot_at m 2) as [sl|e|] eqn:ES; [|discriminate C..].
  apply andb_prop in C as [C C5]. apply andb_prop in C as [C C4]. apply andb_prop in C as [C C3]. apply andb_prop in C as [C1 C2].
  apply bool_decide_eq_true in C1, C3. apply negb_true_iff in C4, C5.
  destruct (edited_value_survives [] sample_codec m edited_wire [] 2 d sl bcdNum) as (l & h' & v' & U & G & R & _).
  - exact HS.
  - left; exact HO.
  - exact HM.
  - lia.
  - split; [exact ED|]. split; [exact ES|]. split; [right; exact C2|]. unfold clean_src. rewrite C4. reflexivity.
  - exact C3.
  - reflexivity.
  - reflexivity.
  - rewrite C1; discriminate.
  - exists l, h', v'. rewrite app_nil_r in U. split; [exact U|]. split; [exact G|].
    rewrite R, C1. unfold padded. rewrite C5. reflexivity.
Defined.

Lemma forward_verbatim_witness :
  exists h2, fst (MarshalAt sample_codec 0 [] h2) = Ok sample_wire /\ length h2 = 1%nat.
Proof.
  destruct (UnmarshalNew sample_codec sample_wire []) as [r h1] eqn:E.
  assert (r = Ok 0%nat) as -> by (vm_compute in E; injection E as <- _; reflexivity).
  assert (HD : deep_schema sample_schema) by (apply (deep_schemab_ok 1); vm_compute; reflexivity).
  exists (fold_left (fun h de => snd (Get 0 de h)) [2; 70] h1). split.
  - apply (forward_verbatim sample_codec sample_wire [] 0 h1 [2; 70] _ []); [constructor|exact HD|exact E|reflexivity].
  - assert (h1 = snd (UnmarshalNew sample_codec sample_wire [])) as -> by (rewrite E; reflexivity). vm_compute. reflexivity.
Defined.
