(* ===== verification/Clone.v ===== *)
(** * Copying messages ([Message.Clone])

    What a clone shares with its original and what it does not. *)

From S2P Require Import Prelude Errors Strconv Bitmap Path Schema Value FieldCodec Message Engine Layout Invariant Access Store EndToEnd.

(** The children that the slots of a message point to. *)
Definition slot_children (m : Message) : list loc := omap (fun s => v_sub (sl_v s)) (m_slots m).

(** The messages below [l], through slots, nest at most [n] deep. *)
Fixpoint nested (h : heap) (n : nat) (l : loc) : Prop :=
  match n with
  | O => False
  | S n => exists m, h !! l = Some m /\ forall sub, sub ∈ slot_children m -> nested h n sub
  end.

(** The message a clone is, given its copied slots. *)
Definition clone_of (m : Message) (ss : list slot) : Message :=
  mkMessage (m_schema m) (m_src m) (m_bm m) ss false (m_dirty m) false (m_tags m) (m_tagOrder m).

(** A copied slot: equal, but for the child. *)
Definition slot_copy (s s' : slot) : Prop :=
  (v_sub (sl_v s) = None /\ s' = s) \/
  (exists sub sub', v_sub (sl_v s) = Some sub /\
    s' = mkSlot (set_v_sub (sl_v s) (Some sub')) (sl_present s) (sl_decoded s) (sl_dirty s)
           (sl_fromSrc s) (sl_units s) (sl_wireOff s) (sl_bodyOff s) (sl_bodyEnd s)).

(** Every message of [k] has its slot children at or above [b]. *)
Definition above (b : nat) (k : list Message) : Prop :=
  Forall (fun m => Forall (fun sub => (b <= sub)%nat) (slot_children m)) k.

Section Slots.
Context (h : heap) (clone : loc -> ST loc).

Lemma clone_slots_run ss k0 :
  (forall sub k0, sub ∈ omap (fun s => v_sub (sl_v s)) ss -> above (length h) k0 ->
     exists l' k, clone sub (h ++ k0) = (Ok l', h ++ k0 ++ k) /\ (length h <= l')%nat /\ above (length h) (k0 ++ k)) ->
  above (length h) k0 ->
  exists ss' k, clone_slots clone ss (h ++ k0) = (Ok ss', h ++ k0 ++ k) /\ above (length h) (k0 ++ k) /\
    Forall2 slot_copy ss ss' /\
    Forall (fun sub => (length h <= sub)%nat) (omap (fun s => v_sub (sl_v s)) ss').
Proof.
  revert k0. induction ss as [|s ss IH]; intros k0 HC HA; cbn [clone_slots].
  { exists [], []. rewrite app_nil_r. split_and!; [done|done|constructor|constructor]. }
  destruct (v_sub (sl_v s)) as [sub|] eqn:EV.
  - destruct (HC sub k0) as (l' & k1 & E1 & L1 & A1); [cbn; rewrite EV; left|done|].
    destruct (IH (k0 ++ k1)) as (ss' & k2 & E2 & A2 & F2 & B2).
    { intros sub' k' Hs HA'. apply HC; [cbn; rewrite EV; by right|done]. }
    { done. }
    unfold sbind at 1 2. rewrite E1. cbn [sret]. unfold sbind. rewrite E2. eexists _, (k1 ++ k2). rewrite <- !app_assoc in *.
    split_and!; [done|done| |].
    + constructor; [|done]. right. by exists sub, l'.
    + cbn. constructor; [done|done].
  - destruct (IH k0) as (ss' & k2 & E2 & A2 & F2 & B2).
    { intros sub' k' Hs HA'. apply HC; [cbn; by rewrite EV|done]. }
    { done. }
    unfold sbind, sret. rewrite E2. eexists _, k2. split_and!; [done|done| |].
    + constructor; [|done]. by left.
    + cbn. by rewrite EV.
Qed.
End Slots.

Lemma clone_n_run h n l k0 : nested h n l -> above (length h) k0 ->
  exists l' k, clone_n n l (h ++ k0) = (Ok l', h ++ k0 ++ k) /\ (length h <= l')%nat /\ above (length h) (k0 ++ k) /\
    exists m ss, h !! l = Some m /\ (h ++ k0 ++ k) !! l' = Some (clone_of m ss) /\ Forall2 slot_copy (m_slots m) ss.
Proof.
  revert l k0. induction n as [|n IH]; intros l k0 HN HA; [done|]. destruct HN as (m & Hl & HS). cbn [clone_n].
  unfold sbind at 1. rewrite (hget_run l (h ++ k0) m) by (by apply lookup_app_l_Some).
  destruct (clone_slots_run h (clone_n n) (m_slots m) k0) as (ss & k & E & A & F & B); [|done|].
  { intros sub k1 Hsub HA1. destruct (IH sub k1) as (l' & k & E & L & A & _); [by apply HS|done|]. by exists l', k. }
  unfold sbind. rewrite E. unfold halloc. exists (length (h ++ k0 ++ k)), (k ++ [clone_of m ss]).
  rewrite !app_assoc in *. split_and!.
  - done.
  - rewrite !length_app. lia.
  - apply Forall_app_2; [done|]. constructor; [done|constructor].
  - exists m, ss. split_and!; [done| |done]. rewrite lookup_app_r, Nat.sub_diag; done.
Qed.

Lemma nested_mono h a b l : (a <= b)%nat -> nested h a l -> nested h b l.
Proof.
  revert b l. induction a as [|a IH]; intros b l Hab HX; [done|]. destruct b as [|b]; [lia|].
  destruct HX as (m & Hx & HS). exists m. split; [done|]. intros sub Hsub. apply IH; [lia|]. by apply HS.
Qed.

(** a clone is isolated from its original.  On a store whose messages nest
    no deeper than its size, [Clone] returns, changes no existing message, and
    builds a copy whose slots equal the original's except that every child they
    point to is a new message, at every level; only the tag map of a
    tag-addressed message is copied with the children it holds. *)
Theorem Clone_isolated h l n : nested h n l -> (n <= S (length h))%nat ->
  exists l' k m ss, Clone l h = (Ok l', h ++ k) /\ (length h <= l')%nat /\ above (length h) k /\
    h !! l = Some m /\ (h ++ k) !! l' = Some (clone_of m ss) /\ Forall2 slot_copy (m_slots m) ss.
Proof.
  intros HN Hle. unfold Clone.
  destruct (clone_n_run h (S (length h)) l [] (nested_mono h n _ l Hle HN)) as (l' & k & E & L & A & m & ss & Hm & Hl & F);
    [constructor|]. rewrite app_nil_r in E. cbn in *. by exists l', k, m, ss.
Qed.

(** A decoded message with edits, and a parent whose child was created by a path write. *)
Definition edited_store : heap :=
  match edited_sample with Ok m => [m] | _ => [] end.
Definition nested_store : heap :=
  snd (SetP 0 (mkFieldPath [mkPathElem 55 []; mkPathElem (-1) (go "9F26")]) (anyBytes [x01; x02]) [New nested_schema]).

Lemma Clone_isolated_witness :
  exists l' k, Clone 0 nested_store = (Ok l', nested_store ++ k) /\ (2 <= l')%nat /\ above 2 k.
Proof.
  assert (L : length nested_store = 2%nat) by (vm_compute; reflexivity).
  assert (N : nested nested_store 2 0).
  { assert (C : match nested_store !! 0%nat, nested_store !! 1%nat with
      | Some m, Some m1 => bool_decide (slot_children m = [1%nat]) && bool_decide (slot_children m1 = [])
      | _, _ => false end = true) by (vm_compute; reflexivity).
    destruct (nested_store !! 0%nat) as [m|] eqn:E0; [|discriminate C].
    destruct (nested_store !! 1%nat) as [m1|] eqn:E1; [|discriminate C].
    apply andb_prop in C as [C0 C1]. apply bool_decide_eq_true in C0, C1.
    exists m. split; [exact E0|]. rewrite C0. intros sub Hs. apply list_elem_of_singleton in Hs as ->.
    exists m1. split; [exact E1|]. rewrite C1. intros sub Hs. apply not_elem_of_nil in Hs. destruct Hs. }
  destruct (Clone_isolated nested_store 0 2 N) as (l' & k & m & ss & E & H & A & _); [rewrite L; lia|].
  rewrite L in H, A. exists l', k. split; [exact E|]. split; [exact H|exact A].
Defined.

(** a clone forgets that its original was edited.  [Clone] copies the
    slots but not the flag [owned], so a clone of a decoded message marshals to
    the bytes the original was parsed from, although its slots hold the edits:
    whatever was set or removed before cloning is not on the wire. *)
Theorem Clone_drops_edits h l n m src c dst :
  nested h n l -> (n <= S (length h))%nat -> h !! l = Some m -> m_src m = Some src ->
  exists l' h' ss, Clone l h = (Ok l', h') /\ h' !! l' = Some (clone_of m ss) /\
    Forall2 slot_copy (m_slots m) ss /\ MarshalAt c l' dst h' = (Ok src, h').
Proof.
  intros HN Hle Hl HS.
  destruct (clone_n_run h (S (length h)) l [] (nested_mono h n _ l Hle HN)) as (l' & k & E & _ & _ & m' & ss & Hm & Hl' & F);
    [constructor|]. rewrite Hl in Hm. injection Hm as <-. rewrite app_nil_r in E. cbn [app] in *.
  exists l', (h ++ k), ss. split_and!; [exact E|done|done|].
  unfold MarshalAt. rewrite Hl'. unfold Marshal, marshal. cbn. by rewrite HS.
Qed.

(** The edited sample marshals with its new PAN; its clone with the old one. *)
Lemma Clone_drops_edits_witness :
  fst (MarshalAt sample_codec 0 [] edited_store) = Ok edited_wire /\
  exists l' h', Clone 0 edited_store = (Ok l', h') /\ MarshalAt sample_codec l' [] h' = (Ok sample_wire, h') /\
    sample_wire <> edited_wire.
Proof.
  split; [vm_compute; reflexivity|].
  assert (C : match edited_store !! 0%nat with
    | Some m => bool_decide (slot_children m = []) && bool_decide (m_src m = Some sample_wire) | None => false end = true)
    by (vm_compute; reflexivity).
  destruct (edited_store !! 0%nat) as [m|] eqn:E0; [|discriminate C].
  apply andb_prop in C as [C0 C1]. apply bool_decide_eq_true in C0, C1.
  assert (N : nested edited_store 1 0).
  { exists m. split; [exact E0|]. rewrite C0. intros sub Hs. apply not_elem_of_nil in Hs. destruct Hs. }
  destruct (Clone_drops_edits edited_store 0 1 m sample_wire sample_codec [] N) as (l' & h' & ss & E & _ & _ & M);
    [lia|exact E0|exact C1|].
  exists l', h'. split; [exact E|]. split; [exact M|]. vm_compute. discriminate.
Defined.
