(* ===== verification/Reads.v ===== *)
(** * Reading is stable

    A value read once is memoised in its slot: every later read returns it and
    changes nothing, whatever else is read in between; presence never changes
    by reading. *)

From S2P Require Import Prelude Errors Bitmap Path Schema LengthCodec BitmapCodec Value FieldCodec Message BerTlv Engine Layout Wire Recursion Access Invariant Store EndToEnd.

(** The slot [de] of [l] holds the decoded value [v]. *)
Definition memoed (h : heap) (l : loc) (de : Z) (v : Value) : Prop :=
  exists m s0, h !! l = Some m /\ slot_at m de = Ok s0 /\ sl_present s0 = true /\ sl_decoded s0 = true /\ sl_v s0 = v.

Lemma slot_at_in_slots m de s0 : slot_at m de = Ok s0 -> in_slots m de = true.
Proof.
  intros [Hde HS]%slot_at_lookup. apply lookup_lt_Some in HS. unfold in_slots.
  destruct (Z.ltb_spec de 0); [lia|]. unfold len. by destruct (Z.leb_spec (Z.of_nat (length (m_slots m))) de); [lia|].
Qed.

Lemma memoed_Get h l de v : memoed h l de v -> Get l de h = (Ok (Some v), h).
Proof.
  intros (m & s0 & Hl & HS & HP & HD & <-). unfold Get, sbind at 1. rewrite (hget_run l h m Hl), (slot_at_in_slots m de s0 HS).
  unfold decodeSlot, sbind at 1. rewrite (hget_run l h m Hl). unfold sbind, slift. by rewrite HS, HP, HD.
Qed.

Lemma slot_at_insert m de s1 s0 : slot_at m de = Ok s0 -> slot_at (with_slot m de s1) de = Ok s1.
Proof.
  intros [Hde HS]%slot_at_lookup. apply slot_at_lookup. split; [done|]. cbn.
  apply list_lookup_insert_eq. by apply lookup_lt_Some in HS.
Qed.

Lemma slot_at_insert_ne m de e s1 : 0 <= de -> 0 <= e -> e <> de -> slot_at (with_slot m de s1) e = slot_at m e.
Proof.
  intros. unfold slot_at, idx. cbn. destruct (e <? 0); [done|]. rewrite list_lookup_insert_ne by lia. done.
Qed.

(** What a read does to the store, from the outside. *)
Lemma Get_run h l de r h' : heap_ok h -> Get l de h = (r, h') ->
  exists k, Forall msg_fine k /\
  match r with
  | Ok (Some v) => exists m s0, h !! l = Some m /\ slot_at m de = Ok s0 /\ sl_present s0 = true /\
      (sl_decoded s0 = true -> v = sl_v s0) /\
      h' = <[l := with_slot m de (memo_slot s0 v)]> (h ++ k)
  | _ => h' = h ++ k
  end.
Proof.
  intros Hh. unfold Get, sbind at 1, hget. destruct (h !! l) as [m|] eqn:Hl.
  2:{ intros [= <- <-]. exists []. rewrite app_nil_r. split; [constructor|done]. }
  destruct (in_slots m de).
  - intros HD. apply decodeSlot_run in HD as (k & FK & HR); [|done]. exists k. split; [done|].
    destruct r as [[v|]|e|]; try done. destruct HR as (m' & s0 & H1 & H2 & H3 & H4 & H5).
    rewrite Hl in H1. injection H1 as <-. exists m, s0. split_and!; try done. intros. apply H4. by left.
  - intros [= <- <-]. exists []. rewrite app_nil_r. split; [constructor|done].
Qed.

Lemma Get_memoed h l de v h' : heap_ok h -> Get l de h = (Ok (Some v), h') -> memoed h' l de v.
Proof.
  intros Hh HG. apply Get_run in HG as (k & FK & m & s0 & Hl & HS & HP & _ & ->); [|done].
  exists (with_slot m de (memo_slot s0 v)), (memo_slot s0 v). split_and!; [|by eapply slot_at_insert|done..].
  apply list_lookup_insert_eq. rewrite length_app. apply lookup_lt_Some in Hl. lia.
Qed.

(** A read of any element of any message keeps what was memoised. *)
Lemma memoed_step h l de v l' de' : heap_ok h -> memoed h l de v -> memoed (snd (Get l' de' h)) l de v.
Proof.
  intros Hh (m & s0 & Hl & HS & HP & HD & HV). destruct (Get l' de' h) as [r h'] eqn:HG.
  apply Get_run in HG as (k & FK & HR); [|done]. cbn.
  assert (HK : (h ++ k) !! l = Some m) by (by apply lookup_app_l_Some).
  destruct r as [[v'|]|e|]; [|subst; exists m, s0; by split_and!..].
  destruct HR as (m' & s1 & Hl' & HS' & HP' & HV' & ->).
  destruct (decide (l = l')) as [<-|Hne].
  - rewrite Hl in Hl'. injection Hl' as <-. exists (with_slot m de' (memo_slot s1 v')).
    apply lookup_lt_Some in Hl as Hlt.
    assert (<[l:=with_slot m de' (memo_slot s1 v')]> (h ++ k) !! l = Some (with_slot m de' (memo_slot s1 v'))) as HL.
    { apply list_lookup_insert_eq. rewrite length_app. lia. }
    destruct (decide (de = de')) as [<-|Hd].
    + rewrite HS in HS'. injection HS' as <-. specialize (HV' HD). subst v'. exists (memo_slot s0 (sl_v s0)).
      split_and!; [done|by eapply slot_at_insert|done..].
    + exists s0. split_and!; try done. pose proof HS as HS0. apply slot_at_lookup in HS0 as [? _].
      apply slot_at_lookup in HS' as [? _]. by rewrite slot_at_insert_ne by done.
  - exists m, s0. split_and!; try done. by rewrite list_lookup_insert_ne.
Qed.

Lemma reads_memoed rs h l de v : heap_ok h -> memoed h l de v ->
  memoed (fold_left (fun h p => snd (Get p.1 p.2 h)) rs h) l de v.
Proof.
  revert h. induction rs as [|[l' de'] rs IH]; intros h Hh HM; cbn [fold_left]; [done|].
  apply IH; [by apply Get_safe|]. by apply memoed_step.
Qed.

(** Reading does not change presence. *)
Lemma Get_present h l de l' m : heap_ok h -> h !! l' = Some m ->
  exists m', snd (Get l de h) !! l' = Some m' /\ (forall e, 0 <= e -> Has m' e = Has m e) /\
    m_schema m' = m_schema m /\ len (m_slots m') = len (m_slots m).
Proof.
  intros Hh Hl'. destruct (Get l de h) as [r h'] eqn:HG. apply Get_run in HG as (k & FK & HR); [|done]. cbn.
  assert (HK : (h ++ k) !! l' = Some m) by (by apply lookup_app_l_Some).
  destruct r as [[v|]|e|]; [|subst; by exists m..]. destruct HR as (m0 & s0 & Hl & HS & HP & _ & ->).
  destruct (decide (l = l')) as [->|Hne].
  - rewrite Hl in Hl'. injection Hl' as <-. exists (with_slot m0 de (memo_slot s0 v)). split_and!.
    + apply list_lookup_insert_eq. apply lookup_lt_Some in Hl. rewrite length_app. lia.
    + intros e He. pose proof HS as HS'. apply slot_at_lookup in HS' as [Hde HS'].
      rewrite Has_with_slot; [|apply lookup_lt_Some in HS'; unfold len; lia|done]. cbn [memo_slot sl_present].
      destruct (Z.eqb_spec e de) as [->|]; [|done]. by rewrite (Has_slot m0 de s0 HS).
    + done.
    + cbn. unfold len. by rewrite length_insert.
  - exists m. split_and!; try done. by rewrite list_lookup_insert_ne.
Qed.

(** ** Reading is total *)

(** What a schema that can be parsed gives the definitions under it. *)
Lemma deep_schema_tags s : deep_schema s -> forall tag td, LookupTag s tag = Some td -> deep_def td.
Proof.
  induction 1 as [s HW HF _ HT IHT]. intros tag td HL. constructor.
  - intros sub ES _. apply deep_wire. by eapply HT.
  - intros sub tag' td' ES HL'. eapply (IHT tag td sub HL ES); done.
Qed.

Lemma sub_deep_def d : sub_deep d -> deep_def d.
Proof.
  intros HD. constructor.
  - intros sub ES _. by apply deep_wire, HD.
  - intros sub tag td ES HL. eapply deep_schema_tags; [by apply HD|done].
Qed.

(** Whether a body decodes does not depend on the store. *)
Lemma ber_decode_loop_blind D fuel body def :
  (forall c b u td h1 h2, is_Ok (fst (D c b u td h1)) = is_Ok (fst (D c b u td h2))) ->
  forall i ch1 ch2 h1 h2,
  is_Ok (fst (ber_decode_loop D fuel body def i ch1 h1)) = is_Ok (fst (ber_decode_loop D fuel body def i ch2 h2)).
Proof.
  intros HD. induction fuel as [|fuel IH]; intros i ch1 ch2 h1 h2; cbn [ber_decode_loop]; [done|].
  case_match; [done|]. unfold sbind, slift. destruct (readTLV body i) as [[[tag val] next]|e|]; [|done|done].
  destruct (tag_codec def tag) as [[td c]|]; [|apply IH].
  pose proof (HD c val (tag_units td val) td h1 h2) as HE.
  destruct (D c val (tag_units td val) td h1) as [[v1|e1|] k1], (D c val (tag_units td val) td h2) as [[v2|e2|] k2];
    cbn in *; done.
Qed.

Lemma DecodeBody_n_blind n c body units def h1 h2 :
  is_Ok (fst (DecodeBody_n n c body units def h1)) = is_Ok (fst (DecodeBody_n n c body units def h2)).
Proof.
  revert c body units def h1 h2. induction n as [|n IH]; intros c body units def h1 h2;
    (destruct c; cbn [DecodeBody_n]; try done); unfold berTLV_DecodeBody, packager_DecodeBody, sbind, slift.
  2,4: destruct (fd_Sub def) as [sub|]; [|done]; by destruct (Unmarshal (NewCodec sub []) body).
  all: match goal with |- context [ber_decode_loop ?D ?f ?b ?d 0 ?ch ?h] =>
      pose proof (ber_decode_loop_blind D f b d ltac:(done) 0 ch ch h1 h2) as HE;
      destruct (ber_decode_loop D f b d 0 ch h1) as [[?|?|] ?], (ber_decode_loop D f b d 0 ch h2) as [[?|?|] ?] end;
    by cbn in *.
Qed.

(** A body of a well-formed message decodes to a value, or not at all. *)
Lemma decode_body_cases d s0 body : sub_deep d ->
  (forall h, exists v h', decode_body d s0 body h = (Ok (Some v), h')) \/
  (forall h, exists h', decode_body d s0 body h = (Ok None, h')).
Proof.
  intros HD. unfold decode_body. destruct (fd_Codec d) as [c|] eqn:EC; [|left; intros h; by do 2 eexists].
  unfold sbind, sattempt, DecodeBody.
  assert (forall h, fst (DecodeBody_n (def_depth d) c body (sl_units s0) d h) <> Panic) as HP
    by (intros h; apply (DecodeBody_total d c); [by apply sub_deep_def|done]).
  destruct (is_Ok (fst (DecodeBody_n (def_depth d) c body (sl_units s0) d []))) eqn:E; [left|right]; intros h;
    pose proof (DecodeBody_n_blind (def_depth d) c body (sl_units s0) d [] h) as HB; rewrite E in HB; specialize (HP h);
    destruct (DecodeBody_n (def_depth d) c body (sl_units s0) d h) as [[v|e|] h']; cbn in *; try done; by repeat eexists.
Qed.

(** What a read of a slot of message [m] does, the store apart. *)
Definition read_slot (s : Schema) (m : Message) (l : loc) (de : Z) (s0 : slot) : ST (option Value) :=
  if negb (sl_present s0) then sret None else if sl_decoded s0 then sret (Some (sl_v s0)) else
  match (if de =? 0 then s_mti s else Schema_Field s de) with
  | None => sret None
  | Some d =>
      if negb (sl_fromSrc s0) then (let* _ := memoise l de (sl_v s0) in sret (Some (sl_v s0))) else
      let* body := slift (src_slice m (sl_bodyOff s0) (sl_bodyEnd s0)) in
      let* ov := decode_body d s0 body in
      match ov with None => sret None | Some v => let* _ := memoise l de v in sret (Some v) end
  end.

Lemma Get_read_slot h l m s de s0 : h !! l = Some m -> m_schema m = Some s -> slot_at m de = Ok s0 ->
  Get l de h = read_slot s m l de s0 h.
Proof.
  intros Hl HSc HS. unfold Get, sbind at 1. rewrite (hget_run l h m Hl), (slot_at_in_slots m de s0 HS).
  unfold decodeSlot, sbind at 1. rewrite (hget_run l h m Hl). unfold sbind at 1, slift at 1. rewrite HS.
  unfold read_slot. destruct (negb (sl_present s0)); [done|]. destruct (sl_decoded s0); [done|].
  unfold sbind at 1, slift at 1, msg_def. rewrite HSc. by case_match.
Qed.

Lemma memo_ret l de v h m s0 : h !! l = Some m -> slot_at m de = Ok s0 ->
  exists h', (let* _ := memoise l de v in sret (Some v)) h = (Ok (Some v), h').
Proof. intros Hl HS. unfold sbind. rewrite (memoise_run l de v h m s0 Hl HS). by eexists. Qed.

(** The outcome depends on the slot and the buffer alone: they give a value in
    every store, or in none. *)
Lemma read_slot_cases s m l de s0 : deep_schema s -> msg_ok s m -> slot_at m de = Ok s0 ->
  (forall h n, heap_ok h -> h !! l = Some n -> slot_at n de = Ok s0 -> exists v h', read_slot s m l de s0 h = (Ok (Some v), h')) \/
  (forall h, exists h', read_slot s m l de s0 h = (Ok None, h')).
Proof.
  intros HDS HM HS. unfold read_slot.
  destruct (sl_present s0) eqn:EP; cbn [negb]; [|right; intros h; by eexists].
  destruct (sl_decoded s0) eqn:ED; [left; intros h n _ _ _; by do 2 eexists|].
  destruct (if de =? 0 then s_mti s else Schema_Field s de) as [d|] eqn:EF; [|right; intros h; by eexists].
  destruct (sl_fromSrc s0) eqn:EFS; cbn [negb].
  2:{ left. intros h n _ Hn HSn. exists (sl_v s0). by eapply memo_ret. }
  assert (sub_deep d) as HSD.
  { intros sub ES. destruct (de =? 0); [eapply (deep_field s 0); [done|exact EF|done]|by eapply deep_field]. }
  pose proof (mo_slots s m HM) as HK. pose proof HS as [_ HS']%slot_at_lookup.
  destruct (sk_span _ _ (Forall_lookup_1 _ _ _ _ HK HS') EFS) as (b & EB & H1 & H2).
  unfold sbind, slift, src_slice. rewrite EB. cbn [default]. cbn in *. rewrite slice_ok by lia.
  match goal with |- context [decode_body d s0 ?body] => destruct (decode_body_cases d s0 body HSD) as [HC|HC] end; [left|right].
  - intros h n Hh Hn HSn. match goal with |- context [decode_body d s0 ?body h] =>
      destruct (HC h) as (v & h' & EV); destruct (decode_body_grows d s0 body HSD h) as (k & EK & FK & _) end.
    rewrite EV in *. cbn in EK. subst h'. exists v. eapply memo_ret; [|exact HSn]. by apply lookup_app_l_Some.
  - intros h. destruct (HC h) as (h' & ->). by eexists.
Qed.

(** Slot [de] of [l] gives no value, in any store. *)
Definition silent (h : heap) (l : loc) (de : Z) : Prop :=
  exists m, h !! l = Some m /\
    (in_slots m de = false \/
     exists s s0, m_schema m = Some s /\ slot_at m de = Ok s0 /\
       forall g, exists g', read_slot s m l de s0 g = (Ok None, g')).

Lemma silent_Get h l de : silent h l de -> exists h', Get l de h = (Ok None, h').
Proof.
  intros (m & Hl & [HI|(s & s0 & HSc & HS & HR)]).
  - unfold Get, sbind. rewrite (hget_run l h m Hl), HI. by eexists.
  - rewrite (Get_read_slot h l m s de s0 Hl HSc HS). apply HR.
Qed.

Lemma in_slots_slot_at m de : in_slots m de = true -> exists s0, slot_at m de = Ok s0.
Proof.
  unfold in_slots. intros [E1 E2]%negb_true_iff%orb_false_elim. apply Z.ltb_ge in E1. apply Z.leb_gt in E2.
  destruct (m_slots m !! Z.to_nat de) as [s0|] eqn:E; [exists s0; by apply slot_at_lookup|].
  apply lookup_ge_None in E. unfold len in E2. lia.
Qed.

(** Every read of a message of the store returns: a value, or that there is none. *)
Lemma Get_total h l m de : heap_ok h -> h !! l = Some m ->
  (exists v h', Get l de h = (Ok (Some v), h')) \/ silent h l de.
Proof.
  intros Hh Hl. destruct (in_slots m de) eqn:EI; [|right; exists m; auto].
  apply in_slots_slot_at in EI as [s0 HS]. destruct (heap_ok_lookup h l m de s0 Hh Hl HS) as (s & HDS & HM & _).
  rewrite (Get_read_slot h l m s de s0 Hl (mo_schema s m HM) HS).
  destruct (read_slot_cases s m l de s0 HDS HM HS) as [H|H]; [left; by eapply H|right].
  exists m. split; [done|]. right. exists s, s0. by split_and!; [apply (mo_schema s m HM)|..].
Qed.

Lemma silent_step h l de l' de' : heap_ok h -> silent h l de -> silent (snd (Get l' de' h)) l de.
Proof.
  intros Hh HSil. destruct (silent_Get h l de HSil) as [h0 HG0]. destruct HSil as (m & Hl & HC).
  destruct (Get l' de' h) as [r h'] eqn:HG. pose proof HG as HG'. apply Get_run in HG' as (k & FK & HR); [|done]. cbn.
  assert (HK : (h ++ k) !! l = Some m) by (by apply lookup_app_l_Some).
  destruct r as [[v|]|e|]; [|subst; by exists m..]. destruct HR as (m1 & s1 & Hl1 & HS1 & _ & _ & ->).
  destruct (decide (l = l')) as [<-|Hne]; [|exists m; by rewrite list_lookup_insert_ne].
  assert (de <> de') as Hde by (intros ->; congruence). rewrite Hl in Hl1. injection Hl1 as <-.
  exists (with_slot m de' (memo_slot s1 v)). split.
  { apply list_lookup_insert_eq. apply lookup_lt_Some in Hl. rewrite length_app. lia. }
  destruct HC as [HI|(s & s0 & HSc & HS & HR)]; [left|right].
  - revert HI. unfold in_slots. cbn. unfold len. by rewrite length_insert.
  - exists s, s0. split_and!; [done| |done]. apply slot_at_lookup in HS as HS0. apply slot_at_lookup in HS1 as [? _].
    by rewrite slot_at_insert_ne by tauto.
Qed.

Lemma reads_silent rs h l de : heap_ok h -> silent h l de ->
  silent (fold_left (fun h p => snd (Get p.1 p.2 h)) rs h) l de.
Proof.
  revert h. induction rs as [|[l' de'] rs IH]; intros h Hh HM; cbn [fold_left]; [done|].
  apply IH; [by apply Get_safe|]. by apply silent_step.
Qed.

(** Lazy decoding is total, memoised and stable.  Every [Get] on a message
    of a well-formed store returns (no input makes it panic), with a value or
    with "absent"; and whatever else is read in between, any later [Get] of the
    same element gives the same answer, a value being returned with no further
    change to the store. *)
Theorem Get_stable h l m de rs :
  heap_ok h -> h !! l = Some m ->
  exists ov h1, Get l de h = (Ok ov, h1) /\
    let h2 := fold_left (fun h p => snd (Get p.1 p.2 h)) rs h1 in
    exists h3, Get l de h2 = (Ok ov, h3) /\ (is_Some ov -> h3 = h2).
Proof.
  intros Hh Hl. destruct (Get_total h l m de Hh Hl) as [(v & h1 & HG)|HS].
  - exists (Some v), h1. split; [done|]. eexists. split; [|done]. apply memoed_Get, reads_memoed; [|by eapply Get_memoed].
    pose proof (Get_safe l de h Hh) as H1. by rewrite HG in H1.
  - destruct (silent_Get h l de HS) as [h1 HG]. exists None, h1. split; [done|].
    destruct (silent_Get (fold_left (fun h p => snd (Get p.1 p.2 h)) rs h1) l de) as [h3 HG3].
    + pose proof (Get_safe l de h Hh) as H1. pose proof (silent_step h l de l de Hh HS) as H2. rewrite HG in H1, H2.
      by apply reads_silent.
    + exists h3. split; [done|]. by intros [? ?].
Qed.

Lemma Get_stable_witness :
  let h0 := snd (UnmarshalNew sample_codec sample_wire []) in
  exists v h1, Get 0 2 h0 = (Ok (Some v), h1) /\ v_raw v = go "41112" /\
    let h2 := fold_left (fun h p => snd (Get p.1 p.2 h)) [(0%nat, 70); (0%nat, 4)] h1 in
    Get 0 2 h2 = (Ok (Some v), h2).
Proof.
  set (h0 := snd (UnmarshalNew sample_codec sample_wire [])).
  assert (Hh : heap_ok h0).
  { apply (api_step_ok []); [|constructor]. apply step_Unmarshal. apply (deep_schemab_ok 1). vm_compute. reflexivity. }
  assert (C : match fst (Get 0 2 h0) with Ok (Some v) => bool_decide (v_raw v = go "41112") | _ => false end = true)
    by (vm_compute; reflexivity).
  destruct (h0 !! 0%nat) as [m|] eqn:E0; [|vm_compute in E0; discriminate].
  destruct (Get_stable h0 0 m 2 [(0%nat, 70); (0%nat, 4)] Hh E0) as (ov & h1 & HG & h3 & HG3 & HE).
  cbv zeta. rewrite HG in C |- *. destruct ov as [v|]; [|discriminate C]. exists v, h1.
  split; [reflexivity|]. split; [apply bool_decide_eq_true in C; exact C|].
  rewrite (HE (ex_intro _ v eq_refl)) in HG3. exact HG3.
Defined.
