(* ===== verification/Validate.v ===== *)
(** * Validation ([iso8583/validate.go], [Codec.Validate])

    The field rules, and the pass that runs them over a message together with
    the presence rules of its schema, reporting every violation. *)

From S2P Require Import Prelude Errors Strconv Bitmap Decimal Path Schema LengthCodec BitmapCodec Value FieldCodec Message Engine Layout Wire Recursion Access Invariant Store EndToEnd Reads.

(** ** Rules *)

(** The texts of violations, by the call that formats them. *)
Inductive vmsg :=
| MsgEmpty | MsgNonDigit | MsgLuhnEmpty | MsgLuhnFailed
| MsgLenOutside (n min max : Z)
| MsgLenExceeds (n max : Z)
| MsgCause (e : error)
| MsgNotAllowed (s : bytes)
| MsgNoMatch (s pattern : bytes)
| MsgBadMTI (s : bytes)
| MsgAbsent | MsgAbsentForMTI | MsgUndecodable.

Record Violation := mkViolation {
  vl_Path : FieldPath;
  vl_Offset : Z;
  vl_Rule : bytes;
  vl_Msg : vmsg;
}.

Definition violate (v : Value) (rule : bytes) (msg : vmsg) : Violation :=
  mkViolation empty_path (v_off v) rule msg.

(** The loop of [Luhn], over the digits from the last to the first. *)
Fixpoint luhn_loop (b : bytes) (double : bool) (sum : Z) : option Z :=
  match b with
  | [] => Some sum
  | c :: b =>
      if negb (is_digit c) then None else
      let d := bz c - 48 in
      let d := if double then (if 9 <? d * 2 then d * 2 - 9 else d * 2) else d in
      luhn_loop b (negb double) (sum + d)
  end.

Fixpoint has_prefix (s p : bytes) : bool :=
  match p, s with
  | [], _ => true
  | x :: p, y :: s => bool_decide (x = y) && has_prefix s p
  | _, _ => false
  end.

Definition mtiInClasses (mti : bytes) (classes : list bytes) : bool := existsb (has_prefix mti) classes.

Section Rules.
(** [re.MatchString] of a compiled pattern ([regexp]). *)
Context (MatchString : bytes -> bytes -> bool).

(** A rule that reads the value as text first. *)
Definition on_text (v : Value) (rule : bytes) (k : bytes -> option Violation) : option Violation :=
  match Value_String v with
  | Ok s => k s
  | Err e => Some (violate v rule (MsgCause e))
  | Panic => None
  end.

Definition check_luhn (v : Value) : option Violation :=
  let b := v_raw v in
  if len b =? 0 then Some (violate v (go "luhn") MsgLuhnEmpty) else
  match luhn_loop (rev b) false 0 with
  | None => Some (violate v (go "luhn") MsgNonDigit)
  | Some sum => if Z.rem sum 10 =? 0 then None else Some (violate v (go "luhn") MsgLuhnFailed)
  end.

(** [rule.Validate(v, def)]. *)
Fixpoint run_rule (r : Validator) (v : Value) : option Violation :=
  match r with
  | VRequired => if len (v_raw v) =? 0 then Some (violate v (go "required") MsgEmpty) else None
  | VDigits => if forallb is_digit (v_raw v) then None else Some (violate v (go "digits") MsgNonDigit)
  | VLuhn => check_luhn v
  | VLenBetween min max =>
      let n := len (v_raw v) in
      if (n <? min) || (max <? n) then Some (violate v (go "len") (MsgLenOutside n min max)) else None
  | VMaxLength n =>
      let l := len (v_raw v) in
      if n <? l then Some (violate v (go "len") (MsgLenExceeds l n)) else None
  | VOneOf allowed =>
      on_text v (go "oneof") (fun s =>
        if bool_decide (s ∈ allowed) then None else Some (violate v (go "oneof") (MsgNotAllowed s)))
  | VRegexp pattern =>
      on_text v (go "regexp") (fun s =>
        if MatchString pattern s then None else Some (violate v (go "regexp") (MsgNoMatch s pattern)))
  | VCurrencyAmount =>
      match Value_Decimal v with
      | Ok _ => None
      | Err e => Some (violate v (go "currency") (MsgCause e))
      | Panic => None
      end
  | VMTIClass allowed =>
      on_text v (go "mti") (fun s =>
        if mtiInClasses s allowed then None else Some (violate v (go "mti") (MsgBadMTI s)))
  | VAll vs =>
      (fix all vs :=
         match vs with
         | [] => None
         | r :: vs => match run_rule r v with Some viol => Some viol | None => all vs end
         end) vs
  end.

(** The loop over a field's rules: the path is filled in when a rule left it empty. *)
Definition rule_violations (d : FieldDef) (v : Value) : list Violation :=
  omap (fun r => (fun viol => if path_IsZero (vl_Path viol)
                              then mkViolation (fd_Path d) (vl_Offset viol) (vl_Rule viol) (vl_Msg viol)
                              else viol) <$> run_rule r v) (fd_Validate d).

(** ** The pass over a message *)

Definition required_violations (d : FieldDef) (present : bool) (mti : bytes) : list Violation :=
  match req_Mode (fd_Required d) with
  | RequiredAlways => if present then [] else [mkViolation (fd_Path d) (-1) (go "required") MsgAbsent]
  | RequiredOnMTI =>
      if negb present && mtiInClasses mti (req_MTIClasses (fd_Required d))
      then [mkViolation (fd_Path d) (-1) (go "required") MsgAbsentForMTI] else []
  | RequiredOptional => []
  end.

Fixpoint validate_loop (s : Schema) (l : loc) (mti : bytes) (des : list Z) : ST (list Violation) :=
  match des with
  | [] => sret []
  | de :: des =>
      match Schema_Field s de with
      | None => validate_loop s l mti des
      | Some d =>
          let* m := hget l in
          let present := Has m de in
          let* here :=
            if negb present then sret [] else
            let* ov := Get l de in
            match ov with
            | None => sret [mkViolation (fd_Path d) (-1) (go "decode") MsgUndecodable]
            | Some v => sret (rule_violations d v)
            end in
          let* rest := validate_loop s l mti des in
          sret (required_violations d present mti ++ here ++ rest)
      end
  end.

(** The violations [Codec.Validate] collects; its error is nil when there are none. *)
Definition CodecValidate (c : Codec) (l : loc) : ST (list Violation) :=
  let s := c_schema c in
  let* ov := Get l 0 in
  let mti := match ov with
             | Some v => match Value_String v with Ok str => str | _ => [] end
             | None => []
             end in
  validate_loop s l mti (seqZ 1 (s_maxDE s)).
End Rules.

(** ** The Luhn check *)

(** The contribution of a digit. *)
Definition luhn_weight (double : bool) (c : byte) : Z :=
  let d := bz c - 48 in
  if double then (if 9 <? d * 2 then d * 2 - 9 else d * 2) else d.

Fixpoint luhn_sum (double : bool) (b : bytes) : Z :=
  match b with
  | [] => 0
  | c :: b => luhn_weight double c + luhn_sum (negb double) b
  end.

Lemma luhn_loop_sum b double sum : forallb is_digit b = true ->
  luhn_loop b double sum = Some (sum + luhn_sum double b).
Proof.
  revert double sum. induction b as [|c b IH]; intros double sum; cbn [forallb luhn_loop luhn_sum].
  - intros _. f_equal. lia.
  - intros H. apply andb_prop in H as [-> Hb]. cbn [negb]. rewrite IH by done. f_equal.
    unfold luhn_weight. lia.
Qed.

Lemma luhn_sum_app double a b :
  luhn_sum double (a ++ b) = luhn_sum double a + luhn_sum (xorb double (Nat.odd (length a))) b.
Proof.
  revert double. induction a as [|c a IH]; intros double; cbn [app luhn_sum length].
  - by rewrite xorb_false_r.
  - rewrite IH. replace (xorb (negb double) (Nat.odd (length a))) with (xorb double (Nat.odd (S (length a)))); [lia|].
    rewrite Nat.odd_succ, <- Nat.negb_odd. by destruct double, (Nat.odd (length a)).
Qed.

Lemma luhn_sum_nonneg double b : forallb is_digit b = true -> 0 <= luhn_sum double b.
Proof.
  revert double. induction b as [|c b IH]; intros double; cbn [forallb luhn_sum]; [done|].
  intros [Hc Hb]%andb_prop. apply is_digit_range in Hc. specialize (IH (negb double) Hb).
  unfold luhn_weight. destruct double; [destruct (Z.ltb_spec 9 ((bz c - 48) * 2))|]; lia.
Qed.

Lemma forallb_rev {A} (p : A -> bool) l : forallb p (rev l) = forallb p l.
Proof. induction l as [|x l IH]; [done|]. cbn. rewrite forallb_app, IH. cbn. rewrite andb_true_r. apply andb_comm. Qed.

(** A digit string passes exactly when its weighted sum is a multiple of ten. *)
Lemma check_luhn_digits v : forallb is_digit (v_raw v) = true -> v_raw v <> [] ->
  check_luhn v = None <-> luhn_sum false (rev (v_raw v)) mod 10 = 0.
Proof.
  intros HD HN. unfold check_luhn.
  destruct (Z.eqb_spec (len (v_raw v)) 0) as [E|_]; [apply len_0_nil in E; done|].
  rewrite luhn_loop_sum by (by rewrite forallb_rev). rewrite Z.add_0_l.
  assert (0 <= luhn_sum false (rev (v_raw v))) by (apply luhn_sum_nonneg; by rewrite forallb_rev).
  rewrite Z.rem_mod_nonneg by lia. destruct (Z.eqb_spec (luhn_sum false (rev (v_raw v)) mod 10) 0); split; done.
Qed.

Lemma mod10_diff a x y : (a + x) mod 10 = 0 -> (a + y) mod 10 = 0 -> -9 <= x - y <= 9 -> x = y.
Proof.
  intros H1 H2 H3. pose proof (Z.div_mod (a + x) 10 ltac:(lia)). pose proof (Z.div_mod (a + y) 10 ltac:(lia)).
  assert (x - y = 10 * ((a + x) / 10 - (a + y) / 10)) by lia. lia.
Qed.

Lemma luhn_weight_inj double c e : is_digit c = true -> is_digit e = true ->
  luhn_weight double c = luhn_weight double e -> c = e.
Proof.
  intros Hc%is_digit_range He%is_digit_range H. apply bz_inj. unfold luhn_weight in H.
  destruct double; [|lia]. destruct (Z.ltb_spec 9 ((bz c - 48) * 2)), (Z.ltb_spec 9 ((bz e - 48) * 2)); lia.
Qed.

Lemma luhn_weight_range double c : is_digit c = true -> 0 <= luhn_weight double c <= 9.
Proof.
  intros Hc%is_digit_range. unfold luhn_weight. destruct double; [destruct (Z.ltb_spec 9 ((bz c - 48) * 2))|]; lia.
Qed.

(** Swapping two neighbours changes the sum unless they are equal or 0 and 9. *)
Lemma luhn_swap double c e : is_digit c = true -> is_digit e = true ->
  luhn_weight double c + luhn_weight (negb double) e = luhn_weight double e + luhn_weight (negb double) c ->
  bz c = bz e \/ (bz c = 48 /\ bz e = 57) \/ (bz c = 57 /\ bz e = 48).
Proof.
  intros Hc%is_digit_range He%is_digit_range H. unfold luhn_weight in H.
  destruct double; cbn [negb] in H;
    destruct (Z.ltb_spec 9 ((bz c - 48) * 2)), (Z.ltb_spec 9 ((bz e - 48) * 2)); lia.
Qed.

Lemma luhn_swap_range double c e : is_digit c = true -> is_digit e = true ->
  -9 <= (luhn_weight double c + luhn_weight (negb double) e) - (luhn_weight double e + luhn_weight (negb double) c) <= 9.
Proof.
  intros Hc%is_digit_range He%is_digit_range. unfold luhn_weight.
  destruct double; cbn [negb];
    destruct (Z.ltb_spec 9 ((bz c - 48) * 2)), (Z.ltb_spec 9 ((bz e - 48) * 2)); lia.
Qed.

(** The sum of a string around a window of it. *)
Lemma luhn_sum_around p w q :
  luhn_sum false (rev (p ++ w ++ q)) =
    (luhn_sum false (rev q) + luhn_sum (xorb (xorb false (Nat.odd (length (rev q)))) (Nat.odd (length (rev w)))) (rev p))
    + luhn_sum (xorb false (Nat.odd (length (rev q)))) (rev w).
Proof. rewrite !rev_app_distr, <- app_assoc, !luhn_sum_app. lia. Qed.

Lemma luhn_window p w w' q v v' :
  v_raw v = p ++ w ++ q -> v_raw v' = p ++ w' ++ q -> length w = length w' -> w <> [] ->
  forallb is_digit (v_raw v) = true -> forallb is_digit w' = true ->
  check_luhn v = None -> check_luhn v' = None ->
  let double := xorb false (Nat.odd (length (rev q))) in
  -9 <= luhn_sum double (rev w) - luhn_sum double (rev w') <= 9 ->
  luhn_sum double (rev w) = luhn_sum double (rev w').
Proof.
  intros E E' HL HN HD HW H H' double HR.
  assert (forallb is_digit (v_raw v') = true) as HD'.
  { rewrite E in HD. rewrite E'. rewrite !forallb_app in *. apply andb_prop in HD as [H1 [_ H2]%andb_prop]. by rewrite H1, H2, HW. }
  apply check_luhn_digits in H; [|done|rewrite E; by destruct p, w].
  apply check_luhn_digits in H'; [|done|rewrite E'; by destruct p, w, w'].
  rewrite E, luhn_sum_around in H. rewrite E', luhn_sum_around in H'. rewrite !length_rev, HL in H. rewrite !length_rev in H'.
  unfold double in *. rewrite !length_rev in *. by eapply mod10_diff.
Qed.

(** The Luhn rule catches the errors it is for.  In a digit string that
    passes, replacing any one digit by another makes it fail, and so does
    swapping two different neighbours unless they are 0 and 9. *)
Theorem luhn_detects p c e q v v' :
  forallb is_digit (p ++ q) = true -> is_digit c = true -> is_digit e = true -> c <> e ->
  check_luhn v = None ->
  (v_raw v = p ++ [c] ++ q -> v_raw v' = p ++ [e] ++ q -> check_luhn v' <> None) /\
  (v_raw v = p ++ [c; e] ++ q -> v_raw v' = p ++ [e; c] ++ q ->
     ~ (bz c = 48 /\ bz e = 57) -> ~ (bz c = 57 /\ bz e = 48) -> check_luhn v' <> None).
Proof.
  intros HD Hc He Hne HV. rewrite forallb_app in HD. apply andb_prop in HD as [Hp Hq]. split.
  - intros E E' HV'. apply Hne.
    apply (luhn_window p [c] [e] q v v') in HV' as HS; try done.
    + cbn [rev app luhn_sum] in HS. eapply luhn_weight_inj; [done|done|]. by rewrite !Z.add_0_r in HS.
    + rewrite E, !forallb_app. cbn. by rewrite Hp, Hq, Hc.
    + cbn. by rewrite He.
    + cbn [rev app luhn_sum]. pose proof (luhn_weight_range (xorb false (Nat.odd (length (rev q)))) c Hc).
      pose proof (luhn_weight_range (xorb false (Nat.odd (length (rev q)))) e He). lia.
  - intros E E' N1 N2 HV'. apply (luhn_window p [c; e] [e; c] q v v') in HV' as HS; try done.
    + cbn [rev app luhn_sum] in HS. rewrite !Z.add_0_r in HS.
      destruct (luhn_swap _ e c He Hc HS) as [H|[[? ?]|[? ?]]]; [|tauto|tauto]. apply Hne, bz_inj. by symmetry.
    + rewrite E, !forallb_app. cbn. by rewrite Hp, Hq, Hc, He.
    + cbn. by rewrite Hc, He.
    + cbn [rev app luhn_sum]. pose proof (luhn_swap_range (xorb false (Nat.odd (length (rev q)))) e c He Hc). lia.
Qed.

(** A test PAN, one digit changed, and two digits swapped. *)
Lemma luhn_detects_witness :
  check_luhn (NumericValue (go "4111111111111111")) = None /\
  check_luhn (NumericValue (go "4111112111111111")) <> None /\
  check_luhn (NumericValue (go "1411111111111111")) <> None.
Proof.
  split; [vm_compute; reflexivity|]. split.
  - destruct (luhn_detects (go "411111") (zb 49) (zb 50) (go "111111111") (NumericValue (go "4111111111111111"))
      (NumericValue (go "4111112111111111"))) as [H _]; [vm_compute; reflexivity..|vm_compute; discriminate|vm_compute; reflexivity|].
    apply H; reflexivity.
  - destruct (luhn_detects [] (zb 52) (zb 49) (go "11111111111111") (NumericValue (go "4111111111111111"))
      (NumericValue (go "1411111111111111"))) as [_ H]; [vm_compute; reflexivity..|vm_compute; discriminate|vm_compute; reflexivity|].
    apply H; [reflexivity|reflexivity|vm_compute; intros [A _]; discriminate A|vm_compute; intros [A _]; discriminate A].
Defined.

(** ** The pass reports exactly the violations *)

Section Pass.
Context (MatchString : bytes -> bytes -> bool).

(** What the pass reports for one element, given the values read. *)
Definition field_report (s : Schema) (h : heap) (l : loc) (m : Message) (mti : bytes) (de : Z) (part : list Violation) : Prop :=
  match Schema_Field s de with
  | None => part = []
  | Some d =>
      if Has m de then
        (exists v, Get l de h = (Ok (Some v), h) /\
           part = required_violations d true mti ++ rule_violations MatchString d v) \/
        ((exists h', Get l de h = (Ok None, h')) /\
         part = required_violations d true mti ++ [mkViolation (fd_Path d) (-1) (go "decode") MsgUndecodable])
      else part = required_violations d false mti
  end.

(** What later stores keep of earlier reads. *)
Definition keeps (h h' : heap) (l : loc) : Prop :=
  (forall de v, memoed h l de v -> memoed h' l de v) /\ (forall de, silent h l de -> silent h' l de).

Lemma keeps_Get h l de : heap_ok h -> keeps h (snd (Get l de h)) l.
Proof. intros Hh. split; [intros e v; by apply memoed_step|intros e; by apply silent_step]. Qed.

Lemma keeps_trans h1 h2 h3 l : keeps h1 h2 l -> keeps h2 h3 l -> keeps h1 h3 l.
Proof. intros [A B] [C D]. split; auto. Qed.

(** The report on a present element, read at [h] and looked at later. *)
Lemma present_report s l m mti de d h : heap_ok h -> h !! l = Some m -> Schema_Field s de = Some d -> Has m de = true ->
  exists ov here, Get l de h = (Ok ov, snd (Get l de h)) /\
    here = match ov with
           | None => [mkViolation (fd_Path d) (-1) (go "decode") MsgUndecodable]
           | Some v => rule_violations MatchString d v
           end /\
    forall h2, keeps (snd (Get l de h)) h2 l -> field_report s h2 l m mti de (required_violations d true mti ++ here).
Proof.
  intros Hh Hl EF EH. pose proof (keeps_Get h l de Hh) as [_ KS]. destruct (Get_total h l m de Hh Hl) as [(v & h1 & HG)|HS].
  - exists (Some v), (rule_violations MatchString d v). rewrite HG. split_and!; [done..|]. intros h2 [KM _].
    unfold field_report. rewrite EF, EH. left. exists v. split; [|done]. apply memoed_Get, KM. by eapply Get_memoed.
  - specialize (KS de HS). destruct (silent_Get h l de HS) as [h1 HG]. rewrite HG in *. eexists None, _.
    split_and!; [done..|]. intros h2 [_ K2]. unfold field_report. rewrite EF, EH. right.
    split; [by apply silent_Get, K2|done].
Qed.

Lemma validate_loop_run s l mti des h m : heap_ok h -> h !! l = Some m -> (forall de, de ∈ des -> 1 <= de) ->
  exists vs h', validate_loop MatchString s l mti des h = (Ok vs, h') /\ keeps h h' l /\
  exists parts, vs = concat parts /\ Forall2 (field_report s h' l m mti) des parts.
Proof.
  revert h m. induction des as [|de des IH]; intros h m Hh Hl HP; cbn [validate_loop].
  { exists [], h. split_and!; [done|by split|]. exists []. split; [done|constructor]. }
  assert (forall e, e ∈ des -> 1 <= e) as HP' by (intros; apply HP; by right).
  destruct (Schema_Field s de) as [d|] eqn:EF.
  2:{ destruct (IH h m Hh Hl HP') as (vs & h' & HV & HK & parts & -> & HF). exists (concat parts), h'. split_and!; [done..|].
      exists ([] :: parts). split; [done|]. constructor; [|done]. unfold field_report. by rewrite EF. }
  unfold sbind at 1. rewrite (hget_run l h m Hl). unfold sbind at 1. destruct (Has m de) eqn:EH; cbn [negb].
  - destruct (present_report s l m mti de d h Hh Hl EF EH) as (ov & here & HG & HH & HR).
    destruct (Get_present h l de l m Hh Hl) as (m1 & Hl1 & HP1 & _).
    destruct (IH (snd (Get l de h)) m1) as (vs & h' & HV & HK & parts & -> & HF); [by apply Get_safe|done|done|].
    exists ((required_violations d true mti ++ here) ++ concat parts), h'. split_and!.
    + unfold sbind at 1. rewrite HG. cbn [snd]. subst here. destruct ov as [v|]; unfold sret at 1, sbind; rewrite HV; cbn;
        by rewrite <- ?app_assoc.
    + eapply keeps_trans; [by apply keeps_Get|done].
    + exists ((required_violations d true mti ++ here) :: parts). split; [done|]. constructor; [by apply HR|].
      eapply Forall2_impl_l; [exact HF|]. intros e part He. unfold field_report. destruct (Schema_Field s e); [|done].
      rewrite HP1 by (specialize (HP' e He); lia). done.
  - cbn [sret]. destruct (IH h m Hh Hl HP') as (vs & h' & HV & HK & parts & -> & HF).
    eexists _, h'. split_and!; [unfold sbind; rewrite HV; done|done|].
    exists (required_violations d false mti :: parts). split; [done|].
    constructor; [|done]. unfold field_report. by rewrite EF, EH.
Qed.

(** The text of the MTI as the pass reads it. *)
Definition mti_text (r : result (option Value)) : bytes :=
  match r with
  | Ok (Some v) => match Value_String v with Ok str => str | _ => [] end
  | _ => []
  end.

(** [Validate] always returns, and reports exactly the violations.  Its
    report is, element by element in ascending order, the presence violations
    of the element (given the message type), then the violations of all its
    rules on the value a reader gets, or that it cannot be decoded when a
    reader gets none; in particular it is empty exactly when every rule of
    every element holds. *)
Theorem Validate_exact c l h m :
  heap_ok h -> h !! l = Some m ->
  exists vs h' parts, CodecValidate MatchString c l h = (Ok vs, h') /\ vs = concat parts /\
    Forall2 (field_report (c_schema c) h' l m (mti_text (fst (Get l 0 h)))) (seqZ 1 (s_maxDE (c_schema c))) parts.
Proof.
  intros Hh Hl. unfold CodecValidate, sbind at 1. pose proof (Get_safe l 0 h Hh) as Hh1.
  destruct (Get_present h l 0 l m Hh Hl) as (m1 & Hl1 & HP1 & _).
  assert (exists ov, Get l 0 h = (Ok ov, snd (Get l 0 h))) as [ov HG].
  { destruct (Get_total h l m 0 Hh Hl) as [(v & h' & ->)|[h' ->]%silent_Get]; by eexists. }
  rewrite HG. cbn [fst snd].
  assert (match ov with Some v => match Value_String v with Ok str => str | _ => [] end | None => [] end = mti_text (Ok ov)) as ->
    by (by destruct ov).
  destruct (validate_loop_run (c_schema c) l (mti_text (Ok ov)) (seqZ 1 (s_maxDE (c_schema c))) (snd (Get l 0 h)) m1)
    as (vs & h' & HV & _ & parts & -> & HF); [done|done|intros ? ?%elem_of_seqZ; lia|].
  eexists _, h', parts. split_and!; [exact HV|done|].
  eapply Forall2_impl_l; [exact HF|]. intros e part He%elem_of_seqZ. unfold field_report.
  destruct (Schema_Field (c_schema c) e); [|done]. by rewrite HP1 by lia.
Qed.
End Pass.

(** A schema with a mandatory PAN that must pass the Luhn check. *)
Definition luhn_schema : Schema :=
  match Build (builder_Field
    (builder_Bitmap (builder_MTI (NewSchema (go "luhn")) (Some numASCII)) (mkBitmapSpec (Some binWord) 1))
    2 (go "PAN") (Some numASCII) (Some LLVarASCII) [optMaxLen 19; optMustExist; optValidate [VDigits; VLuhn]]) with
  | inr s => s | inl _ => sample_schema end.

Definition bad_pan_store : heap := snd (SetDE 0 2 (anyString (go "4111111111111112")) [New luhn_schema]).

Lemma Validate_exact_witness :
  exists vs h' parts, CodecValidate (fun _ _ => true) (NewCodec luhn_schema []) 0 bad_pan_store = (Ok vs, h') /\
    vs = concat parts /\ map vl_Rule vs = [go "luhn"].
Proof.
  assert (Hh : heap_ok bad_pan_store).
  { apply SetDE_safe. apply (api_step_ok []); [|constructor]. apply (step_New []). apply (deep_schemab_ok 1). vm_compute. reflexivity. }
  assert (C : match fst (CodecValidate (fun _ _ => true) (NewCodec luhn_schema []) 0 bad_pan_store) with
    | Ok vs => bool_decide (map vl_Rule vs = [go "luhn"]) | _ => false end = true) by (vm_compute; reflexivity).
  destruct (bad_pan_store !! 0%nat) as [m|] eqn:E0; [|vm_compute in E0; discriminate].
  destruct (Validate_exact (fun _ _ => true) (NewCodec luhn_schema []) 0 bad_pan_store m Hh E0) as (vs & h' & parts & EV & E & _).
  exists vs, h', parts. rewrite EV in C. split; [exact EV|]. split; [exact E|]. apply bool_decide_eq_true in C. exact C.
Defined.
