(* ===== verification/GoStrings.v ===== *)
(** * Strings ([strings])

    The functions of the standard library's [strings] that several components
    use, on byte strings: trimming, prefixes, splitting and joining. *)

From S2P Require Import Prelude Errors Strconv Path Validate.

(** The encodings of the white space of [unicode.IsSpace]. *)
Definition space_runes : list bytes :=
  ((fun c => [c]) <$> [x09; x0a; x0b; x0c; x0d; x20]) ++ [[xc2; x85]; [xc2; xa0]; [xe1; x9a; x80]] ++
  ((fun n => [xe2; x80; zb n]) <$> (seqZ 0x80 11 ++ [0xa8; 0xa9; 0xaf])) ++ [[xe2; x81; x9f]; [xe3; x80; x80]].

(** Removes from the head of [s] the words of [ws], as often as there is one. *)
Fixpoint trim_words (n : nat) (ws : list bytes) (s : bytes) : bytes :=
  match n with
  | O => s
  | S n => match List.find (has_prefix s) ws with Some w => trim_words n ws (drop (length w) s) | None => s end
  end.

Definition TrimSpace (s : bytes) : bytes :=
  let s := trim_words (length s) space_runes s in
  rev (trim_words (length s) (map (@rev byte) space_runes) (rev s)).

Definition TrimPrefix (s p : bytes) : bytes := if has_prefix s p then drop (length p) s else s.

(** [strings.Split] at a byte. *)
Fixpoint split_on (sep : byte) (seg s : bytes) : list bytes :=
  match s with
  | [] => [seg]
  | c :: s => if bool_decide (c = sep) then seg :: split_on sep [] s else split_on sep (seg ++ [c]) s
  end.
Definition Split (s : bytes) (sep : byte) : list bytes := split_on sep [] s.

Definition HasSuffix (s suf : bytes) : bool := has_prefix (rev s) (rev suf).

(** [strings.IndexByte], as what is before and after the byte. *)
Fixpoint cut_byte (sep : byte) (s : bytes) : option (bytes * bytes) :=
  match s with
  | [] => None
  | c :: s => if bool_decide (c = sep) then Some ([], s) else (fun p => (c :: p.1, p.2)) <$> cut_byte sep s
  end.

(** [strings.ReplaceAll] of a byte by a byte. *)
Definition replace_byte (old new : byte) (s : bytes) : bytes := map (fun c => if bool_decide (c = old) then new else c) s.

(** [strings.ToLower]: on ASCII text, byte by byte; [unicode_lower] stands for
    the case tables used on other text. *)
Definition lower_byte (c : byte) : byte := if (65 <=? bz c) && (bz c <=? 90) then zb (bz c + 32) else c.
Definition ToLower (unicode_lower : bytes -> bytes) (s : bytes) : bytes :=
  if forallb (fun c => bz c <? 128) s then map lower_byte s else unicode_lower s.

Lemma split_on_ne sep seg s : split_on sep seg s <> [].
Proof. revert seg. induction s as [|c s IH]; intros seg; cbn; [done|]. by case_bool_decide. Qed.

(** ** Trimming *)

Definition visible (c : byte) : bool := (33 <=? bz c) && (bz c <=? 126).

Lemma find_none {A} (p : A -> bool) l : forallb (fun x => negb (p x)) l = true -> List.find p l = None.
Proof. induction l as [|x l IH]; [done|]. cbn. intros [Hx HL]%andb_prop. destruct (p x); [done|by apply IH]. Qed.

(** No white space begins, or ends, with a visible character. *)
Lemma space_heads c : visible c = true -> forallb (fun ws => forallb (fun w => match w with x :: _ => negb (bool_decide (x = c)) | [] => false end) ws)
  [space_runes; map (@rev byte) space_runes] = true.
Proof. destruct c; by vm_compute. Qed.

Lemma trim_visible c s n ws : ws ∈ [space_runes; map (@rev byte) space_runes] -> visible c = true ->
  trim_words n ws (c :: s) = c :: s.
Proof.
  intros HW HC%space_heads. destruct n as [|n]; [done|]. cbn [trim_words]. rewrite find_none; [done|].
  rewrite forallb_forall in HC. specialize (HC ws (proj1 (list_elem_of_In _ _) HW)). rewrite forallb_forall in HC |- *.
  intros [|x w] Hw; specialize (HC _ Hw); cbv beta iota in HC; [done|].
  apply negb_true_iff, bool_decide_eq_false in HC. cbn [has_prefix]. by rewrite bool_decide_false.
Qed.

Lemma TrimSpace_visible c s c' : visible c = true -> visible c' = true -> (exists r, rev (c :: s) = c' :: r) -> TrimSpace (c :: s) = c :: s.
Proof.
  intros HC HC' [r HR]. unfold TrimSpace. rewrite trim_visible by (done || constructor). rewrite HR.
  rewrite trim_visible by (done || by constructor; constructor). by rewrite <- HR, rev_involutive.
Qed.

(** Two texts cut at the first occurrence of a byte are cut alike. *)
Lemma split_first (c : byte) a b r r' : c ∉ a -> c ∉ b -> a ++ c :: r = b ++ c :: r' -> a = b /\ r = r'.
Proof.
  revert b. induction a as [|x a IH]; intros [|y b] Ha Hb HE; cbn in HE.
  - by injection HE as ->.
  - injection HE as -> _. set_solver.
  - injection HE as -> _. set_solver.
  - injection HE as -> HE. destruct (IH b) as [-> ->]; [set_solver|set_solver|done|done].
Qed.
