(* ===== verification/Framer.v ===== *)
(** * Framing a byte stream ([link/framer.go], [link/xmlframe.go])

    A stream is the list of bytes not yet read; reading past its end is EOF.
    Both framers cut a stream into messages: by a big-endian length prefix, and
    by the balanced [isomsg] element of an XML channel. *)

From S2P Require Import Prelude Strconv.

(** [io.EOF], [io.ErrUnexpectedEOF] and [link.ErrTooLarge]. *)
Inductive link_error := EOF | ErrUnexpectedEOF | ErrTooLarge.

#[export] Instance link_error_EqDecision : EqDecision link_error.
Proof. solve_decision. Defined.

(** A read returns its result and the rest of the stream. *)
Definition stream_read (A : Type) : Type := bytes -> res link_error A * bytes.

(** [io.ReadFull(r, buf)] with [len(buf) = n]. *)
Definition ReadFull (n : Z) : stream_read bytes := fun r =>
  if n <=? 0 then (Ok [], r)
  else if n <=? len r then (Ok (take (Z.to_nat n) r), drop (Z.to_nat n) r)
  else if len r =? 0 then (Err EOF, [])
  else (Err ErrUnexpectedEOF, []).

(** ** Length-prefix framing *)

Definition defaultMaxFrame : Z := Z.shiftl 1 20.

Record lengthPrefix := mkLengthPrefix { lp_width : Z; lp_max : Z }.

(** [LengthPrefix]: panics unless the width is 2 or 4. *)
Definition LengthPrefix (width : Z) : res link_error lengthPrefix :=
  if width =? 2 then Ok (mkLengthPrefix 2 (Z.shiftl 1 16 - 1))
  else if width =? 4 then Ok (mkLengthPrefix 4 defaultMaxFrame)
  else Panic.

Definition ReadFrame (lp : lengthPrefix) : stream_read bytes := fun r =>
  match ReadFull (lp_width lp) r with
  | (Ok hdr, r) =>
      let n := if (lp_width lp =? 2) || (lp_width lp =? 4) then be_get hdr else 0 in
      if lp_max lp <? n then (Err ErrTooLarge, r) else ReadFull n r
  | (Err e, r) => (Err e, r)
  | (Panic, r) => (Panic, r)
  end.

(** The header [PutUint16]/[PutUint32] writes. *)
Definition frame_header (lp : lengthPrefix) (n : Z) : bytes :=
  if lp_width lp =? 2 then be_put 2 (n mod 2 ^ 16)
  else if lp_width lp =? 4 then be_put 4 (n mod 2 ^ 32)
  else replicate (Z.to_nat (lp_width lp)) x00.

(** [WriteFrame] appends one buffer to the stream. *)
Definition WriteFrame (lp : lengthPrefix) (w msg : bytes) : res link_error bytes :=
  if lp_max lp <? len msg then Err ErrTooLarge
  else Ok (w ++ (frame_header lp (len msg) ++ msg)).

(** ** Properties of length-prefix framing *)

(** Framers that [LengthPrefix] returns. *)
Definition lp_ok (lp : lengthPrefix) : Prop := exists width, LengthPrefix width = Ok lp.

Lemma lp_ok_cases lp : lp_ok lp ->
  (lp_width lp = 2 /\ lp_max lp = 65535) \/ (lp_width lp = 4 /\ lp_max lp = 1048576).
Proof.
  intros [w H]. unfold LengthPrefix in H.
  destruct (w =? 2); [injection H as <-; by left|]. destruct (w =? 4); [injection H as <-; by right|done].
Qed.

Lemma ReadFull_app n a r : len a = n -> ReadFull n (a ++ r) = (Ok a, r).
Proof.
  intros H. unfold ReadFull. pose proof (len_nonneg a). pose proof (len_nonneg r). destruct (Z.leb_spec n 0).
  - assert (a = []) as -> by (apply len_0_nil; lia). done.
  - destruct (Z.leb_spec n (len (a ++ r))); [|rewrite len_app in *; lia].
    replace (Z.to_nat n) with (length a) by (unfold len in *; lia). by rewrite take_app_length, drop_app_length.
Qed.

Lemma frame_header_get lp n : lp_ok lp -> 0 <= n <= lp_max lp ->
  len (frame_header lp n) = lp_width lp /\ be_get (frame_header lp n) = n.
Proof.
  intros H Hn. unfold frame_header. destruct (lp_ok_cases lp H) as [[-> Hm]|[-> Hm]]; rewrite Hm in Hn; cbn [Z.eqb Pos.eqb];
    (split; [by rewrite len_be_put|]); rewrite Z.mod_small by lia; apply be_get_put; cbn; lia.
Qed.

(** One frame at the head of the stream is read and nothing more. *)
Lemma ReadFrame_frame lp msg r : lp_ok lp -> len msg <= lp_max lp ->
  ReadFrame lp ((frame_header lp (len msg) ++ msg) ++ r) = (Ok msg, r).
Proof.
  intros Hlp Hm. pose proof (len_nonneg msg). destruct (frame_header_get lp (len msg) Hlp) as [HL HG]; [lia|].
  unfold ReadFrame. rewrite <- app_assoc, ReadFull_app by done. rewrite HG.
  assert ((lp_width lp =? 2) || (lp_width lp =? 4) = true) as -> by (by destruct (lp_ok_cases lp Hlp) as [[-> _]|[-> _]]).
  destruct (Z.ltb_spec (lp_max lp) (len msg)); [lia|]. by apply ReadFull_app.
Qed.

(** A sender writing messages one after the other. *)
Fixpoint write_all (lp : lengthPrefix) (w : bytes) (msgs : list bytes) : res link_error bytes :=
  match msgs with
  | [] => Ok w
  | m :: msgs => let! w := WriteFrame lp w m in write_all lp w msgs
  end.

(** A receiver reading [n] messages. *)
Fixpoint read_all (lp : lengthPrefix) (n : nat) (r : bytes) : res link_error (list bytes) * bytes :=
  match n with
  | O => (Ok [], r)
  | S n =>
      match ReadFrame lp r with
      | (Ok m, r) =>
          match read_all lp n r with
          | (Ok ms, r) => (Ok (m :: ms), r)
          | (Err e, r) => (Err e, r)
          | (Panic, r) => (Panic, r)
          end
      | (Err e, r) => (Err e, r)
      | (Panic, r) => (Panic, r)
      end
  end.

(** The bytes of the messages on the stream. *)
Definition frames (lp : lengthPrefix) (msgs : list bytes) : bytes :=
  concat (map (fun m => frame_header lp (len m) ++ m) msgs).

Lemma write_all_Ok lp w msgs out : write_all lp w msgs = Ok out ->
  out = w ++ frames lp msgs /\ Forall (fun m => len m <= lp_max lp) msgs.
Proof.
  revert w. induction msgs as [|m msgs IH]; intros w; cbn [write_all].
  - intros [= <-]. cbn. by rewrite app_nil_r.
  - unfold WriteFrame. destruct (Z.ltb_spec (lp_max lp) (len m)); [done|]. cbn [rbind]. intros H'.
    apply IH in H' as [-> HF]. split; [|by constructor]. unfold frames. cbn [map concat]. by rewrite <- !app_assoc.
Qed.

Lemma read_all_frames lp msgs r : lp_ok lp -> Forall (fun m => len m <= lp_max lp) msgs ->
  read_all lp (length msgs) (frames lp msgs ++ r) = (Ok msgs, r).
Proof.
  intros Hlp. induction 1 as [|m msgs Hm HF IH]; cbn [read_all length]; [done|].
  unfold frames. cbn [map concat]. rewrite <- app_assoc, ReadFrame_frame by done. fold (frames lp msgs). by rewrite IH.
Qed.

(** A stream cut inside a frame. *)
Lemma ReadFrame_cut lp msg p q : lp_ok lp -> len msg <= lp_max lp ->
  frame_header lp (len msg) ++ msg = p ++ q -> q <> [] -> exists e, fst (ReadFrame lp p) = Err e.
Proof.
  intros Hlp Hm HE Hq. pose proof (len_nonneg msg). destruct (frame_header_get lp (len msg) Hlp) as [HL HG]; [lia|].
  pose proof (len_nonneg p). assert (0 < len q).
  { destruct q; [done|]. rewrite len_cons. pose proof (len_nonneg q). lia. }
  assert (len p + len q = lp_width lp + len msg) by (rewrite <- !len_app, <- HE, len_app; lia).
  unfold ReadFrame. destruct (Z.leb_spec (lp_width lp) (len p)) as [Hle|Hlt].
  - assert (exists b, p = frame_header lp (len msg) ++ b) as [b ->].
    { apply app_eq_inv in HE as [(k & HE & HE')|(k & HE & HE')].
      - rewrite HE, len_app in HL. assert (k = []) as -> by (apply len_0_nil; pose proof (len_nonneg k); lia).
        exists []. by rewrite HE, !app_nil_r.
      - by exists k. }
    rewrite ReadFull_app by done. rewrite HG.
    assert ((lp_width lp =? 2) || (lp_width lp =? 4) = true) as -> by (by destruct (lp_ok_cases lp Hlp) as [[-> _]|[-> _]]).
    destruct (Z.ltb_spec (lp_max lp) (len msg)); [lia|]. rewrite len_app in *. unfold ReadFull.
    destruct (Z.leb_spec (len msg) 0); [pose proof (len_nonneg b); lia|]. destruct (Z.leb_spec (len msg) (len b)); [lia|].
    destruct (len b =? 0); by eexists.
  - assert (exists e, ReadFull (lp_width lp) p = (Err e, [])) as [e ->]; [|by eexists].
    unfold ReadFull. assert (2 <= lp_width lp) by (destruct (lp_ok_cases lp Hlp) as [[-> _]|[-> _]]; lia).
    destruct (Z.leb_spec (lp_width lp) 0); [lia|]. destruct (Z.leb_spec (lp_width lp) (len p)); [lia|].
    destruct (len p =? 0); by eexists.
Qed.

Lemma ReadFull_len n r b r' : ReadFull n r = (Ok b, r') -> 0 <= n -> len b = n /\ r = b ++ r'.
Proof.
  unfold ReadFull. intros H Hn. destruct (Z.leb_spec n 0).
  - injection H as <- <-. split; [len_nil_simpl; lia|done].
  - destruct (Z.leb_spec n (len r)); [|by destruct (len r =? 0)]. injection H as <- <-.
    split; [unfold len in *; rewrite length_take; lia|by rewrite take_drop].
Qed.

(** length-prefix framing is lossless and keeps message boundaries.
    Messages written one after the other, with either prefix width, are read
    back one by one, unchanged and in order, whatever follows on the stream. *)
Theorem framing_roundtrip lp msgs out rest :
  lp_ok lp -> write_all lp [] msgs = Ok out ->
  read_all lp (length msgs) (out ++ rest) = (Ok msgs, rest).
Proof. intros Hlp HW. apply write_all_Ok in HW as [-> HF]. by apply read_all_frames. Qed.

Lemma framing_roundtrip_witness :
  exists out, write_all (mkLengthPrefix 2 65535) [] [go "0800"; []; go "0810x"] = Ok out /\
    read_all (mkLengthPrefix 2 65535) 3 (out ++ [x00]) = (Ok [go "0800"; []; go "0810x"], [x00]).
Proof.
  eexists. split; [reflexivity|].
  apply (framing_roundtrip (mkLengthPrefix 2 65535) [go "0800"; []; go "0810x"]); [exists 2; reflexivity|reflexivity].
Defined.

(** C36: a receiver is safe against a hostile or broken peer.  On any stream,
    [ReadFrame] never panics and never returns a body larger than the limit,
    and what it returns is exactly the bytes after the header; a stream that
    ends inside a frame yields an error, never a shortened message. *)
Theorem ReadFrame_bounded lp : lp_ok lp ->
  (forall r, fst (ReadFrame lp r) <> Panic) /\
  (forall r msg r', ReadFrame lp r = (Ok msg, r') ->
     len msg <= lp_max lp /\ exists hdr, len hdr = lp_width lp /\ be_get hdr = len msg /\ r = hdr ++ msg ++ r') /\
  (forall msg p q, len msg <= lp_max lp -> frame_header lp (len msg) ++ msg = p ++ q -> q <> [] ->
     exists e, fst (ReadFrame lp p) = Err e).
Proof.
  intros Hlp. assert (0 <= lp_width lp) as Hw by (destruct (lp_ok_cases lp Hlp) as [[-> _]|[-> _]]; lia).
  assert ((lp_width lp =? 2) || (lp_width lp =? 4) = true) as HW by (by destruct (lp_ok_cases lp Hlp) as [[-> _]|[-> _]]).
  assert (forall n r, fst (ReadFull n r) <> Panic) as HP by (intros; unfold ReadFull; by repeat case_match).
  split_and!.
  - intros r. unfold ReadFrame. specialize (HP (lp_width lp) r) as HP1.
    destruct (ReadFull (lp_width lp) r) as [[hdr|e|] r1]; [|done|done]. case_match; [done|]. apply HP.
  - intros r msg r'. unfold ReadFrame. rewrite HW. destruct (ReadFull (lp_width lp) r) as [[hdr|e|] r1] eqn:E1; [|done|done].
    apply ReadFull_len in E1 as [L1 ->]; [|done]. destruct (Z.ltb_spec (lp_max lp) (be_get hdr)); [done|]. intros E2.
    pose proof (be_get_bound hdr). apply ReadFull_len in E2 as [L2 ->]; [|lia]. split; [lia|]. by exists hdr.
  - intros. by eapply ReadFrame_cut.
Qed.

Lemma ReadFrame_bounded_witness :
  fst (ReadFrame (mkLengthPrefix 4 1048576) [xff; xff; xff; xff; x00]) <> Panic /\
  exists e, fst (ReadFrame (mkLengthPrefix 4 1048576) [x00; x00; x00; x03; x41]) = Err e.
Proof.
  destruct (ReadFrame_bounded (mkLengthPrefix 4 1048576)) as (P & _ & C); [exists 4; reflexivity|].
  split; [apply P|]. apply (C [x41; x42; x43] [x00; x00; x00; x03; x41] [x42; x43]); [vm_compute; discriminate|reflexivity|discriminate].
Defined.
