(* ===== verification/XmlFrame.v ===== *)
(** * XML framing ([link/xmlframe.go])

    A frame is one balanced [isomsg] element.  The reader keeps a count of the
    open elements and stops on the byte that closes the outermost one. *)

From S2P Require Import Prelude Strconv Framer.

(** ** Tags *)

Definition isSpace (b : byte) : bool := (bz b =? 32) || (bz b =? 9) || (bz b =? 10) || (bz b =? 13).

Fixpoint skip_spaces (b : bytes) : bytes :=
  match b with
  | c :: b' => if isSpace c then skip_spaces b' else b
  | [] => []
  end.

(** The run up to the first space or '/'. *)
Fixpoint readName (b : bytes) : bytes :=
  match b with
  | c :: b' => if isSpace c || (bz c =? 47) then [] else c :: readName b'
  | [] => []
  end.

(** [classifyTag]: trailing then leading white space is skipped; the result is
    (isOpen, isClose, selfClose). *)
Definition classifyTag (tag : bytes) : bool * bool * bool :=
  let trimmed := rev (skip_spaces (rev tag)) in
  let core := skip_spaces trimmed in
  match core with
  | c :: rest =>
      if bz c =? 47 then (false, bool_decide (readName rest = go "isomsg"), false) else
      let selfClose := match skip_spaces (rev tag) with e :: _ => bz e =? 47 | [] => false end in
      (bool_decide (readName core = go "isomsg"), false, selfClose)
  | [] => (false, false, false)
  end.

(** ** The framer *)

Definition XmlWriteFrame (w msg : bytes) : res link_error bytes :=
  if defaultMaxFrame <? len msg then Err ErrTooLarge else Ok (w ++ (msg ++ [zb 10])).

(** The counts after a complete tag: (begun, depth). *)
Definition tag_effect (tag : bytes) (begun : bool) (depth : Z) : bool * Z :=
  let '(isOpen, isClose, selfClose) := classifyTag tag in
  (begun || isOpen,
   depth + (if isOpen && negb selfClose then 1 else 0) - (if isClose then 1 else 0)).

(** The loop of [ReadFrame], one byte of the stream per iteration. *)
Fixpoint xml_loop (r buf tag : bytes) (inTag : bool) (depth : Z) (begun : bool) : res link_error bytes * bytes :=
  match r with
  | [] => (Err (if len buf =? 0 then EOF else ErrUnexpectedEOF), [])
  | b :: r =>
      if negb begun && negb inTag && (len buf =? 0) && isSpace b then xml_loop r buf tag inTag depth begun else
      let buf := buf ++ [b] in
      if defaultMaxFrame <? len buf then (Err ErrTooLarge, r) else
      if bz b =? 60 then xml_loop r buf [] true depth begun
      else if (bz b =? 62) && inTag then
        let '(begun, depth) := tag_effect tag begun depth in
        if begun && (depth =? 0) then (Ok buf, r) else xml_loop r buf tag false depth begun
      else if inTag then xml_loop r buf (tag ++ [b]) inTag depth begun
      else xml_loop r buf tag inTag depth begun
  end.

Definition XmlReadFrame : stream_read bytes := fun r => xml_loop r [] [] false 0 false.

(** ** Documents *)

(** The pieces of an XML text: character data without '<', and tags. *)
Inductive token := Text (b : bytes) | Tag (b : bytes).

Definition render (t : token) : bytes :=
  match t with Text b => b | Tag b => [zb 60] ++ b ++ [zb 62] end.

Definition token_ok (t : token) : bool :=
  match t with
  | Text b => forallb (fun c => negb (bz c =? 60)) b
  | Tag b => forallb (fun c => negb (bz c =? 60) && negb (bz c =? 62)) b
  end.

Definition token_effect (t : token) (st : bool * Z) : bool * Z :=
  match t with Text _ => st | Tag b => tag_effect b st.1 st.2 end.

Definition render_all (ts : list token) : bytes := concat (map render ts).

(** The element stays open until its last token, which is a tag. *)
Fixpoint one_element (ts : list token) (st : bool * Z) : bool :=
  match ts with
  | [] => false
  | [Tag b] => let st := token_effect (Tag b) st in st.1 && (st.2 =? 0)
  | t :: ts =>
      let st := token_effect t st in
      negb (match t with Tag _ => st.1 && (st.2 =? 0) | Text _ => false end) && one_element ts st
  end.

(** ** Reading a document *)

Lemma xml_text b r buf tag depth begun : forallb (fun c => negb (bz c =? 60)) b = true ->
  buf <> [] -> len (buf ++ b) <= defaultMaxFrame ->
  xml_loop (b ++ r) buf tag false depth begun = xml_loop r (buf ++ b) tag false depth begun.
Proof.
  revert buf. induction b as [|c b IH]; intros buf HT HB HL; cbn [app xml_loop]; [by rewrite app_nil_r|].
  apply andb_prop in HT as [Hc HT]. apply negb_true_iff in Hc. rewrite Hc. cbn [orb andb negb].
  destruct (Z.eqb_spec (len buf) 0) as [E|E]; [by apply len_0_nil in E|]. rewrite !andb_false_r. cbn [andb].
  pose proof (len_nonneg b). rewrite len_app, len_cons in HL.
  destruct (Z.ltb_spec defaultMaxFrame (len (buf ++ [c]))); [len_simpl; lia|]. rewrite ?andb_false_r.
  rewrite IH; [by rewrite <- app_assoc|done|by destruct buf|len_simpl; lia].
Qed.

Lemma xml_in_tag b r buf tag depth begun : forallb (fun c => negb (bz c =? 60) && negb (bz c =? 62)) b = true ->
  len (buf ++ b) <= defaultMaxFrame ->
  xml_loop (b ++ r) buf tag true depth begun = xml_loop r (buf ++ b) (tag ++ b) true depth begun.
Proof.
  revert buf tag. induction b as [|c b IH]; intros buf tag HT HL; cbn [app xml_loop]; [by rewrite !app_nil_r|].
  apply andb_prop in HT as [[Hc1 Hc2]%andb_prop HT]. apply negb_true_iff in Hc1, Hc2. rewrite Hc1, Hc2.
  cbn [negb]. rewrite !andb_false_r. cbn [andb]. pose proof (len_nonneg b). rewrite len_app, len_cons in HL.
  destruct (Z.ltb_spec defaultMaxFrame (len (buf ++ [c]))); [len_simpl; lia|].
  rewrite IH; [by rewrite <- !app_assoc|done|len_simpl; lia].
Qed.

(** A whole tag: the counts change, and the frame may end. *)
Lemma xml_tag b r buf tag depth begun : token_ok (Tag b) = true ->
  len (buf ++ render (Tag b)) <= defaultMaxFrame ->
  xml_loop (render (Tag b) ++ r) buf tag false depth begun =
    let st := tag_effect b begun depth in
    if st.1 && (st.2 =? 0) then (Ok (buf ++ render (Tag b)), r)
    else xml_loop r (buf ++ render (Tag b)) b false st.2 st.1.
Proof.
  intros HT HL. cbn [render app] in *. cbn [xml_loop]. pose proof (len_nonneg buf). pose proof (len_nonneg b).
  change (bz (zb 60)) with 60. change (isSpace (zb 60)) with false. rewrite andb_false_r.
  rewrite !len_app, len_cons, len_app in HL. change (len [zb 62]) with 1 in HL.
  destruct (Z.ltb_spec defaultMaxFrame (len (buf ++ [zb 60]))); [len_simpl; lia|]. cbn [Z.eqb Pos.eqb].
  rewrite <- app_assoc, xml_in_tag; [|done|len_simpl; lia].
  cbn [app xml_loop negb andb]. rewrite andb_false_r. cbn [andb].
  destruct (Z.ltb_spec defaultMaxFrame (len (((buf ++ [zb 60]) ++ b) ++ [zb 62]))); [len_simpl; lia|].
  change (bz (zb 62)) with 62. cbn [Z.eqb Pos.eqb andb app]. cbv zeta.
  replace (((buf ++ [zb 60]) ++ b) ++ [zb 62]) with (buf ++ zb 60 :: b ++ [zb 62]) by (rewrite <- !app_assoc; done).
  destruct (tag_effect b begun depth) as [bg dp]. done.
Qed.

Lemma xml_tokens ts r buf tag depth begun : forallb token_ok ts = true -> buf <> [] ->
  one_element ts (begun, depth) = true -> len (buf ++ render_all ts) <= defaultMaxFrame ->
  xml_loop (render_all ts ++ r) buf tag false depth begun = (Ok (buf ++ render_all ts), r).
Proof.
  revert buf tag depth begun. induction ts as [|t ts IH]; intros buf tag depth begun HT HB HO HL; [done|].
  unfold render_all in *. cbn [map concat forallb] in *. apply andb_prop in HT as [Ht HT].
  rewrite app_assoc, len_app in HL. pose proof (len_nonneg (concat (map render ts))).
  rewrite <- app_assoc. destruct t as [b|b].
  - change (render (Text b)) with b in *. rewrite xml_text; [|done|done|lia].
    rewrite IH; [by rewrite <- app_assoc|done|by destruct buf| |by rewrite len_app].
    cbn [one_element token_effect] in HO. destruct ts; [done|]. by apply andb_prop in HO as [_ HO].
  - rewrite xml_tag; [|done|lia]. cbv zeta.
    destruct ts as [|t' ts].
    + cbn [one_element token_effect fst snd] in HO. rewrite HO. cbn [map concat app]. by rewrite app_nil_r.
    + cbn [one_element] in HO. apply andb_prop in HO as [HN HO]. cbn [token_effect fst snd] in HN, HO.
      apply negb_true_iff in HN. rewrite HN. rewrite IH; [by rewrite <- app_assoc|done| | |by rewrite len_app].
      * cbn [render]. by destruct buf.
      * by destruct (tag_effect b begun depth).
Qed.

Lemma xml_spaces sp r : forallb isSpace sp = true -> XmlReadFrame (sp ++ r) = XmlReadFrame r.
Proof.
  unfold XmlReadFrame. induction sp as [|c sp IH]; [done|]. cbn [app forallb xml_loop]. intros [-> Hs]%andb_prop. by apply IH.
Qed.

(** the XML framer reads exactly one element.  A balanced [isomsg]
    element, with any attributes, text, other tags and nested elements, is read
    whole, and the reader stops on its last byte: white space before it is
    dropped, and what follows, the newline that [WriteFrame] adds included,
    stays on the stream. *)
Theorem xml_frame_exact sp b ts rest :
  forallb isSpace sp = true -> forallb token_ok (Tag b :: ts) = true ->
  one_element (Tag b :: ts) (false, 0) = true -> len (render_all (Tag b :: ts)) <= defaultMaxFrame ->
  XmlReadFrame (sp ++ render_all (Tag b :: ts) ++ rest) = (Ok (render_all (Tag b :: ts)), rest).
Proof.
  intros HS HT HO HL. rewrite xml_spaces by done. unfold XmlReadFrame, render_all in *. cbn [map concat] in *.
  cbn [forallb] in HT. apply andb_prop in HT as [Ht HT]. rewrite len_app in HL. pose proof (len_nonneg (concat (map render ts))).
  rewrite <- app_assoc, (xml_tag b _ [] []); [|done|cbn [app]; lia]. cbv zeta. cbn [app]. destruct ts as [|t ts].
  - cbn [one_element token_effect fst snd] in HO. rewrite HO. cbn [map concat app]. by rewrite app_nil_r.
  - cbn [one_element] in HO. apply andb_prop in HO as [HN HO]. cbn [token_effect fst snd] in HN, HO.
    apply negb_true_iff in HN. rewrite HN. fold (render_all (t :: ts)) in *. apply xml_tokens; [done|done| |by rewrite len_app].
    by destruct (tag_effect b false 0).
Qed.

Lemma xml_frame_exact_witness :
  XmlReadFrame (go " " ++ render_all [Tag (go "isomsg"); Tag (go "isomsg id=48"); Text (go "x > y"); Tag (go "field/"); Tag (go "/isomsg "); Tag (go "/isomsg")]
      ++ [zb 10] ++ go "<isomsg/>")
  = (Ok (go "<isomsg><isomsg id=48>x > y<field/></isomsg ></isomsg>"), [zb 10] ++ go "<isomsg/>").
Proof.
  apply (xml_frame_exact (go " ") (go "isomsg")
    [Tag (go "isomsg id=48"); Text (go "x > y"); Tag (go "field/"); Tag (go "/isomsg "); Tag (go "/isomsg")]
    ([zb 10] ++ go "<isomsg/>")); vm_compute; [reflexivity..|discriminate].
Defined.
