(* ===== verification/TlvText.v ===== *)
(** * Fixed-width text TLV ([tlv/tlv.go])

    Elements of a fixed-width tag, a fixed-width decimal length and the value,
    as legacy acquirer parameter fields use them. *)

From S2P Require Import Prelude Errors Strconv.

Record Element := mkElement { el_Tag : bytes; el_Value : bytes }.

#[export] Instance Element_EqDecision : EqDecision Element.
Proof. solve_decision. Defined.

(** The errors, by the call that formats them. *)
Inductive tlv_error :=
| BadWidths (tagWidth lenWidth : Z)
| TruncatedHeader (offset : Z)
| BadLength (lenStr tag : bytes) (offset : Z)
| Overrun (tag : bytes) (need have : Z)
| TagNotWidth (tag : bytes) (width : Z)
| ValueTooLong (tag : bytes) (n lenWidth : Z)
| Unfinished.

(** The loop of [Decode]; an element is at least two bytes, so the input's
    length bounds the iterations.  The offsets are 64-bit arithmetic. *)
Fixpoint tlv_loop (fuel : nat) (s : bytes) (tagWidth lenWidth i : Z) (out : list Element) : res tlv_error (list Element) :=
  match fuel with
  | O => Err Unfinished
  | S fuel =>
      if len s <=? i then Ok out
      else
        let mid := wrap64 (i + tagWidth) in
        let start := wrap64 (mid + lenWidth) in
        if len s <? start then Err (TruncatedHeader i) else
        let! tag := slice s i mid in
        let! lenStr := slice s mid start in
        match Atoi lenStr with
        | Ok n =>
            if n <? 0 then Err (BadLength lenStr tag i) else
            let stop := wrap64 (start + n) in
            if len s <? stop then Err (Overrun tag n (len s - start)) else
            let! v := slice s start stop in
            tlv_loop fuel s tagWidth lenWidth stop (out ++ [mkElement tag v])
        | _ => Err (BadLength lenStr tag i)
        end
  end.

Definition Decode (s : bytes) (tagWidth lenWidth : Z) : res tlv_error (list Element) :=
  if (tagWidth <=? 0) || (lenWidth <=? 0) then Err (BadWidths tagWidth lenWidth)
  else tlv_loop (S (length s)) s tagWidth lenWidth 0 [].

(** [max *= 10], [lenWidth] times. *)
Fixpoint max_loop (k : nat) (max : Z) : Z :=
  match k with O => max | S k => max_loop k (wrap64 (max * 10)) end.

(** [%0*d]: zero-padded to the width. *)
Definition padInt (width n : Z) : bytes :=
  let s := FormatInt n in replicate (Z.to_nat (width - len s)) (zb 48) ++ s.

Fixpoint encode_loop (elems : list Element) (tagWidth lenWidth max : Z) (b : bytes) : res tlv_error bytes :=
  match elems with
  | [] => Ok b
  | e :: elems =>
      if negb (len (el_Tag e) =? tagWidth) then Err (TagNotWidth (el_Tag e) tagWidth)
      else if max <=? len (el_Value e) then Err (ValueTooLong (el_Tag e) (len (el_Value e)) lenWidth)
      else encode_loop elems tagWidth lenWidth max
             (b ++ (el_Tag e ++ padInt lenWidth (len (el_Value e)) ++ el_Value e))
  end.

Definition Encode (elems : list Element) (tagWidth lenWidth : Z) : res tlv_error bytes :=
  if (tagWidth <=? 0) || (lenWidth <=? 0) then Err (BadWidths tagWidth lenWidth)
  else encode_loop elems tagWidth lenWidth (max_loop (Z.to_nat lenWidth) 1) [].

Fixpoint TlvGet (elems : list Element) (tag : bytes) : option bytes :=
  match elems with
  | [] => None
  | e :: elems => if bool_decide (el_Tag e = tag) then Some (el_Value e) else TlvGet elems tag
  end.

(** ** Lengths *)

Lemma max_loop_pow k m : 0 < m -> m * 10 ^ Z.of_nat k < 2 ^ 63 -> max_loop k m = m * 10 ^ Z.of_nat k.
Proof.
  revert m. induction k as [|k IH]; intros m Hm HB; cbn [max_loop]; [change (10 ^ Z.of_nat 0) with 1; lia|].
  rewrite Nat2Z.inj_succ, Z.pow_succ_r in * by lia. assert (0 < 10 ^ Z.of_nat k) by (apply Z.pow_pos_nonneg; lia).
  rewrite wrap64_id by (unfold int64; nia). rewrite IH; nia.
Qed.

Lemma max_loop_width w : 1 <= w <= 18 -> max_loop (Z.to_nat w) 1 = 10 ^ w /\ 10 ^ w <= 10 ^ 18.
Proof.
  intros Hw. assert (10 ^ w <= 10 ^ 18) by (apply Z.pow_le_mono_r; lia). split; [|done].
  rewrite max_loop_pow; rewrite ?Z2Nat.id by lia; lia.
Qed.

Lemma padInt_spec w n : 1 <= w <= 18 -> 0 <= n < 10 ^ w ->
  len (padInt w n) = w /\ Atoi (padInt w n) = Ok n.
Proof.
  intros Hw Hn. unfold padInt, FormatInt. destruct (Z.ltb_spec n 0); [lia|].
  pose proof (FormatUint_len n w Hn ltac:(lia)). pose proof (FormatUint_digits n ltac:(lia)) as HD.
  assert (10 ^ w <= 10 ^ 18) by (apply Z.pow_le_mono_r; lia). split; [len_simpl; lia|].
  unfold Atoi. rewrite ParseInt_digits.
  - by rewrite dec_value_zeros, FormatUint_value by lia.
  - lia.
  - pose proof (FormatUint_ne n). by destruct (replicate _ (zb 48)).
  - rewrite forallb_app, HD, andb_true_r. generalize (Z.to_nat (w - len (FormatUint n))) as k. by induction k.
  - rewrite dec_value_zeros, FormatUint_value by lia. lia.
Qed.

(** ** Round trip *)

(** One element on the wire. *)
Definition element_bytes (w : Z) (e : Element) : bytes := el_Tag e ++ padInt w (len (el_Value e)) ++ el_Value e.

Lemma encode_loop_Ok elems tw w max b out : encode_loop elems tw w max b = Ok out ->
  out = b ++ concat (map (element_bytes w) elems) /\
  Forall (fun e => len (el_Tag e) = tw /\ len (el_Value e) < max) elems.
Proof.
  revert b. induction elems as [|e elems IH]; intros b; cbn [encode_loop].
  - intros [= <-]. cbn. by rewrite app_nil_r.
  - destruct (Z.eqb_spec (len (el_Tag e)) tw) as [HT|]; [|done]. cbn [negb].
    destruct (Z.leb_spec max (len (el_Value e))); [done|]. intros H'. apply IH in H' as [-> HF].
    split; [|by constructor]. cbn [map concat]. unfold element_bytes at 2. by rewrite <- !app_assoc.
Qed.

Lemma tlv_loop_elements fuel tw w elems pre out : 1 <= tw -> 1 <= w <= 18 ->
  Forall (fun e => len (el_Tag e) = tw /\ len (el_Value e) < 10 ^ w) elems ->
  len (pre ++ concat (map (element_bytes w) elems)) < 2 ^ 62 -> (length elems < fuel)%nat ->
  tlv_loop fuel (pre ++ concat (map (element_bytes w) elems)) tw w (len pre) out = Ok (out ++ elems).
Proof.
  intros Htw Hw HF. revert fuel pre out. induction HF as [|e elems [HT HV] HF IH]; intros fuel pre out HL Hf;
    (destruct fuel as [|fuel]; [lia|]); cbn [tlv_loop map concat].
  - rewrite !app_nil_r. destruct (Z.leb_spec (len pre) (len pre)); [done|lia].
  - pose proof (len_nonneg pre). pose proof (len_nonneg (el_Value e)).
    destruct (padInt_spec w (len (el_Value e)) Hw) as [PL PA]; [lia|].
    set (rest := concat (map (element_bytes w) elems)) in *. cbn [map concat] in HL. fold rest in HL.
    pose proof (len_nonneg rest).
    assert (HLe : len (element_bytes w e) = tw + w + len (el_Value e)) by (unfold element_bytes; len_simpl; lia).
    assert (HLs : len (pre ++ element_bytes w e ++ rest) = len pre + tw + w + len (el_Value e) + len rest) by (len_simpl; lia).
    rewrite HLs in *. destruct (Z.leb_spec (len pre + tw + w + len (el_Value e) + len rest) (len pre)); [lia|].
    rewrite (wrap64_id (len pre + tw)) by (unfold int64; lia).
    rewrite (wrap64_id (len pre + tw + w)) by (unfold int64; lia).
    destruct (Z.ltb_spec (len pre + tw + w + len (el_Value e) + len rest) (len pre + tw + w)); [lia|].
    replace (pre ++ element_bytes w e ++ rest) with (pre ++ el_Tag e ++ (padInt w (len (el_Value e)) ++ el_Value e ++ rest))
      by (unfold element_bytes; by rewrite <- !app_assoc).
    rewrite (slice_mid pre (el_Tag e)) by lia. cbn [rbind].
    replace (pre ++ el_Tag e ++ (padInt w (len (el_Value e)) ++ el_Value e ++ rest))
      with ((pre ++ el_Tag e) ++ padInt w (len (el_Value e)) ++ (el_Value e ++ rest)) by (by rewrite <- !app_assoc).
    rewrite slice_mid by (len_simpl; lia). cbn [rbind]. rewrite PA.
    destruct (Z.ltb_spec (len (el_Value e)) 0); [lia|].
    rewrite wrap64_id by (unfold int64; lia).
    destruct (Z.ltb_spec (len pre + tw + w + len (el_Value e) + len rest) (len pre + tw + w + len (el_Value e))); [lia|].
    replace ((pre ++ el_Tag e) ++ padInt w (len (el_Value e)) ++ (el_Value e ++ rest))
      with ((pre ++ el_Tag e ++ padInt w (len (el_Value e))) ++ el_Value e ++ rest) by (by rewrite <- !app_assoc).
    rewrite slice_mid by (len_simpl; lia). cbn [rbind].
    replace ((pre ++ el_Tag e ++ padInt w (len (el_Value e))) ++ el_Value e ++ rest) with ((pre ++ element_bytes w e) ++ rest)
      by (unfold element_bytes; by rewrite <- !app_assoc).
    replace (len pre + tw + w + len (el_Value e)) with (len (pre ++ element_bytes w e)) by (len_simpl; lia).
    cbn [length] in Hf. rewrite IH; [|len_simpl; lia|lia]. rewrite <- app_assoc. by destruct e.
Qed.

Lemma length_elements w elems : 1 <= w <= 18 -> Forall (fun e => len (el_Value e) < 10 ^ w) elems ->
  (length elems <= length (concat (map (element_bytes w) elems)))%nat.
Proof.
  intros Hw. induction 1 as [|e elems HV HF IH]; cbn [map concat length]; [lia|]. rewrite length_app.
  pose proof (len_nonneg (el_Value e)). destruct (padInt_spec w (len (el_Value e)) Hw) as [PL _]; [lia|].
  change (Z.of_nat (length (padInt w (len (el_Value e)))) = w) in PL.
  assert (1 <= length (element_bytes w e))%nat by (unfold element_bytes; rewrite !length_app; lia). lia.
Qed.

(** text TLV round trip.  What [Encode] accepts, [Decode] returns, element
    by element in order, for length fields of up to 18 digits. *)
Theorem tlv_roundtrip elems tagWidth lenWidth s :
  lenWidth <= 18 -> len s < 2 ^ 62 -> Encode elems tagWidth lenWidth = Ok s -> Decode s tagWidth lenWidth = Ok elems.
Proof.
  intros Hw HL. unfold Encode, Decode. destruct (_ || _) eqn:G; [done|]. bool_to_prop. intros HE.
  destruct (max_loop_width lenWidth ltac:(lia)) as [HM _]. rewrite HM in HE.
  apply encode_loop_Ok in HE as [-> HF]. cbn [app] in *.
  apply (tlv_loop_elements _ tagWidth lenWidth elems []); [lia|lia|done|done|].
  rewrite Nat.lt_succ_r. apply length_elements; [lia|].
  eapply Forall_impl; [|exact HF]. by intros ? [_ ?].
Qed.

Lemma tlv_roundtrip_witness :
  Decode (go "03005ABCDE05003566") 2 3 = Ok [mkElement (go "03") (go "ABCDE"); mkElement (go "05") (go "566")].
Proof. apply tlv_roundtrip; [lia|vm_compute; reflexivity|vm_compute; reflexivity]. Defined.

(** ** Safety *)

Lemma Atoi_bound s n : len s <= 18 -> Atoi s = Ok n -> n < 10 ^ 18.
Proof.
  intros HL H. unfold Atoi, ParseInt in H. destruct s as [|c r]; [done|]. rewrite len_cons in HL.
  set (digits := if _ || _ then r else c :: r) in H. apply rbind_Ok in H as (un & HU & H).
  apply ParseUint_Ok in HU as (_ & HD & -> & _); [|lia].
  assert (dec_value digits < 10 ^ 18).
  { pose proof (dec_value_bound digits HD). assert (10 ^ len digits <= 10 ^ 18); [|lia].
    apply Z.pow_le_mono_r; [lia|]. unfold digits. destruct (_ || _); [lia|rewrite len_cons; lia]. }
  pose proof (dec_value_bound digits HD). destruct (_ && _); [done|]. destruct (_ && _); [done|].
  injection H as <-. case_match; lia.
Qed.

(** The bytes the decoded elements take. *)
Definition elements_len (tw w : Z) (elems : list Element) : Z :=
  foldr (fun e n => tw + w + len (el_Value e) + n) 0 elems.

Lemma elements_len_app tw w a b : elements_len tw w (a ++ b) = elements_len tw w a + elements_len tw w b.
Proof. unfold elements_len. induction a as [|e a IH]; cbn [app foldr]; lia. Qed.

Lemma tlv_loop_safe fuel s tw w i out : 1 <= tw < 2 ^ 61 -> 1 <= w <= 18 -> len s < 2 ^ 62 -> 0 <= i <= len s ->
  (Z.to_nat (len s - i) < fuel)%nat ->
  tlv_loop fuel s tw w i out <> Panic /\ tlv_loop fuel s tw w i out <> Err Unfinished /\
  forall elems, tlv_loop fuel s tw w i out = Ok elems -> elements_len tw w elems = elements_len tw w out + (len s - i).
Proof.
  intros Htw Hw HL. revert i out. induction fuel as [|fuel IH]; intros i out Hi Hf; [lia|]. cbn [tlv_loop].
  destruct (Z.leb_spec (len s) i).
  { split_and!; [done..|]. intros elems [= <-]. lia. }
  rewrite (wrap64_id (i + tw)) by (unfold int64; lia).
  rewrite (wrap64_id (i + tw + w)) by (unfold int64; lia).
  destruct (Z.ltb_spec (len s) (i + tw + w)); [by split_and!|].
  rewrite (slice_ok s i (i + tw)) by lia. cbn [rbind].
  destruct (slice s (i + tw) (i + tw + w)) as [ls|e|] eqn:ES; cbn [rbind];
    [|rewrite slice_ok in ES by lia; discriminate..].
  apply slice_Ok_inv in ES as (_ & _ & LS & _).
  destruct (Atoi ls) as [n|e|] eqn:EA; [|by split_and!..].
  destruct (Z.ltb_spec n 0); [by split_and!|]. apply Atoi_bound in EA; [|lia].
  rewrite wrap64_id by (unfold int64; lia).
  destruct (Z.ltb_spec (len s) (i + tw + w + n)); [by split_and!|].
  destruct (slice s (i + tw + w) (i + tw + w + n)) as [v|e|] eqn:EV; cbn [rbind];
    [|rewrite slice_ok in EV by lia; discriminate..].
  apply slice_Ok_inv in EV as (_ & _ & LV & _).
  destruct (IH (i + tw + w + n) (out ++ [mkElement (take (Z.to_nat (i + tw - i)) (drop (Z.to_nat i) s)) v])) as (I1 & I2 & I3); [lia..|].
  split_and!; [done..|]. intros elems HE. rewrite (I3 elems HE), elements_len_app. cbn [elements_len foldr el_Value]. lia.
Qed.

(** Text TLV decoding is safe up to 18-digit lengths
    (and tags of fewer than 2^61 bytes).  On any input,
    [Decode] returns elements that account for every byte, or an error; it does
    not panic and its loop finishes.  With a 19-digit length field the offset
    computation overflows and a crafted length panics. *)
Theorem tlv_Decode_safe s tagWidth lenWidth :
  len s < 2 ^ 62 ->
  (lenWidth <= 18 -> tagWidth < 2 ^ 61 ->
     Decode s tagWidth lenWidth <> Panic /\ Decode s tagWidth lenWidth <> Err Unfinished /\
     forall elems, Decode s tagWidth lenWidth = Ok elems -> elements_len tagWidth lenWidth elems = len s) /\
  Decode (go "A9223372036854775807") 1 19 = Panic.
Proof.
  intros HL. split; [|vm_compute; reflexivity]. intros Hw Htw. unfold Decode. destruct (_ || _) eqn:G; [by split_and!|]. bool_to_prop.
  pose proof (len_nonneg s).
  destruct (tlv_loop_safe (S (length s)) s tagWidth lenWidth 0 []) as (I1 & I2 & I3); [lia|lia|done|lia|unfold len; lia|].
  split_and!; [done..|]. intros elems HE. rewrite (I3 elems HE). cbn. lia.
Qed.

Lemma tlv_Decode_safe_witness : Decode (go "03+05ABCDE") 2 3 <> Panic.
Proof. destruct (tlv_Decode_safe (go "03+05ABCDE") 2 3) as [H _]; [vm_compute; reflexivity|]. by apply H; lia. Defined.
