(* ===== verification/Mux.v ===== *)
(** * Request/response correlation ([mux/mux.go])

    Goroutines share a table of in-flight requests.  The model is a step
    relation: every step is one atomic action of a requester, of the reader, or
    of whoever stops the mux; the order of steps is arbitrary.  A requester's
    deferred cleanup and the reader's hand-over after it released the lock are
    steps of their own.  The link and the two keyers are the caller's: a send
    may succeed or fail and any frame may arrive at any time. *)

From S2P Require Import Prelude Path.

(** What stopped the mux, as [Err] reports it. *)
Inductive cause := ErrClosed | ReadFailed (why : bytes).

(** How a request ends. *)
Inductive outcome :=
| Response (frame : bytes)
| SendFailed
| ContextDone
| ErrTimeout
| Closed (c : cause)
| ErrDuplicateKey.

(** Where a call of [Request] is. *)
Inductive phase :=
| Registered                (* in the table, before [link.Send] *)
| Waiting                   (* in the [select] *)
| Leaving (o : outcome)     (* returning; the deferred delete is to come *)
| Returned (o : outcome).

Record Mux := mkMux {
  mx_pending : gmap bytes nat;         (* key -> the request whose channel it is *)
  mx_reqs : gmap nat (bytes * phase);  (* the calls: key and phase *)
  mx_chans : gmap nat bytes;           (* the buffered channel of a request *)
  mx_hand : option (nat * bytes);      (* the frame the reader is about to send *)
  mx_unsolicited : list bytes;
  mx_reading : bool;                   (* the read loop is running *)
  mx_done : option cause;              (* [done] is closed, with [readErr] *)
}.

Definition NewMux : Mux := mkMux ∅ ∅ ∅ None [] true None.

Definition set_req (m : Mux) (id : nat) (q : bytes * phase) : Mux :=
  mkMux (mx_pending m) (<[id := q]> (mx_reqs m)) (mx_chans m) (mx_hand m) (mx_unsolicited m)
    (mx_reading m) (mx_done m).
Definition set_pending (m : Mux) (t : gmap bytes nat) : Mux :=
  mkMux t (mx_reqs m) (mx_chans m) (mx_hand m) (mx_unsolicited m) (mx_reading m) (mx_done m).
Definition set_chan (m : Mux) (c : gmap nat bytes) (hand : option (nat * bytes)) : Mux :=
  mkMux (mx_pending m) (mx_reqs m) c hand (mx_unsolicited m) (mx_reading m) (mx_done m).

(** [deliverUnsolicited]: the handler is given the frame. *)
Definition deliverUnsolicited (m : Mux) (f : bytes) : Mux :=
  mkMux (mx_pending m) (mx_reqs m) (mx_chans m) (mx_hand m) (mx_unsolicited m ++ [f])
    (mx_reading m) (mx_done m).

(** [stop]: the first caller wins. *)
Definition stop (m : Mux) (c : cause) : Mux :=
  mkMux (mx_pending m) (mx_reqs m) (mx_chans m) (mx_hand m) (mx_unsolicited m) (mx_reading m)
    (Some (default c (mx_done m))).

(** The read loop ends with the link's error ([fail], then return). *)
Definition fail_reader (m : Mux) (why : bytes) : Mux :=
  let m := stop m (ReadFailed why) in
  mkMux (mx_pending m) (mx_reqs m) (mx_chans m) (mx_hand m) (mx_unsolicited m) false (mx_done m).

Section Mux.
(** The keyers are the caller's functions; [None] is an error. *)
Context (requestKey responseKey : bytes -> option bytes).

(** The first critical section of [Request]: an error of the keyer leaves no
    trace, a key in flight is refused, else the call is registered. *)
Definition Request_register (m : Mux) (id : nat) (req : bytes) : Mux :=
  match requestKey req with
  | None => m
  | Some k =>
      match mx_pending m !! k with
      | Some _ => set_req m id (k, Returned ErrDuplicateKey)
      | None => set_pending (set_req m id (k, Registered)) (<[k := id]> (mx_pending m))
      end
  end.

(** What the read loop does with a frame, up to the send on the channel. *)
Definition readLoop_frame (m : Mux) (f : bytes) : Mux :=
  match responseKey f with
  | None => deliverUnsolicited m f
  | Some k =>
      match mx_pending m !! k with
      | Some id => set_chan (set_pending m (delete k (mx_pending m))) (mx_chans m) (Some (id, f))
      | None => deliverUnsolicited m f
      end
  end.

Inductive mux_step : Mux -> Mux -> Prop :=
| step_start m id req : mx_reqs m !! id = None -> mux_step m (Request_register m id req)
| step_sent m id k : mx_reqs m !! id = Some (k, Registered) -> mux_step m (set_req m id (k, Waiting))
| step_send_error m id k : mx_reqs m !! id = Some (k, Registered) ->
    mux_step m (set_req m id (k, Leaving SendFailed))
(* the select *)
| select_response m id k f :
    mx_reqs m !! id = Some (k, Waiting) -> mx_chans m !! id = Some f ->
    mux_step m (set_req (set_chan m (delete id (mx_chans m)) (mx_hand m)) id (k, Leaving (Response f)))
| select_context m id k : mx_reqs m !! id = Some (k, Waiting) ->
    mux_step m (set_req m id (k, Leaving ContextDone))
| select_timeout m id k : mx_reqs m !! id = Some (k, Waiting) ->
    mux_step m (set_req m id (k, Leaving ErrTimeout))
| select_done m id k c : mx_reqs m !! id = Some (k, Waiting) -> mx_done m = Some c ->
    mux_step m (set_req m id (k, Leaving (Closed c)))
(* the deferred delete *)
| step_cleanup m id k o : mx_reqs m !! id = Some (k, Leaving o) ->
    mux_step m (set_pending (set_req m id (k, Returned o)) (delete k (mx_pending m)))
(* readLoop *)
| step_frame m f : mx_reading m = true -> mx_hand m = None -> mux_step m (readLoop_frame m f)
| step_hand m id f : mx_hand m = Some (id, f) -> mx_chans m !! id = None ->
    mux_step m (set_chan m (<[id := f]> (mx_chans m)) None)
| step_reader_fails m why : mx_reading m = true -> mx_hand m = None -> mux_step m (fail_reader m why)
| step_close m : mux_step m (stop m ErrClosed).

(** ** The invariant *)

Definition answer (p : phase) : option bytes :=
  match p with Leaving (Response f) | Returned (Response f) => Some f | _ => None end.

Definition closed_by (p : phase) : option cause :=
  match p with Leaving (Closed c) | Returned (Closed c) => Some c | _ => None end.

(** Request [id], registered under [k], has taken no answer yet. *)
Definition unanswered (m : Mux) (id : nat) (k : bytes) : Prop :=
  exists p, mx_reqs m !! id = Some (k, p) /\ answer p = None.

Record mux_inv (m : Mux) : Prop := {
  mi_table : forall k id, mx_pending m !! k = Some id ->
    unanswered m id k /\ mx_chans m !! id = None /\ (forall f, mx_hand m <> Some (id, f));
  mi_hand : forall id f, mx_hand m = Some (id, f) ->
    mx_chans m !! id = None /\ exists k, unanswered m id k /\ responseKey f = Some k;
  mi_chan : forall id f, mx_chans m !! id = Some f ->
    exists k, unanswered m id k /\ responseKey f = Some k;
  mi_answer : forall id k p f, mx_reqs m !! id = Some (k, p) -> answer p = Some f ->
    responseKey f = Some k;
  mi_closed : forall id k p c, mx_reqs m !! id = Some (k, p) -> closed_by p = Some c ->
    mx_done m = Some c;
}.

Lemma NewMux_inv : mux_inv NewMux.
Proof. by split; intros *; rewrite ?lookup_empty. Qed.

(** Splits a lookup in the updated request table. *)
Ltac req_cases H :=
  cbn in H; apply lookup_insert_Some in H as [[<- H]|[? H]]; [injection H as <- <-; cbn in *|].

(** A request that is new, or keeps its key and takes no answer it had not
    taken, leaves every request's standing as it was. *)
Lemma unanswered_set m id k p : (answer p = None \/ forall j, ~ unanswered m id j) ->
  (forall q, mx_reqs m !! id = Some q -> q.1 = k) ->
  forall i j, unanswered m i j -> unanswered (set_req m id (k, p)) i j.
Proof.
  intros Hp Hk i j HU. pose proof HU as (q & Hq & Ha). unfold unanswered. cbn.
  destruct (decide (i = id)) as [->|Hn]; [|exists q; by rewrite lookup_insert_ne].
  destruct Hp as [Hp|Hp]; [|by apply Hp in HU]. specialize (Hk _ Hq). cbn in Hk. subst.
  exists p. by rewrite lookup_insert_eq.
Qed.

Lemma inv_phase m id k p : mux_inv m ->
  (forall f, answer p = Some f -> responseKey f = Some k /\ forall j, ~ unanswered m id j) ->
  (forall c, closed_by p = Some c -> mx_done m = Some c) ->
  (forall q, mx_reqs m !! id = Some q -> q.1 = k) -> mux_inv (set_req m id (k, p)).
Proof.
  intros [I1 I2 I3 I4 I5] Hp Hc Hk.
  assert (forall i j, unanswered m i j -> unanswered (set_req m id (k, p)) i j) as HU.
  { apply unanswered_set; [|done]. destruct (answer p) as [f|] eqn:E; [right|by left].
    by apply (Hp f). }
  split.
  - intros j i Hi. destruct (I1 j i Hi) as (A & B & C). eauto.
  - intros i f Hf. destruct (I2 i f Hf) as (A & j & B & C). eauto.
  - intros i f Hf. destruct (I3 i f Hf) as (j & B & C). eauto.
  - intros i j q f Hq Hf. req_cases Hq; [by apply Hp|by eapply I4].
  - intros i j q c Hq Hf. req_cases Hq; [by apply Hc|by eapply I5].
Qed.

(** A call moves on without an answer. *)
Lemma inv_move m id k p p' : mux_inv m -> mx_reqs m !! id = Some (k, p) -> answer p' = None ->
  (forall c, closed_by p' = Some c -> mx_done m = Some c) -> mux_inv (set_req m id (k, p')).
Proof.
  intros I Hid Hp Hc. apply inv_phase; [done|congruence|done|].
  intros q Hq. rewrite Hid in Hq. by injection Hq as <-.
Qed.

Lemma inv_return m id k o : mux_inv m -> mx_reqs m !! id = Some (k, Leaving o) ->
  mux_inv (set_req m id (k, Returned o)).
Proof.
  intros I Hid. apply inv_phase; [done|..].
  - intros f Hf. assert (answer (Leaving o) = Some f) as Hf' by (by destruct o).
    split; [by eapply (mi_answer m I)|]. intros j (p & Hp & Ha). rewrite Hid in Hp.
    injection Hp as <- <-. congruence.
  - intros c Hc. eapply (mi_closed m I _ _ (Leaving o)); [done|by destruct o].
  - intros q Hq. rewrite Hid in Hq. by injection Hq as <-.
Qed.

Lemma inv_pending_delete m k : mux_inv m -> mux_inv (set_pending m (delete k (mx_pending m))).
Proof.
  intros [I1 I2 I3 I4 I5]. split; cbn; try done. intros j i Hi.
  apply lookup_delete_Some in Hi as [_ Hi]. by apply I1.
Qed.

(** A frame handed to nobody, and a change of the closing state. *)
Lemma inv_frame m u r d : mux_inv m -> (forall c, mx_done m = Some c -> d = Some c) ->
  mux_inv (mkMux (mx_pending m) (mx_reqs m) (mx_chans m) (mx_hand m) u r d).
Proof.
  intros [I1 I2 I3 I4 I5] Hd. split; cbn; try done. intros i k p c Hp Hc. apply Hd. by eapply I5.
Qed.

Lemma inv_register m id k : mux_inv m -> mx_reqs m !! id = None -> mx_pending m !! k = None ->
  mux_inv (set_pending (set_req m id (k, Registered)) (<[k := id]> (mx_pending m))).
Proof.
  intros I Hid Hk.
  assert (mux_inv (set_req m id (k, Registered))) as I' by (apply inv_phase; [done|done|done|congruence]).
  destruct I' as [I1 I2 I3 I4 I5], I as [J1 J2 J3 J4 J5].
  assert (forall j, ~ unanswered m id j) as Hno by (intros j (q & Hq & _); congruence).
  split; [|done..]. intros j i Hi. destruct (decide (j = k)) as [->|Hn].
  - change (<[k := id]> (mx_pending m) !! k = Some i) in Hi. rewrite lookup_insert_eq in Hi.
    injection Hi as <-. split_and!.
    + exists Registered. cbn. by rewrite lookup_insert_eq.
    + cbn. destruct (mx_chans m !! id) as [f|] eqn:E; [|done]. destruct (J3 id f E) as (j & HU & _).
      by apply Hno in HU.
    + intros f E. destruct (J2 id f E) as (_ & j & HU & _). by apply Hno in HU.
  - change (<[k := id]> (mx_pending m) !! j = Some i) in Hi.
    rewrite lookup_insert_ne in Hi by done. by apply I1.
Qed.

Lemma inv_match m f k id : mux_inv m -> responseKey f = Some k -> mx_pending m !! k = Some id ->
  mx_hand m = None ->
  mux_inv (set_chan (set_pending m (delete k (mx_pending m))) (mx_chans m) (Some (id, f))).
Proof.
  intros [I1 I2 I3 I4 I5] Hf Hk Hh. destruct (I1 k id Hk) as (HU & HC & _). split; try done.
  - intros j i Hi. cbn in Hi. apply lookup_delete_Some in Hi as [Hn Hi].
    destruct (I1 j i Hi) as ((p & Hp & Ha) & B & C). split_and!; [by exists p|done|].
    intros g [= <- <-]. destruct HU as (q & Hq & _). congruence.
  - intros i g [= <- <-]. split; [done|]. by exists k.
Qed.

Lemma inv_hand m id f : mux_inv m -> mx_hand m = Some (id, f) ->
  mux_inv (set_chan m (<[id := f]> (mx_chans m)) None).
Proof.
  intros [I1 I2 I3 I4 I5] Hh. destruct (I2 id f Hh) as (HC & k & HU & HR). split; try done.
  - intros j i Hi. destruct (I1 j i Hi) as (A & B & C). split_and!; [done| |done]. cbn.
    destruct (decide (i = id)) as [->|Hn]; [by destruct (C f)|]. by rewrite lookup_insert_ne.
  - intros i g Hg. cbn in Hg. destruct (decide (i = id)) as [->|Hn].
    + rewrite lookup_insert_eq in Hg. injection Hg as <-. by exists k.
    + rewrite lookup_insert_ne in Hg by done. by apply I3.
Qed.

(** Taking the answer from the channel. *)
Lemma inv_response m id k f : mux_inv m -> mx_reqs m !! id = Some (k, Waiting) ->
  mx_chans m !! id = Some f ->
  mux_inv (set_req (set_chan m (delete id (mx_chans m)) (mx_hand m)) id (k, Leaving (Response f))).
Proof.
  intros [I1 I2 I3 I4 I5] Hid Hf. destruct (I3 id f Hf) as (k' & (q & Hq & _) & HR).
  assert (k' = k) as -> by congruence.
  assert (forall i j, i <> id -> unanswered m i j ->
    unanswered (set_req (set_chan m (delete id (mx_chans m)) (mx_hand m)) id (k, Leaving (Response f))) i j)
    as HU by (intros i j Hn (p & Hp & Ha); exists p; cbn; by rewrite lookup_insert_ne).
  split.
  - intros j i Hi. destruct (I1 j i Hi) as (A & B & C). split_and!; [|cbn|done].
    + apply HU; [congruence|done].
    + rewrite lookup_delete_ne; [done|congruence].
  - intros i g Hg. destruct (I2 i g Hg) as (A & j & B & C). split.
    + cbn. rewrite lookup_delete_ne; [done|congruence].
    + exists j. split; [|done]. apply HU; [congruence|done].
  - intros i g Hg. cbn in Hg. apply lookup_delete_Some in Hg as [Hn Hg].
    destruct (I3 i g Hg) as (j & B & C). exists j. split; [|done]. by apply HU.
  - intros i j p g Hp Hg. req_cases Hp; [congruence|by eapply I4].
  - intros i j p c Hp Hc. req_cases Hp; [done|by eapply I5].
Qed.

Lemma step_inv m m' : mux_inv m -> mux_step m m' -> mux_inv m'.
Proof.
  intros I H. revert I. destruct H as [m1 id req Hid|m1 id k Hid|m1 id k Hid|m1 id k f Hid Hf|m1 id k Hid|m1 id k Hid
    |m1 id k c Hid Hc|m1 id k o Hid|m1 f _ Hh|m1 id f Hh _|m1 why _ _|m1]; intros I.
  - unfold Request_register. destruct (requestKey req) as [k|]; [|done].
    destruct (mx_pending m1 !! k) eqn:E; [|by apply inv_register].
    apply inv_phase; [done..|congruence].
  - by eapply inv_move.
  - by eapply inv_move.
  - by apply inv_response.
  - by eapply inv_move.
  - by eapply inv_move.
  - eapply inv_move; [done..|]. cbn. congruence.
  - apply (inv_pending_delete (set_req m1 id (k, Returned o))). by apply inv_return.
  - unfold readLoop_frame. destruct (responseKey f) as [k|] eqn:HK; [|by apply inv_frame].
    destruct (mx_pending m1 !! k) as [id|] eqn:E; [by eapply inv_match|by apply inv_frame].
  - by apply inv_hand.
  - apply (inv_frame m1); [done|]. intros c Hc. cbn. by rewrite Hc.
  - apply (inv_frame m1); [done|]. intros c Hc. by rewrite Hc.
Qed.

(** ** What callers may rely on *)

Definition reachable : Mux -> Prop := rtc mux_step NewMux.

Lemma reachable_inv m : reachable m -> mux_inv m.
Proof.
  revert m. apply rtc_ind_r; [apply NewMux_inv|]. intros y z _ HS I. by eapply step_inv.
Qed.

(** A call is in flight until its deferred delete ran. *)
Definition in_flight (p : phase) : bool := match p with Returned _ => false | _ => true end.
Definition expecting (p : phase) : bool := match p with Registered | Waiting => true | _ => false end.

(** No two calls in flight share a key. *)
Definition distinct_keys (m : Mux) : Prop := forall i j k p q,
  mx_reqs m !! i = Some (k, p) -> mx_reqs m !! j = Some (k, q) ->
  in_flight p = true -> in_flight q = true -> i = j.

(** Request [id] is reachable by its answer: it is in the table, or a frame
    for it is in the reader's hand or in its channel. *)
Definition served (m : Mux) (id : nat) (k : bytes) : Prop :=
  mx_pending m !! k = Some id \/ (exists f, mx_hand m = Some (id, f)) \/ is_Some (mx_chans m !! id).

Definition all_served (m : Mux) : Prop := forall id k p,
  mx_reqs m !! id = Some (k, p) -> expecting p = true -> served m id k.

Lemma served_move m id k p p' : all_served m -> mx_reqs m !! id = Some (k, p) ->
  (expecting p' = true -> expecting p = true) -> all_served (set_req m id (k, p')).
Proof. intros HS Hid He i j q Hq Hx. req_cases Hq; eapply HS; eauto. Qed.

Lemma step_served m m' : mux_inv m -> distinct_keys m -> all_served m -> mux_step m m' ->
  all_served m'.
Proof.
  intros I HD HS H. revert I HD HS. destruct H as [m1 id req Hid|m1 id k Hid|m1 id k Hid
    |m1 id k f Hid Hf|m1 id k Hid|m1 id k Hid|m1 id k c Hid Hc|m1 id k o Hid|m1 f _ Hh|m1 id f Hh _
    |m1 why _ _|m1]; intros I HD HS; try (by eapply served_move); try done.
  - unfold Request_register. destruct (requestKey req) as [k|]; [|done].
    destruct (mx_pending m1 !! k) eqn:E.
    + intros i j q Hq Hx. req_cases Hq; [done|by eapply HS].
    + intros i j q Hq Hx. req_cases Hq; [left; cbn; by rewrite lookup_insert_eq|].
      destruct (HS _ _ _ Hq Hx) as [A|[A|A]]; [left|by right; left|by right; right].
      cbn. rewrite lookup_insert_ne; [done|congruence].
  - intros i j q Hq Hx. req_cases Hq; [done|].
    destruct (HS _ _ _ Hq Hx) as [A|[A|A]]; [by left|by right; left|right; right].
    cbn. by rewrite lookup_delete_ne.
  - intros i j q Hq Hx. req_cases Hq; [done|].
    destruct (HS _ _ _ Hq Hx) as [A|[A|A]]; [left|by right; left|by right; right].
    cbn. rewrite lookup_delete_ne; [done|]. intros <-.
    destruct (HD id i k (Leaving o) q); try done. by destruct q.
  - unfold readLoop_frame. destruct (responseKey f) as [k|] eqn:HK; [|done].
    destruct (mx_pending m1 !! k) as [id|] eqn:E; [|done]. intros i j q Hq Hx.
    destruct (HS _ _ _ Hq Hx) as [A|[[g A]|A]]; [|congruence|by right; right].
    destruct (decide (j = k)) as [->|Hn].
    + right; left. exists f. cbn. congruence.
    + left. cbn. by rewrite lookup_delete_ne.
  - intros i j q Hq Hx. destruct (HS _ _ _ Hq Hx) as [A|[[g A]|A]]; [by left| |].
    + right; right. cbn. assert (i = id) as -> by congruence. rewrite lookup_insert_eq. eauto.
    + right; right. cbn. destruct (decide (i = id)) as [->|]; [rewrite lookup_insert_eq; eauto|].
      by rewrite lookup_insert_ne.
Qed.

(** Executions in which no key is reused while a call with it is in flight. *)
Definition reachable_distinct : Mux -> Prop :=
  rtc (fun a b => mux_step a b /\ distinct_keys b) NewMux.

(** C33: In every reachable state of the mux a caller that got a response got a
    frame whose response key is the key it registered; the reader's send on a
    request's channel never blocks (the one-slot buffer is empty when it holds
    a frame for that request); and callers released by the shutdown all report
    the one cause that stopped the mux first. *)
Theorem mux_correlation (m : Mux) (H : reachable m) :
  (forall id k f, mx_reqs m !! id = Some (k, Returned (Response f)) -> responseKey f = Some k) /\
  (forall id f, mx_hand m = Some (id, f) -> mx_chans m !! id = None) /\
  (forall id k c, mx_reqs m !! id = Some (k, Returned (Closed c)) -> mx_done m = Some c).
Proof.
  apply reachable_inv in H as I. split_and!.
  - intros id k f Hf. by eapply (mi_answer m I).
  - intros id f Hf. by apply (mi_hand m I) in Hf as [? _].
  - intros id k c Hc. by eapply (mi_closed m I).
Qed.

(** C34: As long as no key is reused while a call with that key is still in
    flight (its deferred delete included), no call is orphaned: every call
    that waits for its response is in the table, or its frame is already in
    the reader's hand or in its channel, so the next frame with its key that
    the reader takes is the one handed to it. *)
Theorem mux_no_orphan (m : Mux) (H : reachable_distinct m) (id : nat) (k : bytes) (f : bytes)
    (Hw : mx_reqs m !! id = Some (k, Waiting)) (Hf : responseKey f = Some k) :
  served m id k /\
  (mx_hand m = None -> mx_chans m !! id = None ->
   mx_hand (readLoop_frame m f) = Some (id, f) /\ mx_unsolicited (readLoop_frame m f) = mx_unsolicited m).
Proof.
  assert (mux_inv m /\ distinct_keys m /\ all_served m) as (I & HD & HS).
  { clear Hw. revert m H. apply rtc_ind_r; [split_and!; [apply NewMux_inv|done..]|].
    intros y z _ [HS HD] (I & D & S). split_and!; [by eapply step_inv|done|by eapply step_served]. }
  specialize (HS _ _ _ Hw eq_refl) as [A|[[g A]|[g A]]].
  - split; [by left|]. intros _ _. unfold readLoop_frame. by rewrite Hf, A.
  - split; [right; left; eauto|]. congruence.
  - split; [right; right; eauto|]. congruence.
Qed.

(** One call runs to the point where it holds its response and its deferred
    delete is still to come; a second call with the same key is then admitted,
    because the reader took the first one's entry out; the first call's delete
    removes the second one's entry. *)
Definition reuse_trace (req f k : bytes) : list (Mux -> Mux) :=
  [fun m => Request_register m 0 req; fun m => set_req m 0 (k, Waiting); fun m => readLoop_frame m f;
   fun m => set_chan m (<[0%nat := f]> (mx_chans m)) None;
   fun m => set_req (set_chan m (delete 0%nat (mx_chans m)) (mx_hand m)) 0 (k, Leaving (Response f));
   fun m => Request_register m 1 req; fun m => set_req m 1 (k, Waiting);
   fun m => set_pending (set_req m 0 (k, Returned (Response f))) (delete k (mx_pending m))].

Definition run_trace (t : list (Mux -> Mux)) (m : Mux) : Mux := fold_left (fun m g => g m) t m.

Lemma register_fresh m id req k : requestKey req = Some k -> mx_pending m !! k = None ->
  Request_register m id req = set_pending (set_req m id (k, Registered)) (<[k := id]> (mx_pending m)).
Proof. intros H1 H2. unfold Request_register. by rewrite H1, H2. Qed.

Lemma frame_match m f k id : responseKey f = Some k -> mx_pending m !! k = Some id ->
  readLoop_frame m f = set_chan (set_pending m (delete k (mx_pending m))) (mx_chans m) (Some (id, f)).
Proof. intros H1 H2. unfold readLoop_frame. by rewrite H1, H2. Qed.

Lemma frame_unsolicited m f k : responseKey f = Some k -> mx_pending m !! k = None ->
  readLoop_frame m f = deliverUnsolicited m f.
Proof. intros H1 H2. unfold readLoop_frame. by rewrite H1, H2. Qed.

Fixpoint trace_ok (t : list (Mux -> Mux)) (m : Mux) : Prop :=
  match t with [] => True | g :: t' => mux_step m (g m) /\ trace_ok t' (g m) end.

Lemma trace_reachable t m : trace_ok t m -> rtc mux_step m (run_trace t m).
Proof.
  revert m. induction t as [|g t IH]; intros m H; [apply rtc_refl|]. destruct H as [H1 H2].
  eapply rtc_l; [exact H1|]. by apply IH.
Qed.

Lemma reuse_trace_ok req f k : requestKey req = Some k -> responseKey f = Some k ->
  trace_ok (reuse_trace req f k) NewMux.
Proof.
  intros Hreq Hresp. cbn [trace_ok reuse_trace]. split; [by apply step_start|].
  rewrite (register_fresh NewMux 0 req k) by done. split; [by apply step_sent; vm_compute|].
  split; [by apply step_frame|]. rewrite (frame_match _ f k 0) by (done || cbn; by rewrite lookup_insert_eq).
  split; [by apply step_hand|]. split; [by apply select_response|]. split; [by apply step_start|].
  rewrite (register_fresh _ 1 req k) by (done || cbn; by rewrite lookup_delete_eq).
  split; [by apply step_sent; vm_compute|]. split; [by apply step_cleanup; vm_compute|done].
Qed.

(** C35: The deferred delete of [Request] removes the key, not the caller's own
    entry: whenever a request and its response share a key, there is an
    execution in which a second call reusing that key waits with no entry in
    the table, so that its response is treated as unsolicited. *)
Theorem mux_reused_key_orphaned (req f k : bytes)
    (Hreq : requestKey req = Some k) (Hresp : responseKey f = Some k) :
  let m := run_trace (reuse_trace req f k) NewMux in
  reachable m /\ mx_reqs m !! 1%nat = Some (k, Waiting) /\ mx_done m = None /\ ~ served m 1 k /\
  mx_unsolicited (readLoop_frame m f) = [f].
Proof.
  split; [by apply trace_reachable, reuse_trace_ok|]. cbn -[NewMux].
  rewrite (register_fresh NewMux 0 req k) by done.
  rewrite (frame_match _ f k 0) by (done || cbn; by rewrite lookup_insert_eq).
  cbn. rewrite delete_insert_eq, delete_empty.
  rewrite (register_fresh _ 1 req k) by done. cbn. split_and!.
  - done.
  - done.
  - intros [H|[[g H]|[g H]]]; [cbn in H; by rewrite lookup_delete_eq in H|by vm_compute in H..].
  - rewrite (frame_unsolicited _ f k); [done|done|]. cbn. by rewrite lookup_delete_eq.
Qed.
End Mux.

(** The witnesses use one keyer for both directions: the frame itself. *)
Definition frame_key (f : bytes) : option bytes := Some f.

Lemma mux_correlation_witness :
  let m := run_trace (reuse_trace frame_key frame_key [x31] [x31] [x31]) NewMux in
  (exists f, mx_reqs m !! 0%nat = Some ([x31], Returned (Response f))) /\
  (forall id k f, mx_reqs m !! id = Some (k, Returned (Response f)) -> frame_key f = Some k).
Proof.
  split; [by eexists|]. eapply (mux_correlation frame_key frame_key).
  by apply trace_reachable, reuse_trace_ok.
Defined.

Lemma mux_no_orphan_witness :
  let m := set_req (Request_register frame_key NewMux 0 [x31]) 0 ([x31], Waiting) in
  served m 0 [x31] /\ mx_hand (readLoop_frame frame_key m [x31]) = Some (0%nat, [x31]).
Proof.
  assert (forall id p t, distinct_keys (mkMux t {[ id := ([x31], p) ]} ∅ None [] true None)) as HD.
  { intros id p t i j k q r Hi Hj _ _. cbn in Hi, Hj. apply lookup_singleton_Some in Hi as [<- _].
    by apply lookup_singleton_Some in Hj as [<- _]. }
  assert (reachable_distinct frame_key frame_key
    (set_req (Request_register frame_key NewMux 0 [x31]) 0 ([x31], Waiting))) as HR.
  { eapply rtc_r; [|split; [by apply (step_sent _ _ _ 0 [x31]); vm_compute|apply (HD 0%nat)]].
    eapply rtc_r; [apply rtc_refl|]. split; [by apply step_start|]. apply (HD 0%nat). }
  destruct (mux_no_orphan frame_key frame_key _ HR 0%nat [x31] [x31] eq_refl eq_refl) as [A B].
  split; [exact A|]. by apply B.
Defined.

Lemma mux_reused_key_orphaned_witness :
  ~ served (run_trace (reuse_trace frame_key frame_key [x31] [x31] [x31]) NewMux) 1 [x31].
Proof. by apply (mux_reused_key_orphaned frame_key frame_key [x31] [x31] [x31]). Defined.
