(* ===== verification/Flow.v ===== *)
(** * The transaction manager ([flow/])

    A flow drives an exchange through stages in two phases.  The stages, the
    context, the clock and the message store are the caller's: they act on a
    world [W] that the model does not look into.  What the flow does is observed
    as the list of calls it makes. *)

From S2P Require Import Prelude Errors Path.

(** ** Data *)

(** The errors of a flow; a stage's own errors are opaque. *)
Inductive flow_error :=
| ErrNoEntry
| ErrUnknownGroup (name : bytes)
| ErrTooManyStages
| ErrAborted
| StageError (why : bytes)
| CommitError (stage : bytes) (cause : flow_error)
| JoinedErrors (errs : list flow_error).

Inductive action := actContinue | actSkip | actDone.

Record Result := mkResult { r_action : action; r_groups : list bytes }.
Definition Continue : Result := mkResult actContinue [].
Definition Skip : Result := mkResult actSkip [].
Definition Route (groups : list bytes) : Result := mkResult actContinue groups.
Definition Done : Result := mkResult actDone [].

Record StageTiming := mkTiming { tm_Stage : bytes; tm_Phase : bytes; tm_Dur : Z }.

Inductive EventKind := EventBegin | EventCommitted | EventAborted | EventIdempotentHit.
Record Event := mkEvent { ev_Kind : EventKind; ev_Err : option flow_error }.

(** What an idempotency store offers; [M] is the type of messages. *)
Class IdempotencyStore (W M : Type) := {
  Lookup : bytes -> W -> res error (option (option M)) * W;
  Store : bytes -> option M -> W -> res error unit * W;
}.

(** What a flow relies on: a stored key is found, with a response exactly when
    one was stored. *)
Class IdempotencyLaws (W M : Type) `{IdempotencyStore W M} := {
  store_then_lookup : forall k (m : option M) w w1, Store k m w = (Ok tt, w1) ->
    exists (r : option M) w2, Lookup k w1 = (Ok (Some r), w2) /\ (is_Some r <-> is_Some m);
}.

Section Flow.
Context {W M prop : Type} `{!IdempotencyStore W M}.
(** [ctx.Err()] and [time.Now()], read off the world. *)
Context (ctx_err : W -> option flow_error) (now : W -> Z).

Record Exchange := mkExchange {
  ex_ID : bytes;
  ex_Request : option M;
  ex_Response : option M;
  ex_props : gmap bytes prop;
  ex_timings : list StageTiming;
  ex_err : option flow_error;
  ex_aborted : bool;
}.

Definition NewExchange (id : bytes) (req : option M) : Exchange := mkExchange id req None ∅ [] None false.

Definition ex_Set (e : Exchange) (key : bytes) (v : prop) : Exchange :=
  mkExchange (ex_ID e) (ex_Request e) (ex_Response e) (<[key := v]> (ex_props e)) (ex_timings e) (ex_err e) (ex_aborted e).
Definition ex_Get (e : Exchange) (key : bytes) : option prop := ex_props e !! key.

Definition Abort (e : Exchange) (cause : option flow_error) : Exchange :=
  mkExchange (ex_ID e) (ex_Request e) (ex_Response e) (ex_props e) (ex_timings e)
    (match cause with Some c => Some c | None => ex_err e end) true.

Definition record (e : Exchange) (stage phase : bytes) (d : Z) : Exchange :=
  mkExchange (ex_ID e) (ex_Request e) (ex_Response e) (ex_props e) (ex_timings e ++ [mkTiming stage phase d])
    (ex_err e) (ex_aborted e).

Definition set_Response (e : Exchange) (r : option M) : Exchange :=
  mkExchange (ex_ID e) (ex_Request e) r (ex_props e) (ex_timings e) (ex_err e) (ex_aborted e).

(** [ex.aborted = true; ex.err = cause]. *)
Definition set_aborted (e : Exchange) (cause : flow_error) : Exchange :=
  mkExchange (ex_ID e) (ex_Request e) (ex_Response e) (ex_props e) (ex_timings e) (Some cause) true.

(** The interface [Stage], with the optional [Committer] and [Aborter]. *)
Record Stage := mkStage {
  st_Name : bytes;
  st_Prepare : Exchange -> W -> Result * option flow_error * Exchange * W;
  st_Commit : option (Exchange -> W -> option flow_error * Exchange * W);
  st_Abort : option (Exchange -> W -> option flow_error * Exchange * W);
}.

Definition Func (name : bytes) (fn : Exchange -> W -> Result * option flow_error * Exchange * W) : Stage :=
  mkStage name fn None None.

Record Flow := mkFlow {
  fl_groups : gmap bytes (list Stage);
  fl_entry : bytes;
  fl_journal : bool;
  fl_profile : bool;
  fl_maxStages : Z;
  fl_idemKey : option (Exchange -> option bytes);
}.

Definition NewFlow (opts : list (Flow -> Flow)) : Flow :=
  fold_left (fun f o => o f) opts (mkFlow ∅ [] false false 1024 None).

Definition Group (f : Flow) (name : bytes) (stages : list Stage) : Flow :=
  mkFlow (<[name := default [] (fl_groups f !! name) ++ stages]> (fl_groups f))
    (match fl_entry f with [] => name | e => e end)
    (fl_journal f) (fl_profile f) (fl_maxStages f) (fl_idemKey f).

(** The calls a run makes, as an observer sees them. *)
Inductive call :=
| CallPrepare (st : Stage)
| CallCommit (st : Stage)
| CallAbort (st : Stage)
| CallJournal (ev : Event).

Record run_state := mkRun { rs_ex : Exchange; rs_world : W; rs_calls : list call }.

(** ** Operations *)

Definition resolve (f : Flow) (name : bytes) : list Stage + flow_error :=
  match fl_groups f !! name with Some g => inl g | None => inr (ErrUnknownGroup name) end.

Fixpoint appendGroups (f : Flow) (work : list Stage) (names : list bytes) : list Stage * option flow_error :=
  match names with
  | [] => (work, None)
  | name :: names =>
      match resolve f name with
      | inr e => (work, Some e)
      | inl g => appendGroups f (work ++ g) names
      end
  end.

Definition emit (f : Flow) (ev : Event) (s : run_state) : run_state :=
  if fl_journal f then mkRun (rs_ex s) (rs_world s) (rs_calls s ++ [CallJournal ev]) else s.

Definition timed (f : Flow) (st : Stage) (phase : bytes) (start : Z) (ex : Exchange) (w : W) : Exchange :=
  if fl_profile f then record ex (st_Name st) phase (now w - start) else ex.

Definition prepare (f : Flow) (st : Stage) (s : run_state) : Result * option flow_error * run_state :=
  let start := now (rs_world s) in
  let '(r, e, ex, w) := st_Prepare st (rs_ex s) (rs_world s) in
  (r, e, mkRun (timed f st (go "prepare") start ex w) w (rs_calls s ++ [CallPrepare st])).

(** The prepare loop.  [rest] is [work[i:]] and [budget] is [maxStages - i], so
    that [i >= maxStages] is [budget = 0]. *)
Fixpoint prepare_loop (budget : nat) (f : Flow) (rest joined : list Stage) (s : run_state)
    : list Stage * option flow_error * run_state :=
  match rest with
  | [] => (joined, None, s)
  | st :: rest =>
      match budget with
      | O => (joined, Some ErrTooManyStages, s)
      | S budget =>
          match ctx_err (rs_world s) with
          | Some e => (joined, Some e, s)
          | None =>
              let '(r, e, s) := prepare f st s in
              match e with
              | Some e => (joined, Some e, s)
              | None =>
                  let joined := match r_action r with actContinue => joined ++ [st] | _ => joined end in
                  if ex_aborted (rs_ex s) then (joined, None, s) else
                  match r_action r with
                  | actDone => (joined, None, s)
                  | _ =>
                      match appendGroups f rest (r_groups r) with
                      | (_, Some e) => (joined, Some e, s)
                      | (rest, None) => prepare_loop budget f rest joined s
                      end
                  end
              end
          end
      end
  end.

(** [commitJoined]: every committer is called, in order; the errors are joined. *)
Fixpoint commitJoined (f : Flow) (joined : list Stage) (errs : list flow_error) (s : run_state) : list flow_error * run_state :=
  match joined with
  | [] => (errs, s)
  | st :: joined =>
      match st_Commit st with
      | None => commitJoined f joined errs s
      | Some commit =>
          let start := now (rs_world s) in
          let '(e, ex, w) := commit (rs_ex s) (rs_world s) in
          let s := mkRun (timed f st (go "commit") start ex w) w (rs_calls s ++ [CallCommit st]) in
          commitJoined f joined (match e with Some e => errs ++ [CommitError (st_Name st) e] | None => errs end) s
      end
  end.

(** [errors.Join]. *)
Definition join_errors (errs : list flow_error) : option flow_error :=
  match errs with [] => None | _ => Some (JoinedErrors errs) end.

(** The loop of [abortJoined], over the joined stages from the last to the first. *)
Fixpoint abort_loop (f : Flow) (stages : list Stage) (s : run_state) : run_state :=
  match stages with
  | [] => s
  | st :: stages =>
      match st_Abort st with
      | None => abort_loop f stages s
      | Some abort =>
          let start := now (rs_world s) in
          let '(_, ex, w) := abort (rs_ex s) (rs_world s) in
          abort_loop f stages (mkRun (timed f st (go "abort") start ex w) w (rs_calls s ++ [CallAbort st]))
      end
  end.

Definition abortJoined (f : Flow) (joined : list Stage) (s : run_state) : run_state := abort_loop f (rev joined) s.

(** The two phases of [Run], after the idempotency check. *)
Definition run_phases (f : Flow) (entryStages : list Stage) (idemKey : option bytes) (s : run_state)
    : res error (option flow_error) * run_state :=
  let s := emit f (mkEvent EventBegin None) s in
  let '(joined, prepErr, s) := prepare_loop (Z.to_nat (fl_maxStages f)) f entryStages [] s in
  if bool_decide (is_Some prepErr) || ex_aborted (rs_ex s) then
    let cause := match prepErr with
                 | Some e => e
                 | None => default ErrAborted (ex_err (rs_ex s))
                 end in
    let s := abortJoined f joined (mkRun (set_aborted (rs_ex s) cause) (rs_world s) (rs_calls s)) in
    (Ok (Some cause), emit f (mkEvent EventAborted (Some cause)) s)
  else
    let '(errs, s) := commitJoined f joined [] s in
    let commitErr := join_errors errs in
    let s := emit f (mkEvent EventCommitted None) s in
    match idemKey, commitErr with
    | Some k, None =>
        match Store k (ex_Response (rs_ex s)) (rs_world s) with
        | (Ok _, w) => (Ok None, mkRun (rs_ex s) w (rs_calls s))
        | (Err e, w) => (Err e, mkRun (rs_ex s) w (rs_calls s))
        | (Panic, w) => (Panic, mkRun (rs_ex s) w (rs_calls s))
        end
    | _, _ => (Ok commitErr, s)
    end.

(** [Run]: its error, or a panic of the message store; the exchange is updated in place. *)
Definition Run (f : Flow) (ex : Exchange) (w : W) : res error (option flow_error) * run_state :=
  let s := mkRun ex w [] in
  match fl_entry f with
  | [] => (Ok (Some ErrNoEntry), s)
  | entry =>
      match resolve f entry with
      | inr e => (Ok (Some e), s)
      | inl entryStages =>
          match (match fl_idemKey f with Some key => key ex | None => None end) with
          | None => run_phases f entryStages None s
          | Some k =>
              match Lookup k w with
              | (Ok (Some resp), w) => (Ok None, emit f (mkEvent EventIdempotentHit None) (mkRun (set_Response ex resp) w []))
              | (Ok None, w) => run_phases f entryStages (Some k) (mkRun ex w [])
              | (Err e, w) => (Err e, mkRun ex w [])
              | (Panic, w) => (Panic, mkRun ex w [])
              end
          end
      end
  end.

(** ** The prepare phase *)

(** The stages that the votes of [log] appended to the pipeline, in order. *)
Definition routed (f : Flow) (log : list (Stage * Result)) : list Stage :=
  concat (map (fun p => concat (map (fun n => default [] (fl_groups f !! n)) (r_groups p.2))) log).

(** The stages that voted to continue. *)
Definition voted (log : list (Stage * Result)) : list Stage :=
  omap (fun p => match r_action p.2 with actContinue => Some p.1 | _ => None end) log.

(** The state after the [Prepare] of these stages, one after the other. *)
Definition prepare_all (f : Flow) (stages : list Stage) (s : run_state) : run_state :=
  fold_left (fun s st => (prepare f st s).2) stages s.

(** [log] are votes that [Prepare] returned, without error, from [s] on. *)
Fixpoint votes_cast (f : Flow) (log : list (Stage * Result)) (s : run_state) : Prop :=
  match log with
  | [] => True
  | (st, r) :: log => (prepare f st s).1 = (r, None) /\ votes_cast f log (prepare f st s).2
  end.

(** Why a prepare phase from [s] ended in [s'], with the error it reports. *)
Inductive stop_cause (f : Flow) (budget : nat) (s s' : run_state) (log : list (Stage * Result))
    : list Stage -> list Stage -> option flow_error -> Prop :=
| stop_finished : stop_cause f budget s s' log [] [] None
| stop_done log' st r skipped : log = log' ++ [(st, r)] -> r_action r = actDone -> stop_cause f budget s s' log [] skipped None
| stop_abort skipped : ex_aborted (rs_ex s') = true -> stop_cause f budget s s' log [] skipped None
| stop_limit skipped : length log = budget -> skipped <> [] -> stop_cause f budget s s' log [] skipped (Some ErrTooManyStages)
| stop_context skipped e : ctx_err (rs_world s') = Some e -> skipped <> [] -> stop_cause f budget s s' log [] skipped (Some e)
| stop_failed st r skipped e : (prepare f st (prepare_all f (map fst log) s)).1 = (r, Some e) ->
    stop_cause f budget s s' log [st] skipped (Some e)
| stop_route log' st r name skipped : log = log' ++ [(st, r)] -> name ∈ r_groups r -> fl_groups f !! name = None ->
    stop_cause f budget s s' log [] skipped (Some (ErrUnknownGroup name)).

(** What a prepare phase that starts with the pipeline [rest] did: [log] are the
    stages that prepared, with their votes; [failed] is the stage whose [Prepare]
    returned an error, if any; [skipped] was not reached. *)
Record prepare_run (f : Flow) (budget : nat) (rest joined : list Stage) (e : option flow_error)
    (s s' : run_state) (joined' : list Stage) (log : list (Stage * Result)) (failed skipped : list Stage) : Prop := {
  pr_state : s' = prepare_all f (map fst log ++ failed) s;
  pr_votes : votes_cast f log s;
  pr_order : rest ++ routed f log = map fst log ++ failed ++ skipped;
  pr_joined : joined' = joined ++ voted log;
  pr_budget : (length log + length failed <= budget)%nat;
  pr_cause : stop_cause f budget s s' log failed skipped e;
}.

Lemma prepare_calls f st s : rs_calls (prepare f st s).2 = rs_calls s ++ [CallPrepare st].
Proof. unfold prepare. by destruct (st_Prepare st (rs_ex s) (rs_world s)) as [[[r0 e0] ex0] w0]. Qed.

Lemma prepare_all_calls f stages s : rs_calls (prepare_all f stages s) = rs_calls s ++ map CallPrepare stages.
Proof.
  revert s. induction stages as [|st stages IH]; intros s; cbn; [by rewrite app_nil_r|].
  fold (prepare_all f stages (prepare f st s).2). rewrite IH, prepare_calls, <- app_assoc. done.
Qed.

Lemma appendGroups_Ok f work names w' : appendGroups f work names = (w', None) ->
  w' = work ++ concat (map (fun n => default [] (fl_groups f !! n)) names).
Proof.
  revert work. induction names as [|n names IH]; intros work; cbn [appendGroups map concat].
  - intros [= <-]. by rewrite app_nil_r.
  - unfold resolve. destruct (fl_groups f !! n) as [g|]; [|done]. intros ->%IH. by rewrite <- app_assoc.
Qed.

Lemma routed_cons f st r log :
  routed f ((st, r) :: log) = concat (map (fun n => default [] (fl_groups f !! n)) (r_groups r)) ++ routed f log.
Proof. done. Qed.

Lemma appendGroups_Err f work names w' e : appendGroups f work names = (w', Some e) ->
  exists name, name ∈ names /\ fl_groups f !! name = None /\ e = ErrUnknownGroup name.
Proof.
  revert work. induction names as [|n names IH]; intros work; cbn [appendGroups]; [done|].
  unfold resolve. destruct (fl_groups f !! n) as [g|] eqn:E.
  - intros (name & ? & ? & ->)%IH. exists name. split_and!; [by right|done..].
  - intros [= <- <-]. exists n. split_and!; [left|done..].
Qed.

(** Nothing was prepared. *)
Lemma prepare_none f budget rest joined e s : stop_cause f budget s s [] [] rest e ->
  prepare_run f budget rest joined e s s joined [] [] rest.
Proof. intros H. split; cbn; rewrite ?app_nil_r; auto with lia. Qed.

(** One stage was prepared. *)
Lemma prepare_one f budget st rest joined e s r :
  (prepare f st s).1 = (r, None) -> stop_cause f (S budget) s (prepare f st s).2 [(st, r)] [] (rest ++ routed f [(st, r)]) e ->
  prepare_run f (S budget) (st :: rest) joined e s (prepare f st s).2 (joined ++ voted [(st, r)]) [(st, r)] []
    (rest ++ routed f [(st, r)]).
Proof. intros HV HC. split; cbn [map fst app length]; try done. lia. Qed.

Lemma stop_cause_cons f budget st r s s' log failed skipped e :
  stop_cause f budget (prepare f st s).2 s' log failed skipped e ->
  stop_cause f (S budget) s s' ((st, r) :: log) failed skipped e.
Proof.
  destruct 1 as [|log' st' r' sk -> HD|sk HA|sk HL HN|sk e HE HN|st' r' sk e HP|log' st' r' name sk -> HI HG].
  - apply stop_finished.
  - by apply (stop_done _ _ _ _ _ ((st, r) :: log') st' r').
  - by apply stop_abort.
  - apply stop_limit; [by cbn; rewrite HL|done].
  - by apply stop_context.
  - by eapply stop_failed.
  - by apply (stop_route _ _ _ _ _ ((st, r) :: log') st' r').
Qed.

Lemma prepare_more f budget st r rest joined e s s' joined' log failed skipped w' :
  (prepare f st s).1 = (r, None) ->
  w' = rest ++ concat (map (fun n => default [] (fl_groups f !! n)) (r_groups r)) ->
  prepare_run f budget w' (joined ++ voted [(st, r)]) e (prepare f st s).2 s' joined' log failed skipped ->
  prepare_run f (S budget) (st :: rest) joined e s s' joined' ((st, r) :: log) failed skipped.
Proof.
  intros HV -> [H1 H2 H3 H4 H5 H6]. split.
  - by rewrite H1.
  - done.
  - rewrite routed_cons. cbn [map fst app]. f_equal. by rewrite app_assoc.
  - rewrite H4, <- app_assoc. by unfold voted; cbn; destruct (r_action r).
  - cbn [length]. lia.
  - by apply stop_cause_cons.
Qed.

Lemma prepare_loop_run budget f rest joined s joined' e s' :
  prepare_loop budget f rest joined s = (joined', e, s') ->
  exists log failed skipped, prepare_run f budget rest joined e s s' joined' log failed skipped.
Proof.
  revert rest joined s. induction budget as [|budget IH]; intros [|st rest] joined s; cbn [prepare_loop].
  1,3: intros [= <- <- <-]; exists [], [], []; apply prepare_none, stop_finished.
  { intros [= <- <- <-]. exists [], [], (st :: rest). by apply prepare_none, stop_limit. }
  destruct (ctx_err (rs_world s)) as [ce|] eqn:EX.
  { intros [= <- <- <-]. exists [], [], (st :: rest). by apply prepare_none, stop_context. }
  destruct (prepare f st s) as [[r pe] s1] eqn:EP.
  assert ((prepare f st s).1 = (r, pe)) as HV by (by rewrite EP).
  assert (s1 = (prepare f st s).2) as -> by (by rewrite EP). clear EP.
  destruct pe as [pe|].
  { intros [= <- <- <-]. exists [], [st], rest. split; cbn; rewrite ?app_nil_r; auto with lia. by eapply stop_failed. }
  assert (match r_action r with actContinue => joined ++ [st] | _ => joined end = joined ++ voted [(st, r)]) as ->
    by (unfold voted; cbn; destruct (r_action r); cbn; by rewrite ?app_nil_r).
  destruct (ex_aborted (rs_ex (prepare f st s).2)) eqn:EA.
  { intros [= <- <- <-]. eexists _, _, _. apply prepare_one; [done|]. by apply stop_abort. }
  assert (forall w' g, appendGroups f rest (r_groups r) = (w', g) ->
    match g with
    | Some e => (joined ++ voted [(st, r)], Some e, (prepare f st s).2)
    | None => prepare_loop budget f w' (joined ++ voted [(st, r)]) (prepare f st s).2
    end = (joined', e, s') ->
    exists log failed skipped, prepare_run f (S budget) (st :: rest) joined e s s' joined' log failed skipped) as HG.
  { intros w' [ge|] EG.
    - intros [= <- <- <-]. eexists _, _, _. apply prepare_one; [done|].
      apply appendGroups_Err in EG as (name & ? & ? & ->). by apply (stop_route _ _ _ _ _ [] st r).
    - intros H'. apply IH in H' as (log & failed & skipped & HR). exists ((st, r) :: log), failed, skipped.
      eapply prepare_more; [done|by apply appendGroups_Ok|done]. }
  destruct (r_action r) eqn:ER.
  3:{ intros [= <- <- <-]. eexists _, _, _. apply prepare_one; [done|]. by apply (stop_done _ _ _ _ _ [] st r). }
  all: destruct (appendGroups f rest (r_groups r)) as [w' g] eqn:EG; intros H'; eapply HG; [done|by destruct g].
Qed.

(** ** The second phase *)

(** The committers of the joined stages, in prepare order. *)
Definition commits (joined : list Stage) : list call :=
  omap (fun st => match st_Commit st with Some _ => Some (CallCommit st) | None => None end) joined.
(** The aborters of the joined stages, in reverse prepare order. *)
Definition aborts (joined : list Stage) : list call :=
  omap (fun st => match st_Abort st with Some _ => Some (CallAbort st) | None => None end) (rev joined).
Definition journalled (f : Flow) (ev : Event) : list call := if fl_journal f then [CallJournal ev] else [].

Lemma emit_calls f ev s : rs_calls (emit f ev s) = rs_calls s ++ journalled f ev.
Proof. unfold emit, journalled. destruct (fl_journal f); [done|]. by rewrite app_nil_r. Qed.

Lemma emit_ex f ev s : rs_ex (emit f ev s) = rs_ex s /\ rs_world (emit f ev s) = rs_world s.
Proof. unfold emit. by destruct (fl_journal f). Qed.

(** What the committers answered, called one after the other from [s] on. *)
Fixpoint commits_answered (f : Flow) (answers : list (Stage * option flow_error)) (s : run_state) : Prop :=
  match answers with
  | [] => True
  | (st, e) :: answers => exists commit ex w, st_Commit st = Some commit /\ commit (rs_ex s) (rs_world s) = (e, ex, w) /\
      commits_answered f answers (mkRun (timed f st (go "commit") (now (rs_world s)) ex w) w (rs_calls s ++ [CallCommit st]))
  end.

(** The errors among them, each with the name of its stage. *)
Definition commit_errors (answers : list (Stage * option flow_error)) : list flow_error :=
  omap (fun p => CommitError (st_Name p.1) <$> p.2) answers.

Lemma commitJoined_run f joined errs s errs' s' : commitJoined f joined errs s = (errs', s') ->
  rs_calls s' = rs_calls s ++ commits joined /\
  exists answers, commits joined = map (fun p => CallCommit p.1) answers /\ commits_answered f answers s /\ errs' = errs ++ commit_errors answers.
Proof.
  revert errs s. induction joined as [|st joined IH]; intros errs s; cbn [commitJoined].
  { intros [= <- <-]. rewrite app_nil_r. split; [done|]. exists []. by rewrite app_nil_r. }
  unfold commits. cbn. destruct (st_Commit st) as [commit|] eqn:EC.
  2:{ intros H'. apply IH in H' as (HC & answers & HA). rewrite HC. split; [done|]. by exists answers. }
  destruct (commit (rs_ex s) (rs_world s)) as [[e ex] w] eqn:EX. intros H'. apply IH in H' as (HC & answers & HM & HA & ->). cbn [rs_calls] in HC.
  split; [by rewrite HC, <- app_assoc|]. exists ((st, e) :: answers). split; [cbn; f_equal; exact HM|]. split.
  - cbn [commits_answered]. by exists commit, ex, w.
  - unfold commit_errors. cbn. destruct e as [e|]; cbn; [by rewrite <- app_assoc|done].
Qed.

Lemma abort_loop_calls f stages s : rs_calls (abort_loop f stages s) =
  rs_calls s ++ omap (fun st => match st_Abort st with Some _ => Some (CallAbort st) | None => None end) stages.
Proof.
  revert s. induction stages as [|st stages IH]; intros s; cbn; [by rewrite app_nil_r|].
  destruct (st_Abort st) as [abort|]; [|apply IH].
  destruct (abort (rs_ex s) (rs_world s)) as [[e ex] w]. rewrite IH. cbn. by rewrite <- app_assoc.
Qed.

(** The request is not a duplicate; [w'] is the world after the lookup. *)
Definition not_replayed (f : Flow) (ex : Exchange) (w w' : W) : Prop :=
  match (match fl_idemKey f with Some key => key ex | None => None end) with
  | None => w' = w
  | Some k => Lookup k w = (Ok None, w')
  end.

Lemma Run_phases_eq f ex w w' entry : fl_entry f <> [] -> resolve f (fl_entry f) = inl entry -> not_replayed f ex w w' ->
  Run f ex w = run_phases f entry (match fl_idemKey f with Some key => key ex | None => None end) (mkRun ex w' []).
Proof.
  intros HE HR HN. unfold Run, not_replayed in *. destruct (fl_entry f) as [|b bs]; [done|]. rewrite HR.
  destruct (match fl_idemKey f with Some key => key ex | None => None end) as [k|]; [by rewrite HN|by subst].
Qed.

(** Why the exchange is rolled back: the error that ended the preparation, or else
    the cause given to [Abort], or [ErrAborted]. *)
Definition abort_cause (prepErr : option flow_error) (ex : Exchange) : flow_error :=
  match prepErr with Some e => e | None => match ex_err ex with Some e => e | None => ErrAborted end end.

(** What the second phase, from [s] on, did with the joined stages. *)
Inductive ending (f : Flow) (joined : list Stage) (prepErr : option flow_error) (s : run_state)
    (r : res error (option flow_error)) : list call -> Prop :=
| rolled_back : is_Some prepErr \/ ex_aborted (rs_ex s) = true -> r = Ok (Some (abort_cause prepErr (rs_ex s))) ->
    ending f joined prepErr s r (aborts joined ++ journalled f (mkEvent EventAborted (Some (abort_cause prepErr (rs_ex s)))))
| committed answers : prepErr = None -> ex_aborted (rs_ex s) = false ->
    commits joined = map (fun p => CallCommit p.1) answers -> commits_answered f answers s ->
    (forall o, r = Ok o -> o = join_errors (commit_errors answers)) ->
    ending f joined prepErr s r (commits joined ++ journalled f (mkEvent EventCommitted None)).

Lemma run_phases_run f entry key s0 r s' : run_phases f entry key s0 = (r, s') ->
  exists joined prepErr log failed skipped s1 second,
    prepare_run f (Z.to_nat (fl_maxStages f)) entry [] prepErr (emit f (mkEvent EventBegin None) s0) s1 joined log failed skipped /\
    rs_calls s' = rs_calls s1 ++ second /\ ending f joined prepErr s1 r second.
Proof.
  unfold run_phases. destruct (prepare_loop _ f entry [] _) as [[joined prepErr] s1] eqn:EP.
  apply prepare_loop_run in EP as (log & failed & skipped & HR).
  destruct (bool_decide (is_Some prepErr) || ex_aborted (rs_ex s1)) eqn:EB.
  - intros [= <- <-]. eexists joined, prepErr, log, failed, skipped, s1, _. split_and!; [done| |].
    + unfold abortJoined. rewrite emit_calls, abort_loop_calls. cbn [rs_calls]. by rewrite <- app_assoc.
    + apply rolled_back; [|done]. apply orb_prop in EB as [EB|EB]; [left; by apply bool_decide_eq_true in EB|by right].
  - apply orb_false_elim in EB as [EN EA]. apply bool_decide_eq_false, eq_None_not_Some in EN. subst prepErr.
    destruct (commitJoined f joined [] s1) as [errs s2] eqn:EC. apply commitJoined_run in EC as (HC & answers & HM & HA & ->).
    cbn [app] in *. intros H'. eexists joined, None, log, failed, skipped, s1, _. split_and!; [done| |].
    2:{ eapply (committed _ _ _ _ _ answers); [done|done|done|done|]. intros o Ho. subst r. destruct key as [k|]; [|by inversion H'].
        destruct (join_errors (commit_errors answers)) eqn:EJ; [by inversion H'|].
        destruct (Store k _ _) as [[u|e|] w]; by inversion H'. }
    rewrite app_assoc, <- HC. destruct key as [k|]; [|injection H' as <- <-; by rewrite emit_calls].
    destruct (join_errors (commit_errors answers)) eqn:EJ; [injection H' as <- <-; by rewrite emit_calls|].
    destruct (Store k _ _) as [[u|e|] w]; injection H' as <- <-; cbn; by rewrite emit_calls.
Qed.

(** C37: two-phase processing.  A run that is not a replay prepares the entry
    group and the groups the votes route to, in queue order, at most
    [maxStages] stages, and stops early only for a vote [Done], an abort, an
    error of a stage, the context, an unknown group or the limit.  Then either
    it commits: it calls every committer that joined (voted to continue), in
    prepare order, once, and no aborter, and returns the errors they answered
    with, joined, or none; or it rolls back: it calls every aborter that joined,
    in reverse order, once, and no committer, and returns the cause: the error
    that ended the preparation, else the error given to [Abort], else
    [ErrAborted].  It rolls back exactly when preparing failed or the exchange was
    marked aborted.  With a journal the run is recorded as begun, and then as
    aborted with the cause, or as committed; the code records a commit also when
    committers failed, although the event is documented to mark a successful
    commit pass. *)
Theorem Run_two_phase f ex w w' entry r s :
  fl_entry f <> [] -> resolve f (fl_entry f) = inl entry -> not_replayed f ex w w' -> Run f ex w = (r, s) ->
  exists log failed skipped prepErr second,
    let s0 := emit f (mkEvent EventBegin None) (mkRun ex w' []) in
    let s1 := prepare_all f (map fst log ++ failed) s0 in
    rs_calls s = journalled f (mkEvent EventBegin None) ++ map CallPrepare (map fst log ++ failed) ++ second /\
    entry ++ routed f log = map fst log ++ failed ++ skipped /\ votes_cast f log s0 /\
    (length log + length failed <= Z.to_nat (fl_maxStages f))%nat /\
    stop_cause f (Z.to_nat (fl_maxStages f)) s0 s1 log failed skipped prepErr /\
    ending f (voted log) prepErr s1 r second.
Proof.
  intros HE HR HN. rewrite (Run_phases_eq f ex w w' entry HE HR HN).
  intros (joined & prepErr & log & failed & skipped & s1 & second & [H1 H2 H3 H4 H5 H6] & HC & HG)%run_phases_run.
  exists log, failed, skipped, prepErr, second. cbn zeta. rewrite <- H1. cbn [app] in H4. subst joined.
  split_and!; try done. rewrite HC, H1, prepare_all_calls, emit_calls. cbn [rs_calls app]. by rewrite <- app_assoc.
Qed.

(** A duplicate is answered from the store.  After a run that committed
    without error, a second run whose key is the same calls no stage, returns
    no error, and answers with the stored response. *)
Theorem Run_idempotent `{!IdempotencyLaws W M} f key ex ex2 w w' k s :
  fl_idemKey f = Some key -> key ex = Some k -> key ex2 = Some k ->
  fl_entry f <> [] -> not_replayed f ex w w' -> Run f ex w = (Ok None, s) ->
  exists resp s2, Run f ex2 (rs_world s) = (Ok None, s2) /\ rs_calls s2 = journalled f (mkEvent EventIdempotentHit None) /\
    ex_Response (rs_ex s2) = resp /\ (is_Some resp <-> is_Some (ex_Response (rs_ex s))).
Proof.
  intros HK H1 H2 HE HN HRun. destruct (resolve f (fl_entry f)) as [entry|e] eqn:ER.
  2:{ unfold Run in HRun. destruct (fl_entry f); [done|]. by rewrite ER in HRun. }
  rewrite (Run_phases_eq f ex w w' entry HE ER HN), HK, H1 in HRun. unfold run_phases in HRun.
  destruct (prepare_loop _ f entry [] _) as [[joined prepErr] s1].
  destruct (_ || _); [done|]. destruct (commitJoined f joined [] s1) as [errs s2].
  destruct (join_errors errs) eqn:EJ; [done|].
  destruct (Store k _ _) as [[[]|e|] w1] eqn:ES; [|done..]. injection HRun as <-. cbn [rs_world rs_ex].
  destruct (store_then_lookup k _ _ _ ES) as (resp & w2 & HL & HS).
  exists resp, (emit f (mkEvent EventIdempotentHit None) (mkRun (set_Response ex2 resp) w2 [])).
  unfold Run. destruct (fl_entry f) as [|b bs] eqn:EE; [done|]. rewrite ER, HK, H2, HL. split_and!; [done| | |done].
  - by rewrite emit_calls.
  - by destruct (emit_ex f (mkEvent EventIdempotentHit None) (mkRun (set_Response ex2 resp) w2 [])) as [-> _].
Qed.
End Flow.
