(* ===== verification/Idempotency.v ===== *)
(** * The in-memory idempotency store ([flow/idempotency.go])

    [MemoryStore] keeps clones of responses.  It implements the interface the
    transaction manager relies on, and inherits what [Clone] loses. *)

From S2P Require Import Prelude Errors Strconv Bitmap Path Schema Value FieldCodec Message Engine Layout Invariant Access Store EndToEnd Clone Flow.

(** The world of a process with a message store and an idempotency store. *)
Record MemWorld := mkMemWorld { mw_heap : heap; mw_resp : gmap bytes (option loc) }.

Definition MemoryLookup (k : bytes) (w : MemWorld) : res error (option (option loc)) * MemWorld :=
  match mw_resp w !! k with
  | None => (Ok None, w)
  | Some None => (Ok (Some None), w)
  | Some (Some l) =>
      match Clone l (mw_heap w) with
      | (Ok l', h) => (Ok (Some (Some l')), mkMemWorld h (mw_resp w))
      | (Err e, h) => (Err e, mkMemWorld h (mw_resp w))
      | (Panic, h) => (Panic, mkMemWorld h (mw_resp w))
      end
  end.

Definition MemoryStore (k : bytes) (resp : option loc) (w : MemWorld) : res error unit * MemWorld :=
  match resp with
  | None => (Ok tt, mkMemWorld (mw_heap w) (<[k := None]> (mw_resp w)))
  | Some l =>
      match Clone l (mw_heap w) with
      | (Ok l', h) => (Ok tt, mkMemWorld h (<[k := Some l']> (mw_resp w)))
      | (Err e, h) => (Err e, mkMemWorld h (mw_resp w))
      | (Panic, h) => (Panic, mkMemWorld h (mw_resp w))
      end
  end.

#[export] Instance memory_store : IdempotencyStore MemWorld loc :=
  { Flow.Lookup := MemoryLookup; Flow.Store := MemoryStore }.

(** ** A clone can be cloned *)

Lemma nested_app h k n l : nested h n l -> nested (h ++ k) n l.
Proof.
  revert l. induction n as [|n IH]; intros l HN; [done|]. destruct HN as (m & Hl & HS). exists m.
  split; [by apply lookup_app_l_Some|]. auto.
Qed.

Lemma clone_slots_nested n (clone : loc -> ST loc) ss h ss' h' :
  (forall sub g l' g', clone sub g = (Ok l', g') -> exists k, g' = g ++ k /\ nested g' n l') ->
  clone_slots clone ss h = (Ok ss', h') ->
  exists k, h' = h ++ k /\ forall sub, sub ∈ omap (fun s => v_sub (sl_v s)) ss' -> nested h' n sub.
Proof.
  intros HC. revert h ss' h'. induction ss as [|s ss IH]; intros h ss' h'; cbn [clone_slots].
  { intros [= <- <-]. exists []. rewrite app_nil_r. split; [done|]. intros sub. cbn. by rewrite elem_of_nil. }
  unfold sbind. destruct (v_sub (sl_v s)) as [sub|] eqn:EV.
  - destruct (clone sub h) as [[l'|e|] h1] eqn:E1; [|done..]. apply HC in E1 as (k1 & -> & N1). cbn [sret].
    destruct (clone_slots clone ss (h ++ k1)) as [[ss2|e|] h2] eqn:E2; [|done..]. intros [= <- <-].
    apply IH in E2 as (k2 & -> & N2). exists (k1 ++ k2). split; [by rewrite app_assoc|].
    intros x. cbn. rewrite elem_of_cons. intros [->|Hx]; [by apply nested_app|by apply N2].
  - cbn [sret]. destruct (clone_slots clone ss h) as [[ss2|e|] h2] eqn:E2; [|done..]. intros [= <- <-].
    apply IH in E2 as (k2 & -> & N2). exists k2. split; [done|]. intros x. cbn. rewrite EV. apply N2.
Qed.

Lemma clone_n_nested n l h l' h' : clone_n n l h = (Ok l', h') -> exists k, h' = h ++ k /\ nested h' n l'.
Proof.
  revert l h l' h'. induction n as [|n IH]; intros l h l' h'; cbn [clone_n]; [done|].
  unfold sbind, hget. destruct (h !! l) as [m|]; [|done].
  destruct (clone_slots (clone_n n) (m_slots m) h) as [[ss|e|] h1] eqn:E; [|done..]. unfold halloc. intros [= <- <-].
  apply (clone_slots_nested n) in E as (k & -> & HN); [|apply IH]. exists (k ++ [clone_of m ss]).
  split; [by rewrite app_assoc|]. exists (clone_of m ss). split.
  - by rewrite lookup_app_r, Nat.sub_diag.
  - intros sub Hs. by apply nested_app, HN.
Qed.

Lemma Clone_run l h l' h' : Clone l h = (Ok l', h') ->
  exists k, h' = h ++ k /\ nested h' (S (length h)) l'.
Proof. apply clone_n_nested. Qed.

(** What cloning a clone gives: a message with the same retained buffer. *)
Lemma Clone_again l h l' h' : Clone l h = (Ok l', h') ->
  exists l2 h2 m1 ss, Clone l' h' = (Ok l2, h2) /\ h' !! l' = Some m1 /\ h2 !! l2 = Some (clone_of m1 ss) /\
    Forall2 slot_copy (m_slots m1) ss.
Proof.
  intros (k & -> & HN)%Clone_run. unfold Clone.
  destruct (clone_n_run (h ++ k) (S (length (h ++ k))) l' []) as (l2 & k2 & E & _ & _ & m & ss & Hm & Hl & HF).
  - eapply nested_mono; [|exact HN]. rewrite length_app. lia.
  - constructor.
  - rewrite app_nil_r in E. exists l2, ((h ++ k) ++ k2), m, ss. by split_and!.
Qed.

#[export] Instance memory_store_laws : IdempotencyLaws MemWorld loc.
Proof.
  split. intros k m w w1. cbn [Flow.Store Flow.Lookup memory_store]. unfold MemoryStore, MemoryLookup.
  destruct m as [l|].
  - destruct (Clone l (mw_heap w)) as [[l'|e|] h'] eqn:E; [|done..]. intros [= <-]. cbn [mw_resp mw_heap]. rewrite lookup_insert_eq.
    destruct (Clone_again l _ l' h' E) as (l2 & h2 & m1 & ss & -> & _). by eexists _, _.
  - intros [= <-]. cbn. rewrite lookup_insert_eq. by eexists _, _.
Qed.

(** A replayed response loses its edits.  When the stored response was made
    by editing a decoded message (it retains a buffer), the response that
    [Lookup] returns marshals to that buffer, the bytes of the message it was
    made from, whatever was set since. *)
Theorem MemoryStore_replays_source k l w w1 m src c dst :
  MemoryStore k (Some l) w = (Ok tt, w1) -> nested (mw_heap w) (S (length (mw_heap w))) l ->
  mw_heap w !! l = Some m -> m_src m = Some src ->
  exists l2 w2, MemoryLookup k w1 = (Ok (Some (Some l2)), w2) /\ fst (MarshalAt c l2 dst (mw_heap w2)) = Ok src.
Proof.
  unfold MemoryStore. intros HS HN Hl Hsrc.
  destruct (clone_n_run (mw_heap w) (S (length (mw_heap w))) l [] HN) as (l1 & k1 & E1 & _ & _ & m1 & ss1 & Hm1 & Hl1 & _);
    [constructor|]. rewrite app_nil_r in E1. change (Clone l (mw_heap w) = (Ok l1, mw_heap w ++ k1)) in E1.
  rewrite E1 in HS. injection HS as <-. rewrite Hl in Hm1. injection Hm1 as <-. cbn [app] in Hl1.
  destruct (Clone_again _ _ _ _ E1) as (l2 & h2 & m2 & ss & E2 & Hm2 & Hl2 & _).
  unfold MemoryLookup. cbn [mw_resp mw_heap]. rewrite lookup_insert_eq, E2. eexists l2, _. split; [done|].
  rewrite Hl1 in Hm2. injection Hm2 as <-. unfold MarshalAt. cbn [mw_heap]. rewrite Hl2. unfold Marshal, marshal. cbn. by rewrite Hsrc.
Qed.

(** A response edited after decoding is replayed as it was decoded. *)
Lemma MemoryStore_replays_source_witness :
  fst (MarshalAt sample_codec 0 [] edited_store) = Ok edited_wire /\ sample_wire <> edited_wire /\
  exists w1 l2 w2, MemoryStore [x31] (Some 0%nat) (mkMemWorld edited_store ∅) = (Ok tt, w1) /\
    MemoryLookup [x31] w1 = (Ok (Some (Some l2)), w2) /\ fst (MarshalAt sample_codec l2 [] (mw_heap w2)) = Ok sample_wire.
Proof.
  split; [vm_compute; reflexivity|]. split; [vm_compute; discriminate|].
  assert (C : match edited_store !! 0%nat with
    | Some m => bool_decide (slot_children m = []) && bool_decide (m_src m = Some sample_wire) | None => false end = true)
    by (vm_compute; reflexivity).
  destruct (edited_store !! 0%nat) as [m|] eqn:E0; [|discriminate C].
  apply andb_prop in C as [C0 C1]. apply bool_decide_eq_true in C0, C1.
  assert (N : nested edited_store (S (length edited_store)) 0).
  { exists m. split; [exact E0|]. rewrite C0. intros sub Hs. apply not_elem_of_nil in Hs. destruct Hs. }
  assert (D : match fst (MemoryStore [x31] (Some 0%nat) (mkMemWorld edited_store ∅)) with Ok _ => true | _ => false end = true)
    by (vm_compute; reflexivity).
  destruct (MemoryStore [x31] (Some 0%nat) (mkMemWorld edited_store ∅)) as [[[]|e|] w1] eqn:ES; [|discriminate D..].
  destruct (MemoryStore_replays_source [x31] 0 (mkMemWorld edited_store ∅) w1 m sample_wire sample_codec [] ES N E0 C1) as (l2 & w2 & H1 & H2).
  exists w1, l2, w2. split; [reflexivity|]. split; [exact H1|exact H2].
Defined.

(** ** A flow over this store *)

(** Two stages that join, the first routing to a group whose read-only stage
    ends the pipeline; no committer fails. *)
Definition sample_stage (name : bytes) (r : Result) : Stage (W := MemWorld) (M := loc) (prop := unit) :=
  mkStage name (fun ex w => (r, None, ex, w)) (Some (fun ex w => (None, ex, w))) (Some (fun ex w => (None, ex, w))).

Definition sample_flow : Flow (W := MemWorld) (M := loc) (prop := unit) :=
  Group (Group (mkFlow ∅ [] true false 1024 (Some (fun ex => Some (ex_ID ex))))
    (go "main") [sample_stage (go "route") (Route [go "issuer"]); sample_stage (go "debit") Continue])
    (go "issuer") [sample_stage (go "answer") Done].

Definition sample_exchange : Exchange (M := loc) (prop := unit) := NewExchange (go "000001") None.
Definition empty_world : MemWorld := mkMemWorld [] ∅.
Definition run_sample (ex : Exchange) (w : MemWorld) := Run (fun _ => None) (fun _ => 0) sample_flow ex w.

(** The run prepares the three stages and commits the two that joined, in order. *)
Lemma Run_two_phase_witness :
  map (fun c => match c with
                | CallPrepare st => go "prepare " ++ st_Name st
                | CallCommit st => go "commit " ++ st_Name st
                | CallAbort st => go "abort " ++ st_Name st
                | CallJournal ev => match ev_Kind ev with EventBegin => go "begin" | EventCommitted => go "committed" | _ => go "other" end
                end) (rs_calls (snd (run_sample sample_exchange empty_world))) =
    [go "begin"; go "prepare route"; go "prepare debit"; go "prepare answer"; go "commit route"; go "commit debit"; go "committed"] /\
  exists (log : list (Stage * Result)) (failed : list Stage) second,
    rs_calls (snd (run_sample sample_exchange empty_world)) =
      journalled sample_flow (mkEvent EventBegin None) ++ map CallPrepare (map fst log ++ failed) ++ second /\
    (length log + length failed <= 1024)%nat.
Proof.
  split; [vm_compute; reflexivity|].
  destruct (run_sample sample_exchange empty_world) as [r s] eqn:E. unfold run_sample in E.
  assert (R : exists entry, resolve sample_flow (fl_entry sample_flow) = inl entry) by (eexists; vm_compute; reflexivity).
  destruct R as [entry R].
  assert (HE : fl_entry sample_flow <> []) by (vm_compute; discriminate).
  assert (HN : not_replayed sample_flow sample_exchange empty_world empty_world) by (vm_compute; reflexivity).
  destruct (Run_two_phase (fun _ => None) (fun _ => 0) sample_flow sample_exchange empty_world empty_world entry r s HE R HN E)
    as (log & failed & skipped & prepErr & second & H1 & _ & _ & H2 & _).
  exists log, failed, second. split; [exact H1|exact H2].
Defined.

Lemma Run_idempotent_witness :
  exists s2, run_sample sample_exchange (rs_world (snd (run_sample sample_exchange empty_world))) = (Ok None, s2) /\
    rs_calls s2 = [CallJournal (mkEvent EventIdempotentHit None)].
Proof.
  assert (C : match fst (run_sample sample_exchange empty_world) with Ok None => true | _ => false end = true)
    by (vm_compute; reflexivity).
  destruct (run_sample sample_exchange empty_world) as [r s] eqn:E. cbn [fst] in C.
  destruct r as [[e|]|e|]; [discriminate C| |discriminate C..]. cbn [snd].
  assert (HE : fl_entry sample_flow <> []) by (vm_compute; discriminate).
  assert (HN : not_replayed sample_flow sample_exchange empty_world empty_world) by (vm_compute; reflexivity).
  destruct (Run_idempotent (fun _ => None) (fun _ => 0) sample_flow (fun ex => Some (ex_ID ex)) sample_exchange sample_exchange
    empty_world empty_world (go "000001") s eq_refl eq_refl eq_refl HE HN E) as (resp & s2 & H1 & H2 & _).
  exists s2. split; [exact H1|exact H2].
Defined.
