(* ===== verification/Space.v ===== *)
(** * The tuple space ([space/space.go], [space/local.go])

    [Local] keeps one FIFO queue per key under a lock.  A blocked reader holds
    the notification channel it saw under the lock and waits until that channel
    is closed; the channels are numbered here, and [Out] and [Close] replace the
    current one.  The interleavings of any number of callers are the steps of a
    relation. *)

From S2P Require Import Prelude Path.

Section Space.
Context {V : Type}.

Record Local := mkLocal {
  lo_data : gmap bytes (list V);
  lo_notify : nat;              (* the current channel; the earlier ones are closed *)
  lo_closed : bool;
}.

Definition NewLocal : Local := mkLocal ∅ 0 false.

Definition signal (data : gmap bytes (list V)) (l : Local) (closed : bool) : Local :=
  mkLocal data (S (lo_notify l)) closed.

Definition queue (l : Local) (key : bytes) : list V := default [] (lo_data l !! key).

Definition Out (l : Local) (key : bytes) (v : V) : Local :=
  if lo_closed l then l else signal (<[key := queue l key ++ [v]]> (lo_data l)) l (lo_closed l).

Definition pop (l : Local) (key : bytes) (rest : list V) : Local :=
  mkLocal (match rest with [] => delete key (lo_data l) | _ => <[key := rest]> (lo_data l) end)
    (lo_notify l) (lo_closed l).

Definition Inp (l : Local) (key : bytes) : option V * Local :=
  match queue l key with
  | [] => (None, l)
  | v :: rest => (Some v, pop l key rest)
  end.

Definition Rdp (l : Local) (key : bytes) : option V := head (queue l key).

Definition Len (l : Local) (key : bytes) : Z := len (queue l key).

Definition Close (l : Local) : Local :=
  if lo_closed l then l else signal (lo_data l) l true.

(** One pass of the loop of [wait] under the lock: the outcome, or the channel
    to wait on. *)
Inductive attempt := Got (v : V) | SpaceClosed | MustWait (notify : nat).

Definition wait_try (l : Local) (key : bytes) (take : bool) : attempt * Local :=
  if lo_closed l then (SpaceClosed, l) else
  match queue l key with
  | v :: rest => (Got v, if take then pop l key rest else l)
  | [] => (MustWait (lo_notify l), l)
  end.

(** ** Concurrent callers *)

Inductive caller :=
| Trying (key : bytes) (take : bool)
| Blocked (key : bytes) (take : bool) (notify : nat)
| Ended (v : option V).

(** The space with its callers; [outs] and [takes] record what was written and
    taken, in order. *)
Record system := mkSystem {
  sy_space : Local;
  sy_callers : gmap nat caller;
  sy_outs : list (bytes * V);
  sy_takes : list (bytes * V);
}.

Definition initial : system := mkSystem NewLocal ∅ [] [].

(** What a caller does after a pass of the loop. *)
Definition after_try (key : bytes) (take : bool) (a : attempt) : caller :=
  match a with Got v => Ended (Some v) | SpaceClosed => Ended None | MustWait n => Blocked key take n end.

Inductive space_step : system -> system -> Prop :=
| step_out y key v : space_step y (mkSystem (Out (sy_space y) key v) (sy_callers y)
    (if lo_closed (sy_space y) then sy_outs y else sy_outs y ++ [(key, v)]) (sy_takes y))
| step_call y i key take : sy_callers y !! i = None ->
    space_step y (mkSystem (sy_space y) (<[i := Trying key take]> (sy_callers y)) (sy_outs y) (sy_takes y))
| step_try y i key take a l : sy_callers y !! i = Some (Trying key take) ->
    wait_try (sy_space y) key take = (a, l) ->
    space_step y (mkSystem l (<[i := after_try key take a]> (sy_callers y)) (sy_outs y)
      (match a with Got v => if take then sy_takes y ++ [(key, v)] else sy_takes y | _ => sy_takes y end))
| step_wake y i key take n : sy_callers y !! i = Some (Blocked key take n) -> n <> lo_notify (sy_space y) ->
    space_step y (mkSystem (sy_space y) (<[i := Trying key take]> (sy_callers y)) (sy_outs y) (sy_takes y))
| step_cancel y i key take n : sy_callers y !! i = Some (Blocked key take n) ->
    space_step y (mkSystem (sy_space y) (<[i := Ended None]> (sy_callers y)) (sy_outs y) (sy_takes y))
| step_probe y key v l : Inp (sy_space y) key = (Some v, l) ->
    space_step y (mkSystem l (sy_callers y) (sy_outs y) (sy_takes y ++ [(key, v)]))
| step_close y : space_step y (mkSystem (Close (sy_space y)) (sy_callers y) (sy_outs y) (sy_takes y)).

(** ** The invariant *)

(** The values of one key, in order. *)
Definition values (key : bytes) (es : list (bytes * V)) : list V :=
  omap (fun p => if bool_decide (p.1 = key) then Some p.2 else None) es.

Lemma values_app key a b : values key (a ++ b) = values key a ++ values key b.
Proof. unfold values. by rewrite omap_app. Qed.

Lemma values_snoc key es k v : values key (es ++ [(k, v)]) = values key es ++ (if bool_decide (k = key) then [v] else []).
Proof. rewrite values_app. unfold values at 2. cbn. by destruct (bool_decide (k = key)). Qed.

Record space_inv (y : system) : Prop := {
  sp_fifo : forall key, values key (sy_outs y) = values key (sy_takes y) ++ queue (sy_space y) key;
  sp_no_empty : forall key, lo_data (sy_space y) !! key <> Some [];
  sp_blocked : forall i key take n, sy_callers y !! i = Some (Blocked key take n) ->
    (n <= lo_notify (sy_space y))%nat /\
    (n = lo_notify (sy_space y) -> queue (sy_space y) key = [] /\ lo_closed (sy_space y) = false);
}.

Lemma initial_inv : space_inv initial.
Proof. split; intros *; cbn; unfold queue; cbn; by rewrite ?lookup_empty. Qed.

Lemma queue_insert data n c key key' q :
  queue (mkLocal (<[key := q]> data) n c) key' = if bool_decide (key = key') then q else default [] (data !! key').
Proof. unfold queue. cbn. case_bool_decide as E; [subst; by rewrite lookup_insert_eq|by rewrite lookup_insert_ne]. Qed.

(** Removing the head of a queue. *)
Lemma queue_pop l key rest key' :
  queue (pop l key rest) key' = if bool_decide (key = key') then rest else queue l key'.
Proof.
  unfold pop. destruct rest as [|v rest].
  - unfold queue. cbn. case_bool_decide as E; [subst; by rewrite lookup_delete_eq|by rewrite lookup_delete_ne].
  - apply queue_insert.
Qed.

Lemma pop_no_empty l key rest key' : lo_data l !! key' <> Some [] -> lo_data (pop l key rest) !! key' <> Some [].
Proof.
  unfold pop. cbn. intros H. destruct rest as [|v rest].
  - rewrite lookup_delete. by case_decide.
  - rewrite lookup_insert. by case_decide.
Qed.

(** A taken head keeps the order of every key. *)
Lemma take_inv y key v rest l callers : space_inv y -> queue (sy_space y) key = v :: rest -> l = pop (sy_space y) key rest ->
  (forall i k take n, callers !! i = Some (Blocked k take n) -> sy_callers y !! i = Some (Blocked k take n)) ->
  space_inv (mkSystem l callers (sy_outs y) (sy_takes y ++ [(key, v)])).
Proof.
  intros [I1 I2 I3] HQ -> HB. split; cbn [sy_space sy_callers sy_outs sy_takes].
  - intros k. rewrite values_snoc, I1, queue_pop, <- app_assoc. case_bool_decide as E; [|done]. subst k. by rewrite HQ.
  - intros k. by apply pop_no_empty.
  - intros i k take n Hi%HB. destruct (I3 i k take n Hi) as [H1 H2]. split; [done|]. intros Hn. destruct (H2 Hn) as [H3 H4].
    split; [|done]. rewrite queue_pop. case_bool_decide as E; [|done]. subst k. congruence.
Qed.

(** A caller that does not become blocked. *)
Lemma caller_inv y i c : space_inv y -> (forall k t n, c <> Blocked k t n) ->
  space_inv (mkSystem (sy_space y) (<[i := c]> (sy_callers y)) (sy_outs y) (sy_takes y)).
Proof.
  intros [I1 I2 I3] HC. split; cbn [sy_space sy_callers sy_outs sy_takes]; try done. intros j k t n Hj. apply lookup_insert_Some in Hj as [[<- Hj]|[_ Hj]].
  - by apply HC in Hj.
  - by apply (I3 j k t n).
Qed.

Lemma space_step_inv y y' : space_inv y -> space_step y y' -> space_inv y'.
Proof.
  intros I H. revert I. destruct H as [y key v|y i key take Hi|y i key take a l Hi Hw|y i key take n Hi Hn|y i key take n Hi
    |y key v l Hp|y]; intros I; try (by apply caller_inv).
  - unfold Out. destruct (lo_closed (sy_space y)) eqn:EC; [by destruct y|]. destruct I as [I1 I2 I3]. split; cbn [sy_space sy_callers sy_outs sy_takes].
    + intros k. unfold signal. rewrite values_snoc, queue_insert, I1, <- app_assoc. case_bool_decide as E; [by subst|by rewrite app_nil_r].
    + intros k. cbn. rewrite lookup_insert. case_decide as E; [|done]. intros [= Hx]. by apply app_nil in Hx as [_ ?].
    + intros i k take n Hi. destruct (I3 i k take n Hi) as [H1 _]. cbn. split; [lia|]. intros ->. lia.
  - unfold wait_try in Hw. destruct (lo_closed (sy_space y)) eqn:EC; [injection Hw as <- <-; by apply caller_inv|].
    destruct (queue (sy_space y) key) as [|v rest] eqn:EQ; injection Hw as <- <-.
    + destruct I as [I1 I2 I3]. split; cbn [sy_space sy_callers sy_outs sy_takes]; try done. intros j k t n Hj.
      apply lookup_insert_Some in Hj as [[_ Hj]|[_ Hj]]; [|by apply (I3 j k t n)]. by injection Hj as <- <- <-.
    + destruct take; [|by apply caller_inv]. cbn [after_try]. eapply take_inv; [done..|].
      intros j k t n Hj. apply lookup_insert_Some in Hj as [[_ Hj]|[_ Hj]]; done.
  - unfold Inp in Hp. destruct (queue (sy_space y) key) as [|w rest] eqn:EQ; [done|]. injection Hp as <- <-.
    by eapply take_inv.
  - unfold Close. destruct (lo_closed (sy_space y)) eqn:EC; [by destruct y|]. destruct I as [I1 I2 I3]. split; cbn [sy_space sy_callers sy_outs sy_takes]; try done.
    intros i k take n Hi. destruct (I3 i k take n Hi) as [H1 _]. cbn. split; [lia|]. intros ->. lia.
Qed.

(** C39: the space is a FIFO queue per key with exactly-once takes and no lost
    wake-up.  In every interleaving of writers, blocking takers and readers,
    probes, cancellations and [Close]: for each key, what was written is, in
    order, what was taken followed by what is queued; and a caller that is
    still waiting on the current channel waits for a reason (its queue is empty
    and the space is open), so a caller with something to do can always go on. *)
Theorem space_fifo (y : system) (H : rtc space_step initial y) :
  (forall key, values key (sy_outs y) = values key (sy_takes y) ++ queue (sy_space y) key) /\
  (forall i key take n, sy_callers y !! i = Some (Blocked key take n) ->
     queue (sy_space y) key <> [] \/ lo_closed (sy_space y) = true -> n <> lo_notify (sy_space y)).
Proof.
  assert (space_inv y) as [I1 I2 I3].
  { revert y H. apply rtc_ind_r; [apply initial_inv|]. intros y z _ HS I. by eapply space_step_inv. }
  split; [done|]. intros i key take n Hi HQ Hn. destruct (I3 i key take n Hi) as [_ H2]. destruct (H2 Hn) as [H3 H4].
  destruct HQ as [HQ|HQ]; congruence.
Qed.
End Space.

(** A taker blocks, a value arrives, and the taker may go on. *)
Definition waiting_taker : system (V := nat) :=
  mkSystem NewLocal {[ 0%nat := Blocked [x31] true 0 ]} [] [].
Definition woken_taker : system (V := nat) :=
  mkSystem (Out NewLocal [x31] 7%nat) {[ 0%nat := Blocked [x31] true 0 ]} [([x31], 7%nat)] [].

Lemma space_fifo_witness :
  (forall key, values key (sy_outs woken_taker) = values key (sy_takes woken_taker) ++ queue (sy_space woken_taker) key) /\
  0%nat <> lo_notify (sy_space woken_taker).
Proof.
  assert (R : rtc space_step initial woken_taker).
  { eapply rtc_l; [apply (step_call initial 0 [x31] true); reflexivity|].
    eapply rtc_l; [eapply (step_try _ 0 [x31] true); [reflexivity|vm_compute; reflexivity]|].
    eapply rtc_l; [apply (step_out _ [x31] 7%nat)|]. apply rtc_refl. }
  destruct (space_fifo woken_taker R) as [H1 H2]. split; [exact H1|].
  apply (H2 0%nat [x31] true 0%nat); [vm_compute; reflexivity|]. left. vm_compute. discriminate.
Defined.
