(* ===== verification/StoreLog.v ===== *)
(** * The durable queue ([space/store.go])

    A keyed FIFO of payloads whose state is rebuilt from an append-only log: a
    push appends an "out" record, a pull a tombstone.  The file is its list of
    bytes.  A write may fail, leaving part of a record; a crash may leave part
    of the record that was being written at the end of the file. *)

From S2P Require Import Prelude Strconv Path Framer Space.

(** ** Data *)

Record record := mkRecord { rec_seq : Z; rec_val : bytes }.

Definition opOut : Z := 1.
Definition opIn : Z := 2.

Inductive rec_error := RecEOF | RecUnexpectedEOF | RecCorrupt.
Inductive store_error := StoreClosed | AppendFailed | SyncFailed | CompactFailed | ReplayFailed | ReplayUnfinished.

Record Store := mkStore {
  ss_log : bytes;                       (* the file *)
  ss_closed : bool;
  ss_data : gmap bytes (list record);
  ss_seq : Z;
}.

(** ** Records *)

Definition encodeRecord (op seq : Z) (key val : bytes) : bytes :=
  let body := [zb op] ++ be_put 8 seq ++
    (if op =? opOut then be_put 4 (len key mod 2 ^ 32) ++ key ++ be_put 4 (len val mod 2 ^ 32) ++ val else []) in
  be_put 4 (len body mod 2 ^ 32) ++ body.

(** [io.ReadFull] on the buffered file, with the errors [readRecord] returns. *)
Definition read_full (n : Z) (atStart : bool) (r : bytes) : res rec_error bytes * bytes :=
  match ReadFull n r with
  | (Ok b, r) => (Ok b, r)
  | (Err EOF, r) => (Err (if atStart then RecEOF else RecUnexpectedEOF), r)
  | (Err _, r) => (Err RecUnexpectedEOF, r)
  | (Panic, r) => (Panic, r)
  end.

(** The fields of a body that has been read. *)
Definition parse_body (body : bytes) : res rec_error (Z * Z * bytes * bytes) :=
  let! op := idx body 0 in
  let! sq := slice body 1 9 in
  if negb (bz op =? opOut) then Ok (bz op, be_get sq, [], []) else
  if len body <? 9 + 4 then Err RecCorrupt else
  let! klb := slice body 9 13 in
  let kl := be_get klb in
  if len body <? 13 + kl + 4 then Err RecCorrupt else
  let! key := slice body 13 (13 + kl) in
  let! vlb := slice body (13 + kl) (13 + kl + 4) in
  let vl := be_get vlb in
  if len body <? 13 + kl + 4 + vl then Err RecCorrupt else
  let! val := slice body (13 + kl + 4) (13 + kl + 4 + vl) in
  Ok (bz op, be_get sq, key, val).

Definition readRecord (r : bytes) : res rec_error (Z * Z * bytes * bytes) * bytes :=
  match read_full 4 true r with
  | (Ok lenBuf, r) =>
      let bodyLen := be_get lenBuf in
      if bodyLen <? 9 then (Err RecCorrupt, r) else
      match read_full bodyLen false r with
      | (Ok body, r) => (parse_body body, r)
      | (Err e, r) => (Err e, r)
      | (Panic, r) => (Panic, r)
      end
  | (Err e, r) => (Err e, r)
  | (Panic, r) => (Panic, r)
  end.

(** ** Replay *)

Definition live : Type := Z * bytes * bytes.

(** The loop of [replay]; a record is at least 13 bytes, so the length of the
    file bounds the iterations. *)
Fixpoint replay_loop (fuel : nat) (r : bytes) (entries : list live) (tomb : list Z) (seq : Z)
    : res store_error (list live * list Z * Z) :=
  match fuel with
  | O => Err ReplayUnfinished
  | S fuel =>
      match readRecord r with
      | (Ok (op, sq, key, val), r) =>
          if op =? opOut then
            replay_loop fuel r (entries ++ [(sq, key, val)]) tomb (if seq <=? sq then wrapu64 (sq + 1) else seq)
          else if op =? opIn then replay_loop fuel r entries (sq :: tomb) seq
          else replay_loop fuel r entries tomb seq
      | (Err RecCorrupt, _) => Err ReplayFailed
      | (Err _, _) => Ok (entries, tomb, seq)
      | (Panic, _) => Panic
      end
  end.

Definition queue_at (data : gmap bytes (list record)) (key : bytes) : list record := default [] (data !! key).

(** The second loop of [replay]: the entries without a tombstone, by key. *)
Definition rebuild (entries : list live) (tomb : list Z) : gmap bytes (list record) :=
  fold_left (fun data e =>
    let '(sq, key, val) := e in
    if bool_decide (sq ∈ tomb) then data
    else <[key := queue_at data key ++ [mkRecord sq val]]> data) entries ∅.

Definition Open (log : bytes) : res store_error Store :=
  let! (entries, tomb, seq) := replay_loop (S (length log)) log [] [] 0 in
  Ok (mkStore log false (rebuild entries tomb) seq).

(** ** Operations *)

(** How a write ends: complete and synced, failed after [n] bytes, or written
    but not synced. *)
Inductive write_outcome := WriteOk | WriteFailed (n : nat) | WriteUnsynced.

Definition log_append (io : write_outcome) (log rec : bytes) : option store_error * bytes :=
  match io with
  | WriteOk => (None, log ++ rec)
  | WriteFailed n => (Some AppendFailed, log ++ take n rec)
  | WriteUnsynced => (Some SyncFailed, log ++ rec)
  end.

Definition Push (io : write_outcome) (key value : bytes) (s : Store) : option store_error * Store :=
  if ss_closed s then (Some StoreClosed, s) else
  match log_append io (ss_log s) (encodeRecord opOut (ss_seq s) key value) with
  | (Some e, log) => (Some e, mkStore log false (ss_data s) (ss_seq s))
  | (None, log) =>
      (None, mkStore log false (<[key := queue_at (ss_data s) key ++ [mkRecord (ss_seq s) value]]> (ss_data s))
               (wrapu64 (ss_seq s + 1)))
  end.

(** [takeHead], on a queue that is [head :: rest]. *)
Definition takeHead (io : write_outcome) (key : bytes) (head : record) (rest : list record) (s : Store)
    : res store_error bytes * Store :=
  match log_append io (ss_log s) (encodeRecord opIn (rec_seq head) [] []) with
  | (Some e, log) => (Err e, mkStore log (ss_closed s) (ss_data s) (ss_seq s))
  | (None, log) =>
      (Ok (rec_val head),
       mkStore log (ss_closed s) (match rest with [] => delete key (ss_data s) | _ => <[key := rest]> (ss_data s) end) (ss_seq s))
  end.

Definition Pullp (io : write_outcome) (key : bytes) (s : Store) : res store_error (option bytes) * Store :=
  if ss_closed s then (Err StoreClosed, s) else
  match queue_at (ss_data s) key with
  | [] => (Ok None, s)
  | head :: rest =>
      match takeHead io key head rest s with
      | (Ok v, s) => (Ok (Some v), s)
      | (Err e, s) => (Err e, s)
      | (Panic, s) => (Panic, s)
      end
  end.

Definition Peek (key : bytes) (s : Store) : option bytes := rec_val <$> head (queue_at (ss_data s) key).
Definition store_Len (key : bytes) (s : Store) : Z := len (queue_at (ss_data s) key).

(** How the file operations of [Compact] end: all succeed; one fails before the
    rename took effect, and the old log stays; or one fails after it.  After such a
    failure the code may be left with a closed file, on which every later write
    fails; here a later write may fail or succeed, so that no run of the code is
    left out. *)
Inductive compact_outcome := CompactDone | CompactKept | CompactReplaced.

(** [keys] is the order in which the map is ranged over. *)
Definition Compact (io : compact_outcome) (keys : list bytes) (s : Store) : option store_error * Store :=
  if ss_closed s then (Some StoreClosed, s) else
  let log := concat (map (fun key =>
     concat (map (fun r => encodeRecord opOut (rec_seq r) key (rec_val r)) (queue_at (ss_data s) key))) keys) in
  match io with
  | CompactDone => (None, mkStore log false (ss_data s) (ss_seq s))
  | CompactKept => (Some CompactFailed, s)
  | CompactReplaced => (Some CompactFailed, mkStore log false (ss_data s) (ss_seq s))
  end.

Definition store_Close (s : Store) : Store := mkStore (ss_log s) true (ss_data s) (ss_seq s).

(** ** Records on the log *)

(** A record by its content. *)
Inductive lrec := LOut (seq : Z) (key val : bytes) | LIn (seq : Z).

Definition lrec_seq (r : lrec) : Z := match r with LOut s _ _ => s | LIn s => s end.

Definition lrec_bytes (r : lrec) : bytes :=
  match r with LOut s k v => encodeRecord opOut s k v | LIn s => encodeRecord opIn s [] [] end.

(** The record fits its 32-bit length fields and 64-bit number. *)
Definition lrec_ok (r : lrec) : Prop :=
  0 <= lrec_seq r < 2 ^ 64 /\ match r with LOut _ k v => 17 + len k + len v < 2 ^ 32 | LIn _ => True end.

Definition lrec_body (r : lrec) : bytes :=
  match r with
  | LOut s k v => [zb opOut] ++ be_put 8 s ++ be_put 4 (len k) ++ k ++ be_put 4 (len v) ++ v
  | LIn s => [zb opIn] ++ be_put 8 s
  end.

Lemma lrec_body_len r : lrec_ok r -> 9 <= len (lrec_body r) < 2 ^ 32.
Proof.
  intros [_ H]. destruct r as [s k v|s]; cbn [lrec_body]; rewrite !len_app, ?len_be_put; cbn [len length] in *;
    rewrite ?len_cons; len_nil_simpl; [pose proof (len_nonneg k); pose proof (len_nonneg v)|]; lia.
Qed.

Lemma lrec_bytes_body r : lrec_ok r -> lrec_bytes r = be_put 4 (len (lrec_body r)) ++ lrec_body r.
Proof.
  intros Hr. pose proof (lrec_body_len r Hr) as HL. destruct Hr as [_ H].
  destruct r as [s k v|s]; cbn [lrec_bytes]; unfold encodeRecord.
  - pose proof (len_nonneg k). pose proof (len_nonneg v). rewrite !(Z.mod_small (len k)), !(Z.mod_small (len v)) by lia.
    change (opOut =? opOut) with true. cbv iota. change (_ ++ be_put 8 s ++ _) with (lrec_body (LOut s k v)).
    by rewrite Z.mod_small by lia.
  - change (opIn =? opOut) with false. cbv iota. rewrite app_nil_r. change (_ ++ be_put 8 s) with (lrec_body (LIn s)).
    by rewrite Z.mod_small by lia.
Qed.

Definition lrec_fields (r : lrec) : Z * Z * bytes * bytes :=
  match r with LOut s k v => (opOut, s, k, v) | LIn s => (opIn, s, [], []) end.

Lemma idx_head (x : byte) l : idx (E:=rec_error) ([x] ++ l) 0 = Ok x.
Proof. done. Qed.

Lemma parse_body_lrec r : lrec_ok r -> parse_body (lrec_body r) = Ok (lrec_fields r).
Proof.
  intros [Hs H]. unfold parse_body. destruct r as [s k v|s]; cbn [lrec_body lrec_fields lrec_seq] in *.
  - pose proof (len_nonneg k). pose proof (len_nonneg v).
    rewrite idx_head. cbn [rbind].
    rewrite (slice_mid [zb opOut] (be_put 8 s)) by (rewrite ?len_be_put; done). cbn [rbind].
    change (bz (zb opOut) =? opOut) with true. cbn [negb]. rewrite be_get_put by (cbn; lia).
    set (body := [zb opOut] ++ be_put 8 s ++ be_put 4 (len k) ++ k ++ be_put 4 (len v) ++ v).
    assert (len body = 17 + len k + len v) as HL by (unfold body; rewrite !len_app, !len_be_put; change (len [zb opOut]) with 1; lia).
    rewrite HL. destruct (Z.ltb_spec (17 + len k + len v) (9 + 4)); [lia|].
    assert (body = ([zb opOut] ++ be_put 8 s) ++ be_put 4 (len k) ++ (k ++ be_put 4 (len v) ++ v)) as -> by (unfold body; by rewrite <- !app_assoc).
    rewrite slice_mid by (rewrite ?len_app, ?len_be_put; done). cbn [rbind]. rewrite be_get_put by (cbn; lia).
    destruct (Z.ltb_spec (17 + len k + len v) (13 + len k + 4)); [lia|].
    replace (([zb opOut] ++ be_put 8 s) ++ be_put 4 (len k) ++ (k ++ be_put 4 (len v) ++ v))
      with (([zb opOut] ++ be_put 8 s ++ be_put 4 (len k)) ++ k ++ (be_put 4 (len v) ++ v)) by (by rewrite <- !app_assoc).
    rewrite slice_mid by (rewrite ?len_app, ?len_be_put; done). cbn [rbind].
    replace (([zb opOut] ++ be_put 8 s ++ be_put 4 (len k)) ++ k ++ (be_put 4 (len v) ++ v))
      with (([zb opOut] ++ be_put 8 s ++ be_put 4 (len k) ++ k) ++ be_put 4 (len v) ++ v) by (by rewrite <- !app_assoc).
    assert (len ([zb opOut] ++ be_put 8 s ++ be_put 4 (len k) ++ k) = 13 + len k) as HP
      by (rewrite !len_app, !len_be_put; change (len [zb opOut]) with 1; lia).
    rewrite slice_mid by (rewrite ?HP, ?len_be_put; lia). cbn [rbind]. rewrite be_get_put by (cbn; lia).
    destruct (Z.ltb_spec (17 + len k + len v) (13 + len k + 4 + len v)); [lia|].
    replace (([zb opOut] ++ be_put 8 s ++ be_put 4 (len k) ++ k) ++ be_put 4 (len v) ++ v)
      with (([zb opOut] ++ be_put 8 s ++ be_put 4 (len k) ++ k ++ be_put 4 (len v)) ++ v ++ []) by (rewrite app_nil_r; by rewrite <- !app_assoc).
    rewrite slice_mid; [done| |lia]. rewrite !len_app, !len_be_put. change (len [zb opOut]) with 1. lia.
  - rewrite idx_head. cbn [rbind].
    replace ([zb opIn] ++ be_put 8 s) with ([zb opIn] ++ be_put 8 s ++ []) by (by rewrite app_nil_r).
    rewrite slice_mid by (rewrite ?len_be_put; done). cbn [rbind]. change (bz (zb opIn) =? opOut) with false. cbn [negb].
    by rewrite be_get_put by (cbn; lia).
Qed.

Lemma readRecord_lrec r rest : lrec_ok r -> readRecord (lrec_bytes r ++ rest) = (Ok (lrec_fields r), rest).
Proof.
  intros Hr. pose proof (lrec_body_len r Hr). rewrite lrec_bytes_body by done. unfold readRecord, read_full.
  rewrite <- app_assoc, ReadFull_app by (by rewrite len_be_put). rewrite be_get_put by (cbn; lia).
  destruct (Z.ltb_spec (len (lrec_body r)) 9); [lia|]. rewrite ReadFull_app by done. by rewrite parse_body_lrec.
Qed.

(** A read that finds too few bytes. *)
Lemma read_full_short n b r : len r < n -> exists e, read_full n b r = (Err e, []) /\ e <> RecCorrupt.
Proof.
  intros H. pose proof (len_nonneg r). unfold read_full, ReadFull. destruct (Z.leb_spec n 0); [lia|].
  destruct (Z.leb_spec n (len r)); [lia|]. destruct (len r =? 0); [|by eexists].
  eexists. split; [done|]. by destruct b.
Qed.

(** The part of a record that a crash leaves is the end of the log. *)
Lemma readRecord_torn r p q : lrec_ok r -> lrec_bytes r = p ++ q -> q <> [] ->
  exists e, readRecord p = (Err e, []) /\ e <> RecCorrupt.
Proof.
  intros Hr HE Hq. pose proof (lrec_body_len r Hr) as HB. rewrite lrec_bytes_body in HE by done.
  assert (0 < len q) by (destruct q; [done|]; rewrite len_cons; pose proof (len_nonneg q); lia).
  pose proof (len_nonneg p). assert (len p + len q = 4 + len (lrec_body r)) by (rewrite <- !len_app, <- HE, len_app, len_be_put; lia).
  unfold readRecord. destruct (Z.ltb_spec (len p) 4) as [Hlt|Hge].
  { destruct (read_full_short 4 true p Hlt) as (e & -> & He). by exists e. }
  assert (exists b, p = be_put 4 (len (lrec_body r)) ++ b) as [b ->].
  { apply app_eq_inv in HE as [(k & HE & HE')|(k & HE & HE')].
    - pose proof (f_equal len HE) as HL. rewrite len_be_put, len_app in HL.
      assert (k = []) as -> by (apply len_0_nil; pose proof (len_nonneg k); lia). exists []. by rewrite HE, !app_nil_r.
    - by exists k. }
  unfold read_full at 1. rewrite ReadFull_app by (by rewrite len_be_put). rewrite be_get_put by (cbn; lia).
  destruct (Z.ltb_spec (len (lrec_body r)) 9); [lia|]. rewrite len_app, len_be_put in *.
  destruct (read_full_short (len (lrec_body r)) false b) as (e & -> & He); [lia|]. by exists e.
Qed.

(** ** Replaying a log of records *)

Definition outs_of (rs : list lrec) : list live :=
  omap (fun r => match r with LOut s k v => Some (s, k, v) | LIn _ => None end) rs.
Definition tombs_of (rs : list lrec) : list Z :=
  omap (fun r => match r with LOut _ _ _ => None | LIn s => Some s end) rs.
Definition next_seq (rs : list lrec) (seq : Z) : Z :=
  fold_left (fun seq r => match r with LOut s _ _ => if seq <=? s then wrapu64 (s + 1) else seq | LIn _ => seq end) rs seq.

(** What a crash may leave of the record being written, nothing included. *)
Definition torn_tail (p : bytes) : Prop := exists r q, lrec_ok r /\ lrec_bytes r = p ++ q /\ q <> [].

Definition log_of (rs : list lrec) : bytes := concat (map lrec_bytes rs).

(** Replay stops here: what follows is not a whole record. *)
Definition log_end (t : bytes) : Prop := exists e r, readRecord t = (Err e, r) /\ e <> RecCorrupt.

Lemma torn_end p : torn_tail p -> log_end p.
Proof. intros (r & q & Hr & HE & Hq). destruct (readRecord_torn r p q Hr HE Hq) as (e & HR & He). by exists e, []. Qed.

Lemma replay_loop_log fuel rs torn entries tomb seq : Forall lrec_ok rs -> log_end torn -> (length rs < fuel)%nat ->
  replay_loop fuel (log_of rs ++ torn) entries tomb seq =
    Ok (entries ++ outs_of rs, rev (tombs_of rs) ++ tomb, next_seq rs seq).
Proof.
  intros HF (e & r & HR & He). revert fuel entries tomb seq. unfold log_of.
  induction HF as [|x rs Hx HF IH]; intros fuel entries tomb seq Hlt;
    (destruct fuel as [|fuel]; [lia|]); cbn [replay_loop map concat length] in *.
  - cbn [app]. rewrite HR. cbn. rewrite app_nil_r. by destruct e.
  - rewrite <- app_assoc, readRecord_lrec by done. destruct x as [s k v|s]; cbn [lrec_fields].
    + change (opOut =? opOut) with true. cbv iota. rewrite IH by lia. cbn. by rewrite <- app_assoc.
    + change (opIn =? opOut) with false. change (opIn =? opIn) with true. cbv iota. rewrite IH by lia. cbn. by rewrite <- app_assoc.
Qed.

Lemma lrec_bytes_ne r : lrec_ok r -> (1 <= length (lrec_bytes r))%nat.
Proof. intros Hr. rewrite lrec_bytes_body, length_app by done. pose proof (len_be_put 4 (len (lrec_body r))). unfold len in *. lia. Qed.

Lemma log_of_length rs : Forall lrec_ok rs -> (length rs <= length (log_of rs))%nat.
Proof.
  unfold log_of. induction 1 as [|r rs Hr HF IH]; cbn [map concat length]; [lia|].
  rewrite length_app. pose proof (lrec_bytes_ne r Hr). lia.
Qed.

(** ** Queues *)

Definition live_key (e : live) : bytes := e.1.2.
Definition live_seq (e : live) : Z := e.1.1.
Definition live_record (e : live) : record := mkRecord (live_seq e) e.2.

(** The entries that have no tombstone. *)
Definition live_of (entries : list live) (tomb : list Z) : list live :=
  List.filter (fun e => negb (bool_decide (live_seq e ∈ tomb))) entries.

(** The queue of a key among live entries. *)
Definition queue_of (key : bytes) (es : list live) : list record :=
  map live_record (List.filter (fun e => bool_decide (live_key e = key)) es).

(** The map holds the queues of [es], and no empty queue. *)
Definition holds (data : gmap bytes (list record)) (es : list live) : Prop :=
  forall key, data !! key = match queue_of key es with [] => None | q => Some q end.

Lemma holds_queue data es key : holds data es -> queue_at data key = queue_of key es.
Proof. intros H. unfold queue_at. rewrite H. by destruct (queue_of key es). Qed.

Lemma queue_of_snoc key es e :
  queue_of key (es ++ [e]) = queue_of key es ++ (if bool_decide (live_key e = key) then [live_record e] else []).
Proof. unfold queue_of. rewrite filter_app, map_app. cbn. by destruct (bool_decide (live_key e = key)). Qed.

Lemma holds_push data es e : holds data es ->
  holds (<[live_key e := queue_at data (live_key e) ++ [live_record e]]> data) (es ++ [e]).
Proof.
  intros H key. rewrite queue_of_snoc, lookup_insert, (holds_queue data es) by done. case_decide as E.
  - subst key. rewrite bool_decide_true by done. by destruct (queue_of (live_key e) es).
  - rewrite bool_decide_false by done. rewrite app_nil_r. apply H.
Qed.

Lemma rebuild_holds entries tomb : holds (rebuild entries tomb) (live_of entries tomb).
Proof.
  unfold rebuild. enough (forall es data, holds data es ->
    holds (fold_left (fun data e => let '(sq, key, val) := e in if bool_decide (sq ∈ tomb) then data
      else <[key := queue_at data key ++ [mkRecord sq val]]> data) entries data) (es ++ live_of entries tomb)) as HX.
  { apply (HX [] ∅). intros key. by rewrite lookup_empty. }
  induction entries as [|[[sq key] val] entries IH]; intros es data H; cbn [fold_left live_of List.filter].
  - by rewrite app_nil_r.
  - change (live_seq (sq, key, val)) with sq. destruct (bool_decide (sq ∈ tomb)); cbn [negb]; [by apply IH|].
    pose proof (holds_push data es (sq, key, val) H) as HP. apply IH in HP. by rewrite <- app_assoc in HP.
Qed.

Lemma queue_of_filter_other key es s : (forall e, e ∈ es -> live_seq e = s -> live_key e <> key) ->
  queue_of key (List.filter (fun e => negb (bool_decide (live_seq e = s))) es) = queue_of key es.
Proof.
  intros H. unfold queue_of. f_equal. induction es as [|e es IH]; [done|]. cbn [List.filter].
  assert (forall x, x ∈ es -> live_seq x = s -> live_key x <> key) as H' by (intros; apply H; [by right|done]).
  destruct (bool_decide_reflect (live_seq e = s)) as [Es|Es]; cbn [negb List.filter].
  - rewrite bool_decide_false by (apply H; [by left|done]). by apply IH.
  - by rewrite IH.
Qed.

(** Dropping the entry numbered like the head of a queue drops that head. *)
Lemma queue_of_take key es r rest : base.NoDup (map live_seq es) -> queue_of key es = r :: rest ->
  let es' := List.filter (fun e => negb (bool_decide (live_seq e = rec_seq r))) es in
  queue_of key es' = rest /\ forall key', key' <> key -> queue_of key' es' = queue_of key' es.
Proof.
  induction es as [|e es IH]; [done|]. intros [Hn HN]%list.NoDup_cons HQ. cbn zeta.
  assert (forall x, x ∈ es -> live_seq x <> live_seq e) as Hd.
  { intros x Hx E. apply Hn. rewrite <- E. by apply list_elem_of_fmap_2. }
  unfold queue_of in HQ. cbn [List.filter] in HQ. destruct (bool_decide_reflect (live_key e = key)) as [Ek|Ek]; cbn [map] in HQ.
  - injection HQ as <- HR. cbn [rec_seq live_record]. cbn [List.filter]. rewrite bool_decide_true by done. cbn [negb].
    assert (forall k, queue_of k (List.filter (fun x => negb (bool_decide (live_seq x = live_seq e))) es) = queue_of k es) as HX
      by (intros k; apply queue_of_filter_other; intros x Hx E; by apply Hd in E).
    split; [rewrite HX; done|]. intros key' Hk. rewrite HX. unfold queue_of. cbn [List.filter].
    by rewrite bool_decide_false by congruence.
  - destruct (IH HN HQ) as [I1 I2]. cbn zeta in *. cbn [List.filter].
    destruct (bool_decide_reflect (live_seq e = rec_seq r)) as [Es|Es]; cbn [negb].
    + exfalso. fold (queue_of key es) in HQ. assert (exists x, x ∈ es /\ live_record x = r) as (x & Hx & <-).
      { assert (r ∈ queue_of key es) as HI by (rewrite HQ; left). unfold queue_of in HI.
        apply list_elem_of_fmap in HI as (x & -> & Hx). exists x. split; [|done].
        apply list_elem_of_In, filter_In in Hx as [Hx _]. by apply list_elem_of_In. }
      by apply (Hd x Hx).
    + split.
      * unfold queue_of. cbn [List.filter]. rewrite bool_decide_false by done. exact I1.
      * intros key' Hk. unfold queue_of. cbn [List.filter]. destruct (bool_decide (live_key e = key')); cbn [map]; [f_equal|];
          apply I2; done.
Qed.

(** ** Histories *)

(** The store with what was acknowledged: the payloads pushed and pulled. *)
Record durable := mkDurable { du_store : Store; du_outs : list (bytes * bytes); du_takes : list (bytes * bytes) }.

Definition fits (key v : bytes) : Prop := 17 + len key + len v < 2 ^ 32.

(** Pushes and pulls that succeed, compactions, and restarts. *)
Inductive durable_step : durable -> durable -> Prop :=
| step_push y key v s : fits key v -> ss_seq (du_store y) < 2 ^ 64 - 1 -> Push WriteOk key v (du_store y) = (None, s) ->
    durable_step y (mkDurable s (du_outs y ++ [(key, v)]) (du_takes y))
| step_pull y key v s : Pullp WriteOk key (du_store y) = (Ok (Some v), s) ->
    durable_step y (mkDurable s (du_outs y) (du_takes y ++ [(key, v)]))
| step_compact y io keys e s : base.NoDup keys -> (forall k, is_Some (ss_data (du_store y) !! k) <-> k ∈ keys) ->
    Compact io keys (du_store y) = (e, s) -> durable_step y (mkDurable s (du_outs y) (du_takes y))
| step_restart y s : Open (ss_log (du_store y)) = Ok s -> durable_step y (mkDurable s (du_outs y) (du_takes y)).

Definition fresh : durable := mkDurable (mkStore [] false ∅ 0) [] [].

Definition live_in (rs : list lrec) : list live := live_of (outs_of rs) (tombs_of rs).

Record durable_inv (y : durable) (rs : list lrec) : Prop := {
  iv_log : ss_log (du_store y) = log_of rs;
  iv_ok : Forall lrec_ok rs;
  iv_nodup : base.NoDup (map live_seq (outs_of rs));
  iv_tomb : forall t, t ∈ tombs_of rs -> t ∈ map live_seq (outs_of rs);
  iv_lt : forall t, t ∈ map live_seq (outs_of rs) -> 0 <= t < ss_seq (du_store y);
  iv_seq : 0 <= ss_seq (du_store y) < 2 ^ 64;
  iv_data : holds (ss_data (du_store y)) (live_in rs);
  iv_hist : forall key, values key (du_outs y) = values key (du_takes y) ++ map rec_val (queue_of key (live_in rs));
}.

Lemma fresh_inv : durable_inv fresh [].
Proof. split; cbn; try done; [apply base.NoDup_nil_2|by intros ? ?%elem_of_nil..]. Qed.

Lemma live_of_ext entries t1 t2 : (forall s, s ∈ t1 <-> s ∈ t2) -> live_of entries t1 = live_of entries t2.
Proof.
  intros H. unfold live_of. induction entries as [|e es IH]; [done|]. cbn [List.filter]. rewrite IH.
  by rewrite (bool_decide_ext _ _ (H (live_seq e))).
Qed.

Lemma elem_of_live e rs : e ∈ live_in rs -> e ∈ outs_of rs.
Proof. unfold live_in, live_of. rewrite !list_elem_of_In, filter_In. tauto. Qed.

(** A push adds a live entry; its number is new. *)
Lemma live_in_push rs s k v : (forall t, t ∈ tombs_of rs -> t <> s) -> live_in (rs ++ [LOut s k v]) = live_in rs ++ [(s, k, v)].
Proof.
  intros H. unfold live_in, outs_of, tombs_of. rewrite !omap_app. cbn. rewrite app_nil_r. unfold live_of. rewrite filter_app.
  cbn. by rewrite bool_decide_false by (intros Hs; by apply (H s)).
Qed.

(** A tombstone drops the entry with its number. *)
Lemma live_in_pull rs s : live_in (rs ++ [LIn s]) = List.filter (fun e => negb (bool_decide (live_seq e = s))) (live_in rs).
Proof.
  unfold live_in, outs_of, tombs_of. rewrite !omap_app. cbn. rewrite app_nil_r. unfold live_of.
  fold (outs_of rs). induction (outs_of rs) as [|e es IH]; [done|]. cbn [List.filter].
  rewrite IH. destruct (bool_decide_reflect (live_seq e ∈ omap (fun r => match r with LOut _ _ _ => None | LIn s => Some s end) rs)) as [E|E].
  - rewrite bool_decide_true by (apply elem_of_app; by left). done.
  - cbn [negb List.filter]. destruct (bool_decide_reflect (live_seq e = s)) as [Es|Es]; cbn [negb].
    + rewrite bool_decide_true; [done|]. apply elem_of_app. right. by apply list_elem_of_singleton.
    + rewrite bool_decide_false; [done|]. rewrite elem_of_app, list_elem_of_singleton. tauto.
Qed.

Lemma log_of_snoc rs r : log_of (rs ++ [r]) = log_of rs ++ lrec_bytes r.
Proof. unfold log_of. rewrite map_app, concat_app. cbn. by rewrite app_nil_r. Qed.

Lemma outs_of_snoc_out rs s k v : outs_of (rs ++ [LOut s k v]) = outs_of rs ++ [(s, k, v)].
Proof. unfold outs_of. by rewrite omap_app. Qed.
Lemma outs_of_snoc_in rs s : outs_of (rs ++ [LIn s]) = outs_of rs.
Proof. unfold outs_of. rewrite omap_app. cbn. by rewrite app_nil_r. Qed.
Lemma tombs_of_snoc_out rs s k v : tombs_of (rs ++ [LOut s k v]) = tombs_of rs.
Proof. unfold tombs_of. rewrite omap_app. cbn. by rewrite app_nil_r. Qed.
Lemma tombs_of_snoc_in rs s : tombs_of (rs ++ [LIn s]) = tombs_of rs ++ [s].
Proof. unfold tombs_of. by rewrite omap_app. Qed.

Lemma push_inv y rs key v s : durable_inv y rs -> fits key v -> ss_seq (du_store y) < 2 ^ 64 - 1 ->
  Push WriteOk key v (du_store y) = (None, s) ->
  durable_inv (mkDurable s (du_outs y ++ [(key, v)]) (du_takes y)) (rs ++ [LOut (ss_seq (du_store y)) key v]).
Proof.
  intros [I1 I2 I3 I4 I5 I6 I7 I8] HF HS. unfold Push. destruct (ss_closed (du_store y)); [done|]. cbn [log_append].
  intros [= <-]. set (q := ss_seq (du_store y)) in *.
  assert (forall t, t ∈ tombs_of rs -> t <> q) as HT by (intros t Ht ->; apply I4, I5 in Ht; lia).
  assert (wrapu64 (q + 1) = q + 1) as HW by (unfold wrapu64; apply Z.mod_small; lia).
  split; cbn [du_store ss_log ss_seq ss_data du_outs du_takes].
  - by rewrite log_of_snoc, I1.
  - apply Forall_app_2; [done|]. constructor; [|done]. split; [done|exact HF].
  - rewrite outs_of_snoc_out, map_app. apply list.NoDup_app. split_and!; [done| |apply list.NoDup_singleton].
    intros t Ht Hx. apply list_elem_of_singleton in Hx as ->. apply I5 in Ht. cbn in Ht. fold q in Ht. unfold live_seq in Ht. cbn in Ht. lia.
  - intros t. rewrite tombs_of_snoc_out, outs_of_snoc_out, map_app, elem_of_app. auto.
  - intros t. rewrite HW, outs_of_snoc_out, map_app, elem_of_app. intros [Ht%I5|Ht]; [lia|].
    apply list_elem_of_singleton in Ht as ->. unfold live_seq. cbn. lia.
  - rewrite HW. lia.
  - rewrite live_in_push by done. apply (holds_push (ss_data (du_store y)) (live_in rs) (q, key, v)), I7.
  - intros k. rewrite live_in_push, queue_of_snoc, values_snoc, I8, map_app, app_assoc by done.
    change (live_key (q, key, v)) with key. by destruct (bool_decide (key = k)).
Qed.

Lemma live_in_nodup rs : base.NoDup (map live_seq (outs_of rs)) -> base.NoDup (map live_seq (live_in rs)).
Proof.
  unfold live_in, live_of. induction (outs_of rs) as [|e es IH]; [done|]. intros [H1 H2]%list.NoDup_cons. cbn [List.filter].
  destruct (negb _); [|by apply IH]. cbn [map]. apply list.NoDup_cons. split; [|by apply IH].
  intros (x & Hx & Hi)%list_elem_of_fmap. apply H1. rewrite Hx. apply list_elem_of_fmap_2.
  apply list_elem_of_In, filter_In in Hi as [Hi _]. by apply list_elem_of_In.
Qed.

Lemma pull_inv y rs key v s : durable_inv y rs -> Pullp WriteOk key (du_store y) = (Ok (Some v), s) ->
  exists r, durable_inv (mkDurable s (du_outs y) (du_takes y ++ [(key, v)])) (rs ++ [LIn (rec_seq r)]).
Proof.
  intros [I1 I2 I3 I4 I5 I6 I7 I8]. unfold Pullp. destruct (ss_closed (du_store y)); [done|].
  rewrite (holds_queue _ _ key I7). destruct (queue_of key (live_in rs)) as [|r rest] eqn:EQ; [done|].
  unfold takeHead. cbn [log_append]. intros [= <- <-]. exists r.
  destruct (queue_of_take key (live_in rs) r rest (live_in_nodup rs I3) EQ) as [Q1 Q2]. cbn zeta in *.
  assert (exists e, e ∈ live_in rs /\ live_seq e = rec_seq r) as (e & He & Hs).
  { assert (r ∈ queue_of key (live_in rs)) as HI by (rewrite EQ; left). unfold queue_of in HI.
    apply list_elem_of_fmap in HI as (e & -> & Hx). exists e. split; [|done].
    apply list_elem_of_In, filter_In in Hx as [Hx _]. by apply list_elem_of_In. }
  assert (rec_seq r ∈ map live_seq (outs_of rs)) as HO by (rewrite <- Hs; by apply list_elem_of_fmap_2, elem_of_live).
  split; cbn [du_store ss_log ss_seq ss_data du_outs du_takes].
  - by rewrite log_of_snoc, I1.
  - apply Forall_app_2; [done|]. constructor; [|done]. split; [|done]. apply I5 in HO. cbn. lia.
  - by rewrite outs_of_snoc_in.
  - intros t. rewrite tombs_of_snoc_in, outs_of_snoc_in, elem_of_app. intros [Ht|Ht]; [by apply I4|].
    by apply list_elem_of_singleton in Ht as ->.
  - rewrite outs_of_snoc_in. apply I5.
  - done.
  - intros k. rewrite live_in_pull. destruct (decide (k = key)) as [->|Hk].
    + rewrite Q1. destruct rest as [|r' rest]; [by rewrite lookup_delete_eq|by rewrite lookup_insert_eq].
    + rewrite Q2 by done. rewrite <- (I7 k). destruct rest; [by rewrite lookup_delete_ne|by rewrite lookup_insert_ne].
  - intros k. rewrite live_in_pull, values_snoc, I8, <- app_assoc. f_equal. case_bool_decide as E.
    + subst k. by rewrite EQ, Q1.
    + by rewrite Q2.
Qed.

(** ** Restart *)

Lemma torn_nil : torn_tail [].
Proof. exists (LIn 0), (lrec_bytes (LIn 0)). by split_and!. Qed.

Lemma next_seq_spec rs q b : Forall lrec_ok rs -> (forall t, t ∈ map live_seq (outs_of rs) -> 0 <= t < b) -> b < 2 ^ 64 ->
  0 <= q <= b -> q <= next_seq rs q <= b /\ forall t, t ∈ map live_seq (outs_of rs) -> t < next_seq rs q.
Proof.
  intros HF HB Hb. revert q. induction HF as [|r rs Hr HF IH]; intros q Hq.
  { split; [cbn; lia|]. by intros ? ?%elem_of_nil. }
  destruct r as [s k v|s].
  - assert (0 <= s < b) as Hs by (apply HB; left). cbn [next_seq fold_left].
    fold (next_seq rs (if q <=? s then wrapu64 (s + 1) else q)).
    assert (wrapu64 (s + 1) = s + 1) as -> by (unfold wrapu64; apply Z.mod_small; lia).
    destruct (IH ltac:(intros; apply HB; by right) (if q <=? s then s + 1 else q)) as [H1 H2];
      [destruct (Z.leb_spec q s); lia|]. split; [destruct (Z.leb_spec q s); lia|].
    intros t Ht. cbn in Ht. apply elem_of_cons in Ht as [->|Ht]; [|by apply H2].
    unfold live_seq. cbn. destruct (Z.leb_spec q s); lia.
  - apply IH; [|done]. intros t Ht. by apply HB.
Qed.

(** What opening a log gives, a torn tail or not. *)
Lemma Open_log y rs torn : durable_inv y rs -> log_end torn ->
  exists q, Open (log_of rs ++ torn) = Ok (mkStore (log_of rs ++ torn) false (rebuild (outs_of rs) (rev (tombs_of rs))) q) /\
    0 <= q <= ss_seq (du_store y) /\ (forall t, t ∈ map live_seq (outs_of rs) -> t < q) /\
    holds (rebuild (outs_of rs) (rev (tombs_of rs))) (live_in rs).
Proof.
  intros [I1 I2 I3 I4 I5 I6 I7 I8] HT. exists (next_seq rs 0). unfold Open.
  rewrite replay_loop_log; [|done|done|rewrite length_app; pose proof (log_of_length rs I2); lia].
  cbn [rbind app]. rewrite app_nil_r. split; [done|].
  destruct (next_seq_spec rs 0 (ss_seq (du_store y)) I2 I5) as [H1 H2]; [lia..|]. split_and!; [lia|lia|done|].
  pose proof (rebuild_holds (outs_of rs) (rev (tombs_of rs))) as HR. unfold live_in.
  rewrite (live_of_ext _ (tombs_of rs) (rev (tombs_of rs))); [done|]. intros s. by rewrite !list_elem_of_In, <- in_rev.
Qed.

Lemma restart_inv y rs s : durable_inv y rs -> Open (ss_log (du_store y)) = Ok s ->
  durable_inv (mkDurable s (du_outs y) (du_takes y)) rs.
Proof.
  intros I HO. destruct (Open_log y rs [] I (torn_end [] torn_nil)) as (q & HQ & Hq & Hlt & HD). destruct I as [I1 I2 I3 I4 I5 I6 I7 I8].
  rewrite app_nil_r in HQ. rewrite I1, HQ in HO. injection HO as <-. split; cbn; try done; [|lia].
  intros t Ht. apply I5 in Ht as Ht'. apply Hlt in Ht. lia.
Qed.

(** ** Compaction *)

(** The entries, key by key. *)
Definition grouped (keys : list bytes) (es : list live) : list live :=
  concat (map (fun key => List.filter (fun e => bool_decide (live_key e = key)) es) keys).

Definition as_out (e : live) : lrec := LOut (live_seq e) (live_key e) e.2.

Lemma elem_of_key key es e : e ∈ List.filter (fun e => bool_decide (live_key e = key)) es <-> e ∈ es /\ live_key e = key.
Proof. rewrite !list_elem_of_In, filter_In. by rewrite bool_decide_eq_true. Qed.

Lemma elem_of_grouped keys es e : e ∈ grouped keys es <-> e ∈ es /\ live_key e ∈ keys.
Proof.
  induction keys as [|k keys IH]; [unfold grouped; cbn; rewrite !elem_of_nil; tauto|].
  unfold grouped in *. cbn [map concat]. rewrite elem_of_app, elem_of_key, IH, elem_of_cons. naive_solver.
Qed.

Lemma outs_of_as_out es : outs_of (map as_out es) = es /\ tombs_of (map as_out es) = [].
Proof. induction es as [|[[s k] v] es [I1 I2]]; [done|]. cbn. unfold outs_of, tombs_of in *. cbn. by rewrite I1, I2. Qed.

Lemma live_of_no_tomb es : live_of es [] = es.
Proof.
  unfold live_of. induction es as [|e es IH]; [done|]. cbn [List.filter].
  rewrite bool_decide_false by apply not_elem_of_nil. cbn [negb]. by rewrite IH.
Qed.

Lemma log_of_app a b : log_of (a ++ b) = log_of a ++ log_of b.
Proof. unfold log_of. by rewrite map_app, concat_app. Qed.

Lemma compact_log data es keys : holds data es ->
  concat (map (fun key => concat (map (fun r => encodeRecord opOut (rec_seq r) key (rec_val r)) (queue_at data key))) keys) =
  log_of (map as_out (grouped keys es)).
Proof.
  intros H. induction keys as [|k keys IH]; [done|]. unfold grouped in *. cbn [map concat].
  rewrite map_app, log_of_app, <- IH. f_equal. rewrite (holds_queue _ _ _ H). unfold queue_of, log_of.
  clear. induction es as [|[[s k'] v] es IH]; [done|]. cbn [List.filter].
  destruct (bool_decide_reflect (live_key (s, k', v) = k)) as [E|E]; [|exact IH]. unfold live_key in E. cbn in E. subst k'.
  cbn [map concat]. rewrite IH. done.
Qed.

Lemma queue_of_app key a b : queue_of key (a ++ b) = queue_of key a ++ queue_of key b.
Proof. unfold queue_of. by rewrite filter_app, map_app. Qed.

Lemma filter_idem {A} (p : A -> bool) l : List.filter p (List.filter p l) = List.filter p l.
Proof. induction l as [|x l IH]; [done|]. cbn. destruct (p x) eqn:E; cbn; rewrite ?E, ?IH; done. Qed.

Lemma filter_nil_all {A} (p : A -> bool) l : (forall x, x ∈ l -> p x = false) -> List.filter p l = [].
Proof.
  induction l as [|x l IH]; [done|]. intros H. cbn. rewrite (H x) by (by left). apply IH. intros. apply H. by right.
Qed.

Lemma queue_of_none key es : (forall e, e ∈ es -> live_key e <> key) -> queue_of key es = [].
Proof. intros H. unfold queue_of. rewrite filter_nil_all; [done|]. intros e He. by apply bool_decide_eq_false, H. Qed.

(** Grouping keeps every queue of the keys it ranges over. *)
Lemma queue_of_grouped keys es key : base.NoDup keys -> (forall e, e ∈ es -> live_key e ∈ keys) ->
  queue_of key (grouped keys es) = queue_of key es.
Proof.
  intros HN HK. destruct (decide (key ∈ keys)) as [Hin|Hout].
  2:{ rewrite !queue_of_none; [done| |].
      - intros e He <-. by apply Hout, HK.
      - intros e He%elem_of_grouped <-. by destruct He. }
  clear HK. induction HN as [|k keys Hk HN IH]; [by apply elem_of_nil in Hin|].
  unfold grouped. cbn [map concat]. fold (grouped keys es). rewrite queue_of_app.
  destruct (decide (key = k)) as [->|Hne].
  - rewrite (queue_of_none k (grouped keys es)), app_nil_r.
    + unfold queue_of. by rewrite filter_idem.
    + intros e [_ He]%elem_of_grouped <-. done.
  - rewrite queue_of_none by (intros e [_ He]%elem_of_key; congruence). apply IH. apply elem_of_cons in Hin as [?|?]; [congruence|done].
Qed.

Lemma live_seq_inj es a b : base.NoDup (map live_seq es) -> a ∈ es -> b ∈ es -> live_seq a = live_seq b -> a = b.
Proof.
  induction es as [|e es IH]; [by intros _ ?%elem_of_nil|]. intros [Hn HN]%list.NoDup_cons Ha Hb E.
  apply elem_of_cons in Ha as [->|Ha]; apply elem_of_cons in Hb as [->|Hb]; [done| | |by apply IH].
  - exfalso. apply Hn. rewrite E. by apply list_elem_of_fmap_2.
  - exfalso. apply Hn. rewrite <- E. by apply list_elem_of_fmap_2.
Qed.

Lemma filter_seq_nodup (p : live -> bool) es : base.NoDup (map live_seq es) -> base.NoDup (map live_seq (List.filter p es)).
Proof.
  induction es as [|e es IH]; [done|]. intros [H1 H2]%list.NoDup_cons. cbn [List.filter]. destruct (p e); [|by apply IH].
  cbn [map]. apply list.NoDup_cons. split; [|by apply IH]. intros (x & Hx & Hi)%list_elem_of_fmap. apply H1. rewrite Hx.
  apply list_elem_of_fmap_2. apply list_elem_of_In, filter_In in Hi as [Hi _]. by apply list_elem_of_In.
Qed.

Lemma grouped_nodup keys es : base.NoDup keys -> base.NoDup (map live_seq es) -> base.NoDup (map live_seq (grouped keys es)).
Proof.
  intros HN HE. induction HN as [|k keys Hk HN IH]; [apply base.NoDup_nil_2|]. unfold grouped. cbn [map concat].
  fold (grouped keys es). rewrite map_app. apply list.NoDup_app. split_and!; [by apply filter_seq_nodup| |done].
  intros s (a & Ea & [Ha Hka]%elem_of_key)%list_elem_of_fmap (b & Eb & [Hb Hkb]%elem_of_grouped)%list_elem_of_fmap.
  assert (a = b) as -> by (apply (live_seq_inj es); [done|done|done|congruence]). congruence.
Qed.

Lemma as_out_ok rs e : Forall lrec_ok rs -> e ∈ outs_of rs -> lrec_ok (as_out e).
Proof.
  intros HF. induction HF as [|r rs Hr HF IH]; [by intros ?%elem_of_nil|]. destruct r as [s k v|s]; cbn; [|exact IH].
  intros [->|He]%elem_of_cons; [exact Hr|by apply IH].
Qed.

Lemma compact_inv y rs io keys er s : durable_inv y rs -> base.NoDup keys ->
  (forall k, is_Some (ss_data (du_store y) !! k) <-> k ∈ keys) -> Compact io keys (du_store y) = (er, s) ->
  exists rs', durable_inv (mkDurable s (du_outs y) (du_takes y)) rs'.
Proof.
  intros I HN HK HC. assert (s = du_store y \/ s = snd (Compact CompactDone keys (du_store y))) as [->| ->].
  { revert HC. unfold Compact. destruct (ss_closed (du_store y)), io; intros [= _ <-]; auto. }
  { exists rs. by destruct y. }
  clear HC. destruct (ss_closed (du_store y)) eqn:HC.
  { unfold Compact. rewrite HC. exists rs. by destruct y. }
  exists (map as_out (grouped keys (live_in rs))). destruct I as [I1 I2 I3 I4 I5 I6 I7 I8]. unfold Compact. rewrite HC.
  assert (forall e, e ∈ live_in rs -> live_key e ∈ keys) as HKE.
  { intros e He. apply HK. rewrite (I7 (live_key e)). destruct (queue_of (live_key e) (live_in rs)) eqn:EQ; [|by eexists].
    exfalso. assert (live_record e ∈ queue_of (live_key e) (live_in rs)) as HI
      by (unfold queue_of; by apply list_elem_of_fmap_2, elem_of_key). rewrite EQ in HI. by apply elem_of_nil in HI. }
  destruct (outs_of_as_out (grouped keys (live_in rs))) as [HO HT].
  assert (live_in (map as_out (grouped keys (live_in rs))) = grouped keys (live_in rs)) as HL
    by (unfold live_in at 1; rewrite HO, HT; apply live_of_no_tomb).
  split; cbn [du_store ss_log ss_seq ss_data du_outs du_takes]; rewrite ?HO, ?HT, ?HL.
  - by apply compact_log.
  - apply Forall_forall. intros r Hr. apply list_elem_of_In, list_elem_of_fmap in Hr as (e & -> & [He _]%elem_of_grouped).
    eapply as_out_ok; [done|by apply elem_of_live].
  - by apply grouped_nodup, live_in_nodup.
  - by intros t ?%elem_of_nil.
  - intros t (e & -> & [He _]%elem_of_grouped)%list_elem_of_fmap. by apply I5, list_elem_of_fmap_2, elem_of_live.
  - done.
  - intros k. rewrite queue_of_grouped by done. apply I7.
  - intros k. rewrite queue_of_grouped by done. apply I8.
Qed.

Lemma durable_reach y : rtc durable_step fresh y -> exists rs, durable_inv y rs.
Proof.
  revert y. apply rtc_ind_r; [exists []; apply fresh_inv|]. intros y z _ HS [rs I]. revert I.
  destruct HS as [y key v s HF HQ HP|y key v s HP|y io keys e s HN HK HC|y s HO]; intros I.
  - eexists. by eapply push_inv.
  - destruct (pull_inv y rs key v s I HP) as [r ?]. by eexists.
  - by eapply compact_inv.
  - eexists. by eapply restart_inv.
Qed.

(** C38: the durable queue refines a FIFO queue per key, across restarts and
    crashes.  After any sequence of acknowledged pushes and pulls, compactions
    (failed ones too) and restarts, and with any part of one further record at the end of the
    file, opening the log succeeds and rebuilds exactly the queues in memory:
    for every key, what was pushed is, in order, what was pulled followed by
    what the reopened store holds.  Nothing acknowledged is lost, duplicated or
    delivered again. *)
Theorem store_refines_fifo y torn (HR : rtc durable_step fresh y) (HT : torn_tail torn) :
  exists s, Open (ss_log (du_store y) ++ torn) = Ok s /\
    forall key, values key (du_outs y) = values key (du_takes y) ++ map rec_val (queue_at (ss_data s) key) /\
      queue_at (ss_data s) key = queue_at (ss_data (du_store y)) key.
Proof.
  destruct (durable_reach y HR) as [rs I]. destruct (Open_log y rs torn I (torn_end torn HT)) as (q & HO & _ & _ & HD).
  rewrite (iv_log y rs I). eexists. split; [exact HO|]. intros key. cbn [ss_data].
  rewrite (holds_queue _ _ key HD), (holds_queue _ _ key (iv_data y rs I)). split; [|done]. apply (iv_hist y rs I).
Qed.

(** A push after a crash, sent to the log behind a torn record that is longer. *)
Lemma log_end_swallow r p q x : lrec_ok r -> lrec_bytes r = p ++ q -> 4 <= len p -> len x < len q -> log_end (p ++ x).
Proof.
  intros Hr HE Hp Hx. pose proof (lrec_body_len r Hr). rewrite lrec_bytes_body in HE by done.
  pose proof (f_equal len HE) as HL. rewrite !len_app, len_be_put in HL.
  assert (exists b, p = be_put 4 (len (lrec_body r)) ++ b) as [b ->].
  { apply app_eq_inv in HE as [(k & HE & HE')|(k & HE & HE')].
    - pose proof (f_equal len HE) as HL'. rewrite len_be_put, len_app in HL'.
      assert (k = []) as -> by (apply len_0_nil; pose proof (len_nonneg k); lia). exists []. by rewrite HE, !app_nil_r.
    - by exists k. }
  unfold log_end, readRecord, read_full at 1. rewrite <- app_assoc, ReadFull_app by (by rewrite len_be_put).
  rewrite be_get_put by (cbn; lia). destruct (Z.ltb_spec (len (lrec_body r)) 9); [lia|]. rewrite len_app, len_be_put in *.
  destruct (read_full_short (len (lrec_body r)) false (b ++ x)) as (e & -> & He); [rewrite len_app; lia|]. by exists e, [].
Qed.

(** C40: [Open] ignores a torn record but leaves it in the file, and later
    records are appended behind it.  When the missing part of the torn record
    is longer than the next record, that record is read as part of it: a push
    that was acknowledged after the crash is gone at the next restart. *)
Theorem store_push_after_crash_lost y r p q key v s1 s2
    (HR : rtc durable_step fresh y) (Hr : lrec_ok r) (HE : lrec_bytes r = p ++ q) (Hp : 4 <= len p)
    (H1 : Open (ss_log (du_store y) ++ p) = Ok s1) (H2 : Push WriteOk key v s1 = (None, s2))
    (Hq : len (encodeRecord opOut (ss_seq s1) key v) < len q) :
  exists s3, Open (ss_log s2) = Ok s3 /\
    queue_at (ss_data s2) key = queue_at (ss_data s1) key ++ [mkRecord (ss_seq s1) v] /\
    forall k, queue_at (ss_data s3) k = queue_at (ss_data s1) k.
Proof.
  destruct (durable_reach y HR) as [rs I]. rewrite (iv_log y rs I) in H1.
  assert (torn_tail p) as HT.
  { exists r, q. split_and!; [done..|]. intros ->. pose proof (len_nonneg (encodeRecord opOut (ss_seq s1) key v)). rewrite len_nil in Hq. lia. }
  destruct (Open_log y rs p I (torn_end p HT)) as (n & HO & _ & _ & HD). rewrite HO in H1. injection H1 as <-.
  unfold Push in H2. cbn [ss_closed ss_log ss_data ss_seq log_append] in *. injection H2 as <-. cbn [ss_log ss_data].
  rewrite <- app_assoc.
  destruct (Open_log y rs (p ++ encodeRecord opOut n key v) I) as (n' & HO' & _); [by eapply log_end_swallow|].
  eexists. split; [exact HO'|]. split; [|done]. unfold queue_at at 1. by rewrite lookup_insert_eq.
Qed.

(** ** A history *)

Definition sample_push (key v : bytes) (y : durable) : durable :=
  mkDurable (snd (Push WriteOk key v (du_store y))) (du_outs y ++ [(key, v)]) (du_takes y).
Definition sample_durable : durable := sample_push (go "host") (go "0200") (sample_push (go "host") (go "0100") fresh).

Lemma sample_durable_reach : rtc durable_step fresh sample_durable.
Proof.
  eapply rtc_l; [apply (step_push fresh (go "host") (go "0100")); [vm_compute; reflexivity|vm_compute; reflexivity|reflexivity]|].
  eapply rtc_l; [apply (step_push _ (go "host") (go "0200")); [vm_compute; reflexivity|vm_compute; reflexivity|reflexivity]|].
  apply rtc_refl.
Qed.

(** A crash inside a third push. *)
Lemma store_refines_fifo_witness :
  exists s, Open (ss_log (du_store sample_durable) ++ take 9 (encodeRecord opOut 2 (go "host") (go "0400"))) = Ok s /\
    map rec_val (queue_at (ss_data s) (go "host")) = [go "0100"; go "0200"].
Proof.
  destruct (store_refines_fifo sample_durable (take 9 (encodeRecord opOut 2 (go "host") (go "0400")))) as (s & HO & HK).
  - exact sample_durable_reach.
  - exists (LOut 2 (go "host") (go "0400")), (drop 9 (encodeRecord opOut 2 (go "host") (go "0400"))).
    split; [split; vm_compute; split; reflexivity || discriminate|]. split; [symmetry; apply take_drop|vm_compute; discriminate].
  - exists s. split; [exact HO|]. destruct (HK (go "host")) as [_ ->]. vm_compute. reflexivity.
Defined.

Lemma store_push_after_crash_lost_witness :
  let torn := take 9 (encodeRecord opOut 2 (go "host") (go "0400 with a longer body")) in
  exists s1 s2 s3, Open (ss_log (du_store sample_durable) ++ torn) = Ok s1 /\
    Push WriteOk (go "host") (go "0420") s1 = (None, s2) /\ Open (ss_log s2) = Ok s3 /\
    queue_at (ss_data s3) (go "host") <> queue_at (ss_data s2) (go "host").
Proof.
  set (rec := encodeRecord opOut 2 (go "host") (go "0400 with a longer body")). cbv zeta.
  assert (C : match Open (ss_log (du_store sample_durable) ++ take 9 rec) with
    | Ok s1 => match Push WriteOk (go "host") (go "0420") s1 with
               | (None, _) => bool_decide (len (encodeRecord opOut (ss_seq s1) (go "host") (go "0420")) < len (drop 9 rec)) | _ => false end
    | _ => false end = true) by (vm_compute; reflexivity).
  destruct (Open (ss_log (du_store sample_durable) ++ take 9 rec)) as [s1|e|] eqn:E1; [|discriminate C..].
  destruct (Push WriteOk (go "host") (go "0420") s1) as [[e|] s2] eqn:E2; [discriminate C|]. apply bool_decide_eq_true in C.
  destruct (store_push_after_crash_lost sample_durable (LOut 2 (go "host") (go "0400 with a longer body")) (take 9 rec) (drop 9 rec)
    (go "host") (go "0420") s1 s2 sample_durable_reach) as (s3 & H1 & H2 & H3).
  - split; vm_compute; split; reflexivity || discriminate.
  - symmetry. apply take_drop.
  - vm_compute. discriminate.
  - exact E1.
  - exact E2.
  - exact C.
  - exists s1, s2, s3. split; [reflexivity|]. split; [exact E2|]. split; [exact H1|]. rewrite H2, H3. intros HX.
    apply (f_equal length) in HX. rewrite length_app in HX. cbn in HX. lia.
Defined.
