(* ===== verification/Des.v ===== *)
(** * The data encryption standard (crypto/des, crypto/cipher)

    What the security module uses of the Go standard library: the DES and
    triple-DES block ciphers of FIPS 46-3, executable, and the interface
    [cipher.Block] with the laws that its users rely on. *)

From S2P Require Import Prelude.

(** ** Bits *)

(** The bits of a byte, the most significant first. *)
Definition byte_bits (b : byte) : list bool :=
  let '(b0, (b1, (b2, (b3, (b4, (b5, (b6, b7))))))) := Byte.to_bits b in [b7; b6; b5; b4; b3; b2; b1; b0].

Definition bits_of (bs : bytes) : list bool := concat (map byte_bits bs).

Fixpoint bytes_of (l : list bool) : bytes :=
  match l with
  | b7 :: b6 :: b5 :: b4 :: b3 :: b2 :: b1 :: b0 :: l =>
      Byte.of_bits (b0, (b1, (b2, (b3, (b4, (b5, (b6, b7))))))) :: bytes_of l
  | _ => []
  end.

Definition bxor (a b : list bool) : list bool := zip_with xorb a b.

(** ** Tables *)

Definition IP : list nat :=
  [58; 50; 42; 34; 26; 18; 10; 2; 60; 52; 44; 36; 28; 20; 12; 4;
   62; 54; 46; 38; 30; 22; 14; 6; 64; 56; 48; 40; 32; 24; 16; 8;
   57; 49; 41; 33; 25; 17; 9; 1; 59; 51; 43; 35; 27; 19; 11; 3;
   61; 53; 45; 37; 29; 21; 13; 5; 63; 55; 47; 39; 31; 23; 15; 7]%nat.

Definition FP : list nat :=
  [40; 8; 48; 16; 56; 24; 64; 32; 39; 7; 47; 15; 55; 23; 63; 31;
   38; 6; 46; 14; 54; 22; 62; 30; 37; 5; 45; 13; 53; 21; 61; 29;
   36; 4; 44; 12; 52; 20; 60; 28; 35; 3; 43; 11; 51; 19; 59; 27;
   34; 2; 42; 10; 50; 18; 58; 26; 33; 1; 41; 9; 49; 17; 57; 25]%nat.

Definition expansion : list nat :=
  [32; 1; 2; 3; 4; 5; 4; 5; 6; 7; 8; 9; 8; 9; 10; 11; 12; 13; 12; 13; 14; 15; 16; 17;
   16; 17; 18; 19; 20; 21; 20; 21; 22; 23; 24; 25; 24; 25; 26; 27; 28; 29; 28; 29; 30; 31; 32; 1]%nat.

Definition P_box : list nat :=
  [16; 7; 20; 21; 29; 12; 28; 17; 1; 15; 23; 26; 5; 18; 31; 10;
   2; 8; 24; 14; 32; 27; 3; 9; 19; 13; 30; 6; 22; 11; 4; 25]%nat.

Definition PC1 : list nat :=
  [57; 49; 41; 33; 25; 17; 9; 1; 58; 50; 42; 34; 26; 18; 10; 2; 59; 51; 43; 35; 27; 19; 11; 3; 60; 52; 44; 36;
   63; 55; 47; 39; 31; 23; 15; 7; 62; 54; 46; 38; 30; 22; 14; 6; 61; 53; 45; 37; 29; 21; 13; 5; 28; 20; 12; 4]%nat.

Definition PC2 : list nat :=
  [14; 17; 11; 24; 1; 5; 3; 28; 15; 6; 21; 10; 23; 19; 12; 4; 26; 8; 16; 7; 27; 20; 13; 2;
   41; 52; 31; 37; 47; 55; 30; 40; 51; 45; 33; 48; 44; 49; 39; 56; 34; 53; 46; 42; 50; 36; 29; 32]%nat.

Definition rotations : list nat := [1; 1; 2; 2; 2; 2; 2; 2; 1; 2; 2; 2; 2; 2; 2; 1]%nat.

Definition S_boxes : list (list Z) :=
  [[14; 4; 13; 1; 2; 15; 11; 8; 3; 10; 6; 12; 5; 9; 0; 7; 0; 15; 7; 4; 14; 2; 13; 1; 10; 6; 12; 11; 9; 5; 3; 8;
    4; 1; 14; 8; 13; 6; 2; 11; 15; 12; 9; 7; 3; 10; 5; 0; 15; 12; 8; 2; 4; 9; 1; 7; 5; 11; 3; 14; 10; 0; 6; 13];
   [15; 1; 8; 14; 6; 11; 3; 4; 9; 7; 2; 13; 12; 0; 5; 10; 3; 13; 4; 7; 15; 2; 8; 14; 12; 0; 1; 10; 6; 9; 11; 5;
    0; 14; 7; 11; 10; 4; 13; 1; 5; 8; 12; 6; 9; 3; 2; 15; 13; 8; 10; 1; 3; 15; 4; 2; 11; 6; 7; 12; 0; 5; 14; 9];
   [10; 0; 9; 14; 6; 3; 15; 5; 1; 13; 12; 7; 11; 4; 2; 8; 13; 7; 0; 9; 3; 4; 6; 10; 2; 8; 5; 14; 12; 11; 15; 1;
    13; 6; 4; 9; 8; 15; 3; 0; 11; 1; 2; 12; 5; 10; 14; 7; 1; 10; 13; 0; 6; 9; 8; 7; 4; 15; 14; 3; 11; 5; 2; 12];
   [7; 13; 14; 3; 0; 6; 9; 10; 1; 2; 8; 5; 11; 12; 4; 15; 13; 8; 11; 5; 6; 15; 0; 3; 4; 7; 2; 12; 1; 10; 14; 9;
    10; 6; 9; 0; 12; 11; 7; 13; 15; 1; 3; 14; 5; 2; 8; 4; 3; 15; 0; 6; 10; 1; 13; 8; 9; 4; 5; 11; 12; 7; 2; 14];
   [2; 12; 4; 1; 7; 10; 11; 6; 8; 5; 3; 15; 13; 0; 14; 9; 14; 11; 2; 12; 4; 7; 13; 1; 5; 0; 15; 10; 3; 9; 8; 6;
    4; 2; 1; 11; 10; 13; 7; 8; 15; 9; 12; 5; 6; 3; 0; 14; 11; 8; 12; 7; 1; 14; 2; 13; 6; 15; 0; 9; 10; 4; 5; 3];
   [12; 1; 10; 15; 9; 2; 6; 8; 0; 13; 3; 4; 14; 7; 5; 11; 10; 15; 4; 2; 7; 12; 9; 5; 6; 1; 13; 14; 0; 11; 3; 8;
    9; 14; 15; 5; 2; 8; 12; 3; 7; 0; 4; 10; 1; 13; 11; 6; 4; 3; 2; 12; 9; 5; 15; 10; 11; 14; 1; 7; 6; 0; 8; 13];
   [4; 11; 2; 14; 15; 0; 8; 13; 3; 12; 9; 7; 5; 10; 6; 1; 13; 0; 11; 7; 4; 9; 1; 10; 14; 3; 5; 12; 2; 15; 8; 6;
    1; 4; 11; 13; 12; 3; 7; 14; 10; 15; 6; 8; 0; 5; 9; 2; 6; 11; 13; 8; 1; 4; 10; 7; 9; 5; 0; 15; 14; 2; 3; 12];
   [13; 2; 8; 4; 6; 15; 11; 1; 10; 9; 3; 14; 5; 0; 12; 7; 1; 15; 13; 8; 10; 3; 7; 4; 12; 5; 6; 11; 0; 14; 9; 2;
    7; 11; 4; 1; 9; 12; 14; 2; 0; 6; 10; 13; 15; 3; 5; 8; 2; 1; 14; 7; 4; 10; 8; 13; 15; 12; 9; 0; 3; 5; 6; 11]].

(** ** The cipher *)

(** The bits of [x] that the table names, counted from 1. *)
Definition perm (t : list nat) (x : list bool) : list bool := map (fun i => nth (pred i) x false) t.

Definition bit_value (b : bool) : Z := if b then 1 else 0.

(** The four bits that the table holds for six bits: the outer two choose the row. *)
Definition sbox (t : list Z) (x : list bool) : list bool :=
  let at_ i := bit_value (nth i x false) in
  let v := nth (Z.to_nat (32 * at_ 0%nat + 16 * at_ 5%nat + 8 * at_ 1%nat + 4 * at_ 2%nat + 2 * at_ 3%nat + at_ 4%nat)) t 0 in
  [Z.testbit v 3; Z.testbit v 2; Z.testbit v 1; Z.testbit v 0].

Fixpoint substitute (boxes : list (list Z)) (x : list bool) : list bool :=
  match boxes with
  | [] => []
  | t :: boxes => sbox t (take 6 x) ++ substitute boxes (drop 6 x)
  end.

Definition feistel (r k : list bool) : list bool := perm P_box (substitute S_boxes (bxor (perm expansion r) k)).

Definition rotate (n : nat) (x : list bool) : list bool := drop n x ++ take n x.

Fixpoint key_rounds (rots : list nat) (c d : list bool) : list (list bool) :=
  match rots with
  | [] => []
  | n :: rots => perm PC2 (rotate n c ++ rotate n d) :: key_rounds rots (rotate n c) (rotate n d)
  end.

Definition key_schedule (key : bytes) : list (list bool) :=
  let k := perm PC1 (bits_of key) in key_rounds rotations (take 28 k) (drop 28 k).

Definition rounds (ks : list (list bool)) (lr : list bool * list bool) : list bool * list bool :=
  fold_left (fun '(l, r) k => (r, bxor l (feistel r k))) ks lr.

Definition des_core (ks : list (list bool)) (src : bytes) : bytes :=
  let b := perm IP (bits_of src) in
  let '(l, r) := rounds ks (take 32 b, drop 32 b) in
  bytes_of (perm FP (r ++ l)).

Definition des_encrypt (key src : bytes) : bytes := des_core (key_schedule key) src.
Definition des_decrypt (key src : bytes) : bytes := des_core (rev (key_schedule key)) src.

(** ** The interface [cipher.Block] *)

Record Block := mkBlock { BlockSize : Z; Encrypt : bytes -> bytes; Decrypt : bytes -> bytes }.

(** What the users of a block cipher rely on. *)
Class BlockLaws (b : Block) := {
  block_pos : 0 < BlockSize b;
  Encrypt_len x : len x = BlockSize b -> len (Encrypt b x) = BlockSize b;
  Decrypt_len x : len x = BlockSize b -> len (Decrypt b x) = BlockSize b;
  Decrypt_Encrypt x : len x = BlockSize b -> Decrypt b (Encrypt b x) = x;
  Encrypt_Decrypt x : len x = BlockSize b -> Encrypt b (Decrypt b x) = x;
}.

(** [des.NewCipher] and [des.NewTripleDESCipher], on a key of the right length. *)
Definition NewCipher (key : bytes) : Block := mkBlock 8 (des_encrypt key) (des_decrypt key).
Definition NewTripleDESCipher (key : bytes) : Block :=
  let k1 := take 8 key in let k2 := take 8 (drop 8 key) in let k3 := drop 16 key in
  mkBlock 8 (fun x => des_encrypt k3 (des_decrypt k2 (des_encrypt k1 x)))
    (fun x => des_decrypt k1 (des_encrypt k2 (des_decrypt k3 x))).

(** ** The cipher is a permutation of the blocks *)

Lemma byte_bits_of b : match byte_bits b with
  | [b7; b6; b5; b4; b3; b2; b1; b0] => Byte.of_bits (b0, (b1, (b2, (b3, (b4, (b5, (b6, b7))))))) = b | _ => False end.
Proof.
  unfold byte_bits. pose proof (Byte.of_bits_to_bits b) as H.
  destruct (Byte.to_bits b) as (b0 & b1 & b2 & b3 & b4 & b5 & b6 & b7). exact H.
Qed.

Lemma byte_bits_length b : length (byte_bits b) = 8%nat.
Proof. unfold byte_bits. by destruct (Byte.to_bits b) as (b0 & b1 & b2 & b3 & b4 & b5 & b6 & b7). Qed.

Lemma bits_of_length bs : length (bits_of bs) = (8 * length bs)%nat.
Proof.
  unfold bits_of. induction bs as [|b bs IH]; [done|]. cbn [map concat]. rewrite length_app, IH, byte_bits_length.
  cbn [length]. lia.
Qed.

Lemma bytes_of_bits_of bs : bytes_of (bits_of bs) = bs.
Proof.
  unfold bits_of. induction bs as [|b bs IH]; [done|]. cbn [map concat]. pose proof (byte_bits_of b) as H.
  destruct (byte_bits b) as [|b7 [|b6 [|b5 [|b4 [|b3 [|b2 [|b1 [|b0 [|]]]]]]]]]; try done.
  cbn [app bytes_of]. by rewrite H, IH.
Qed.

Lemma bytes_of_spec n l : length l = (8 * n)%nat -> length (bytes_of l) = n /\ bits_of (bytes_of l) = l.
Proof.
  revert l. induction n as [|n IH]; intros l H; [by destruct l|].
  destruct l as [|b7 [|b6 [|b5 [|b4 [|b3 [|b2 [|b1 [|b0 l]]]]]]]]; try (cbn in H; lia).
  destruct (IH l) as [I1 I2]; [cbn in H; lia|]. cbn [bytes_of length bits_of map concat]. rewrite I1. split; [done|].
  fold (bits_of (bytes_of l)). rewrite I2. unfold byte_bits. rewrite Byte.to_bits_of_bits. done.
Qed.

Lemma perm_length t x : length (perm t x) = length t.
Proof. apply length_map. Qed.

Lemma perm_perm t u x : (forall i, i ∈ t -> (pred i < length u)%nat) ->
  perm t (perm u x) = perm (map (fun i => nth (pred i) u 0%nat) t) x.
Proof.
  intros H. unfold perm. rewrite map_map. apply map_ext_in. intros i Hi%list_elem_of_In. specialize (H i Hi).
  rewrite (nth_indep _ false ((fun i => nth (pred i) x false) 0%nat)) by (by rewrite length_map).
  by rewrite (map_nth (fun i => nth (pred i) x false)).
Qed.

Lemma perm_id x n : length x = n -> perm (seq 1 n) x = x.
Proof.
  intros <-. unfold perm. apply (nth_ext _ _ false false); [by rewrite length_map, length_seq|].
  rewrite length_map, length_seq. intros i Hi.
  rewrite (nth_indep _ false ((fun i => nth (pred i) x false) 0%nat)) by (by rewrite length_map, length_seq).
  rewrite (map_nth (fun i => nth (pred i) x false)), seq_nth by done. done.
Qed.

Lemma IP_FP x : length x = 64%nat -> perm IP (perm FP x) = x.
Proof.
  intros H. rewrite perm_perm. { exact (perm_id x 64 H). }
  intros i Hi. assert (Forall (fun i => (pred i < 64)%nat) IP) as HF by (repeat constructor; lia).
  rewrite Forall_forall in HF. apply HF. by apply list_elem_of_In.
Qed.

Lemma FP_IP x : length x = 64%nat -> perm FP (perm IP x) = x.
Proof.
  intros H. rewrite perm_perm. { exact (perm_id x 64 H). }
  intros i Hi. assert (Forall (fun i => (pred i < 64)%nat) FP) as HF by (repeat constructor; lia).
  rewrite Forall_forall in HF. apply HF. by apply list_elem_of_In.
Qed.

Lemma bxor_length a b : length a = length b -> length (bxor a b) = length a.
Proof. intros H. unfold bxor. rewrite length_zip_with. lia. Qed.

Lemma bxor_cancel a b : length a = length b -> bxor (bxor a b) b = a.
Proof.
  revert b. induction a as [|x a IH]; intros [|y b] H; try done. cbn in *. f_equal; [by destruct x, y|]. apply IH. lia.
Qed.

Lemma feistel_length r k : length (feistel r k) = 32%nat.
Proof. apply perm_length. Qed.

Lemma rounds_app a b lr : rounds (a ++ b) lr = rounds b (rounds a lr).
Proof. apply fold_left_app. Qed.

Lemma rounds_length ks l r : length l = 32%nat -> length r = 32%nat ->
  length (rounds ks (l, r)).1 = 32%nat /\ length (rounds ks (l, r)).2 = 32%nat.
Proof.
  revert l r. induction ks as [|k ks IH]; intros l r Hl Hr; [done|].
  change (rounds (k :: ks) (l, r)) with (rounds ks (r, bxor l (feistel r k))). apply IH; [done|].
  by rewrite bxor_length by (by rewrite feistel_length).
Qed.

(** A Feistel network with the round keys reversed undoes itself. *)
Lemma rounds_rev ks l r : length l = 32%nat -> length r = 32%nat ->
  rounds (rev ks) ((rounds ks (l, r)).2, (rounds ks (l, r)).1) = (r, l).
Proof.
  revert l r. induction ks as [|k ks IH]; intros l r Hl Hr; [done|].
  change (rounds (k :: ks) (l, r)) with (rounds ks (r, bxor l (feistel r k))). cbn [rev]. rewrite rounds_app, IH.
  - change (rounds [k] ?p) with (p.2, bxor p.1 (feistel p.2 k)). cbn [fst snd].
    by rewrite bxor_cancel by (by rewrite feistel_length).
  - done.
  - by rewrite bxor_length by (by rewrite feistel_length).
Qed.

Lemma des_core_length ks src : length src = 8%nat -> length (des_core ks src) = 8%nat.
Proof.
  intros _. unfold des_core. destruct (rounds ks _) as [l r]. apply (bytes_of_spec 8). by rewrite perm_length.
Qed.

Lemma des_core_rev ks src : length src = 8%nat -> des_core (rev ks) (des_core ks src) = src.
Proof.
  intros H. assert (length (bits_of src) = 64%nat) as HB by (rewrite bits_of_length, H; done).
  set (b := perm IP (bits_of src)). assert (length b = 64%nat) as Hb by apply perm_length.
  assert (length (take 32 b) = 32%nat /\ length (drop 32 b) = 32%nat) as [H1 H2] by (rewrite length_take, length_drop; lia).
  pose proof (rounds_length ks _ _ H1 H2) as [H3 H4]. pose proof (rounds_rev ks _ _ H1 H2) as HR.
  unfold des_core at 2. fold b. destruct (rounds ks (take 32 b, drop 32 b)) as [l r]. cbn [fst snd] in *.
  unfold des_core. rewrite (proj2 (bytes_of_spec 8 (perm FP (r ++ l)) (perm_length _ _))).
  rewrite IP_FP by (rewrite length_app; lia). rewrite take_app_length', drop_app_length' by done. rewrite HR.
  rewrite take_drop. unfold b. rewrite FP_IP by done. apply bytes_of_bits_of.
Qed.

Lemma len_8 (x : bytes) : len x = 8 <-> length x = 8%nat.
Proof. unfold len. lia. Qed.

Lemma des_decrypt_encrypt key x : length x = 8%nat -> des_decrypt key (des_encrypt key x) = x.
Proof. apply des_core_rev. Qed.
Lemma des_encrypt_decrypt key x : length x = 8%nat -> des_encrypt key (des_decrypt key x) = x.
Proof. intros H. unfold des_encrypt, des_decrypt. rewrite <- (rev_involutive (key_schedule key)) at 1. by apply des_core_rev. Qed.
Lemma des_encrypt_length key x : length x = 8%nat -> length (des_encrypt key x) = 8%nat.
Proof. apply des_core_length. Qed.
Lemma des_decrypt_length key x : length x = 8%nat -> length (des_decrypt key x) = 8%nat.
Proof. apply des_core_length. Qed.

Create HintDb des.
Create Rewrite HintDb des.
#[export] Hint Resolve des_encrypt_length des_decrypt_length : des.
#[export] Hint Rewrite des_decrypt_encrypt des_encrypt_decrypt using (eauto with des) : des.

#[global] Typeclasses Opaque NewCipher NewTripleDESCipher.

#[export] Instance NewCipher_laws key : BlockLaws (NewCipher key).
Proof. split; cbn [NewCipher BlockSize Encrypt Decrypt]; [lia|intros x; rewrite !len_8; intros H; autorewrite with des; auto with des..]. Qed.

#[export] Instance NewTripleDESCipher_laws key : BlockLaws (NewTripleDESCipher key).
Proof.
  split; cbn [NewTripleDESCipher BlockSize Encrypt Decrypt]; [lia|intros x; rewrite !len_8; intros H; autorewrite with des; auto 6 with des..].
Qed.

(** The ciphers are used through their laws. *)
#[global] Opaque des_core.

(** A published example: the key 133457799BBCDFF1 takes 0123456789ABCDEF to
    85E813540F0AB405. *)
Example des_vector :
  des_encrypt (zb <$> [0x13; 0x34; 0x57; 0x79; 0x9B; 0xBC; 0xDF; 0xF1]) (zb <$> [0x01; 0x23; 0x45; 0x67; 0x89; 0xAB; 0xCD; 0xEF]) =
  (zb <$> [0x85; 0xE8; 0x13; 0x54; 0x0F; 0x0A; 0xB4; 0x05]).
Proof. vm_compute. reflexivity. Qed.
