(* ===== verification/Cipher.v ===== *)
(** * Block-cipher modes and message authentication ([vault/cipher.go], [vault/cmac.go], [vault/mac.go])

    The helpers of the security module over [cipher.Block]: ECB and CBC modes,
    CBC-MAC, the retail MAC, CMAC and the ISO 9797-1 paddings.  A call that
    indexes outside a slice is [Panic]. *)

From S2P Require Import Prelude Strconv Des.

(** The errors of the security module. *)
Inductive vault_error :=
| KeyLength (n : Z)
| InputLength (n : Z)
| IVLength (n : Z)
| UnknownMACAlgorithm (n : Z)
| MACLength (n : Z)
| UnknownFormat (n : Z)
| PINBlockLength (n : Z)
| PINLength (n : Z)
| PINDigit
| PANDigit
| PANLength (n : Z)
| ControlNibble
| PadNibble
| NoRandomness
| KeyBlockError (why : bytes)
| ErrUnknownKey (ref : bytes)
| UsageDenied (ref : bytes)
| SealedTooShort
| UnsealFailed.

(** ** Bytes *)

Definition byte_xor (a b : byte) : byte := zb (Z.lxor (bz a) (bz b)).
Definition xor_bytes (a b : bytes) : bytes := zip_with byte_xor a b.

(** [xorInto] into a fresh slice: [b] is read at every index of [a]. *)
Definition xored (a b : bytes) : res vault_error bytes :=
  if len b <? len a then Panic else Ok (xor_bytes a b).

Definition zeros (n : Z) : bytes := replicate (Z.to_nat n) x00.

(** ** Ciphers *)

Definition tripleDESBlock (key : bytes) : res vault_error Block :=
  if len key =? 24 then Ok (NewTripleDESCipher key)
  else if len key =? 16 then Ok (NewTripleDESCipher (key ++ take 8 key))
  else Err (KeyLength (len key)).

Definition desBlock (key : bytes) : res vault_error Block :=
  if negb (len key =? 8) then Err (KeyLength (len key)) else Ok (NewCipher key).

(** The blocks of [src]. *)
Fixpoint chunks (n : nat) (bs : Z) (src : bytes) : list bytes :=
  match n with
  | O => []
  | S n => take (Z.to_nat bs) src :: chunks n bs (drop (Z.to_nat bs) src)
  end.
Definition blocks (bs : Z) (src : bytes) : list bytes := chunks (Z.to_nat (len src / bs)) bs src.

Definition ecbEncrypt (b : Block) (src : bytes) : res vault_error bytes :=
  if negb (len src mod BlockSize b =? 0) then Err (InputLength (len src))
  else Ok (concat (map (Encrypt b) (blocks (BlockSize b) src))).

Definition ecbDecrypt (b : Block) (src : bytes) : res vault_error bytes :=
  if negb (len src mod BlockSize b =? 0) then Err (InputLength (len src))
  else Ok (concat (map (Decrypt b) (blocks (BlockSize b) src))).

(** [CryptBlocks] of the two CBC modes. *)
Fixpoint cbc_encrypt_blocks (b : Block) (iv : bytes) (ps : list bytes) : bytes :=
  match ps with
  | [] => []
  | p :: ps => let c := Encrypt b (xor_bytes p iv) in c ++ cbc_encrypt_blocks b c ps
  end.
Fixpoint cbc_decrypt_blocks (b : Block) (iv : bytes) (cs : list bytes) : bytes :=
  match cs with
  | [] => []
  | c :: cs => xor_bytes (Decrypt b c) iv ++ cbc_decrypt_blocks b c cs
  end.

Definition cbcEncrypt (b : Block) (iv src : bytes) : res vault_error bytes :=
  if negb (len iv =? BlockSize b) then Err (IVLength (len iv))
  else if negb (len src mod BlockSize b =? 0) then Err (InputLength (len src))
  else Ok (cbc_encrypt_blocks b iv (blocks (BlockSize b) src)).

Definition cbcDecrypt (b : Block) (iv src : bytes) : res vault_error bytes :=
  if negb (len iv =? BlockSize b) then Err (IVLength (len iv))
  else if negb (len src mod BlockSize b =? 0) then Err (InputLength (len src))
  else Ok (cbc_decrypt_blocks b iv (blocks (BlockSize b) src)).

(** A cipher panics on a short block and reads one block of a longer one. *)
Definition blockEnc (b : Block) (src : bytes) : res vault_error bytes :=
  if len src <? BlockSize b then Panic else Ok (Encrypt b (take (Z.to_nat (BlockSize b)) src)).
Definition blockDec (b : Block) (src : bytes) : res vault_error bytes :=
  if len src <? BlockSize b then Panic else Ok (Decrypt b (take (Z.to_nat (BlockSize b)) src)).

(** ** MACs *)

Fixpoint mac_loop (b : Block) (x : bytes) (ps : list bytes) : res vault_error bytes :=
  match ps with
  | [] => Ok x
  | p :: ps =>
      let! y := xored x p in
      let! x := blockEnc b y in
      mac_loop b x ps
  end.

(** [data] is a whole number of blocks; a part of one would be sliced out of range. *)
Definition cbcMAC (b : Block) (data : bytes) : res vault_error bytes :=
  if negb (len data mod BlockSize b =? 0) then Panic
  else mac_loop b (zeros (BlockSize b)) (blocks (BlockSize b) data).

Inductive MACAlgorithm := MACAlg1 | MACAlg3 | MACOther (n : Z).
Inductive Padding := Pad1 | Pad2 | PadOther (n : Z).

(** The zeros that fill the last block of [n] bytes. *)
Definition fill (n bs : Z) : bytes := zeros (- n mod bs).

Definition applyPadding (pad : Padding) (data : bytes) (bs : Z) : bytes :=
  match pad with
  | Pad2 => data ++ [x80] ++ fill (len data + 1) bs
  | _ =>
      if len data =? 0 then zeros bs
      else if len data mod bs =? 0 then data
      else data ++ fill (len data) bs
  end.

Definition GenerateMAC (alg : MACAlgorithm) (pad : Padding) (key data : bytes) : res vault_error bytes :=
  let padded := applyPadding pad data 8 in
  match alg with
  | MACAlg1 =>
      let! b := desBlock key in
      cbcMAC b padded
  | MACAlg3 =>
      if negb (len key =? 16) then Err (KeyLength (len key)) else
      let! k1 := slice key 0 8 in
      let! b1 := desBlock k1 in
      let! k2 := slice key 8 (len key) in
      let! b2 := desBlock k2 in
      let! h := cbcMAC b1 padded in
      let! d := blockDec b2 h in
      blockEnc b1 d
  | MACOther n => Err (UnknownMACAlgorithm n)
  end.

Definition VerifyMAC (alg : MACAlgorithm) (pad : Padding) (key data mac : bytes) : res vault_error bool :=
  let! full := GenerateMAC alg pad key data in
  if (len mac =? 0) || (len full <? len mac) then Err (MACLength (len mac)) else
  let! head := slice full 0 (len mac) in
  Ok (bool_decide (head = mac)).

(** ** CMAC *)

(** The bytes of [in], shifted left by one bit. *)
Fixpoint shift_left (l : bytes) : bytes :=
  match l with
  | [] => []
  | x :: r => zb (Z.lor (Z.shiftl (bz x) 1) (match r with y :: _ => Z.shiftr (bz y) 7 | [] => 0 end)) :: shift_left r
  end.

Definition dbl (l : bytes) : res vault_error bytes :=
  let rb := if len l =? 16 then x87 else x1b in
  let! b0 := idx l 0 in
  let out := shift_left l in
  Ok (if Z.shiftr (bz b0) 7 =? 1 then xor_bytes out (zeros (len l - 1) ++ [rb]) else out).

Definition cmacSubkeys (b : Block) : res vault_error (bytes * bytes) :=
  let! l := blockEnc b (zeros (BlockSize b)) in
  let! k1 := dbl l in
  let! k2 := dbl k1 in
  Ok (k1, k2).

Definition cmacBlock (b : Block) (msg : bytes) : res vault_error bytes :=
  let bs := BlockSize b in
  let! (k1, k2) := cmacSubkeys b in
  let rem := if (0 <? len msg) && (len msg mod bs =? 0) then bs else len msg mod bs in
  let! tail := slice msg (len msg - rem) (len msg) in
  let! last := (if (0 <? len msg) && (len msg mod bs =? 0) then xored tail k1
                else xored (tail ++ [x80] ++ zeros (bs - rem - 1)) k2) in
  let! body := slice msg 0 (len msg - rem) in
  let! x := mac_loop b (zeros bs) (blocks bs body) in
  let! y := xored x last in
  blockEnc b y.

(** ** Exclusive or *)

Lemma lxor_byte a b : 0 <= a < 256 -> 0 <= b < 256 -> 0 <= Z.lxor a b < 256.
Proof.
  intros Ha Hb. split; [by apply Z.lxor_nonneg; lia|].
  destruct (Z.eq_dec (Z.lxor a b) 0) as [->|E]; [lia|].
  assert (0 < Z.lxor a b) as Hp by (assert (0 <= Z.lxor a b) by (apply Z.lxor_nonneg; lia); lia).
  apply (Z.log2_lt_pow2 _ 8 Hp). pose proof (Z.log2_lxor a b ltac:(lia) ltac:(lia)).
  pose proof (Z.log2_le_mono a 255 ltac:(lia)). pose proof (Z.log2_le_mono b 255 ltac:(lia)). change (Z.log2 255) with 7 in *. lia.
Qed.

Lemma bz_byte_xor a b : bz (byte_xor a b) = Z.lxor (bz a) (bz b).
Proof. unfold byte_xor. rewrite bz_zb; [done|]. apply lxor_byte; apply bz_range. Qed.

Lemma byte_xor_cancel a b : byte_xor (byte_xor a b) b = a.
Proof. apply bz_inj. by rewrite !bz_byte_xor, Z.lxor_assoc, Z.lxor_nilpotent, Z.lxor_0_r. Qed.

Lemma byte_xor_0 a : byte_xor a x00 = a.
Proof. apply bz_inj. rewrite bz_byte_xor. apply Z.lxor_0_r. Qed.

Lemma len_zeros n : 0 <= n -> len (zeros n) = n.
Proof. intros H. unfold zeros, len. rewrite length_replicate. lia. Qed.

Lemma len_xor_bytes a b : len a <= len b -> len (xor_bytes a b) = len a.
Proof. unfold xor_bytes, len. rewrite length_zip_with. lia. Qed.

Lemma xor_bytes_cancel a b : len a <= len b -> xor_bytes (xor_bytes a b) b = a.
Proof.
  unfold len. revert b. induction a as [|x a IH]; intros [|y b] H; try done; cbn in H.
  change (byte_xor (byte_xor x y) y :: xor_bytes (xor_bytes a b) b = x :: a). rewrite byte_xor_cancel, IH; [done|lia].
Qed.

Lemma xored_Ok a b : len a <= len b -> xored a b = Ok (xor_bytes a b).
Proof. intros H. unfold xored. by destruct (Z.ltb_spec (len b) (len a)); [lia|]. Qed.

(** ** Whole blocks *)

Lemma slice_len {E A} (l : list A) lo hi : 0 <= lo <= hi -> hi <= len l -> exists k, slice (E:=E) l lo hi = Ok k /\ len k = hi - lo.
Proof. intros H1 H2. rewrite slice_ok by done. eexists. split; [done|]. unfold len in *. rewrite length_take, length_drop. lia. Qed.

Lemma len_take n (x : bytes) : 0 <= n <= len x -> len (take (Z.to_nat n) x) = n.
Proof. unfold len. rewrite length_take. lia. Qed.

Lemma blocks_cons bs p r : 0 < bs -> len p = bs -> blocks bs (p ++ r) = p :: blocks bs r.
Proof.
  intros Hb Hp. pose proof (len_nonneg r). unfold blocks. rewrite len_app.
  replace ((len p + len r) / bs) with (1 + len r / bs) by (rewrite Hp; replace (bs + len r) with (1 * bs + len r) by lia; by rewrite Z.div_add_l by lia).
  pose proof (Z.div_pos (len r) bs ltac:(lia) Hb). rewrite Z2Nat.inj_add by lia.
  change (Z.to_nat 1 + ?n)%nat with (S n). cbn [chunks].
  assert (length p = Z.to_nat bs) as HL by (unfold len in Hp; lia).
  by rewrite take_app_length', drop_app_length' by done.
Qed.

Lemma blocks_concat bs (ps : list bytes) : 0 < bs -> Forall (fun p => len p = bs) ps -> blocks bs (concat ps) = ps.
Proof.
  intros Hb. induction 1 as [|p ps Hp _ IH]; [done|]. cbn [concat]. by rewrite blocks_cons, IH.
Qed.

Lemma len_concat bs (ps : list bytes) : Forall (fun p => len p = bs) ps -> len (concat ps) = Z.of_nat (length ps) * bs.
Proof. induction 1 as [|p ps Hp _ IH]; [done|]. cbn [concat length]. rewrite len_app, IH. lia. Qed.

(** A whole number of blocks is the concatenation of its blocks. *)
Lemma whole_blocks bs (src : bytes) : 0 < bs -> len src mod bs = 0 ->
  exists ps, src = concat ps /\ Forall (fun p => len p = bs) ps /\ len src = Z.of_nat (length ps) * bs.
Proof.
  intros Hb H. apply Z.mod_divide in H as [n Hn]; [|lia]. pose proof (len_nonneg src).
  assert (0 <= n) as Hn0 by nia. revert src Hn H. pattern n. apply natlike_ind; [| |done]; clear n Hn0.
  - intros src Hn _. exists []. rewrite (len_0_nil src) by lia. done.
  - intros n Hn IH src HL _. destruct (IH (drop (Z.to_nat bs) src)) as (ps & HP & HF & HL').
    + unfold len in *. rewrite length_drop. nia.
    + apply len_nonneg.
    + exists (take (Z.to_nat bs) src :: ps). split_and!.
      * cbn [concat]. by rewrite <- HP, take_drop.
      * constructor; [|done]. apply len_take. nia.
      * rewrite <- (take_drop (Z.to_nat bs) src), len_app, HL', len_take by nia. cbn [length]. lia.
Qed.

Ltac whole_blocks src ps HF :=
  let HL := fresh "HL" in
  match goal with
  | Hb : 0 < ?bs, H : len src mod ?bs = 0 |- _ =>
      destruct (whole_blocks bs src Hb H) as (ps & -> & HF & HL)
  end.

Lemma mod_whole bs (ps : list bytes) : 0 < bs -> Forall (fun p => len p = bs) ps -> len (concat ps) mod bs = 0.
Proof. intros Hb HF. rewrite (len_concat bs) by done. apply Z.mod_mul. lia. Qed.

Section Modes.
Context (b : Block) `{!BlockLaws b}.
Abbreviation bs := (BlockSize b).
Abbreviation all_blocks := (Forall (fun p => len p = bs)).

Lemma encrypted_blocks ps : all_blocks ps -> all_blocks (map (Encrypt b) ps).
Proof. induction 1; constructor; [by apply Encrypt_len|done]. Qed.

(** ECB decryption undoes encryption. *)
Lemma ecb_roundtrip src : len src mod bs = 0 ->
  exists ct, ecbEncrypt b src = Ok ct /\ len ct = len src /\ ecbDecrypt b ct = Ok src.
Proof.
  intros H. pose proof block_pos as Hb. unfold ecbEncrypt. rewrite H. cbn [negb Z.eqb]. whole_blocks src ps HF.
  rewrite blocks_concat by done. eexists. split; [done|]. pose proof (encrypted_blocks ps HF) as HE.
  split; [by rewrite !(len_concat bs), length_map by done|]. unfold ecbDecrypt. rewrite mod_whole by done.
  cbn [negb Z.eqb]. rewrite blocks_concat, map_map by done. do 2 f_equal. clear -HF BlockLaws0.
  induction HF as [|p ps Hp HF IH]; [done|]. cbn [map]. by rewrite Decrypt_Encrypt, IH.
Qed.

Lemma cbc_blocks_roundtrip ps iv : len iv = bs -> all_blocks ps ->
  exists cs, cbc_encrypt_blocks b iv ps = concat cs /\ all_blocks cs /\ length cs = length ps /\
    cbc_decrypt_blocks b iv cs = concat ps.
Proof.
  intros Hiv HF. revert iv Hiv. induction HF as [|p ps Hp HF IH]; intros iv Hiv; [by exists []|].
  cbn [cbc_encrypt_blocks]. assert (len (xor_bytes p iv) = bs) as HX by (rewrite len_xor_bytes; lia).
  destruct (IH (Encrypt b (xor_bytes p iv)) (Encrypt_len _ HX)) as (cs & HE & HC & HL & HD).
  exists (Encrypt b (xor_bytes p iv) :: cs). split_and!; [by rewrite HE|constructor; [by apply Encrypt_len|done]|cbn; lia|].
  cbn [cbc_decrypt_blocks concat]. by rewrite HD, Decrypt_Encrypt, xor_bytes_cancel by lia.
Qed.

(** CBC decryption undoes encryption under the same initial vector. *)
Lemma cbc_roundtrip iv src : len iv = bs -> len src mod bs = 0 ->
  exists ct, cbcEncrypt b iv src = Ok ct /\ len ct = len src /\ cbcDecrypt b iv ct = Ok src.
Proof.
  intros Hiv H. pose proof block_pos as Hb. unfold cbcEncrypt. rewrite Hiv, H, Z.eqb_refl. cbn [negb Z.eqb].
  whole_blocks src ps HF. rewrite blocks_concat by done.
  destruct (cbc_blocks_roundtrip ps iv Hiv HF) as (cs & HE & HC & HL' & HD). rewrite HE. eexists. split; [done|].
  split; [rewrite !(len_concat bs) by done; lia|]. unfold cbcDecrypt. rewrite Hiv, mod_whole, Z.eqb_refl by done.
  cbn [negb Z.eqb]. by rewrite blocks_concat, HD.
Qed.

Lemma cbc_blocks_back cs iv : len iv = bs -> all_blocks cs ->
  exists ps, cbc_decrypt_blocks b iv cs = concat ps /\ all_blocks ps /\ length ps = length cs /\
    cbc_encrypt_blocks b iv ps = concat cs.
Proof.
  intros Hiv HF. revert iv Hiv. induction HF as [|c cs Hc HF IH]; intros iv Hiv; [by exists []|].
  cbn [cbc_decrypt_blocks]. destruct (IH c Hc) as (ps & HD & HP & HL & HE). pose proof (Decrypt_len c Hc) as HDL.
  exists (xor_bytes (Decrypt b c) iv :: ps).
  split_and!; [by rewrite HD|constructor; [rewrite len_xor_bytes; lia|done]|cbn; lia|].
  cbn [cbc_encrypt_blocks concat]. by rewrite xor_bytes_cancel, Encrypt_Decrypt, HE by lia.
Qed.

(** And encryption undoes decryption. *)
Lemma cbc_back iv ct : len iv = bs -> len ct mod bs = 0 ->
  exists src, cbcDecrypt b iv ct = Ok src /\ len src = len ct /\ cbcEncrypt b iv src = Ok ct.
Proof.
  intros Hiv H. pose proof block_pos as Hb. unfold cbcDecrypt. rewrite Hiv, H, Z.eqb_refl. cbn [negb Z.eqb].
  whole_blocks ct cs HF. rewrite blocks_concat by done.
  destruct (cbc_blocks_back cs iv Hiv HF) as (ps & HD & HP & HL' & HE). rewrite HD. eexists. split; [done|].
  split; [rewrite !(len_concat bs) by done; lia|]. unfold cbcEncrypt. rewrite Hiv, mod_whole, Z.eqb_refl by done.
  cbn [negb Z.eqb]. by rewrite blocks_concat, HE.
Qed.

Lemma take_block (x : bytes) : len x = bs -> take (Z.to_nat bs) x = x.
Proof. intros H. apply take_ge. unfold len in H. lia. Qed.

Lemma blockEnc_Ok x : len x = bs -> blockEnc b x = Ok (Encrypt b x).
Proof. intros H. unfold blockEnc. rewrite H, Z.ltb_irrefl. by rewrite take_block. Qed.

Lemma blockDec_Ok x : len x = bs -> blockDec b x = Ok (Decrypt b x).
Proof. intros H. unfold blockDec. rewrite H, Z.ltb_irrefl. by rewrite take_block. Qed.

Lemma mac_loop_Ok ps x : len x = bs -> all_blocks ps -> exists y, mac_loop b x ps = Ok y /\ len y = bs.
Proof.
  intros Hx HF. revert x Hx. induction HF as [|p ps Hp HF IH]; intros x Hx; [by exists x|]. cbn [mac_loop].
  rewrite xored_Ok by lia. cbn [rbind]. assert (len (xor_bytes x p) = bs) as HX by (rewrite len_xor_bytes; lia).
  rewrite blockEnc_Ok by done. cbn [rbind]. by apply IH, Encrypt_len.
Qed.

Lemma cbcMAC_Ok data : len data mod bs = 0 -> exists y, cbcMAC b data = Ok y /\ len y = bs.
Proof.
  intros H. pose proof block_pos as Hb. unfold cbcMAC. rewrite H. cbn [negb Z.eqb]. whole_blocks data ps HF.
  rewrite blocks_concat by done. apply mac_loop_Ok; [apply len_zeros; lia|done].
Qed.

Lemma len_shift_left l : len (shift_left l) = len l.
Proof. unfold len. f_equal. induction l as [|x l IH]; [done|]. cbn [shift_left length]. by rewrite IH. Qed.

Lemma dbl_Ok l : 0 < len l -> exists k, dbl l = Ok k /\ len k = len l.
Proof.
  intros H. unfold dbl. destruct l as [|x l]; [done|]. rewrite (idx_mid [] x l 0) by done. cbn [rbind]. eexists. split; [done|].
  destruct (_ =? 1); [|apply len_shift_left].
  rewrite len_xor_bytes; rewrite len_shift_left; [done|]. rewrite len_app, len_zeros, len_cons by lia. change (len [_]) with 1. lia.
Qed.

(** A CMAC is one block, for every message. *)
Lemma cmacBlock_Ok msg : exists y, cmacBlock b msg = Ok y /\ len y = bs.
Proof.
  pose proof block_pos as Hb. unfold cmacBlock, cmacSubkeys. rewrite blockEnc_Ok by (apply len_zeros; lia). cbn [rbind].
  destruct (dbl_Ok (Encrypt b (zeros bs))) as (k1 & -> & H1); [rewrite Encrypt_len; [done|apply len_zeros; lia]|]. cbn [rbind].
  rewrite Encrypt_len in H1 by (apply len_zeros; lia). destruct (dbl_Ok k1) as (k2 & -> & H2); [lia|]. cbn [rbind].
  set (full := (0 <? len msg) && (len msg mod bs =? 0)). set (rem := if full then bs else len msg mod bs).
  pose proof (Z.mod_pos_bound (len msg) bs Hb) as HM. pose proof (len_nonneg msg). pose proof (Z.mod_le (len msg) bs ltac:(done) Hb).
  assert (0 <= rem <= len msg /\ (len msg - rem) mod bs = 0 /\ (full = false -> rem < bs)) as (HR & HD & HF).
  { unfold rem, full. destruct (Z.ltb_spec 0 (len msg)), (Z.eqb_spec (len msg mod bs) 0) as [E|E]; cbn [andb].
    - split_and!; [lia| |by rewrite Zminus_mod, Z_mod_same_full, E|done].
      destruct (Z.le_gt_cases bs (len msg)); [done|]. rewrite Z.mod_small in E by lia. lia.
    - split_and!; [lia..|by rewrite Zminus_mod, Zmod_mod, Z.sub_diag|lia].
    - split_and!; [lia..|by rewrite Zminus_mod, Zmod_mod, Z.sub_diag|lia].
    - split_and!; [lia..|by rewrite Zminus_mod, Zmod_mod, Z.sub_diag|lia]. }
  destruct (slice_len (E:=vault_error) msg (len msg - rem) (len msg)) as (tail & -> & HT); [lia..|]. cbn [rbind].
  assert (exists last, (if full then xored tail k1 else xored (tail ++ [x80] ++ zeros (bs - rem - 1)) k2) = Ok last /\ len last = bs)
    as (last & -> & HLL).
  { destruct full eqn:EF.
    - rewrite xored_Ok by lia. eexists. split; [done|]. rewrite len_xor_bytes; lia.
    - specialize (HF eq_refl). assert (len (tail ++ [x80] ++ zeros (bs - rem - 1)) = bs) as HX
        by (rewrite !len_app, len_zeros by lia; change (len [x80]) with 1; lia).
      rewrite xored_Ok by lia. eexists. split; [done|]. rewrite len_xor_bytes; lia. }
  cbn [rbind]. destruct (slice_len (E:=vault_error) msg 0 (len msg - rem)) as (body & -> & HB); [lia..|]. cbn [rbind].
  rewrite Z.sub_0_r in HB. rewrite <- HB in HD. whole_blocks body ps HP. rewrite blocks_concat by done.
  destruct (mac_loop_Ok ps (zeros bs)) as (x & -> & Hx); [apply len_zeros; lia|done|]. cbn [rbind].
  rewrite xored_Ok by lia. cbn [rbind]. assert (len (xor_bytes x last) = bs) as HX by (rewrite len_xor_bytes; lia).
  rewrite blockEnc_Ok by done. eexists. split; [done|]. by apply Encrypt_len.
Qed.
End Modes.

(** ** Padding *)

Lemma len_fill n bs : 0 < bs -> len (fill n bs) = - n mod bs.
Proof. intros H. apply len_zeros. by apply Z.mod_pos_bound. Qed.

Lemma applyPadding_whole pad data bs : 0 < bs -> len (applyPadding pad data bs) mod bs = 0.
Proof.
  intros H. assert (forall n, (n + (- n mod bs)) mod bs = 0) as HN
    by (intros n; rewrite Zplus_mod_idemp_r; by rewrite Z.add_opp_diag_r).
  assert (forall p, p = Pad1 \/ (exists k, p = PadOther k) -> len (applyPadding p data bs) mod bs = 0) as HP.
  { intros p Hp. assert (applyPadding p data bs = applyPadding Pad1 data bs) as -> by (by destruct Hp as [->|[k ->]]). cbn [applyPadding].
    destruct (len data =? 0); [rewrite len_zeros by lia; apply Z_mod_same_full|].
    destruct (Z.eqb_spec (len data mod bs) 0); [done|]. by rewrite len_app, len_fill. }
  destruct pad; [apply HP; auto| |apply HP; eauto]. cbn [applyPadding]. rewrite !len_app, len_fill by done.
  change (len [x80]) with 1. rewrite Z.add_assoc. apply HN.
Qed.

Lemma zeros_mark_inj a b (x y : bytes) : replicate a x00 ++ x80 :: x = replicate b x00 ++ x80 :: y -> x = y.
Proof.
  revert b. induction a as [|a IH]; intros [|b]; cbn; intros H; simplify_eq; [done|]. by eapply IH.
Qed.

(** Padding method 2 can be undone: two messages padded alike are the same. *)
Lemma Pad2_inj d1 d2 bs : applyPadding Pad2 d1 bs = applyPadding Pad2 d2 bs -> d1 = d2.
Proof.
  cbn [applyPadding]. unfold fill, zeros. intros H%(f_equal (@rev byte)). rewrite !rev_app_distr in H. cbn [rev app] in H.
  rewrite <- !app_assoc in H. cbn [app] in H.
  assert (forall n, rev (replicate n x00) = replicate n x00) as HR.
  { induction n as [|n IH]; [done|]. cbn [replicate rev]. rewrite IH. symmetry. apply (replicate_S_end n x00). }
  rewrite !HR in H. apply zeros_mark_inj in H. by apply (f_equal (@rev byte)) in H; rewrite !rev_involutive in H.
Qed.

(** ** Message authentication codes *)

(** The key length that an algorithm asks for. *)
Definition mac_key_len (alg : MACAlgorithm) : Z := match alg with MACAlg1 => 8 | _ => 16 end.

Lemma desBlock_Ok key : len key = 8 -> desBlock key = Ok (NewCipher key).
Proof. intros H. unfold desBlock. by rewrite H. Qed.

Lemma GenerateMAC_Ok alg pad key data : (forall n, alg <> MACOther n) -> len key = mac_key_len alg ->
  exists mac, GenerateMAC alg pad key data = Ok mac /\ len mac = 8.
Proof.
  intros HA HK. pose proof (applyPadding_whole pad data 8 ltac:(lia)) as HW. unfold GenerateMAC.
  destruct alg as [| |n]; cbn [mac_key_len] in HK; [| |by destruct (HA n)].
  - rewrite desBlock_Ok by done. cbn [rbind]. destruct (cbcMAC_Ok (NewCipher key) (applyPadding pad data 8) HW) as (y & E & L). by exists y.
  - rewrite HK. cbn [negb Z.eqb Pos.eqb].
    destruct (slice_len (E:=vault_error) key 0 8) as (k1 & -> & H1); [lia..|]. cbn [rbind]. rewrite desBlock_Ok by lia. cbn [rbind].
    destruct (slice_len (E:=vault_error) key 8 16) as (k2 & -> & H2); [lia..|]. cbn [rbind]. rewrite desBlock_Ok by lia. cbn [rbind].
    destruct (cbcMAC_Ok (NewCipher k1) (applyPadding pad data 8) HW) as (h & -> & Hh). cbn [rbind].
    rewrite blockDec_Ok by done. cbn [rbind]. pose proof (Decrypt_len (b := NewCipher k2) h Hh) as HD.
    rewrite blockEnc_Ok by done. eexists. split; [done|]. exact (Encrypt_len (b := NewCipher k1) _ HD).
Qed.

(** message authentication codes.  For every algorithm of ISO 9797-1 that
    the module offers, with a key of its length, a code of eight bytes is
    generated for every message; a truncated code is accepted exactly when it
    is a non-empty prefix of that code, any other length is an error, and a key
    of a wrong length is refused.  With padding method 2 no two messages are
    padded to the same blocks. *)
Theorem mac_exact alg pad key data mac (HA : forall n, alg <> MACOther n) :
  (len key <> mac_key_len alg -> GenerateMAC alg pad key data = Err (KeyLength (len key))) /\
  (len key = mac_key_len alg ->
    exists full, GenerateMAC alg pad key data = Ok full /\ len full = 8 /\
      (1 <= len mac <= 8 -> VerifyMAC alg pad key data mac = Ok (bool_decide (mac `prefix_of` full))) /\
      (~ 1 <= len mac <= 8 -> VerifyMAC alg pad key data mac = Err (MACLength (len mac)))) /\
  (forall data', data' <> data -> applyPadding Pad2 data' 8 <> applyPadding Pad2 data 8).
Proof.
  pose proof (len_nonneg mac). split_and!.
  - intros HK. unfold GenerateMAC. destruct alg as [| |n]; cbn [mac_key_len] in HK; [| |by destruct (HA n)].
    + unfold desBlock. destruct (Z.eqb_spec (len key) 8); [lia|done].
    + destruct (Z.eqb_spec (len key) 16); [lia|done].
  - intros HK. destruct (GenerateMAC_Ok alg pad key data HA HK) as (full & HG & HF). exists full.
    unfold VerifyMAC. rewrite HG. cbn [rbind]. rewrite HF. split_and!; [done..| |].
    + intros Hm. destruct (Z.eqb_spec (len mac) 0); [lia|]. destruct (Z.ltb_spec 8 (len mac)); [lia|]. cbn [orb].
      rewrite slice_ok by lia. cbn [rbind]. f_equal. apply bool_decide_ext. rewrite Z.sub_0_r. cbn [drop Z.to_nat].
      split.
      * intros E. exists (drop (Z.to_nat (len mac)) full). rewrite <- E at 1. by rewrite take_drop.
      * intros [r ->]. apply take_app_length'. unfold len. lia.
    + intros Hm. destruct (Z.eqb_spec (len mac) 0) as [->|]; [done|]. destruct (Z.ltb_spec 8 (len mac)); [done|lia].
  - intros data' Hd E%Pad2_inj. done.
Qed.

Lemma mac_exact_witness :
  exists full, GenerateMAC MACAlg3 Pad2 (zeros 16) (go "0200") = Ok full /\ len full = 8.
Proof.
  destruct (mac_exact MACAlg3 Pad2 (zeros 16) (go "0200") (go "mac") ltac:(discriminate)) as (_ & H & _).
  destruct (H eq_refl) as (full & H1 & H2 & _). exists full. split; [exact H1|exact H2].
Defined.
