(* ===== verification/PinBlock.v ===== *)
(** * PIN blocks ([vault/pinblock.go])

    The ISO 9564 formats 0, 1 and 3.  Nibbles are bytes below 16, as in the
    code; the randomness source is a stream of bytes. *)

From S2P Require Import Prelude Strconv Bcd Framer Des Cipher.

Inductive PINBlockFormat := ISO0 | ISO1 | ISO3 | ISOOther (n : Z).

Definition control (f : PINBlockFormat) : option byte :=
  match f with ISO0 => Some x00 | ISO1 => Some x01 | ISO3 => Some x03 | ISOOther _ => None end.

Definition format_number (f : PINBlockFormat) : Z :=
  match f with ISO0 => 0 | ISO1 => 1 | ISO3 => 2 | ISOOther n => n end.

(** ** Nibbles *)

Fixpoint packNibbles (n : bytes) : bytes :=
  match n with
  | hi :: lo :: n => zb (Z.lor (Z.shiftl (bz hi) 4) (Z.land (bz lo) 15)) :: packNibbles n
  | _ => []
  end.

Fixpoint unpackNibbles (b : bytes) : bytes :=
  match b with
  | [] => []
  | x :: b => zb (Z.shiftr (bz x) 4) :: zb (Z.land (bz x) 15) :: unpackNibbles b
  end.

(** ** Encoding *)

Definition padNibbles (f : PINBlockFormat) (n : Z) (r : bytes) : res vault_error bytes :=
  match f with
  | ISO0 => Ok (replicate (Z.to_nat n) x0f)
  | ISO1 | ISO3 =>
      if n =? 0 then Ok [] else
      match (ReadFull n r).1 with
      | Ok buf => Ok (map (fun b => match f with ISO3 => zb (10 + bz b mod 6) | _ => zb (Z.land (bz b) 15) end) buf)
      | Err _ => Err NoRandomness
      | Panic => Panic
      end
  | ISOOther n => Err (UnknownFormat n)
  end.

(** The digits of a PIN or PAN as nibbles; [e] is the error for another character. *)
Fixpoint digit_nibbles (e : vault_error) (s : bytes) : res vault_error bytes :=
  match s with
  | [] => Ok []
  | c :: s =>
      if negb (is_digit c) then Err e else
      let! ds := digit_nibbles e s in
      Ok (zb (bz c - 48) :: ds)
  end.

Definition pinField (f : PINBlockFormat) (pin r : bytes) : res vault_error bytes :=
  match control f with
  | None => Err (UnknownFormat (format_number f))
  | Some ctrl =>
      let l := len pin in
      if (l <? 4) || (12 <? l) then Err (PINLength l) else
      let! ds := digit_nibbles PINDigit pin in
      let! pad := padNibbles f (14 - l) r in
      Ok (packNibbles ([ctrl; zb l] ++ ds ++ pad))
  end.

Definition panField (pan : bytes) : res vault_error bytes :=
  let! _ := digit_nibbles PANDigit pan in
  if len pan <? 13 then Err (PANLength (len pan)) else
  let! acct := slice pan 0 (len pan - 1) in
  let! acct := slice acct (len acct - 12) (len acct) in
  Ok (packNibbles (zeros 4 ++ map (fun c => zb (bz c - 48)) acct)).

Definition EncodePINBlockRand (f : PINBlockFormat) (pin pan r : bytes) : res vault_error bytes :=
  let! pf := pinField f pin r in
  match f with
  | ISO0 | ISO3 =>
      let! af := panField pan in
      xored pf af
  | ISO1 => Ok pf
  | ISOOther n => Err (UnknownFormat n)
  end.

(** ** Decoding *)

Fixpoint pin_digits (ns : bytes) : res vault_error bytes :=
  match ns with
  | [] => Ok []
  | d :: ns =>
      if 9 <? bz d then Err PINDigit else
      let! pin := pin_digits ns in
      Ok (zb (48 + bz d) :: pin)
  end.

Definition checkPadding (f : PINBlockFormat) (pad : bytes) : res vault_error unit :=
  match f with
  | ISO0 => if forallb (fun n => bz n =? 15) pad then Ok tt else Err PadNibble
  | ISO3 => if forallb (fun n => negb (bz n <? 10)) pad then Ok tt else Err PadNibble
  | _ => Ok tt
  end.

(** The checks on the nibbles of the clear block. *)
Definition decode_nibbles (f : PINBlockFormat) (ctrl : byte) (nibbles : bytes) : res vault_error bytes :=
  let! n0 := idx nibbles 0 in
  if negb (bool_decide (n0 = ctrl)) then Err ControlNibble else
  let! n1 := idx nibbles 1 in
  let l := bz n1 in
  if (l <? 4) || (12 <? l) then Err (PINLength l) else
  let! ds := slice nibbles 2 (2 + l) in
  let! pin := pin_digits ds in
  let! pad := slice nibbles (2 + l) (len nibbles) in
  let! _ := checkPadding f pad in
  Ok pin.

Definition DecodePINBlock (f : PINBlockFormat) (block pan : bytes) : res vault_error bytes :=
  if negb (len block =? 8) then Err (PINBlockLength (len block)) else
  match control f with
  | None => Err (UnknownFormat (format_number f))
  | Some ctrl =>
      let! clear := (match f with
                     | ISO0 | ISO3 => let! af := panField pan in xored block af
                     | _ => Ok block
                     end) in
      decode_nibbles f ctrl (unpackNibbles clear)
  end.

(** ** Packing and unpacking *)

Definition is_nibble (n : byte) : Prop := bz n < 16.

Lemma nibble_range n : is_nibble n -> 0 <= bz n < 16.
Proof. unfold is_nibble. pose proof (bz_range n). lia. Qed.

Lemma land_nibble n : is_nibble n -> Z.land (bz n) 15 = bz n.
Proof.
  intros H%nibble_range. change 15 with (Z.ones 4). rewrite Z.land_ones by lia. by apply Z.mod_small.
Qed.

Lemma unpack_pack k ns : length ns = (2 * k)%nat -> Forall is_nibble ns -> unpackNibbles (packNibbles ns) = ns.
Proof.
  revert ns. induction k as [|k IH]; intros ns HL HF; [by destruct ns|].
  destruct ns as [|hi [|lo ns]]; try (cbn in HL; lia). apply list.Forall_cons in HF as [Hh [Hl HF]%list.Forall_cons].
  cbn [packNibbles unpackNibbles]. rewrite land_nibble by done.
  destruct (pack_byte_nibbles (bz hi) (bz lo) (nibble_range _ Hh) (nibble_range _ Hl)) as [-> ->].
  rewrite !zb_bz, IH; [done|cbn in HL; lia|done].
Qed.

Lemma pack_unpack b : packNibbles (unpackNibbles b) = b.
Proof.
  induction b as [|x b IH]; [done|]. cbn [unpackNibbles packNibbles]. rewrite IH. f_equal.
  destruct (byte_nibbles x) as (E & Hh & Hl). rewrite !bz_zb by lia.
  change 15 with (Z.ones 4) in *. rewrite (Z.land_ones (Z.land _ _)) by lia. rewrite (Z.mod_small (Z.land _ _)) by (change (2 ^ 4) with 16; lia).
  apply bz_inj. rewrite (Bcd.pack_byte _ _ Hh Hl). lia.
Qed.

Lemma length_unpack b : length (unpackNibbles b) = (2 * length b)%nat.
Proof. induction b as [|x b IH]; [done|]. cbn [unpackNibbles length]. lia. Qed.

Lemma length_pack k ns : length ns = (2 * k)%nat -> length (packNibbles ns) = k.
Proof.
  revert ns. induction k as [|k IH]; intros ns HL; [by destruct ns|]. destruct ns as [|hi [|lo ns]]; try (cbn in HL; lia).
  cbn [packNibbles length]. f_equal. apply IH. cbn in HL. lia.
Qed.

Lemma unpack_is_nibble b : Forall is_nibble (unpackNibbles b).
Proof.
  induction b as [|x b IH]; cbn; [constructor|]. destruct (byte_nibbles x) as (_ & Hh & Hl).
  constructor; [|constructor; [|done]]; unfold is_nibble; rewrite bz_zb; lia.
Qed.

(** ** Digits *)

Lemma digit_nibbles_iff e s ds : digit_nibbles e s = Ok ds <-> pin_digits ds = Ok s.
Proof.
  revert ds. induction s as [|c s IH]; intros ds; cbn [digit_nibbles].
  - split; [by intros [= <-]|]. destruct ds as [|d ds]; [done|]. cbn. destruct (9 <? bz d); [done|]. by intros (? & ? & [=])%rbind_Ok.
  - unfold is_digit. pose proof (bz_range c). split.
    + destruct (Z.leb_spec 48 (bz c)), (Z.leb_spec (bz c) 57); cbn [andb negb]; try done.
      intros (ds' & HI%IH & [= <-])%rbind_Ok. cbn [pin_digits]. rewrite bz_zb by lia.
      destruct (Z.ltb_spec 9 (bz c - 48)); [lia|]. rewrite HI. cbn [rbind]. do 2 f_equal. rewrite <- (zb_bz c) at 2. f_equal. lia.
    + destruct ds as [|d ds]; [done|]. cbn [pin_digits]. pose proof (bz_range d). destruct (Z.ltb_spec 9 (bz d)); [done|].
      intros (s' & HI & [= <- <-])%rbind_Ok. apply IH in HI. rewrite bz_zb by lia.
      destruct (Z.leb_spec 48 (48 + bz d)), (Z.leb_spec (48 + bz d) 57); try lia. cbn [andb negb]. rewrite HI. cbn [rbind].
      do 2 f_equal. rewrite <- (zb_bz d) at 2. f_equal. lia.
Qed.

Lemma pin_digits_Ok ds pin : pin_digits ds = Ok pin -> length ds = length pin /\ Forall is_nibble ds.
Proof.
  revert pin. induction ds as [|d ds IH]; intros pin; cbn [pin_digits]; [by intros [= <-]|].
  destruct (Z.ltb_spec 9 (bz d)); [done|]. intros (p & [IL IF]%IH & [= <-])%rbind_Ok. cbn [length]. split; [lia|].
  constructor; [unfold is_nibble; lia|done].
Qed.

Lemma pin_digits_total ds : pin_digits ds <> Panic.
Proof. induction ds as [|d ds IH]; [done|]. cbn. destruct (9 <? bz d); [done|]. by intros [|(? & ? & ?)]%rbind_Panic. Qed.

Lemma digit_nibbles_digits e s : Forall (fun c => is_digit c = true) s -> is_Ok (digit_nibbles e s) = true.
Proof.
  induction 1 as [|c s Hc HF IH]; [done|]. cbn [digit_nibbles]. rewrite Hc. cbn [negb]. by destruct (digit_nibbles e s).
Qed.

(** ** Padding *)

Definition known (f : PINBlockFormat) : Prop := is_Some (control f).

Lemma ReadFull_enough n r : 0 <= n <= len r -> exists buf, (ReadFull n r).1 = Ok buf /\ len buf = n.
Proof.
  intros H. unfold ReadFull. destruct (Z.leb_spec n 0); [exists []; split; [done|rewrite len_nil; lia]|].
  destruct (Z.leb_spec n (len r)); [|lia]. eexists. split; [done|]. by apply len_take.
Qed.

Lemma ReadFull_buf n r buf : 0 <= n -> (ReadFull n r).1 = Ok buf -> len buf = n.
Proof.
  intros H. unfold ReadFull. destruct (Z.leb_spec n 0); [intros [= <-]; rewrite len_nil; lia|].
  destruct (Z.leb_spec n (len r)); [intros [= <-]; apply len_take; lia|]. by destruct (len r =? 0).
Qed.

Lemma padNibbles_total f n r : known f -> 0 <= n <= len r -> exists pad, padNibbles f n r = Ok pad.
Proof.
  intros [c Hc] Hn. destruct (ReadFull_enough n r Hn) as (buf & HR & _). unfold padNibbles.
  destruct f; try done; [by eexists|..]; (destruct (n =? 0); [by eexists|]); rewrite HR; by eexists.
Qed.

Lemma low_nibble b : is_nibble (zb (Z.land (bz b) 15)).
Proof. destruct (byte_nibbles b) as (_ & _ & H). unfold is_nibble. rewrite bz_zb; lia. Qed.

Lemma letter_nibble b : 10 <= bz (zb (10 + bz b mod 6)) < 16.
Proof. pose proof (Z.mod_pos_bound (bz b) 6 ltac:(lia)). rewrite bz_zb; lia. Qed.

(** The padding that a format accepts is the padding it can produce. *)
Lemma padding_iff f n pad : known f -> 0 <= n ->
  (len pad = n /\ Forall is_nibble pad /\ checkPadding f pad = Ok tt) <-> exists r, padNibbles f n r = Ok pad.
Proof.
  intros Hk Hn. assert (forall r, len r = n -> (n =? 0) = false ->
    (ReadFull n r).1 = Ok r) as HRR.
  { intros r HL HN. rewrite <- (app_nil_r r), ReadFull_app by done. by rewrite app_nil_r. }
  destruct f as [| | |k]; [| | |by destruct Hk].
  - cbn [checkPadding padNibbles]. split.
    + intros (HL & _ & HC). exists []. f_equal. destruct (forallb _ pad) eqn:EF; [|done]. rewrite forallb_forall in EF.
      apply replicate_as_elem_of. split; [unfold len in HL; lia|].
      intros y Hy%list_elem_of_In%EF%Z.eqb_eq. apply bz_inj. by rewrite Hy.
    + intros [r [= <-]]. split_and!; [unfold len; rewrite length_replicate; lia|by apply Forall_replicate|].
      rewrite (proj2 (forallb_forall _ _)); [done|]. intros y Hy%list_elem_of_In%elem_of_replicate. by destruct Hy as [-> _].
  - cbn [checkPadding padNibbles]. split.
    + intros (HL & HF & _). exists pad. destruct (Z.eqb_spec n 0) as [HN|HN]; [rewrite (len_0_nil pad) by lia; done|].
      rewrite HRR by (try apply Z.eqb_neq; done). f_equal.
      rewrite <- (map_id pad) at 2. apply map_ext_in. intros x Hx. rewrite Forall_forall in HF.
      rewrite land_nibble by (by apply HF). apply zb_bz.
    + intros [r HR]. destruct (Z.eqb_spec n 0) as [->|HN]; [injection HR as <-; by split_and!|].
      destruct ((ReadFull n r).1) as [buf|e|] eqn:EB; [|done..]. injection HR as <-. apply ReadFull_buf in EB; [|done].
      split_and!; [unfold len in *; by rewrite length_map|apply Forall_map, Forall_forall; intros; apply low_nibble|done].
  - cbn [checkPadding padNibbles]. split.
    + intros (HL & HF & HC). destruct (forallb _ pad) eqn:EF; [|done]. exists (map (fun b => zb (bz b - 10)) pad).
      destruct (Z.eqb_spec n 0) as [HN|HN]; [rewrite (len_0_nil pad) by lia; done|].
      rewrite HRR by (try apply Z.eqb_neq; try done; unfold len in *; by rewrite length_map). f_equal.
      rewrite map_map. rewrite <- (map_id pad) at 2. apply map_ext_in. intros x Hx.
      rewrite forallb_forall in EF. pose proof (EF x Hx) as H1. rewrite Forall_forall in HF.
      pose proof (HF x Hx) as H2. unfold is_nibble in H2. destruct (Z.ltb_spec (bz x) 10); [done|].
      rewrite bz_zb by lia. rewrite Z.mod_small by lia. rewrite <- (zb_bz x) at 2. f_equal. lia.
    + intros [r HR]. destruct (Z.eqb_spec n 0) as [->|HN]; [injection HR as <-; by split_and!|].
      destruct ((ReadFull n r).1) as [buf|e|] eqn:EB; [|done..]. injection HR as <-. apply ReadFull_buf in EB; [|done].
      split_and!; [unfold len in *; by rewrite length_map|apply Forall_map, Forall_forall; intros; apply letter_nibble|].
      rewrite (proj2 (forallb_forall _ _)); [done|]. intros y (b & <- & _)%in_map_iff. pose proof (letter_nibble b).
      destruct (Z.ltb_spec (bz (zb (10 + bz b mod 6))) 10); [lia|done].
Qed.

(** ** The account field *)

Definition valid_pan (pan : bytes) : Prop := Forall (fun c => is_digit c = true) pan /\ 13 <= len pan.
Definition valid_pin (pin : bytes) : Prop := Forall (fun c => is_digit c = true) pin /\ 4 <= len pin <= 12.

Lemma digit_nibbles_safe e s : digit_nibbles e s <> Panic.
Proof. induction s as [|c s IH]; [done|]. cbn. destruct (negb (is_digit c)); [done|]. by intros [|(? & ? & ?)]%rbind_Panic. Qed.

Lemma panField_cases pan : (exists af, panField pan = Ok af /\ len af = 8) \/ (exists e, panField pan = Err e).
Proof.
  unfold panField. destruct (digit_nibbles PANDigit pan) eqn:ED; cbn [rbind]; [|by right; eexists|by apply digit_nibbles_safe in ED].
  destruct (Z.ltb_spec (len pan) 13); [by right; eexists|]. left.
  destruct (slice_len (E:=vault_error) pan 0 (len pan - 1)) as (acct & -> & HA); [lia..|]. cbn [rbind].
  destruct (slice_len (E:=vault_error) acct (len acct - 12) (len acct)) as (ds & -> & HD); [lia..|]. cbn [rbind].
  eexists. split; [done|]. apply len_8, (length_pack 8). rewrite length_app, length_map. change (length (zeros 4)) with 4%nat. unfold len in HD. lia.
Qed.

Lemma panField_len pan af : panField pan = Ok af -> len af = 8.
Proof. intros H. destruct (panField_cases pan) as [(af' & H' & HL)|(e & H')]; rewrite H in H'; by simplify_eq. Qed.

Lemma panField_total pan : valid_pan pan -> exists af, panField pan = Ok af.
Proof.
  intros [HD HL]. destruct (panField_cases pan) as [(af & H & _)|(e & H)]; [by eexists|]. exfalso. revert H. unfold panField.
  pose proof (digit_nibbles_digits PANDigit pan HD) as HO. destruct (digit_nibbles PANDigit pan); [|done..]. cbn [rbind].
  destruct (Z.ltb_spec (len pan) 13); [lia|].
  destruct (slice_len (E:=vault_error) pan 0 (len pan - 1)) as (acct & -> & HA); [lia..|]. cbn [rbind].
  by destruct (slice_len (E:=vault_error) acct (len acct - 12) (len acct)) as (ds & -> & _); [lia..|].
Qed.

(** The clear block of a format, given the account field, both ways. *)
Definition cloak (f : PINBlockFormat) (block pan : bytes) : res vault_error bytes :=
  match f with ISO0 | ISO3 => let! af := panField pan in xored block af | _ => Ok block end.

Lemma cloak_involutive f a b pan : len a = 8 -> cloak f a pan = Ok b -> len b = 8 /\ cloak f b pan = Ok a.
Proof.
  intros HA. unfold cloak. destruct f; [|by intros [= <-]| |by intros [= <-]];
    intros (af & HP & HX)%rbind_Ok; pose proof (panField_len _ _ HP); rewrite xored_Ok in HX by lia; injection HX as <-;
    rewrite HP; cbn [rbind]; rewrite len_xor_bytes by lia; (split; [done|]);
    rewrite xored_Ok by (rewrite len_xor_bytes; lia); by rewrite xor_bytes_cancel by lia.
Qed.

Lemma cloak_safe f a pan : len a = 8 -> cloak f a pan <> Panic.
Proof.
  intros HA. unfold cloak. destruct f; try done; destruct (panField_cases pan) as [(af & -> & HL)|(e & ->)]; try done; cbn [rbind];
    by rewrite xored_Ok by lia.
Qed.

(** ** Exactness *)

Lemma decode_nibbles_iff f ctrl ns pin : len ns = 16 ->
  decode_nibbles f ctrl ns = Ok pin <-> exists ds pad, ns = [ctrl; zb (len pin)] ++ ds ++ pad /\ 4 <= len pin <= 12 /\
    pin_digits ds = Ok pin /\ checkPadding f pad = Ok tt.
Proof.
  intros HN. unfold decode_nibbles. destruct ns as [|n0 [|n1 rest]]; [done|done|].
  rewrite (idx_mid [] n0 (n1 :: rest) 0) by done. rewrite (idx_mid [n0] n1 rest 1) by done. cbn [rbind].
  rewrite !len_cons in HN. split.
  - destruct (bool_decide_reflect (n0 = ctrl)) as [->|]; cbn [negb]; [|done].
    destruct (Z.ltb_spec (bz n1) 4), (Z.ltb_spec 12 (bz n1)); cbn [orb]; try done.
    rewrite (slice_ok _ 2) by (rewrite ?len_cons; lia). cbn [rbind]. intros (p & HP & H2)%rbind_Ok.
    destruct (pin_digits_Ok _ _ HP) as [HL _].
    rewrite slice_ok in H2 by (rewrite ?len_cons; lia). cbn [rbind] in H2. apply rbind_Ok in H2 as ([] & HC & [= <-]).
    assert (len p = bz n1) as HPL.
    { unfold len in *. rewrite <- HL, length_take, length_drop. cbn [length]. lia. }
    eexists _, _. split_and!; [|lia..|exact HP|exact HC]. rewrite HPL, zb_bz. cbn [app]. do 2 f_equal.
    replace (Z.to_nat 2) with 2%nat by lia. replace (Z.to_nat (2 + bz n1)) with (2 + Z.to_nat (bz n1))%nat by lia.
    cbn [drop Nat.add]. replace (2 + bz n1 - 2) with (bz n1) by lia.
    rewrite drop_0, (take_ge (drop _ rest)) by (unfold len in *; cbn [length]; rewrite length_drop; lia). by rewrite take_drop.
  - intros (ds & pad & E & HL & HP & HC). cbn [app] in E. injection E as -> -> ->. rewrite bool_decide_true by done. cbn [negb].
    destruct (pin_digits_Ok _ _ HP) as [HD _]. rewrite bz_zb by lia.
    destruct (Z.ltb_spec (len pin) 4), (Z.ltb_spec 12 (len pin)); try lia. cbn [orb].
    change (ctrl :: zb (len pin) :: ds ++ pad) with ([ctrl; zb (len pin)] ++ ds ++ pad).
    assert (len ds = len pin) as HDL by (unfold len; lia).
    rewrite slice_mid by (change (len [ctrl; zb (len pin)]) with 2; lia). cbn [rbind]. rewrite HP. cbn [rbind].
    replace ([ctrl; zb (len pin)] ++ ds ++ pad) with (([ctrl; zb (len pin)] ++ ds) ++ pad ++ []) by (by rewrite app_nil_r, <- app_assoc).
    rewrite slice_mid by (rewrite ?len_app, ?len_nil; change (len [ctrl; zb (len pin)]) with 2; lia). cbn [rbind]. by rewrite HC.
Qed.

(** What a PIN field holds. *)
Lemma pinField_iff f pin pf : (exists r, pinField f pin r = Ok pf) <->
  exists ctrl, control f = Some ctrl /\ len pf = 8 /\ decode_nibbles f ctrl (unpackNibbles pf) = Ok pin.
Proof.
  unfold pinField. split.
  - intros [r H]. destruct (control f) as [ctrl|] eqn:EC; [|done]. exists ctrl. split; [done|].
    destruct (Z.ltb_spec (len pin) 4), (Z.ltb_spec 12 (len pin)); cbn [orb] in H; try done.
    apply rbind_Ok in H as (ds & HD & (pad & HP & HE)%rbind_Ok).
    assert (pf = packNibbles ([ctrl; zb (len pin)] ++ ds ++ pad)) as -> by congruence. clear HE. apply digit_nibbles_iff in HD.
    destruct (pin_digits_Ok _ _ HD) as [HL HDN].
    destruct (proj2 (padding_iff f (14 - len pin) pad ltac:(by eexists) ltac:(lia))) as (HPL & HPN & HC); [by eexists|].
    assert (length ([ctrl; zb (len pin)] ++ ds ++ pad) = 16%nat) as H16 by (rewrite !length_app; unfold len in *; cbn; lia).
    split; [by apply len_8, (length_pack 8)|].
    assert (is_nibble ctrl) as Hc by (destruct f; try done; injection EC as <-; reflexivity).
    rewrite (unpack_pack 8).
    + apply decode_nibbles_iff; [exact (f_equal Z.of_nat H16)|]. by exists ds, pad.
    + done.
    + apply Forall_app; split; [|by apply Forall_app]. constructor; [done|constructor; [|constructor]]. unfold is_nibble. rewrite bz_zb; lia.
  - intros (ctrl & EC & HL & HD). rewrite EC. pose proof (unpack_is_nibble pf) as HN.
    apply decode_nibbles_iff in HD as (ds & pad & E & HPL & HP & HC); [|unfold len in *; rewrite length_unpack; lia].
    rewrite E in HN. apply Forall_app in HN as [_ [_ HN]%Forall_app]. destruct (pin_digits_Ok _ _ HP) as [HDL _].
    assert (len pad = 14 - len pin) as HLP.
    { apply (f_equal length) in E. rewrite length_unpack, !length_app in E. unfold len in *. cbn [length] in E. lia. }
    destruct (proj1 (padding_iff f (14 - len pin) pad ltac:(by eexists) ltac:(lia))) as [r HR]; [done|]. exists r.
    destruct (Z.ltb_spec (len pin) 4), (Z.ltb_spec 12 (len pin)); try lia. cbn [orb].
    apply digit_nibbles_iff with (e := PINDigit) in HP. rewrite HP. cbn [rbind]. rewrite HR. cbn [rbind].
    by rewrite <- E, pack_unpack.
Qed.

Lemma Encode_cloak f pin pan r : known f ->
  EncodePINBlockRand f pin pan r = (let! pf := pinField f pin r in cloak f pf pan).
Proof. intros [c Hc]. by destruct f. Qed.

Lemma Decode_cloak f block pan ctrl : len block = 8 -> control f = Some ctrl ->
  DecodePINBlock f block pan = (let! clear := cloak f block pan in decode_nibbles f ctrl (unpackNibbles clear)).
Proof. intros HL HC. unfold DecodePINBlock. rewrite HL, HC. by destruct f. Qed.

Lemma decode_nibbles_safe f ctrl ns : len ns = 16 -> decode_nibbles f ctrl ns <> Panic.
Proof.
  intros HN. unfold decode_nibbles. destruct ns as [|n0 [|n1 rest]]; [done|done|].
  rewrite (idx_mid [] n0 (n1 :: rest) 0), (idx_mid [n0] n1 rest 1) by done. cbn [rbind].
  destruct (negb _); [done|]. destruct (Z.ltb_spec (bz n1) 4), (Z.ltb_spec 12 (bz n1)); cbn [orb]; try done.
  rewrite (slice_ok _ 2) by lia. cbn [rbind]. destruct (pin_digits _) eqn:EP; [|done|by apply pin_digits_total in EP]. cbn [rbind].
  rewrite slice_ok by lia. cbn [rbind]. unfold checkPadding. destruct f; try done; by destruct (forallb _ _).
Qed.

(** The formats that mix the account number into the block. *)
Definition binds_pan (f : PINBlockFormat) : bool := match f with ISO0 | ISO3 => true | _ => false end.

Lemma Encode_total f pin pan r : known f -> valid_pin pin -> (binds_pan f = true -> valid_pan pan) -> 10 <= len r ->
  exists b, EncodePINBlockRand f pin pan r = Ok b /\ len b = 8.
Proof.
  intros Hk [HD HL] HP Hr. destruct Hk as [ctrl HC]. rewrite Encode_cloak by (by exists ctrl).
  assert (exists pf, pinField f pin r = Ok pf) as [pf HF].
  { unfold pinField. rewrite HC. destruct (Z.ltb_spec (len pin) 4), (Z.ltb_spec 12 (len pin)); try lia. cbn [orb].
    pose proof (digit_nibbles_digits PINDigit pin HD) as HO. destruct (digit_nibbles PINDigit pin); [|done..]. cbn [rbind].
    destruct (padNibbles_total f (14 - len pin) r) as [pad ->]; [by exists ctrl|lia|]. by eexists. }
  destruct (proj1 (pinField_iff f pin pf)) as (_ & _ & H8 & _); [by exists r|]. rewrite HF. cbn [rbind].
  unfold cloak. destruct (binds_pan f) eqn:HBP; [|destruct f; try done; by eexists].
  destruct (panField_total pan (HP eq_refl)) as [af HA]. pose proof (panField_len _ _ HA). rewrite HA. cbn [rbind].
  rewrite xored_Ok by lia. destruct f; eexists; (split; [done|]); rewrite ?len_xor_bytes; lia.
Qed.

Lemma Decode_iff_Encode f pin pan block :
  DecodePINBlock f block pan = Ok pin <-> exists r, EncodePINBlockRand f pin pan r = Ok block.
Proof.
  split.
  + intros H. destruct (control f) as [ctrl|] eqn:EC.
    2:{ unfold DecodePINBlock in H. rewrite EC in H. by destruct (negb _). }
    assert (len block = 8) as HL by (unfold DecodePINBlock in H; by destruct (Z.eqb_spec (len block) 8)).
    rewrite (Decode_cloak f block pan ctrl) in H by done. apply rbind_Ok in H as (clear & H1 & H2).
    apply cloak_involutive in H1 as [H8 HC]; [|done].
    destruct (proj2 (pinField_iff f pin clear)) as [r HR]; [by exists ctrl|]. exists r.
    rewrite Encode_cloak by (by exists ctrl). by rewrite HR.
  + intros [r HR]. destruct (control f) as [ctrl|] eqn:EC.
    2:{ unfold EncodePINBlockRand, pinField in HR. by rewrite EC in HR. }
    rewrite Encode_cloak in HR by (by exists ctrl). apply rbind_Ok in HR as (pf & HF & HC).
    destruct (proj1 (pinField_iff f pin pf)) as (ctrl' & EC' & H8 & HD); [by exists r|]. rewrite EC in EC'. injection EC' as <-.
    apply cloak_involutive in HC as [HL HC]; [|done]. rewrite (Decode_cloak f block pan ctrl) by done. by rewrite HC.
Qed.

Lemma Decode_safe f pan block : DecodePINBlock f block pan <> Panic.
Proof.
  unfold DecodePINBlock. destruct (Z.eqb_spec (len block) 8) as [HL|]; cbn [negb]; [|done].
  destruct (control f) as [ctrl|] eqn:EC; [|done]. fold (cloak f block pan). pose proof (cloak_safe f block pan HL).
  destruct (cloak f block pan) as [clear|e|] eqn:EK; cbn [rbind]; [|done|done].
  apply cloak_involutive in EK as [H8 _]; [|done]. apply decode_nibbles_safe. unfold len in *. rewrite length_unpack. lia.
Qed.

(** C27: PIN blocks.  With ten random bytes at hand, a PIN of 4 to 12 digits is
    encoded in eight bytes in any of the formats ISO-0, ISO-1 and ISO-3; the
    formats that bind the account number, ISO-0 and ISO-3, need one of at least 13
    digits, ISO-1 takes any or none.  And decoding accepts a block, with a PIN, exactly
    when the block is an encoding of that PIN for that account: no other block,
    length or padding is accepted.  Decoding never panics, whatever the bytes. *)
Theorem pin_block_exact f pin pan block :
  (known f -> valid_pin pin -> (binds_pan f = true -> valid_pan pan) ->
    forall r, 10 <= len r -> exists b, EncodePINBlockRand f pin pan r = Ok b /\ len b = 8) /\
  (DecodePINBlock f block pan = Ok pin <-> exists r, EncodePINBlockRand f pin pan r = Ok block) /\
  DecodePINBlock f block pan <> Panic.
Proof. split_and!; [intros; by apply Encode_total|apply Decode_iff_Encode|apply Decode_safe]. Qed.

(** The block of the module's own known-answer test. *)
Example iso0_known_answer :
  EncodePINBlockRand ISO0 (go "1234") (go "4012345678909") [] = Ok (zb <$> [0x04; 0x12; 0x74; 0xED; 0xCB; 0xA9; 0x87; 0x6F]).
Proof. vm_compute. reflexivity. Qed.
