(* ===== verification/KeyBlock.v ===== *)
(** * TR-31 key blocks ([vault/keyblock.go])

    Version B key blocks: a header in the clear, the wrapped key in CBC mode,
    and a CMAC of both that is also the initial vector. *)

From S2P Require Import Prelude Strconv Framer TlvText Des Cipher.

Record KeyBlockHeader := mkHeader {
  kh_Version : byte;
  kh_KeyUsage : bytes;
  kh_Algorithm : byte;
  kh_ModeOfUse : byte;
  kh_KeyVersion : bytes;
  kh_Exportability : byte;
}.

(** The key version that is written: "00" for an empty one. *)
Definition key_version (h : KeyBlockHeader) : bytes :=
  match kh_KeyVersion h with [] => go "00" | kv => kv end.

Definition header_marshal (h : KeyBlockHeader) (blockLen : Z) : res vault_error bytes :=
  if negb (len (kh_KeyUsage h) =? 2) then Err (KeyBlockError (go "key usage")) else
  let kv := key_version h in
  if negb (len kv =? 2) then Err (KeyBlockError (go "key version")) else
  if 9999 <? blockLen then Err (KeyBlockError (go "too large")) else
  Ok (go "B" ++ padInt 4 blockLen ++ kh_KeyUsage h ++ [kh_Algorithm h; kh_ModeOfUse h] ++ kv ++
      [kh_Exportability h] ++ go "00" ++ go "00").

Definition parseHeader (b : bytes) : res vault_error KeyBlockHeader :=
  if len b <? 16 then Err (KeyBlockError (go "header")) else
  let! version := idx b 0 in
  let! usage := slice b 5 7 in
  let! alg := idx b 7 in
  let! mode := idx b 8 in
  let! kv := slice b 9 11 in
  let! exp := idx b 11 in
  Ok (mkHeader version usage alg mode kv exp).

Fixpoint atoi_fixed_loop (n : Z) (s : bytes) : res vault_error Z :=
  match s with
  | [] => Ok n
  | c :: s => if negb (is_digit c) then Err (KeyBlockError (go "length")) else atoi_fixed_loop (n * 10 + (bz c - 48)) s
  end.
Definition atoiFixed (s : bytes) : res vault_error Z := atoi_fixed_loop 0 s.

(** ** Key derivation *)

Definition kdf_data (ctr usage algo nbits : Z) : bytes :=
  [zb ctr; zb (Z.shiftr usage 8); zb usage; x00; zb (Z.shiftr algo 8); zb algo; zb (Z.shiftr nbits 8); zb nbits].

(** [tr31kdf], from counter [ctr] on. *)
Fixpoint tr31kdf (b : Block) (usage algo nbits : Z) (iters : nat) (ctr : Z) : res vault_error bytes :=
  match iters with
  | O => Ok []
  | S iters =>
      let! x := cmacBlock b (kdf_data ctr usage algo nbits) in
      let! rest := tr31kdf b usage algo nbits iters (ctr + 1) in
      Ok (x ++ rest)
  end.

Definition tr31DeriveKeys (kbpk : bytes) : res vault_error (bytes * bytes) :=
  let! b := tripleDESBlock kbpk in
  let nbits := len kbpk * 8 in
  let iters := Z.to_nat (len kbpk / 8) in
  let algo := if len kbpk =? 24 then 1 else 0 in
  let! kbek := tr31kdf b 0 algo nbits iters 1 in
  let! kbmk := tr31kdf b 1 algo nbits iters 1 in
  Ok (kbek, kbmk).

(** ** Wrapping *)

Definition upperHex (b : bytes) : bytes := ToUpper (hex_encode b).

(** The confidential data: the length of the key in bits, the key and the pad. *)
Definition confidential (key r : bytes) : res vault_error bytes :=
  let plain := be_put 2 ((len key * 8) mod 2 ^ 16) ++ key in
  let pad := (8 - len plain mod 8) mod 8 in
  if pad <=? 0 then Ok plain else
  match (ReadFull pad r).1 with
  | Ok rb => Ok (plain ++ rb)
  | Err _ => Err NoRandomness
  | Panic => Panic
  end.

Definition kbpk_ok (kbpk : bytes) : bool := (len kbpk =? 16) || (len kbpk =? 24).

Definition WrapKeyBlockRand (kbpk : bytes) (hdr : KeyBlockHeader) (key r : bytes) : res vault_error bytes :=
  if negb (kbpk_ok kbpk) then Err (KeyLength (len kbpk)) else
  if len key =? 0 then Err (KeyBlockError (go "empty key")) else
  let! plain := confidential key r in
  let blockLen := 16 + 2 * len plain + 16 in
  let! header := header_marshal hdr blockLen in
  let! (kbek, kbmk) := tr31DeriveKeys kbpk in
  let! bmac := tripleDESBlock kbmk in
  let! mac := cmacBlock bmac (header ++ plain) in
  let! benc := tripleDESBlock kbek in
  let! ct := cbcEncrypt benc mac plain in
  Ok (header ++ upperHex ct ++ upperHex mac).

(** ** Unwrapping *)

Definition decode_hex (s : bytes) : res vault_error bytes := rmap_err (fun _ => KeyBlockError (go "hex")) (hex_decode s).

(** The key in the confidential data. *)
Definition open_plain (hdr : KeyBlockHeader) (plain : bytes) : res vault_error (KeyBlockHeader * bytes) :=
  if len plain <? 2 then Err (KeyBlockError (go "plaintext")) else
  let! lb := slice plain 0 2 in
  let keyLen := be_get lb / 8 in
  if (keyLen <? 0) || (len plain <? 2 + keyLen) then Err (KeyBlockError (go "key length")) else
  let! key := slice plain 2 (2 + keyLen) in
  Ok (hdr, key).

(** Decryption, then authentication of the header and the plain text. *)
Definition open_body (kbpk header ct mac : bytes) : res vault_error bytes :=
  let! (kbek, kbmk) := tr31DeriveKeys kbpk in
  let! benc := tripleDESBlock kbek in
  let! plain := cbcDecrypt benc mac ct in
  let! bmac := tripleDESBlock kbmk in
  let! want := cmacBlock bmac (header ++ plain) in
  if bool_decide (want = mac) then Ok plain else Err (KeyBlockError (go "authentication")).

Definition UnwrapKeyBlock (kbpk block : bytes) : res vault_error (KeyBlockHeader * bytes) :=
  if negb (kbpk_ok kbpk) then Err (KeyLength (len kbpk)) else
  if len block <? 16 then Err (KeyBlockError (go "too short")) else
  let! header := slice block 0 16 in
  let! hdr := parseHeader header in
  if negb (bool_decide (kh_Version hdr = x42)) then Err (KeyBlockError (go "version")) else
  let! digits := slice block 1 5 in
  let! blockLen := atoiFixed digits in
  if negb (blockLen =? len block) then Err (KeyBlockError (go "length")) else
  let! opt := slice block 12 14 in
  if negb (bool_decide (opt = go "00")) then Err (KeyBlockError (go "optional blocks")) else
  let! body := slice block 16 (len block) in
  if (len body <? 16) || negb (len body mod 16 =? 0) then Err (KeyBlockError (go "body")) else
  let! cthex := slice body 0 (len body - 16) in
  let! ct := decode_hex cthex in
  let! machex := slice body (len body - 16) (len body) in
  let! mac := decode_hex machex in
  let! plain := open_body kbpk header ct mac in
  open_plain hdr plain.

(** ** Ciphers and derived keys *)

Lemma tripleDES_Ok key : kbpk_ok key = true -> exists b, tripleDESBlock key = Ok b /\ BlockLaws b /\ BlockSize b = 8.
Proof.
  unfold kbpk_ok, tripleDESBlock. destruct (Z.eqb_spec (len key) 24) as [H24|H24].
  - intros _. eexists. split_and!; [done|apply _|done].
  - destruct (Z.eqb_spec (len key) 16); [|done]. intros _. eexists. split_and!; [done|apply _|done].
Qed.

Lemma tr31kdf_Ok b usage algo nbits iters ctr : BlockLaws b -> BlockSize b = 8 ->
  exists out, tr31kdf b usage algo nbits iters ctr = Ok out /\ len out = 8 * Z.of_nat iters.
Proof.
  intros HB H8. revert ctr. induction iters as [|iters IH]; intros ctr; cbn [tr31kdf]; [by exists []|].
  destruct (cmacBlock_Ok b (kdf_data ctr usage algo nbits)) as (x & -> & Hx). cbn [rbind].
  destruct (IH (ctr + 1)) as (rest & -> & HR). cbn [rbind]. eexists. split; [done|]. rewrite len_app. lia.
Qed.

Lemma derive_Ok kbpk : kbpk_ok kbpk = true ->
  exists kbek kbmk, tr31DeriveKeys kbpk = Ok (kbek, kbmk) /\ kbpk_ok kbek = true /\ kbpk_ok kbmk = true.
Proof.
  intros HK. unfold tr31DeriveKeys. destruct (tripleDES_Ok kbpk HK) as (b & -> & HB & H8). cbn [rbind].
  set (iters := Z.to_nat (len kbpk / 8)). set (algo := if len kbpk =? 24 then 1 else 0).
  destruct (tr31kdf_Ok b 0 algo (len kbpk * 8) iters 1 HB H8) as (ke & -> & He). cbn [rbind].
  destruct (tr31kdf_Ok b 1 algo (len kbpk * 8) iters 1 HB H8) as (km & -> & Hm). cbn [rbind].
  exists ke, km. split; [done|]. unfold kbpk_ok in *. rewrite He, Hm. unfold iters.
  destruct (Z.eqb_spec (len kbpk) 16) as [->|]; [done|]. by destruct (Z.eqb_spec (len kbpk) 24) as [->|].
Qed.

(** The two ciphers that a protection key gives. *)
Lemma keys_Ok kbpk : kbpk_ok kbpk = true -> exists kbek kbmk benc bmac,
  tr31DeriveKeys kbpk = Ok (kbek, kbmk) /\ tripleDESBlock kbek = Ok benc /\ tripleDESBlock kbmk = Ok bmac /\
  BlockLaws benc /\ BlockLaws bmac /\ BlockSize benc = 8 /\ BlockSize bmac = 8.
Proof.
  intros HK. destruct (derive_Ok kbpk HK) as (ke & km & HD & He & Hm).
  destruct (tripleDES_Ok ke He) as (benc & HE & LE & SE). destruct (tripleDES_Ok km Hm) as (bmac & HM & LM & SM).
  by exists ke, km, benc, bmac.
Qed.

Lemma slice_head {E A} (a b : list A) n : n = len a -> slice (E:=E) (a ++ b) 0 n = Ok a.
Proof. intros ->. exact (slice_mid [] a b 0 (len a) eq_refl eq_refl). Qed.

(** ** The confidential data *)

Lemma confidential_Ok key r plain : confidential key r = Ok plain ->
  len plain mod 8 = 0 /\ 2 <= len plain <= 9 + len key /\ (len key * 8 < 2 ^ 16 -> forall hdr, open_plain hdr plain = Ok (hdr, key)).
Proof.
  unfold confidential. set (head := be_put 2 ((len key * 8) mod 2 ^ 16) ++ key).
  pose proof (len_nonneg key). assert (len head = 2 + len key) as HH by (unfold head; rewrite len_app, len_be_put; lia).
  rewrite HH. pose proof (Z.mod_pos_bound (2 + len key) 8 ltac:(lia)) as HM.
  pose proof (Z.mod_pos_bound (8 - (2 + len key) mod 8) 8 ltac:(lia)) as HM'.
  set (pad := (8 - (2 + len key) mod 8) mod 8) in *. intros HC.
  assert (exists rb, plain = head ++ rb /\ len rb = pad) as (rb & -> & HR).
  { destruct (Z.leb_spec pad 0); [injection HC as <-; exists []; rewrite app_nil_r, len_nil; split; [done|lia]|].
    destruct ((ReadFull pad r).1) as [rb|e|] eqn:ER; [|done..]. injection HC as <-. exists rb. split; [done|].
    unfold ReadFull in ER. destruct (Z.leb_spec pad 0); [lia|]. destruct (Z.leb_spec pad (len r)); [|by destruct (len r =? 0)].
    injection ER as <-. apply len_take; lia. }
  rewrite len_app, HH, HR. pose proof (len_nonneg rb). split_and!; [|lia..|].
  - unfold pad. rewrite Zplus_mod_idemp_r. pose proof (Z.div_mod (2 + len key) 8 ltac:(lia)) as HD.
    replace (2 + len key + (8 - (2 + len key) mod 8)) with ((1 + (2 + len key) / 8) * 8) by lia. by apply Z.mod_mul.
  - intros HK hdr. unfold open_plain. rewrite len_app, HH. destruct (Z.ltb_spec (2 + len key + len rb) 2); [lia|].
    unfold head. rewrite <- app_assoc. rewrite (slice_head (be_put 2 _)) by (by rewrite len_be_put). cbn [rbind].
    rewrite Z.mod_small by lia. rewrite be_get_put by (change (256 ^ Z.of_nat 2) with (2 ^ 16); lia). rewrite Z.div_mul by lia.
    destruct (Z.ltb_spec (len key) 0), (Z.ltb_spec (2 + len key + len rb) (2 + len key)); try lia. cbn [orb].
    by rewrite (slice_mid (be_put 2 _) key rb) by (by rewrite ?len_be_put).
Qed.

Lemma confidential_total key r : 7 <= len r -> exists plain, confidential key r = Ok plain.
Proof.
  intros Hr. unfold confidential. set (pad := (8 - _) mod 8).
  assert (0 <= pad < 8) by (apply Z.mod_pos_bound; lia). destruct (Z.leb_spec pad 0); [by eexists|].
  unfold ReadFull. destruct (Z.leb_spec pad 0); [lia|]. destruct (Z.leb_spec pad (len r)); [by eexists|lia].
Qed.

(** Sealing the body and opening it. *)
Lemma open_body_sealed kbpk header plain : kbpk_ok kbpk = true -> len plain mod 8 = 0 ->
  exists kbek kbmk benc bmac mac ct, tr31DeriveKeys kbpk = Ok (kbek, kbmk) /\ tripleDESBlock kbmk = Ok bmac /\
    cmacBlock bmac (header ++ plain) = Ok mac /\ tripleDESBlock kbek = Ok benc /\ cbcEncrypt benc mac plain = Ok ct /\
    len mac = 8 /\ len ct = len plain /\ open_body kbpk header ct mac = Ok plain.
Proof.
  intros HK HP. destruct (keys_Ok kbpk HK) as (ke & km & benc & bmac & HD & HE & HM & LE & LM & SE & SM).
  destruct (cmacBlock_Ok bmac (header ++ plain)) as (mac & HC & HL). rewrite SM in HL.
  destruct (cbc_roundtrip benc mac plain) as (ct & H1 & H2 & H3); [lia|by rewrite SE|].
  exists ke, km, benc, bmac, mac, ct. split_and!; try done. unfold open_body. rewrite HD. cbn [rbind]. rewrite HE. cbn [rbind].
  rewrite H3. cbn [rbind]. rewrite HM. cbn [rbind]. rewrite HC. cbn [rbind]. by rewrite bool_decide_true.
Qed.

(** ** Headers *)

Lemma atoi_fixed_digits n s : forallb is_digit s = true -> atoi_fixed_loop n s = Ok (dec_from n s).
Proof.
  revert n. induction s as [|c s IH]; intros n; [done|]. cbn [forallb atoi_fixed_loop]. intros [-> H]%andb_prop. cbn [negb].
  by apply IH.
Qed.

Lemma atoiFixed_padInt n : 0 <= n <= 9999 -> len (padInt 4 n) = 4 /\ atoiFixed (padInt 4 n) = Ok n.
Proof.
  intros Hn. split; [apply padInt_spec; [lia|change (10 ^ 4) with 10000; lia]|]. unfold atoiFixed.
  unfold padInt, FormatInt. destruct (Z.ltb_spec n 0); [lia|]. rewrite atoi_fixed_digits.
  - f_equal. rewrite <- (FormatUint_value n) at 3 by lia. apply dec_value_zeros.
  - rewrite forallb_app, FormatUint_digits, andb_true_r by lia. generalize (Z.to_nat (4 - len (FormatUint n))) as k. by induction k.
Qed.

Lemma two_bytes (b : bytes) : len b = 2 -> exists x y, b = [x; y].
Proof. destruct b as [|x [|y [|]]]; unfold len; cbn; try lia. eauto. Qed.

Lemma four_bytes (b : bytes) : len b = 4 -> exists x y z w, b = [x; y; z; w].
Proof. destruct b as [|x [|y [|z [|w [|]]]]]; unfold len; cbn; try lia. eauto 6. Qed.

(** A header is 16 bytes. *)
Lemma header_marshal_Ok h n header : 0 <= n -> header_marshal h n = Ok header ->
  exists d1 d2 d3 d4 u1 u2 v1 v2, header = [x42; d1; d2; d3; d4; u1; u2; kh_Algorithm h; kh_ModeOfUse h; v1; v2; kh_Exportability h; x30; x30; x30; x30] /\
    kh_KeyUsage h = [u1; u2] /\ key_version h = [v1; v2] /\ n <= 9999 /\ atoiFixed [d1; d2; d3; d4] = Ok n.
Proof.
  intros Hn. unfold header_marshal. destruct (Z.eqb_spec (len (kh_KeyUsage h)) 2) as [Hu|]; cbn [negb]; [|done].
  destruct (Z.eqb_spec (len (key_version h)) 2) as [Hv|]; cbn [negb]; [|done]. destruct (Z.ltb_spec 9999 n); [done|].
  destruct (two_bytes _ Hu) as (u1 & u2 & ->). destruct (two_bytes _ Hv) as (v1 & v2 & ->).
  destruct (atoiFixed_padInt n) as [HL HA]; [lia|]. destruct (four_bytes _ HL) as (d1 & d2 & d3 & d4 & HE). rewrite HE in HA |- *.
  intros E. exists d1, d2, d3, d4, u1, u2, v1, v2. split_and!; [|done|done|lia|exact HA]. injection E as <-. reflexivity.
Qed.

Definition header_ok (h : KeyBlockHeader) : Prop := len (kh_KeyUsage h) = 2 /\ len (key_version h) = 2.

Lemma header_marshal_total h n : header_ok h -> n <= 9999 -> exists header, header_marshal h n = Ok header.
Proof.
  intros [Hu Hv] Hn. unfold header_marshal. rewrite Hu, Hv. cbn [negb Z.eqb Pos.eqb]. destruct (Z.ltb_spec 9999 n); [lia|]. by eexists.
Qed.

(** The header that an unwrapped block reports. *)
Definition stored (h : KeyBlockHeader) : KeyBlockHeader :=
  mkHeader x42 (kh_KeyUsage h) (kh_Algorithm h) (kh_ModeOfUse h) (key_version h) (kh_Exportability h).

Lemma decode_upperHex b : decode_hex (upperHex b) = Ok b.
Proof. unfold decode_hex, upperHex. by rewrite hex_decode_upper. Qed.

Lemma len_block_hex b : len (upperHex b) = 2 * len b.
Proof. unfold upperHex, ToUpper. rewrite len_fmap. apply len_hex_encode. Qed.

(** Unwrapping the text of a header, a cipher text and a code. *)
Lemma Unwrap_text kbpk h header ct mac : kbpk_ok kbpk = true -> len mac = 8 -> len ct mod 8 = 0 ->
  header_marshal h (32 + 2 * len ct) = Ok header ->
  UnwrapKeyBlock kbpk (header ++ upperHex ct ++ upperHex mac) =
    (let! plain := open_body kbpk header ct mac in open_plain (stored h) plain).
Proof.
  intros HK HM HC HH. pose proof (len_nonneg ct). apply header_marshal_Ok in HH as (d1 & d2 & d3 & d4 & u1 & u2 & v1 & v2 & -> & HU & HV & HN & HA); [|lia].
  set (body := upperHex ct ++ upperHex mac). set (header := [x42; d1; d2; d3; d4; u1; u2; _; _; _; _; _; _; _; _; _]).
  assert (len body = 2 * len ct + 16) as HB by (unfold body; rewrite len_app, !len_block_hex; lia).
  assert (len (header ++ body) = 32 + 2 * len ct) as HL by (rewrite len_app, HB; change (len header) with 16; lia).
  unfold UnwrapKeyBlock. rewrite HK, HL. cbn [negb]. destruct (Z.ltb_spec (32 + 2 * len ct) 16); [lia|].
  rewrite (slice_head header body) by done. cbn [rbind]. change (parseHeader header) with
    (Ok (E:=vault_error) (mkHeader x42 [u1; u2] (kh_Algorithm h) (kh_ModeOfUse h) [v1; v2] (kh_Exportability h))).
  cbn [rbind kh_Version]. rewrite bool_decide_true by done. cbn [negb].
  change (header ++ body) with ([x42] ++ [d1; d2; d3; d4] ++ drop 5 header ++ body) at 1. rewrite slice_mid by done. cbn [rbind].
  rewrite HA. cbn [rbind]. rewrite Z.eqb_refl. cbn [negb].
  change (header ++ body) with (take 12 header ++ [x30; x30] ++ [x30; x30] ++ body) at 1. rewrite slice_mid by done. cbn [rbind].
  rewrite bool_decide_true by done. cbn [negb].
  rewrite <- (app_nil_r body) at 1. rewrite (slice_mid header body []) by (change (len header) with 16; lia). cbn [rbind].
  rewrite HB. destruct (Z.ltb_spec (2 * len ct + 16) 16); [lia|]. cbn [orb].
  assert ((2 * len ct + 16) mod 16 = 0) as ->.
  { apply Z.mod_divide in HC as [q Hq]; [|lia]. rewrite Hq. replace (2 * (q * 8) + 16) with ((q + 1) * 16) by lia. by apply Z.mod_mul. }
  cbn [negb Z.eqb]. unfold body. rewrite slice_head by (rewrite len_block_hex; lia). cbn [rbind]. rewrite decode_upperHex. cbn [rbind].
  rewrite <- (app_nil_r (upperHex mac)), slice_mid by (rewrite !len_block_hex; lia). cbn [rbind]. rewrite decode_upperHex. cbn [rbind].
  unfold stored. by rewrite HU, HV.
Qed.

(** C25: key blocks.  A key of 1 to 4974 bytes is wrapped, for every protection
    key of 16 or 24 bytes, every header whose key usage has two bytes and whose
    key version has two or none, and seven random bytes or more, into a block of
    at most 9999 bytes whose second to fifth bytes are its length in decimal; and
    unwrapping the block under the same protection key returns the key and the
    header, with its version set to B and an empty key version to 00. *)
Theorem key_block_roundtrip kbpk hdr key r
    (HK : kbpk_ok kbpk = true) (HH : header_ok hdr) (HL : 1 <= len key <= 4974) (HR : 7 <= len r) :
  exists block, WrapKeyBlockRand kbpk hdr key r = Ok block /\ len block <= 9999 /\
    (exists digits, slice block 1 5 = Ok (E := vault_error) digits /\ atoiFixed digits = Ok (len block)) /\
    UnwrapKeyBlock kbpk block = Ok (stored hdr, key).
Proof.
  destruct (confidential_total key r HR) as [plain HP]. destruct (confidential_Ok _ _ _ HP) as (H8 & [_ HPL] & HO).
  assert (len plain <= 4976) as HPL'.
  { apply Z.mod_divide in H8 as [q Hq]; [|lia]. lia. }
  destruct (header_marshal_total hdr (16 + 2 * len plain + 16)) as [header HM]; [done|lia|].
  destruct (open_body_sealed kbpk header plain HK H8) as (ke & km & benc & bmac & mac & ct & HD & HB & HC & HE & HX & HML & HCL & HOB).
  unfold WrapKeyBlockRand. rewrite HK. cbn [negb]. destruct (Z.eqb_spec (len key) 0); [lia|]. rewrite HP. cbn [rbind].
  rewrite HM. cbn [rbind]. rewrite HD. cbn [rbind]. rewrite HB. cbn [rbind]. rewrite HC. cbn [rbind]. rewrite HE. cbn [rbind].
  rewrite HX. cbn [rbind]. eexists. split; [done|].
  replace (16 + 2 * len plain + 16) with (32 + 2 * len ct) in HM by lia.
  pose proof (len_nonneg ct). pose proof HM as HM'. apply header_marshal_Ok in HM' as (d1 & d2 & d3 & d4 & u1 & u2 & v1 & v2 & HEq & _ & _ & _ & HA); [|lia].
  assert (HBl : len (header ++ upperHex ct ++ upperHex mac) = 32 + 2 * len ct).
  { rewrite !len_app, !len_block_hex, HEq. change (len [_; _; _; _; _; _; _; _; _; _; _; _; _; _; _; _]) with 16. lia. }
  split; [lia|]. split.
  - exists [d1; d2; d3; d4]. rewrite HBl. split; [|exact HA]. rewrite slice_ok by lia. by rewrite HEq.
  - rewrite (Unwrap_text kbpk hdr) by (first [done | by rewrite HCL]). rewrite HOB. cbn [rbind]. apply HO. lia.
Qed.

Definition sample_kbpk : bytes := zb <$> seqZ 1 16.
Definition sample_header : KeyBlockHeader := mkHeader x42 (go "P0") x54 x45 [] x4e.

Lemma key_block_roundtrip_witness : exists block,
  WrapKeyBlockRand sample_kbpk sample_header (go "0123456789abcdef") (zeros 8) = Ok block /\
  UnwrapKeyBlock sample_kbpk block = Ok (stored sample_header, go "0123456789abcdef").
Proof.
  destruct (key_block_roundtrip sample_kbpk sample_header (go "0123456789abcdef") (zeros 8)) as (block & H1 & _ & _ & H2).
  - reflexivity.
  - split; reflexivity.
  - split; discriminate.
  - discriminate.
  - exists block. split; [exact H1|exact H2].
Defined.

(** ** Hostile blocks *)

Lemma parseHeader_Ok header : len header = 16 -> exists hdr, parseHeader header = Ok hdr.
Proof.
  intros H. unfold len in H.
  do 16 (destruct header as [|? header]; [cbn in H; lia|]). destruct header; [|cbn in H; lia]. by eexists.
Qed.

Lemma atoi_fixed_safe n s : atoi_fixed_loop n s <> Panic.
Proof. revert n. induction s as [|c s IH]; intros n; [done|]. cbn. by destruct (negb (is_digit c)). Qed.

Lemma decode_hex_cases s : (exists b, decode_hex s = Ok b /\ len s = 2 * len b) \/ (exists e, decode_hex s = Err e).
Proof.
  unfold decode_hex. destruct (hex_decode s) eqn:E; cbn; [left|right; by eexists|by apply hex_decode_not_Panic in E].
  eexists. split; [done|]. by apply hex_decode_len.
Qed.

Lemma open_plain_cases hdr plain : (exists key, open_plain hdr plain = Ok (hdr, key)) \/ (exists e, open_plain hdr plain = Err e).
Proof.
  unfold open_plain. destruct (Z.ltb_spec (len plain) 2); [right; by eexists|].
  destruct (slice_len (E:=vault_error) plain 0 2) as (lb & -> & _); [lia..|]. cbn [rbind].
  destruct (Z.ltb_spec (be_get lb / 8) 0), (Z.ltb_spec (len plain) (2 + be_get lb / 8)); cbn [orb]; try (right; by eexists).
  destruct (slice_len (E:=vault_error) plain 2 (2 + be_get lb / 8)) as (key & -> & _); [lia..|]. left. by eexists.
Qed.

(** What a header, a cipher text and a code that belong together are. *)
Definition genuine (kbpk header ct mac plain : bytes) : Prop :=
  exists kbek kbmk benc bmac, tr31DeriveKeys kbpk = Ok (kbek, kbmk) /\ tripleDESBlock kbek = Ok benc /\ tripleDESBlock kbmk = Ok bmac /\
    cmacBlock bmac (header ++ plain) = Ok mac /\ cbcEncrypt benc mac plain = Ok ct.

Lemma open_body_exact kbpk header ct mac : kbpk_ok kbpk = true -> len mac = 8 -> len ct mod 8 = 0 ->
  (exists plain, open_body kbpk header ct mac = Ok plain /\ genuine kbpk header ct mac plain) \/
  ((exists e, open_body kbpk header ct mac = Err e) /\ forall plain, ~ genuine kbpk header ct mac plain).
Proof.
  intros HK HM HC. destruct (keys_Ok kbpk HK) as (ke & km & benc & bmac & HD & HE & HB & LE & LM & SE & SM).
  destruct (cbc_back benc mac ct) as (plain & H1 & H2 & H3); [lia|by rewrite SE|].
  destruct (cmacBlock_Ok bmac (header ++ plain)) as (want & HW & HL).
  unfold open_body. rewrite HD. cbn [rbind]. rewrite HE. cbn [rbind]. rewrite H1. cbn [rbind]. rewrite HB. cbn [rbind].
  rewrite HW. cbn [rbind]. destruct (bool_decide_reflect (want = mac)) as [->|Hne].
  - left. exists plain. split; [done|]. by exists ke, km, benc, bmac.
  - right. split; [by eexists|]. intros p (ke' & km' & benc' & bmac' & HD' & HE' & HB' & HW' & HX').
    rewrite HD in HD'. injection HD' as <- <-. rewrite HE in HE'. injection HE' as <-. rewrite HB in HB'. injection HB' as <-.
    destruct (cbc_roundtrip benc mac p) as (ct' & G1 & G2 & G3); [lia| |].
    + unfold cbcEncrypt in HX'. destruct (negb (len mac =? _)); [done|]. destruct (Z.eqb_spec (len p mod BlockSize benc) 0); [done|done].
    + rewrite G1 in HX'. injection HX' as <-. rewrite H1 in G3. injection G3 as ->. rewrite HW in HW'. by simplify_eq.
Qed.

Lemma Unwrap_genuine kbpk block :
  UnwrapKeyBlock kbpk block <> Panic /\
  forall hdr key, UnwrapKeyBlock kbpk block = Ok (hdr, key) ->
    exists header cthex machex ct mac plain, block = header ++ cthex ++ machex /\ len header = 16 /\ len machex = 16 /\
      parseHeader header = Ok hdr /\ kh_Version hdr = x42 /\ decode_hex cthex = Ok ct /\ decode_hex machex = Ok mac /\
      genuine kbpk header ct mac plain /\ open_plain hdr plain = Ok (hdr, key).
Proof.
  unfold UnwrapKeyBlock. destruct (kbpk_ok kbpk) eqn:HK; cbn [negb]; [|done]. destruct (Z.ltb_spec (len block) 16); [done|].
  destruct (slice_len (E:=vault_error) block 0 16) as (header & HS & HHL); [lia..|]. rewrite HS. cbn [rbind].
  destruct (parseHeader_Ok header HHL) as [hdr HP]. rewrite HP. cbn [rbind].
  destruct (bool_decide_reflect (kh_Version hdr = x42)) as [HV|]; cbn [negb]; [|done].
  destruct (slice_len (E:=vault_error) block 1 5) as (digits & -> & _); [lia..|]. cbn [rbind].
  pose proof (atoi_fixed_safe 0 digits). unfold atoiFixed. destruct (atoi_fixed_loop 0 digits) as [n|e|]; cbn [rbind]; [|done|done].
  destruct (Z.eqb_spec n (len block)) as [->|]; cbn [negb]; [|done].
  destruct (slice_len (E:=vault_error) block 12 14) as (opt & -> & _); [lia..|]. cbn [rbind]. destruct (negb _); [done|].
  destruct (slice_len (E:=vault_error) block 16 (len block)) as (body & HSB & HBL); [lia..|]. rewrite HSB. cbn [rbind].
  destruct (Z.ltb_spec (len body) 16), (Z.eqb_spec (len body mod 16) 0) as [HM|]; cbn [orb negb]; try done.
  destruct (slice_len (E:=vault_error) body 0 (len body - 16)) as (cthex & HSC & HCL); [lia..|]. rewrite HSC. cbn [rbind].
  destruct (decode_hex_cases cthex) as [(ct & Hct & HctL)|[e ->]]; [|done]. rewrite Hct. cbn [rbind].
  destruct (slice_len (E:=vault_error) body (len body - 16) (len body)) as (machex & HSM & HML); [lia..|]. rewrite HSM. cbn [rbind].
  destruct (decode_hex_cases machex) as [(mac & Hmac & HmacL)|[e ->]]; [|done]. rewrite Hmac. cbn [rbind].
  assert (len ct mod 8 = 0) as HC8.
  { apply Z.mod_divide in HM as [q Hq]; [|lia]. replace (len ct) with ((q - 1) * 8) by lia. by apply Z.mod_mul. }
  destruct (open_body_exact kbpk header ct mac HK) as [(plain & -> & HG)|[[e ->] _]]; [lia|done| |done]. cbn [rbind].
  destruct (open_plain_cases hdr plain) as [[key HO]|[e ->]]; [|done]. rewrite HO. split; [done|].
  intros hdr' key' [= <- <-]. exists header, cthex, machex, ct, mac, plain. split_and!; try done; [|lia].
  apply slice_Ok_inv in HS as (_ & _ & _ & ->), HSB as (_ & _ & _ & HSB), HSC as (_ & _ & _ & ->), HSM as (_ & _ & _ & ->).
  rewrite Z.sub_0_r, !(Z.sub_0_r (len body - 16)). cbn [drop Z.to_nat].
  assert (take (Z.to_nat (len body - (len body - 16))) (drop (Z.to_nat (len body - 16)) body) = drop (Z.to_nat (len body - 16)) body) as ->
    by (apply take_ge; unfold len in *; rewrite length_drop; lia).
  rewrite take_drop. assert (body = drop (Z.to_nat 16) block) as -> by (rewrite HSB; apply take_ge; unfold len in *; rewrite length_drop; lia).
  symmetry. apply take_drop.
Qed.

(** C26: hostile key blocks.  Unwrapping never panics, whatever the bytes; and a
    block is accepted only when its parts belong together: the header it
    reports is its first sixteen bytes, its last sixteen characters are the
    authentication code of that header and of the plain text, the rest is that
    plain text enciphered under the code, and the key is the one the plain text
    holds. *)
Theorem key_block_authentic kbpk block :
  UnwrapKeyBlock kbpk block <> Panic /\
  forall hdr key, UnwrapKeyBlock kbpk block = Ok (hdr, key) ->
    exists header cthex machex ct mac plain, block = header ++ cthex ++ machex /\ len header = 16 /\ len machex = 16 /\
      parseHeader header = Ok hdr /\ kh_Version hdr = x42 /\ decode_hex cthex = Ok ct /\ decode_hex machex = Ok mac /\
      genuine kbpk header ct mac plain /\ open_plain hdr plain = Ok (hdr, key).
Proof. apply Unwrap_genuine. Qed.
