(* ===== verification/Vault.v ===== *)
(** * The key vaults ([vault/vault.go], [vault/sealed.go])

    [SoftVault] holds keys in the clear; [SealedVault] holds them sealed under a
    key-encryption key, with usages and an audit trail.  AES-GCM is a parameter:
    the operations of [cipher.AEAD] with the law that opening undoes sealing.
    Both vaults draw PIN padding from crypto/rand, the argument [r].  Wiping key
    buffers after use is not observable here: no result aliases them. *)

From S2P Require Import Prelude Path Framer Des Cipher PinBlock KeyBlock.

(** ** The software vault *)

Record SoftVault := mkSoft { so_keys : gmap bytes bytes }.

Definition NewSoftVault : SoftVault := mkSoft ∅.
Definition soft_SetKey (v : SoftVault) (ref key : bytes) : SoftVault := mkSoft (<[ref := key]> (so_keys v)).

Definition soft_ImportKeyBlock (v : SoftVault) (ref kbpk block : bytes) : res vault_error KeyBlockHeader * SoftVault :=
  match UnwrapKeyBlock kbpk block with
  | Ok (hdr, key) => (Ok hdr, soft_SetKey v ref key)
  | Err e => (Err e, v)
  | Panic => (Panic, v)
  end.

Definition soft_key (v : SoftVault) (ref : bytes) : res vault_error bytes :=
  match so_keys v !! ref with Some k => Ok k | None => Err (ErrUnknownKey ref) end.

Definition soft_EncryptPINBlock (v : SoftVault) (keyRef : bytes) (f : PINBlockFormat) (pin pan r : bytes) : res vault_error bytes :=
  let! k := soft_key v keyRef in
  let! clear := EncodePINBlockRand f pin pan r in
  let! b := tripleDESBlock k in
  ecbEncrypt b clear.

Definition soft_TranslatePIN (v : SoftVault) (srcRef dstRef encBlock pan : bytes) (srcFormat dstFormat : PINBlockFormat) (r : bytes)
    : res vault_error bytes :=
  let! ks := soft_key v srcRef in
  let! kd := soft_key v dstRef in
  let! bs := tripleDESBlock ks in
  let! clear := ecbDecrypt bs encBlock in
  let! pin := DecodePINBlock srcFormat clear pan in
  let! reblock := EncodePINBlockRand dstFormat pin pan r in
  let! bd := tripleDESBlock kd in
  ecbEncrypt bd reblock.

Definition soft_GenerateMAC (v : SoftVault) (keyRef : bytes) (alg : MACAlgorithm) (pad : Padding) (data : bytes) : res vault_error bytes :=
  let! k := soft_key v keyRef in
  GenerateMAC alg pad k data.

Definition soft_VerifyMAC (v : SoftVault) (keyRef : bytes) (alg : MACAlgorithm) (pad : Padding) (data mac : bytes) : res vault_error bool :=
  let! k := soft_key v keyRef in
  VerifyMAC alg pad k data mac.

(** ** Authenticated encryption *)

(** [cipher.AEAD], keyed; there is no associated data in the vault. *)
Class AEAD := {
  NonceSize : Z;
  aead_Seal : bytes -> bytes -> bytes;           (* nonce, plain text *)
  aead_Open : bytes -> bytes -> option bytes;    (* nonce, cipher text *)
}.

Class AEADLaws `{AEAD} := {
  NonceSize_pos : 0 <= NonceSize;
  Open_Seal nonce p : len nonce = NonceSize -> aead_Open nonce (aead_Seal nonce p) = Some p;
}.

(** ** The sealed vault *)

Inductive KeyUsage := UsageAny | UsagePIN | UsageMAC | UsageData | UsageKEK.
#[export] Instance KeyUsage_EqDecision : EqDecision KeyUsage.
Proof. solve_decision. Defined.

Record KeyMeta := mkMeta { km_Usage : KeyUsage; km_Version : Z; km_Label : bytes }.

Record AuditEvent := mkAudit { au_Op : bytes; au_KeyRef : bytes; au_OK : bool; au_Err : option vault_error }.

Record sealedKey := mkSealed { sk_blob : bytes; sk_kcv : bytes; sk_meta : KeyMeta }.

Record SealedVault := mkVault {
  sv_rand : bytes;
  sv_audit : bool;                 (* a hook is set *)
  sv_events : list AuditEvent;     (* the events it was given *)
  sv_keys : gmap bytes sealedKey;
}.

(** The key-encryption key is the one of the [AEAD] in use. *)
Definition NewSealedVault (kek : bytes) (audit : bool) (rand : bytes) : res vault_error SealedVault :=
  if (len kek =? 16) || (len kek =? 24) || (len kek =? 32) then Ok (mkVault rand audit [] ∅) else Err (KeyLength (len kek)).

Definition KeyCheckValue (key : bytes) : res vault_error bytes :=
  let block := if len key =? 8 then Some (desBlock key)
               else if (len key =? 16) || (len key =? 24) then Some (tripleDESBlock key) else None in
  match block with
  | Some (Ok b) =>
      let! x := blockEnc b (zeros 8) in
      slice x 0 3
  | Some Panic => Panic
  | _ => Ok []
  end.

Definition vault_emit (e : AuditEvent) (v : SealedVault) : SealedVault :=
  mkVault (sv_rand v) (sv_audit v) (if sv_audit v then sv_events v ++ [e] else sv_events v) (sv_keys v).

(** The event emitted when an operation has returned [x]; a panic skips it. *)
Definition audited {A} (op ref : bytes) (x : res vault_error A) (v : SealedVault) : SealedVault :=
  match x with
  | Ok _ => vault_emit (mkAudit op ref true None) v
  | Err e => vault_emit (mkAudit op ref false (Some e)) v
  | Panic => v
  end.

Section Sealed.
Context `{AEAD}.

Definition seal (key : bytes) (rand : bytes) : res vault_error bytes * bytes :=
  match ReadFull NonceSize rand with
  | (Ok nonce, rand) => (Ok (nonce ++ aead_Seal nonce key), rand)
  | (Err _, rand) => (Err NoRandomness, rand)
  | (Panic, rand) => (Panic, rand)
  end.

Definition vault_open (blob : bytes) : res vault_error bytes :=
  if len blob <? NonceSize then Err SealedTooShort else
  let! nonce := slice blob 0 NonceSize in
  let! ct := slice blob NonceSize (len blob) in
  match aead_Open nonce ct with Some key => Ok key | None => Err UnsealFailed end.

(** [SetKey]; a panic of the check value ends the program. *)
Definition sealed_SetKey (v : SealedVault) (ref key : bytes) (meta : KeyMeta) : res vault_error unit * SealedVault :=
  match seal key (sv_rand v) with
  | (Ok blob, rand) =>
      match KeyCheckValue key with
      | Ok kcv =>
          let v := mkVault rand (sv_audit v) (sv_events v) (<[ref := mkSealed blob kcv meta]> (sv_keys v)) in
          (Ok tt, vault_emit (mkAudit (go "set-key") ref true None) v)
      | Err e => (Err e, v)
      | Panic => (Panic, v)
      end
  | (Err e, rand) =>
      (Err e, vault_emit (mkAudit (go "set-key") ref false (Some e)) (mkVault rand (sv_audit v) (sv_events v) (sv_keys v)))
  | (Panic, rand) => (Panic, v)
  end.

Definition sealed_ImportKeyBlock (v : SealedVault) (ref kbpk block : bytes) (usage : KeyUsage) : res vault_error KeyBlockHeader * SealedVault :=
  match UnwrapKeyBlock kbpk block with
  | Ok (hdr, key) =>
      let '(x, v) := sealed_SetKey v ref key (mkMeta usage 0 []) in
      (let! _ := x in Ok hdr, v)
  | Err e => (Err e, vault_emit (mkAudit (go "import-key") ref false (Some e)) v)
  | Panic => (Panic, v)
  end.

Definition KCV (v : SealedVault) (ref : bytes) : bytes :=
  match sv_keys v !! ref with Some sk => sk_kcv sk | None => [] end.

(** The check of [withKey]: the usage wanted, the usage stored. *)
Definition permitted (want have : KeyUsage) : bool :=
  negb (negb (bool_decide (want = UsageAny)) && negb (bool_decide (have = UsageAny)) && negb (bool_decide (have = want))).

Definition withKey {A} (v : SealedVault) (ref : bytes) (want : KeyUsage) (fn : bytes -> res vault_error A) : res vault_error A :=
  match sv_keys v !! ref with
  | None => Err (ErrUnknownKey ref)
  | Some sk =>
      if negb (permitted want (km_Usage (sk_meta sk))) then Err (UsageDenied ref) else
      let! key := vault_open (sk_blob sk) in
      fn key
  end.

Definition sealed_EncryptPINBlock (v : SealedVault) (keyRef : bytes) (f : PINBlockFormat) (pin pan r : bytes)
    : res vault_error bytes * SealedVault :=
  let x := withKey v keyRef UsagePIN (fun key =>
    let! clearBlk := EncodePINBlockRand f pin pan r in
    let! b := tripleDESBlock key in
    ecbEncrypt b clearBlk) in
  (x, audited (go "encrypt-pin") keyRef x v).

Definition sealed_TranslatePIN (v : SealedVault) (srcRef dstRef encBlock pan : bytes) (srcFormat dstFormat : PINBlockFormat) (r : bytes)
    : res vault_error bytes * SealedVault :=
  let x := withKey v srcRef UsagePIN (fun srcKey =>
    withKey v dstRef UsagePIN (fun dstKey =>
      let! bs := tripleDESBlock srcKey in
      let! clr := ecbDecrypt bs encBlock in
      let! pin := DecodePINBlock srcFormat clr pan in
      let! reblock := EncodePINBlockRand dstFormat pin pan r in
      let! bd := tripleDESBlock dstKey in
      ecbEncrypt bd reblock)) in
  (x, audited (go "translate-pin") (srcRef ++ go "->" ++ dstRef) x v).

Definition sealed_GenerateMAC (v : SealedVault) (keyRef : bytes) (alg : MACAlgorithm) (pad : Padding) (data : bytes)
    : res vault_error bytes * SealedVault :=
  let x := withKey v keyRef UsageMAC (fun key => GenerateMAC alg pad key data) in
  (x, audited (go "mac") keyRef x v).

Definition sealed_VerifyMAC (v : SealedVault) (keyRef : bytes) (alg : MACAlgorithm) (pad : Padding) (data mac : bytes)
    : res vault_error bool * SealedVault :=
  let x := withKey v keyRef UsageMAC (fun key => VerifyMAC alg pad key data mac) in
  (x, audited (go "verify-mac") keyRef x v).
End Sealed.

(** ** Nothing panics *)

Definition safe_res {A} (x : res vault_error A) : Prop := x <> Panic.

Lemma safe_res_bind {A B} (x : res vault_error A) (f : A -> res vault_error B) :
  safe_res x -> (forall a, x = Ok a -> safe_res (f a)) -> safe_res (rbind x f).
Proof. unfold safe_res. intros Hx Hf. destruct x; cbn; [by apply Hf|done|done]. Qed.

Lemma tripleDES_safe k : safe_res (tripleDESBlock k).
Proof. unfold safe_res, tripleDESBlock. destruct (len k =? 24); [done|]. by destruct (len k =? 16). Qed.

Lemma ecb_safe b x : safe_res (ecbEncrypt b x) /\ safe_res (ecbDecrypt b x).
Proof. unfold safe_res, ecbEncrypt, ecbDecrypt. by destruct (negb _). Qed.

Lemma Encode_safe f pin pan r : safe_res (EncodePINBlockRand f pin pan r).
Proof.
  unfold EncodePINBlockRand. apply safe_res_bind.
  - unfold pinField, safe_res. destruct (control f); [|done]. destruct (_ || _); [done|].
    apply safe_res_bind; [apply digit_nibbles_safe|]. intros ds _. apply safe_res_bind; [|done].
    unfold padNibbles, safe_res, ReadFull. destruct f; try done; destruct (_ =? 0); try done;
      (destruct (_ <=? 0); [done|]; destruct (_ <=? _); [done|]; by destruct (len r =? 0)).
  - intros pf HF. destruct (proj1 (pinField_iff f pin pf)) as (_ & _ & H8 & _); [by eexists|].
    destruct f; try done; (apply safe_res_bind; [|intros af HA; apply panField_len in HA; unfold safe_res; by rewrite xored_Ok by lia]);
      destruct (panField_cases pan) as [(af & -> & _)|[e ->]]; done.
Qed.

Lemma GenerateMAC_safe alg pad k data : safe_res (GenerateMAC alg pad k data).
Proof.
  unfold safe_res. destruct alg as [| |n]; [| |done].
  - destruct (Z.eq_dec (len k) 8) as [E|E]; [destruct (GenerateMAC_Ok MACAlg1 pad k data ltac:(done) E) as (m & -> & _); done|].
    cbn [GenerateMAC]. unfold desBlock. by destruct (Z.eqb_spec (len k) 8).
  - destruct (Z.eq_dec (len k) 16) as [E|E]; [destruct (GenerateMAC_Ok MACAlg3 pad k data ltac:(done) E) as (m & -> & _); done|].
    cbn [GenerateMAC]. by destruct (Z.eqb_spec (len k) 16).
Qed.

Lemma VerifyMAC_safe alg pad k data mac : safe_res (VerifyMAC alg pad k data mac).
Proof.
  unfold VerifyMAC. apply safe_res_bind; [apply GenerateMAC_safe|]. intros full _. unfold safe_res. pose proof (len_nonneg mac).
  destruct (len mac =? 0); [done|]. destruct (Z.ltb_spec (len full) (len mac)); [done|]. cbn [orb].
  by rewrite slice_ok by lia.
Qed.

Lemma KeyCheckValue_Ok key : exists kcv, KeyCheckValue key = Ok kcv.
Proof.
  assert (forall b, BlockLaws b -> BlockSize b = 8 -> exists kcv, (let! x := blockEnc b (zeros 8) in slice x 0 3) = Ok (E:=vault_error) kcv) as HB.
  { intros b LB SB. assert (len (zeros 8) = BlockSize b) as HZ by (by rewrite SB). rewrite blockEnc_Ok by done. cbn [rbind].
    destruct (slice_len (E:=vault_error) (Encrypt b (zeros 8)) 0 3) as (k & -> & _); [lia|rewrite Encrypt_len; lia|by eexists]. }
  unfold KeyCheckValue. destruct (Z.eqb_spec (len key) 8) as [E|E].
  { rewrite desBlock_Ok by done. by apply HB; [apply _|]. }
  fold (kbpk_ok key). destruct (kbpk_ok key) eqn:EK; [|by eexists]. destruct (tripleDES_Ok key EK) as (b & -> & LB & SB). by apply HB.
Qed.

(** ** Translation *)

(** PIN translation.  A PIN block enciphered by the vault under one key is
    translated to another key and format, and what comes out deciphers under
    that key to a block that decodes, in that format, to the same PIN. *)
Theorem translate_preserves_pin (v : SoftVault) src dst ks kd f g pin pan r r' enc
    (HS : so_keys v !! src = Some ks) (HD : so_keys v !! dst = Some kd) (Hks : kbpk_ok ks = true) (Hkd : kbpk_ok kd = true)
    (Hg : known g) (HP : valid_pin pin) (HA : valid_pan pan) (Hr : 10 <= len r')
    (HE : soft_EncryptPINBlock v src f pin pan r = Ok enc) :
  exists out bd clear, soft_TranslatePIN v src dst enc pan f g r' = Ok out /\ len out = 8 /\
    tripleDESBlock kd = Ok bd /\ ecbDecrypt bd out = Ok clear /\ DecodePINBlock g clear pan = Ok pin.
Proof.
  destruct (tripleDES_Ok ks Hks) as (bs & HBS & LS & SS). destruct (tripleDES_Ok kd Hkd) as (bd & HBD & LD & SD).
  unfold soft_EncryptPINBlock, soft_TranslatePIN, soft_key in *. rewrite HS in *. rewrite HD. cbn [rbind] in *.
  apply rbind_Ok in HE as (clear & HC & HE). rewrite HBS in *. cbn [rbind] in *.
  pose proof (proj2 (Decode_iff_Encode f pin pan clear) (ex_intro _ r HC)) as HDC.
  destruct (ecb_roundtrip bs clear) as (ct & H1 & _ & H3).
  { unfold ecbEncrypt in HE. destruct (Z.eqb_spec (len clear mod BlockSize bs) 0); done. }
  rewrite H1 in HE. injection HE as <-. rewrite H3. cbn [rbind]. rewrite HDC. cbn [rbind].
  destruct (Encode_total g pin pan r' Hg HP (fun _ => HA) Hr) as (reblock & HR & HL). rewrite HR. cbn [rbind]. rewrite HBD. cbn [rbind].
  destruct (ecb_roundtrip bd reblock) as (out & G1 & G2 & G3); [by rewrite SD, HL|].
  exists out, bd, reblock. split_and!; [done|lia|done|done|]. apply Decode_iff_Encode. by exists r'.
Qed.

Definition sample_vault : SoftVault := soft_SetKey (soft_SetKey NewSoftVault (go "zpk1") (zeros 16)) (go "zpk2") (replicate 24 x11).
Definition sample_pin_block : bytes :=
  match soft_EncryptPINBlock sample_vault (go "zpk1") ISO0 (go "1234") (go "4012345678909") [] with Ok b => b | _ => [] end.

Lemma translate_preserves_pin_witness : exists out bd clear,
  soft_TranslatePIN sample_vault (go "zpk1") (go "zpk2") sample_pin_block (go "4012345678909") ISO0 ISO3 (zeros 10) = Ok out /\
  len out = 8 /\ tripleDESBlock (replicate 24 x11) = Ok bd /\ ecbDecrypt bd out = Ok clear /\
  DecodePINBlock ISO3 clear (go "4012345678909") = Ok (go "1234").
Proof.
  apply (translate_preserves_pin sample_vault (go "zpk1") (go "zpk2") (zeros 16) (replicate 24 x11) ISO0 ISO3 (go "1234")
           (go "4012345678909") [] (zeros 10) sample_pin_block).
  - reflexivity.
  - reflexivity.
  - reflexivity.
  - reflexivity.
  - eexists; reflexivity.
  - split; [repeat constructor|split; discriminate].
  - split; [repeat constructor|discriminate].
  - discriminate.
  - vm_compute. reflexivity.
Defined.

(** ** Histories *)

Inductive vault_op :=
| OpSetKey (ref key : bytes) (meta : KeyMeta)
| OpImport (ref kbpk block : bytes) (usage : KeyUsage)
| OpEncryptPIN (ref : bytes) (f : PINBlockFormat) (pin pan r : bytes)
| OpTranslatePIN (src dst enc pan : bytes) (f g : PINBlockFormat) (r : bytes)
| OpMAC (ref : bytes) (alg : MACAlgorithm) (pad : Padding) (data : bytes)
| OpVerifyMAC (ref : bytes) (alg : MACAlgorithm) (pad : Padding) (data mac : bytes).

Inductive answer :=
| AnsUnit (x : res vault_error unit)
| AnsHeader (x : res vault_error KeyBlockHeader)
| AnsBytes (x : res vault_error bytes)
| AnsBool (x : res vault_error bool).

Definition answer_ok (a : answer) : bool :=
  match a with AnsUnit x => is_Ok x | AnsHeader x => is_Ok x | AnsBytes x => is_Ok x | AnsBool x => is_Ok x end.

Definition soft_step (op : vault_op) (v : SoftVault) : answer * SoftVault :=
  match op with
  | OpSetKey ref key _ => (AnsUnit (Ok tt), soft_SetKey v ref key)
  | OpImport ref kbpk block _ => let '(x, v) := soft_ImportKeyBlock v ref kbpk block in (AnsHeader x, v)
  | OpEncryptPIN ref f pin pan r => (AnsBytes (soft_EncryptPINBlock v ref f pin pan r), v)
  | OpTranslatePIN src dst enc pan f g r => (AnsBytes (soft_TranslatePIN v src dst enc pan f g r), v)
  | OpMAC ref alg pad data => (AnsBytes (soft_GenerateMAC v ref alg pad data), v)
  | OpVerifyMAC ref alg pad data mac => (AnsBool (soft_VerifyMAC v ref alg pad data mac), v)
  end.

Definition sealed_step `{AEAD} (op : vault_op) (v : SealedVault) : answer * SealedVault :=
  match op with
  | OpSetKey ref key meta => let '(x, v) := sealed_SetKey v ref key meta in (AnsUnit x, v)
  | OpImport ref kbpk block usage => let '(x, v) := sealed_ImportKeyBlock v ref kbpk block usage in (AnsHeader x, v)
  | OpEncryptPIN ref f pin pan r => let '(x, v) := sealed_EncryptPINBlock v ref f pin pan r in (AnsBytes x, v)
  | OpTranslatePIN src dst enc pan f g r => let '(x, v) := sealed_TranslatePIN v src dst enc pan f g r in (AnsBytes x, v)
  | OpMAC ref alg pad data => let '(x, v) := sealed_GenerateMAC v ref alg pad data in (AnsBytes x, v)
  | OpVerifyMAC ref alg pad data mac => let '(x, v) := sealed_VerifyMAC v ref alg pad data mac in (AnsBool x, v)
  end.

(** ** The specification: the software vault behind a usage policy *)

(** The keys an operation uses, with the usage it needs. *)
Definition keys_used (op : vault_op) : list bytes * KeyUsage :=
  match op with
  | OpSetKey _ _ _ | OpImport _ _ _ _ => ([], UsageAny)
  | OpEncryptPIN ref _ _ _ _ => ([ref], UsagePIN)
  | OpTranslatePIN src dst _ _ _ _ _ => ([src; dst], UsagePIN)
  | OpMAC ref _ _ _ | OpVerifyMAC ref _ _ _ _ => ([ref], UsageMAC)
  end.

Record guarded := mkGuarded { gv_vault : SoftVault; gv_usage : gmap bytes KeyUsage }.

(** The policy: a key serves the usage it was stored for, and [UsageAny] is no
    restriction on either side. *)
Definition allowed (want have : KeyUsage) : bool :=
  bool_decide (want = UsageAny \/ have = UsageAny \/ have = want).

Lemma permitted_allowed want have : permitted want have = allowed want have.
Proof. by destruct want, have. Qed.

(** The first key that is missing or not allowed. *)
Fixpoint refused (g : guarded) (refs : list bytes) (want : KeyUsage) : option vault_error :=
  match refs with
  | [] => None
  | ref :: refs =>
      match so_keys (gv_vault g) !! ref with
      | None => Some (ErrUnknownKey ref)
      | Some _ => if allowed want (default UsageAny (gv_usage g !! ref)) then refused g refs want else Some (UsageDenied ref)
      end
  end.

Definition refusal (op : vault_op) (e : vault_error) : answer :=
  match op with
  | OpSetKey _ _ _ => AnsUnit (Err e)
  | OpImport _ _ _ _ => AnsHeader (Err e)
  | OpVerifyMAC _ _ _ _ _ => AnsBool (Err e)
  | _ => AnsBytes (Err e)
  end.

Definition new_usage (op : vault_op) (ok : bool) (us : gmap bytes KeyUsage) : gmap bytes KeyUsage :=
  match op with
  | OpSetKey ref _ meta => if ok then <[ref := km_Usage meta]> us else us
  | OpImport ref _ _ usage => if ok then <[ref := usage]> us else us
  | _ => us
  end.

Definition guarded_step (op : vault_op) (g : guarded) : answer * guarded :=
  match refused g (keys_used op).1 (keys_used op).2 with
  | Some e => (refusal op e, g)
  | None => let '(a, v) := soft_step op (gv_vault g) in (a, mkGuarded v (new_usage op (answer_ok a) (gv_usage g)))
  end.

Fixpoint run {S} (step : vault_op -> S -> answer * S) (ops : list vault_op) (s : S) : list answer * S :=
  match ops with
  | [] => ([], s)
  | op :: ops => let '(a, s) := step op s in let '(l, s) := run step ops s in (a :: l, s)
  end.

Section Refinement.
Context `{AEADLaws}.

(** A sealed key opens to the key that the software vault holds. *)
Definition sealed_as (sk : sealedKey) (k : bytes) : Prop :=
  vault_open (sk_blob sk) = Ok k /\ KeyCheckValue k = Ok (sk_kcv sk).

Definition sim (v : SealedVault) (g : guarded) : Prop :=
  forall ref, match sv_keys v !! ref with
    | None => so_keys (gv_vault g) !! ref = None
    | Some sk => exists k, so_keys (gv_vault g) !! ref = Some k /\ gv_usage g !! ref = Some (km_Usage (sk_meta sk)) /\ sealed_as sk k
    end.

Lemma open_sealed nonce key : len nonce = NonceSize -> vault_open (nonce ++ aead_Seal nonce key) = Ok key.
Proof.
  intros HN. pose proof NonceSize_pos. unfold vault_open. rewrite len_app. pose proof (len_nonneg (aead_Seal nonce key)).
  destruct (Z.ltb_spec (len nonce + len (aead_Seal nonce key)) NonceSize); [lia|]. rewrite slice_head by done. cbn [rbind].
  replace (slice _ NonceSize _) with (Ok (E:=vault_error) (aead_Seal nonce key)).
  - cbn [rbind]. by rewrite Open_Seal.
  - symmetry. pose proof (slice_mid (E:=vault_error) nonce (aead_Seal nonce key) [] NonceSize (len nonce + len (aead_Seal nonce key))) as HS.
    rewrite app_nil_r in HS. apply HS; lia.
Qed.

Lemma withKey_sim {A} v g ref want (fn : bytes -> res vault_error A) : sim v g ->
  withKey v ref want fn =
    match refused g [ref] want with
    | Some e => Err e
    | None => let! k := soft_key (gv_vault g) ref in fn k
    end.
Proof.
  intros HS. specialize (HS ref). unfold withKey, soft_key. cbn [refused]. destruct (sv_keys v !! ref) as [sk|].
  - destruct HS as (k & -> & -> & HO & _). change (default UsageAny (Some ?u)) with u. rewrite permitted_allowed. destruct (allowed want (km_Usage (sk_meta sk))); cbn [negb]; [|done].
    by rewrite HO.
  - by rewrite HS.
Qed.

Lemma SetKey_sim v g ref key meta : sim v g -> NonceSize <= len (sv_rand v) ->
  exists v', sealed_SetKey v ref key meta = (Ok tt, v') /\
    sim v' (mkGuarded (soft_SetKey (gv_vault g) ref key) (<[ref := km_Usage meta]> (gv_usage g))) /\
    len (sv_rand v') = len (sv_rand v) - NonceSize /\ sv_audit v' = sv_audit v /\
    sv_events v' = if sv_audit v then sv_events v ++ [mkAudit (go "set-key") ref true None] else sv_events v.
Proof.
  intros HS HR. pose proof NonceSize_pos as HN. unfold sealed_SetKey, seal.
  assert (exists nonce rest, ReadFull NonceSize (sv_rand v) = (Ok nonce, rest) /\ len nonce = NonceSize /\ len rest = len (sv_rand v) - NonceSize)
    as (nonce & rest & -> & HL & HRL).
  { unfold ReadFull. destruct (Z.leb_spec NonceSize 0).
    - exists [], (sv_rand v). split_and!; [done|rewrite len_nil; lia|lia].
    - destruct (Z.leb_spec NonceSize (len (sv_rand v))); [|lia]. eexists _, _. split; [done|].
      split; [apply len_take; lia|]. unfold len in *. rewrite length_drop. lia. }
  destruct (KeyCheckValue_Ok key) as [kcv HK]. rewrite HK. eexists. split; [done|]. unfold vault_emit. cbn.
  split_and!; [|done..]. intros ref'. cbn [gv_vault gv_usage soft_SetKey so_keys sv_keys]. destruct (decide (ref' = ref)) as [->|Hne].
  - rewrite !lookup_insert_eq. exists key. split_and!; [done|done|]. split; [by apply open_sealed|done].
  - rewrite !lookup_insert_ne by done. apply HS.
Qed.

Lemma sim_audited v g {A} op ref (x : res vault_error A) : sim v g -> sim (audited op ref x v) g.
Proof. by destruct x. Qed.

(** The answer of one operation, with its effects on the audit trail. *)
Definition trail (v v' : SealedVault) (a : answer) : Prop :=
  sv_audit v' = sv_audit v /\
  exists e, au_OK e = answer_ok a /\ sv_events v' = if sv_audit v then sv_events v ++ [e] else sv_events v.

Lemma audited_trail {A} (mk : res vault_error A -> answer) op ref x v :
  (forall x, answer_ok (mk x) = is_Ok x) -> safe_res x -> trail v (audited op ref x v) (mk x).
Proof.
  intros HM HX. unfold safe_res in HX. destruct x as [a|e|]; [| |done]; cbn; (split; [done|]); eexists; (split; [|done]); by rewrite HM.
Qed.

Lemma guard_safe {A} g refs want (x : res vault_error A) : safe_res x ->
  safe_res (match refused g refs want with Some e => Err e | None => x end).
Proof. by destruct (refused g refs want). Qed.

Lemma soft_key_safe v ref : safe_res (soft_key v ref).
Proof. unfold safe_res, soft_key. by destruct (so_keys v !! ref). Qed.

Definition step_ok (op : vault_op) (v : SealedVault) (g : guarded) : Prop :=
  exists a v' g', sealed_step op v = (a, v') /\ guarded_step op g = (a, g') /\ sim v' g' /\
    len (sv_rand v) - NonceSize <= len (sv_rand v') /\ trail v v' a.

(** An operation that uses keys and leaves them as they are. *)
Lemma use_ok {A} (mk : res vault_error A -> answer) op name ref x v g :
  (forall x, answer_ok (mk x) = is_Ok x) -> safe_res x -> sim v g ->
  sealed_step op v = (mk x, audited name ref x v) -> guarded_step op g = (mk x, g) -> step_ok op v g.
Proof.
  intros HM HX HS H1 H2. pose proof NonceSize_pos. eexists _, _, _. split_and!; [exact H1|exact H2|by apply sim_audited| |by apply audited_trail].
  destruct x; cbn; lia.
Qed.

Lemma guarded_same op g a v : refused g (keys_used op).1 (keys_used op).2 = None -> soft_step op (gv_vault g) = (a, v) ->
  v = gv_vault g -> (forall b, new_usage op b (gv_usage g) = gv_usage g) -> guarded_step op g = (a, g).
Proof. intros HR HS -> HU. unfold guarded_step. rewrite HR, HS, HU. by destruct g. Qed.

Lemma encrypt_ok ref f pin pan r v g : sim v g -> step_ok (OpEncryptPIN ref f pin pan r) v g.
Proof.
  intros HS. eapply (use_ok AnsBytes); [done| |exact HS| |].
  2:{ cbn [sealed_step]. unfold sealed_EncryptPINBlock. rewrite (withKey_sim v g) by done. reflexivity. }
  - apply guard_safe, safe_res_bind; [apply soft_key_safe|]. intros k _. apply safe_res_bind; [apply Encode_safe|]. intros c _.
    apply safe_res_bind; [apply tripleDES_safe|]. intros b _. apply ecb_safe.
  - unfold guarded_step. cbn [keys_used fst snd]. destruct (refused g [ref] UsagePIN) eqn:ER; [done|]. by destruct g.
Qed.

Lemma mac_ok ref alg pad data v g : sim v g -> step_ok (OpMAC ref alg pad data) v g.
Proof.
  intros HS. eapply (use_ok AnsBytes); [done| |exact HS| |].
  2:{ cbn [sealed_step]. unfold sealed_GenerateMAC. rewrite (withKey_sim v g) by done. reflexivity. }
  - apply guard_safe, safe_res_bind; [apply soft_key_safe|]. intros k _. apply GenerateMAC_safe.
  - unfold guarded_step. cbn [keys_used fst snd]. destruct (refused g [ref] UsageMAC) eqn:ER; [done|]. by destruct g.
Qed.

Lemma verify_ok ref alg pad data mac v g : sim v g -> step_ok (OpVerifyMAC ref alg pad data mac) v g.
Proof.
  intros HS. eapply (use_ok AnsBool); [done| |exact HS| |].
  2:{ cbn [sealed_step]. unfold sealed_VerifyMAC. rewrite (withKey_sim v g) by done. reflexivity. }
  - apply guard_safe, safe_res_bind; [apply soft_key_safe|]. intros k _. apply VerifyMAC_safe.
  - unfold guarded_step. cbn [keys_used fst snd]. destruct (refused g [ref] UsageMAC) eqn:ER; [done|]. by destruct g.
Qed.

Lemma withKey_two {A} v g src dst want (fn : bytes -> bytes -> res vault_error A) : sim v g ->
  withKey v src want (fun ks => withKey v dst want (fn ks)) =
    match refused g [src; dst] want with
    | Some e => Err e
    | None => let! ks := soft_key (gv_vault g) src in let! kd := soft_key (gv_vault g) dst in fn ks kd
    end.
Proof.
  intros HS. rewrite (withKey_sim v g) by done. unfold soft_key at 1 2. cbn [refused].
  destruct (so_keys (gv_vault g) !! src) as [ks|] eqn:E1; [|done]. destruct (allowed want _); [|done]. cbn [rbind].
  rewrite (withKey_sim v g) by done. done.
Qed.

Lemma translate_ok src dst enc pan f f' r v g : sim v g -> step_ok (OpTranslatePIN src dst enc pan f f' r) v g.
Proof.
  intros HS. eapply (use_ok AnsBytes); [done| |exact HS| |].
  2:{ cbn [sealed_step]. unfold sealed_TranslatePIN. rewrite (withKey_two v g) by done. reflexivity. }
  - apply guard_safe. apply safe_res_bind; [apply soft_key_safe|]. intros ks _. apply safe_res_bind; [apply soft_key_safe|]. intros kd _.
    apply safe_res_bind; [apply tripleDES_safe|]. intros bs _. apply safe_res_bind; [apply ecb_safe|]. intros c _.
    apply safe_res_bind; [apply Decode_safe|]. intros pin _. apply safe_res_bind; [apply Encode_safe|]. intros rb _.
    apply safe_res_bind; [apply tripleDES_safe|]. intros bd _. apply ecb_safe.
  - unfold guarded_step. cbn [keys_used fst snd]. destruct (refused g [src; dst] UsagePIN) eqn:ER; [done|]. by destruct g.
Qed.

Lemma set_ok ref key meta v g : sim v g -> NonceSize <= len (sv_rand v) -> step_ok (OpSetKey ref key meta) v g.
Proof.
  intros HS HR. destruct (SetKey_sim v g ref key meta HS HR) as (v' & HE & HS' & HL & HA & HV).
  eexists _, v', _. cbn [sealed_step]. rewrite HE. split_and!; [done|done|exact HS'|lia|]. split; [done|]. eexists. by split; [|exact HV].
Qed.

Lemma import_ok ref kbpk block usage v g : sim v g -> NonceSize <= len (sv_rand v) -> step_ok (OpImport ref kbpk block usage) v g.
Proof.
  intros HS HR. pose proof NonceSize_pos. pose proof (proj1 (Unwrap_genuine kbpk block)) as HU.
  unfold step_ok, guarded_step. cbn [sealed_step soft_step keys_used refused fst snd]. unfold sealed_ImportKeyBlock, soft_ImportKeyBlock.
  destruct (UnwrapKeyBlock kbpk block) as [[hdr key]|e|]; [| |done].
  - destruct (SetKey_sim v g ref key (mkMeta usage 0 []) HS HR) as (v' & HE & HS' & HL & HA & HV). rewrite HE.
    eexists _, v', _. split_and!; [done|done|exact HS'|lia|]. split; [done|]. eexists. by split; [|exact HV].
  - eexists _, _, _. split_and!; [done|done| |cbn; lia|]. { cbn. destruct g. exact HS. }
    split; [done|]. eexists. split; [|done]. done.
Qed.

Lemma step_sim op v g : sim v g -> NonceSize <= len (sv_rand v) -> step_ok op v g.
Proof.
  intros HS HR. destruct op;
    [by apply set_ok|by apply import_ok|by apply encrypt_ok|by apply translate_ok|by apply mac_ok|by apply verify_ok].
Qed.

Lemma run_sim ops v g : sim v g -> NonceSize * Z.of_nat (length ops) <= len (sv_rand v) ->
  let '(answers, v') := run sealed_step ops v in
  exists g', run guarded_step ops g = (answers, g') /\ sim v' g' /\
    (sv_audit v = true -> exists es, sv_events v' = sv_events v ++ es /\ map au_OK es = map answer_ok answers).
Proof.
  pose proof NonceSize_pos as HN. revert v g. induction ops as [|op ops IH]; intros v g HS HR; cbn [run length].
  { exists g. split_and!; [done..|]. intros _. exists []. by rewrite app_nil_r. }
  cbn [length] in HR. destruct (step_sim op v g HS) as (a & v1 & g1 & -> & -> & HS1 & HR1 & HA & e & He & HE); [nia|].
  specialize (IH v1 g1 HS1 ltac:(nia)). destruct (run sealed_step ops v1) as [l v2]. destruct IH as (g2 & -> & HS2 & HE2).
  exists g2. split_and!; [done..|]. intros HT. rewrite HT in *. destruct (HE2 HA) as (es & HES & HM). exists (e :: es).
  rewrite HES, HE, <- app_assoc. split; [done|]. cbn [map]. by rewrite He, HM.
Qed.

(** C2: the sealed vault refines the software vault behind a usage policy.  For
    every sequence of operations, and as long as the randomness lasts, every
    answer is the software vault's, except that an operation is refused when a
    key it names is missing or was stored for another usage; the audit hook is
    given one event for each operation, marked as succeeded exactly when the
    operation did; and the check value of a stored key is that of the key. *)
Theorem sealed_refines_soft (kek rand : bytes) (ops : list vault_op) v0
    (HV : NewSealedVault kek true rand = Ok v0) (HR : NonceSize * Z.of_nat (length ops) <= len rand) :
  let '(answers, v) := run sealed_step ops v0 in
  let '(expected, g) := run guarded_step ops (mkGuarded NewSoftVault ∅) in
  answers = expected /\ map au_OK (sv_events v) = map answer_ok answers /\
    forall ref k, so_keys (gv_vault g) !! ref = Some k -> KeyCheckValue k = Ok (KCV v ref).
Proof.
  unfold NewSealedVault in HV. destruct (_ || _); [|done]. injection HV as <-.
  assert (sim (mkVault rand true [] ∅) (mkGuarded NewSoftVault ∅)) as HS by (intros ref; cbn; by rewrite lookup_empty).
  pose proof (run_sim ops _ _ HS HR) as HRS. destruct (run sealed_step ops _) as [answers v]. destruct HRS as (g & -> & HSv & HE).
  destruct (HE eq_refl) as (es & HES & HM). cbn in HES. subst es. split_and!; [done..|].
  intros ref k Hk. specialize (HSv ref). unfold KCV. destruct (sv_keys v !! ref) as [sk|]; [|congruence].
  destruct HSv as (k' & Hk' & _ & _ & HK). by simplify_eq.
Qed.
End Refinement.

(** A stand-in for AES-GCM that satisfies the law: one byte of nonce, and the
    text in the clear. *)
Definition plain_aead : AEAD := {| NonceSize := 1; aead_Seal _ p := p; aead_Open _ c := Some c |}.

Definition sample_ops : list vault_op :=
  [OpSetKey (go "mak") (zeros 16) (mkMeta UsageMAC 1 []); OpMAC (go "mak") MACAlg3 Pad2 (go "0200");
   OpEncryptPIN (go "mak") ISO0 (go "1234") (go "4012345678909") []].

Lemma sealed_refines_soft_witness :
  let '(answers, v) := run (@sealed_step plain_aead) sample_ops (mkVault (zeros 8) true [] ∅) in
  let '(expected, g) := run guarded_step sample_ops (mkGuarded NewSoftVault ∅) in
  answers = expected /\ map au_OK (sv_events v) = map answer_ok answers /\
  forall ref k, so_keys (gv_vault g) !! ref = Some k -> KeyCheckValue k = Ok (KCV v ref).
Proof.
  assert (@AEADLaws plain_aead) as HL by (split; [discriminate|reflexivity]).
  apply (@sealed_refines_soft plain_aead HL (zeros 16) (zeros 8) sample_ops); [reflexivity|discriminate].
Defined.
