(* ===== verification/Dukpt.v ===== *)
(** * Derived unique keys and EMV cryptograms ([vault/dukpt.go], [vault/emv.go])

    The X9.24 key derivation: a key serial number holds a 21-bit transaction
    counter, and each transaction has its own key. *)

From S2P Require Import Prelude Strconv Des Cipher KeyBlock.

Definition keyVariantMask : bytes := replicate 4 xc0 ++ zeros 4 ++ replicate 4 xc0 ++ zeros 4.
Definition VariantPIN : bytes := zeros 7 ++ [xff] ++ zeros 7 ++ [xff].

(** [b[i] &= mask], [b[i] |= bits]: the callers index inside the slice. *)
Definition and_at (i : nat) (mask : Z) (b : bytes) : bytes := alter (fun x => zb (Z.land (bz x) mask)) i b.
Definition or_at (i : nat) (bits : Z) (b : bytes) : bytes := alter (fun x => zb (Z.lor (bz x) bits)) i b.

Definition DeriveIPEK (bdk ksn : bytes) : res vault_error bytes :=
  if negb (len bdk =? 16) then Err (KeyLength (len bdk)) else
  if negb (len ksn =? 10) then Err (InputLength (len ksn)) else
  let base := and_at 7 0xE0 (take 8 ksn) in
  let! b1 := tripleDESBlock bdk in
  let! lft := blockEnc b1 base in
  let! masked := xored bdk keyVariantMask in
  let! b2 := tripleDESBlock masked in
  let! rgt := blockEnc b2 base in
  Ok (lft ++ rgt).

Definition ksnCounter (ksn : bytes) : Z :=
  let at_ i := default 0 (bz <$> (ksn !! i)) in
  Z.lor (Z.lor (Z.shiftl (Z.land (at_ 7%nat) 0x1F) 16) (Z.shiftl (at_ 8%nat) 8)) (at_ 9%nat).

Definition KSNCounter (ksn : bytes) : res vault_error Z :=
  if negb (len ksn =? 10) then Err (InputLength (len ksn)) else Ok (ksnCounter ksn).

Definition setCounterBit (reg : bytes) (shift : Z) : bytes :=
  or_at 7 (shift mod 256) (or_at 6 (Z.shiftr shift 8 mod 256) (or_at 5 (Z.land (Z.shiftr shift 16 mod 256) 0x1F) reg)).

Definition dukptEncRegister (key reg : bytes) : res vault_error bytes :=
  let! k := slice key 0 8 in
  let! b := desBlock k in
  let! mask := slice key 8 16 in
  let! bottom := xored reg mask in
  let! bottom := blockEnc b bottom in
  xored bottom mask.

Definition dukptGenerateKey (key reg : bytes) : res vault_error bytes :=
  let! rgt := dukptEncRegister key reg in
  let! masked := xored key keyVariantMask in
  let! lft := dukptEncRegister masked reg in
  Ok (lft ++ rgt).

(** The loop of [DeriveSessionKey]; [shift] is [2 ^ (n - 1)]. *)
Fixpoint derive_loop (n : nat) (counter : Z) (curKey reg : bytes) : res vault_error bytes :=
  match n with
  | O => Ok curKey
  | S n =>
      let shift := Z.shiftl 1 (Z.of_nat n) in
      if negb (Z.land counter shift =? 0) then
        let reg := setCounterBit reg shift in
        let! ck := dukptGenerateKey curKey reg in
        derive_loop n counter ck reg
      else derive_loop n counter curKey reg
  end.

(** The register: the last eight bytes with the counter cleared. *)
Definition base_register (ksn : bytes) : bytes := <[7%nat := x00]> (<[6%nat := x00]> (and_at 5 0xE0 (drop 2 ksn))).

Definition DeriveSessionKey (ipek ksn : bytes) : res vault_error bytes :=
  if negb (len ipek =? 16) then Err (KeyLength (len ipek)) else
  if negb (len ksn =? 10) then Err (InputLength (len ksn)) else
  derive_loop 21 (ksnCounter ksn) ipek (base_register ksn).

Definition DeriveVariant (txKey mask : bytes) : res vault_error bytes :=
  if negb (len txKey =? 16) || negb (len mask =? 16) then Err (KeyLength (len txKey)) else xored txKey mask.

(** ** EMV *)

Definition DeriveEMVSessionKey (mk atc : bytes) : res vault_error bytes :=
  if negb (len mk =? 16) then Err (KeyLength (len mk)) else
  if negb (len atc =? 2) then Err (InputLength (len atc)) else
  let! b := tripleDESBlock mk in
  let! a0 := idx atc 0 in
  let! a1 := idx atc 1 in
  let! l := blockEnc b ([a0; a1; xf0] ++ zeros 5) in
  let! r := blockEnc b ([a0; a1; x0f] ++ zeros 5) in
  Ok (l ++ r).

Definition GenerateARQC (sessionKey data : bytes) : res vault_error bytes := GenerateMAC MACAlg3 Pad2 sessionKey data.

Definition VerifyARQC (sessionKey data arqc : bytes) : res vault_error bool :=
  let! want := GenerateARQC sessionKey data in
  if negb (len arqc =? len want) then Ok false else Ok (bool_decide (want = arqc)).

Definition GenerateARPC (sessionKey arqc arc : bytes) : res vault_error bytes :=
  if negb (len arqc =? 8) then Err (InputLength (len arqc)) else
  if negb (len arc =? 2) then Err (InputLength (len arc)) else
  let! b := tripleDESBlock sessionKey in
  let! x := xored arqc (arc ++ zeros 6) in
  blockEnc b x.

(** The published X9.24 vectors of the module's own test. *)
Definition from_hex (s : bytes) : bytes := match hex_decode s with Ok b => b | _ => [] end.
Definition test_ksn (counter : byte) : bytes := from_hex (go "FFFF9876543210E000") ++ [counter].

Example dukpt_known_vector :
  DeriveIPEK (from_hex (go "0123456789ABCDEFFEDCBA9876543210")) (test_ksn x00) = Ok (from_hex (go "6AC292FAA1315B4D858AB3A3D7D5933A")) /\
  DeriveSessionKey (from_hex (go "6AC292FAA1315B4D858AB3A3D7D5933A")) (test_ksn x01) = Ok (from_hex (go "042666B49184CFA368DE9628D0397BC9")).
Proof. split; vm_compute; reflexivity. Qed.

(** ** Bits of the counter *)

Lemma land_bit c n : (Z.land c (Z.shiftl 1 (Z.of_nat n)) =? 0) = negb (Z.testbit c (Z.of_nat n)).
Proof.
  destruct (Z.testbit c (Z.of_nat n)) eqn:E; cbn [negb].
  - apply Z.eqb_neq. intros H. apply (f_equal (fun z => Z.testbit z (Z.of_nat n))) in H.
    rewrite Z.land_spec, E, Z.shiftl_spec, Z.sub_diag, Z.bits_0 in H by lia. done.
  - apply Z.eqb_eq, Z.bits_inj'. intros i Hi. rewrite Z.land_spec, Z.bits_0, Z.shiftl_spec by done.
    destruct (Z.eq_dec i (Z.of_nat n)) as [->|Hne]; [by rewrite E|].
    replace (Z.testbit 1 (i - Z.of_nat n)) with false; [apply andb_false_r|]. symmetry.
    destruct (Z.lt_ge_cases i (Z.of_nat n)); [apply Z.testbit_neg_r; lia|].
    change 1 with (2 ^ 0). apply Z.pow2_bits_false. lia.
Qed.

Lemma lor_byte a b : 0 <= a < 256 -> 0 <= b < 256 -> 0 <= Z.lor a b < 256.
Proof.
  intros Ha Hb. rewrite <- (Z.mod_small a (2 ^ 8)), <- (Z.mod_small b (2 ^ 8)) by lia.
  rewrite <- !Z.land_ones, <- Z.land_lor_distr_l, Z.land_ones by lia. change 256 with (2 ^ 8). apply Z.mod_pos_bound. lia.
Qed.

Lemma lor_mod a b : Z.lor a b mod 256 = Z.lor (a mod 256) (b mod 256).
Proof. change 256 with (2 ^ 8). rewrite <- !Z.land_ones by lia. apply Z.land_lor_distr_l. Qed.

Lemma or_at_or_at i x y b : 0 <= x < 256 -> 0 <= y < 256 -> or_at i x (or_at i y b) = or_at i (Z.lor y x) b.
Proof.
  intros Hx Hy. unfold or_at. rewrite list_alter_alter_eq. apply list_alter_ext; [|done]. intros c _. cbn.
  rewrite bz_zb by (apply lor_byte; [apply bz_range|done]). by rewrite Z.lor_assoc.
Qed.

Lemma or_at_comm i j x y b : i <> j -> or_at i x (or_at j y b) = or_at j y (or_at i x b).
Proof. intros H. by apply list_alter_alter_ne. Qed.

Lemma or_at_0 i b : or_at i 0 b = b.
Proof. unfold or_at. apply list_alter_id. intros x. rewrite Z.lor_0_r. apply zb_bz. Qed.

Lemma length_or_at i x b : length (or_at i x b) = length b.
Proof. apply length_alter. Qed.

Lemma land_31 x : 0 <= Z.land x 31 < 256.
Proof. change 31 with (Z.ones 5). rewrite Z.land_ones by lia. pose proof (Z.mod_pos_bound x (2 ^ 5) ltac:(lia)). lia. Qed.

Lemma setCounterBit_lor reg s t : setCounterBit (setCounterBit reg s) t = setCounterBit reg (Z.lor s t).
Proof.
  unfold setCounterBit. rewrite !Z.shiftr_lor, !lor_mod, Z.land_lor_distr_l.
  rewrite (or_at_comm 5 7), (or_at_comm 5 6), (or_at_comm 6 7) by done.
  rewrite !or_at_or_at; [done|try apply land_31; apply Z.mod_pos_bound; lia..].
Qed.

Lemma setCounterBit_0 reg : setCounterBit reg 0 = reg.
Proof. unfold setCounterBit. by rewrite !or_at_0. Qed.

(** The register after the bits of [c] below [n] were set. *)
Fixpoint set_bits (n : nat) (c : Z) (reg : bytes) : bytes :=
  match n with
  | O => reg
  | S n => set_bits n c (if Z.testbit c (Z.of_nat n) then setCounterBit reg (Z.shiftl 1 (Z.of_nat n)) else reg)
  end.

Lemma mod_bit c n : c mod 2 ^ Z.of_nat (S n) =
  Z.lor (if Z.testbit c (Z.of_nat n) then Z.shiftl 1 (Z.of_nat n) else 0) (c mod 2 ^ Z.of_nat n).
Proof.
  apply Z.bits_inj'. intros i Hi. rewrite Z.lor_spec, !Z.testbit_mod_pow2 by lia.
  assert (Z.testbit (Z.shiftl 1 (Z.of_nat n)) i = (i =? Z.of_nat n)) as HB.
  { rewrite Z.shiftl_1_l, Z.pow2_bits_eqb by lia. apply Z.eqb_sym. }
  destruct (Z.ltb_spec i (Z.of_nat (S n))), (Z.ltb_spec i (Z.of_nat n)); try lia; cbn [andb].
  - destruct (Z.testbit c (Z.of_nat n)); rewrite ?HB, ?Z.bits_0; [|done]. by destruct (Z.eqb_spec i (Z.of_nat n)); [lia|].
  - assert (i = Z.of_nat n) as -> by lia. destruct (Z.testbit c (Z.of_nat n)) eqn:E; rewrite ?HB, ?Z.bits_0, ?Z.eqb_refl, ?E; done.
  - destruct (Z.testbit c (Z.of_nat n)); rewrite ?HB, ?Z.bits_0; [|done]. by destruct (Z.eqb_spec i (Z.of_nat n)); [lia|].
Qed.

Lemma set_bits_mod n c reg : set_bits n c reg = setCounterBit reg (c mod 2 ^ Z.of_nat n).
Proof.
  revert reg. induction n as [|n IH]; intros reg; cbn [set_bits]; [by rewrite Z.mod_1_r, setCounterBit_0|].
  rewrite IH, mod_bit. destruct (Z.testbit c (Z.of_nat n)); [by rewrite setCounterBit_lor|done].
Qed.

(** ** The register *)

Lemma ten_bytes (b : bytes) : len b = 10 -> exists k0 k1 k2 k3 k4 k5 k6 k7 k8 k9, b = [k0; k1; k2; k3; k4; k5; k6; k7; k8; k9].
Proof.
  intros H. assert (length b = 10%nat) as HL by (unfold len in H; lia).
  do 10 (destruct b as [|? b]; [done|]). destruct b; [|done]. eauto 12.
Qed.

Lemma counter_value (k7 k8 k9 : byte) :
  Z.lor (Z.lor (Z.shiftl (Z.land (bz k7) 31) 16) (Z.shiftl (bz k8) 8)) (bz k9) = (Z.land (bz k7) 31 * 256 + bz k8) * 256 + bz k9.
Proof.
  pose proof (land_31 (bz k7)). pose proof (bz_range k8).
  replace (Z.shiftl (Z.land (bz k7) 31) 16) with (Z.shiftl (Z.shiftl (Z.land (bz k7) 31) 8) 8) by (by rewrite Z.shiftl_shiftl).
  rewrite <- Z.shiftl_lor, !lor_shiftl_byte; [done|lia|]. rewrite lor_shiftl_byte by lia. lia.
Qed.

Lemma split_byte (k : byte) : zb (Z.lor (bz (zb (Z.land (bz k) 0xE0))) (Z.land (bz k) 31)) = k.
Proof.
  apply bz_inj, Z.eqb_eq. revert k. apply byte_forall. vm_compute. reflexivity.
Qed.

(** Setting the counter's bits in the cleared register gives the serial number back. *)
Lemma set_counter ksn : len ksn = 10 -> set_bits 21 (ksnCounter ksn) (base_register ksn) = drop 2 ksn.
Proof.
  intros (k0 & k1 & k2 & k3 & k4 & k5 & k6 & k7 & k8 & k9 & ->)%ten_bytes.
  rewrite set_bits_mod. change (ksnCounter _) with (Z.lor (Z.lor (Z.shiftl (Z.land (bz k7) 31) 16) (Z.shiftl (bz k8) 8)) (bz k9)).
  rewrite counter_value. pose proof (bz_range k8). pose proof (bz_range k9).
  assert (0 <= Z.land (bz k7) 31 < 32) as H7 by (change 31 with (Z.ones 5); rewrite Z.land_ones by lia; apply (Z.mod_pos_bound _ (2 ^ 5)); lia).
  rewrite Z.mod_small by (change (2 ^ Z.of_nat 21) with 2097152; lia). set (a := Z.land (bz k7) 31) in *.
  unfold setCounterBit. rewrite !Z.shiftr_div_pow2 by lia. change (2 ^ 16) with (256 * 256). change (2 ^ 8) with 256.
  rewrite <- Z.div_div by lia.
  replace (((a * 256 + bz k8) * 256 + bz k9) / 256) with (a * 256 + bz k8) by (apply Z.div_unique with (bz k9); lia).
  replace ((a * 256 + bz k8) / 256) with a by (apply Z.div_unique with (bz k8); lia).
  replace ((a * 256 + bz k8) mod 256) with (bz k8) by (apply Z.mod_unique with a; lia).
  replace (((a * 256 + bz k8) * 256 + bz k9) mod 256) with (bz k9) by (apply Z.mod_unique with (a * 256 + bz k8); lia).
  rewrite (Z.mod_small a) by lia.
  replace (Z.land a 31) with a by (unfold a; by rewrite <- Z.land_assoc).
  change (base_register _) with [k2; k3; k4; k5; k6; zb (Z.land (bz k7) 0xE0); x00; x00].
  cbn [or_at alter list_alter drop]. unfold a. rewrite split_byte.
  change (Z.lor (bz x00) (bz k8)) with (bz k8). change (Z.lor (bz x00) (bz k9)) with (bz k9). by rewrite !zb_bz.
Qed.

(** ** The derivation tree *)

Lemma register_Ok key reg : len key = 16 -> len reg = 8 -> exists x, dukptEncRegister key reg = Ok x /\ len x = 8.
Proof.
  intros HK HR. unfold dukptEncRegister. destruct (slice_len (E:=vault_error) key 0 8) as (k & -> & Hk); [lia..|]. cbn [rbind].
  rewrite desBlock_Ok by lia. cbn [rbind]. destruct (slice_len (E:=vault_error) key 8 16) as (mask & -> & Hm); [lia..|]. cbn [rbind].
  rewrite xored_Ok by lia. cbn [rbind]. assert (len (xor_bytes reg mask) = 8) as HX by (rewrite len_xor_bytes; lia).
  rewrite blockEnc_Ok by done. cbn [rbind]. pose proof (Encrypt_len (b := NewCipher k) _ HX) as HE. cbn [NewCipher BlockSize] in HE.
  rewrite xored_Ok by lia. eexists. split; [done|]. rewrite len_xor_bytes; lia.
Qed.

Lemma generate_Ok key reg : len key = 16 -> len reg = 8 -> exists k, dukptGenerateKey key reg = Ok k /\ len k = 16.
Proof.
  intros HK HR. unfold dukptGenerateKey. destruct (register_Ok key reg HK HR) as (r & -> & Hr). cbn [rbind].
  rewrite xored_Ok by (rewrite HK; done). cbn [rbind].
  destruct (register_Ok (xor_bytes key keyVariantMask) reg) as (l & -> & Hl); [rewrite len_xor_bytes; rewrite HK; done|done|]. cbn [rbind].
  eexists. split; [done|]. rewrite len_app. lia.
Qed.

Lemma len_setCounterBit reg s : len (setCounterBit reg s) = len reg.
Proof. unfold len, setCounterBit. by rewrite !length_or_at. Qed.

Lemma loop_Ok n c k reg : len k = 16 -> len reg = 8 -> exists k', derive_loop n c k reg = Ok k' /\ len k' = 16.
Proof.
  revert k reg. induction n as [|n IH]; intros k reg HK HR; [by exists k|]. cbn [derive_loop].
  destruct (negb _); [|by apply IH]. destruct (generate_Ok k (setCounterBit reg (Z.shiftl 1 (Z.of_nat n))) HK) as (ck & -> & Hck);
    [by rewrite len_setCounterBit|]. cbn [rbind]. apply IH; [done|by rewrite len_setCounterBit].
Qed.

Lemma loop_zero n c k reg : (forall i, 0 <= i < Z.of_nat n -> Z.testbit c i = false) -> derive_loop n c k reg = Ok k.
Proof.
  revert k reg. induction n as [|n IH]; intros k reg HZ; [done|]. cbn [derive_loop]. rewrite land_bit, HZ by lia. cbn [negb].
  apply IH. intros. apply HZ. lia.
Qed.

Lemma set_bits_zero n c reg : (forall i, 0 <= i < Z.of_nat n -> Z.testbit c i = false) -> set_bits n c reg = reg.
Proof.
  revert reg. induction n as [|n IH]; intros reg HZ; [done|]. cbn [set_bits]. rewrite HZ by lia. apply IH. intros. apply HZ. lia.
Qed.

(** [c'] is [c] without its lowest bit [b]. *)
Definition drops_bit (b : nat) (c c' : Z) : Prop :=
  Z.testbit c (Z.of_nat b) = true /\ c mod 2 ^ Z.of_nat b = 0 /\ c' = Z.clearbit c (Z.of_nat b).

Lemma drops_bit_spec b c c' : drops_bit b c c' -> Z.testbit c (Z.of_nat b) = true /\
  (forall i, 0 <= i < Z.of_nat b -> Z.testbit c i = false) /\
  forall i, 0 <= i -> Z.testbit c' i = (if i =? Z.of_nat b then false else Z.testbit c i).
Proof.
  intros (HB & HM & ->). split_and!; [done| |].
  - intros i Hi. rewrite <- (Z.mod_pow2_bits_low c (Z.of_nat b)) by lia. rewrite HM. apply Z.bits_0.
  - intros i Hi. destruct (Z.eqb_spec i (Z.of_nat b)) as [->|Hne]; [apply Z.clearbit_eq|apply Z.clearbit_neq; lia].
Qed.

Lemma loop_step n b c c' k reg : drops_bit b c c' -> (b < n)%nat ->
  derive_loop n c k reg = let! k' := derive_loop n c' k reg in dukptGenerateKey k' (set_bits n c reg).
Proof.
  intros (HB & HZ & HC)%drops_bit_spec. revert k reg. induction n as [|n IH]; intros k reg Hn; [lia|]. cbn [derive_loop set_bits].
  rewrite !land_bit, !negb_involutive, (HC (Z.of_nat n)) by lia. destruct (decide (n = b)) as [->|Hne].
  - rewrite Z.eqb_refl, HB. rewrite set_bits_zero by done.
    rewrite (loop_zero b c'); [|intros i Hi; rewrite HC by lia; destruct (i =? Z.of_nat b); [done|by apply HZ]].
    cbn [rbind]. destruct (dukptGenerateKey k _); cbn [rbind]; [by apply loop_zero|done|done].
  - destruct (Z.eqb_spec (Z.of_nat n) (Z.of_nat b)); [lia|]. destruct (Z.testbit c (Z.of_nat n)); [|apply IH; lia].
    destruct (dukptGenerateKey k _) as [ck|e|]; cbn [rbind]; [apply IH; lia|done|done].
Qed.

(** The same device: the serial numbers differ in the counter only. *)
Definition same_device (ksn ksn' : bytes) : Prop := base_register ksn = base_register ksn' /\ take 2 ksn = take 2 ksn'.

(** C28: unique keys per transaction.  For every device and counter a key of 16
    bytes is derived, and the keys form the tree of X9.24: the key of counter 0
    is the initial key, and the key of a counter is generated, by one step that
    takes the whole serial number in, from the key of the counter without its
    lowest bit.  The initial key does not depend on the counter. *)
Theorem dukpt_tree ipek bdk ksn ksn' b
    (HI : len ipek = 16) (HD : len bdk = 16) (HK : len ksn = 10) (HK' : len ksn' = 10)
    (HS : same_device ksn ksn') (HB : (b < 21)%nat) (HC : drops_bit b (ksnCounter ksn) (ksnCounter ksn')) :
  (ksnCounter ksn' = 0 -> DeriveSessionKey ipek ksn' = Ok ipek) /\
  (exists k k', DeriveSessionKey ipek ksn' = Ok k' /\ dukptGenerateKey k' (drop 2 ksn) = Ok k /\ DeriveSessionKey ipek ksn = Ok k /\ len k = 16) /\
  (exists k, DeriveIPEK bdk ksn = Ok k /\ DeriveIPEK bdk ksn' = Ok k /\ len k = 16).
Proof.
  destruct HS as [HR HT]. assert (len (base_register ksn') = 8) as HL.
  { destruct (ten_bytes ksn' HK') as (k0 & k1 & k2 & k3 & k4 & k5 & k6 & k7 & k8 & k9 & ->). done. }
  unfold DeriveSessionKey. rewrite HI, HK, HK'. cbn [negb Z.eqb Pos.eqb]. split_and!.
  - intros ->. apply loop_zero. intros. apply Z.bits_0.
  - rewrite (loop_step 21 b (ksnCounter ksn) (ksnCounter ksn')) by done. rewrite set_counter by done. rewrite HR.
    destruct (loop_Ok 21 (ksnCounter ksn') ipek (base_register ksn') HI HL) as (k' & -> & Hk'). cbn [rbind].
    destruct (generate_Ok k' (drop 2 ksn) Hk') as (k & Hg & Hk); [unfold len in *; rewrite length_drop; lia|]. by exists k, k'.
  - assert (and_at 7 0xE0 (take 8 ksn) = and_at 7 0xE0 (take 8 ksn')) as HE.
    { destruct (ten_bytes ksn HK) as (k0 & k1 & k2 & k3 & k4 & k5 & k6 & k7 & k8 & k9 & ->).
      destruct (ten_bytes ksn' HK') as (j0 & j1 & j2 & j3 & j4 & j5 & j6 & j7 & j8 & j9 & ->).
      unfold base_register in HR. cbn in HR, HT |- *. congruence. }
    unfold DeriveIPEK. rewrite HD, HK, HK', HE. cbn [negb Z.eqb Pos.eqb].
    assert (len (and_at 7 0xE0 (take 8 ksn')) = 8) as H8 by (unfold len, and_at in *; rewrite length_alter, length_take; lia).
    destruct (tripleDES_Ok bdk) as (b1 & -> & L1 & S1); [unfold kbpk_ok; by rewrite HD|]. cbn [rbind].
    rewrite (blockEnc_Ok b1) by lia. cbn [rbind]. rewrite xored_Ok by (rewrite HD; done). cbn [rbind].
    destruct (tripleDES_Ok (xor_bytes bdk keyVariantMask)) as (b2 & -> & L2 & S2).
    { unfold kbpk_ok. rewrite len_xor_bytes; rewrite HD; done. }
    cbn [rbind]. rewrite (blockEnc_Ok b2) by lia. cbn [rbind]. eexists. split_and!; [done..|].
    rewrite len_app, !Encrypt_len by lia. lia.
Qed.

Lemma dukpt_tree_witness : exists k k',
  DeriveSessionKey (from_hex (go "6AC292FAA1315B4D858AB3A3D7D5933A")) (test_ksn x02) = Ok k' /\
  dukptGenerateKey k' (drop 2 (test_ksn x03)) = Ok k /\
  DeriveSessionKey (from_hex (go "6AC292FAA1315B4D858AB3A3D7D5933A")) (test_ksn x03) = Ok k.
Proof.
  destruct (dukpt_tree (from_hex (go "6AC292FAA1315B4D858AB3A3D7D5933A")) (zeros 16) (test_ksn x03) (test_ksn x02) 0)
    as (_ & (k & k' & H1 & H2 & H3 & _) & _).
  - reflexivity.
  - reflexivity.
  - reflexivity.
  - reflexivity.
  - split; reflexivity.
  - lia.
  - repeat split; reflexivity.
  - exists k, k'. split; [exact H1|split; [exact H2|exact H3]].
Defined.
