(* ===== verification/Packager.v ===== *)
(** * Built-in profiles ([packager/])

    The data-element directories and the constructors that wire them into
    schemas: the representation-independent ISO 8583:1987 and :1993 directories
    with the ASCII, BCD and EBCDIC representations ([packager.go], [iso87.go],
    [iso93.go]), the Visa and Mastercard deltas over them, and the positional
    layouts of the Postilion, CoralPay and Zone links with their DE 127
    sub-messages.  A schema is built by the builder of Schema.v, so a
    constructor returns [Panic] where [MustBuild] would panic. *)

From S2P Require Import Prelude Errors Strconv Path Schema LengthCodec.

(** ** Directories and representations *)

Inductive dataType := tNum | tAlpha | tBinary | tAmount | tEMV.
Inductive lenType := lFixed | lLL | lLLL.

#[export] Instance dataType_EqDecision : EqDecision dataType.
Proof. solve_decision. Defined.

Record fieldSpec := mkFieldSpec {
  fs_de : Z;
  fs_name : bytes;
  fs_typ : dataType;
  fs_ln : lenType;
  fs_max : Z;
  fs_scale : Z;
}.

Record rep := mkRep {
  r_num : FieldCodec;
  r_alpha : FieldCodec;
  r_amount : FieldCodec;
  r_binary : FieldCodec;
  r_lenLL : LengthCodec;
  r_lenLLL : LengthCodec;
  r_bitmap : BitmapCodec;
  r_levels : Z;
  r_mti : FieldCodec;
}.

Definition valueFor (r : rep) (t : dataType) : FieldCodec :=
  match t with
  | tNum => r_num r
  | tAlpha => r_alpha r
  | tBinary => r_binary r
  | tAmount => r_amount r
  | tEMV => r_alpha r
  end.

Definition lengthFor (r : rep) (l : lenType) : option LengthCodec :=
  match l with
  | lLL => Some (r_lenLL r)
  | lLLL => Some (r_lenLLL r)
  | lFixed => None
  end.

Definition emv_tag (b : SchemaBuilder) (tag name : bytes) (c : FieldCodec) (opts : list FieldOpt) : SchemaBuilder :=
  builder_Tag b tag name (Some c) opts.

Definition emvSchema : result Schema :=
  let b := NewSchema (go "emv-55") in
  let b := emv_tag b (go "9F26") (go "Application Cryptogram") binaryRaw [] in
  let b := emv_tag b (go "9F27") (go "Cryptogram Information Data") binaryRaw [optMaxLen 1] in
  let b := emv_tag b (go "9F10") (go "Issuer Application Data") binaryRaw [] in
  let b := emv_tag b (go "9F36") (go "Application Transaction Counter") binNum [optMaxLen 2] in
  let b := emv_tag b (go "9F37") (go "Unpredictable Number") binaryRaw [optMaxLen 4] in
  let b := emv_tag b (go "95") (go "Terminal Verification Results") binaryRaw [optMaxLen 5] in
  let b := emv_tag b (go "9A") (go "Transaction Date") binNum [optMaxLen 3] in
  let b := emv_tag b (go "9C") (go "Transaction Type") binNum [optMaxLen 1] in
  let b := emv_tag b (go "5F2A") (go "Transaction Currency Code") binNum [optMaxLen 2] in
  let b := emv_tag b (go "82") (go "Application Interchange Profile") binaryRaw [optMaxLen 2] in
  let b := emv_tag b (go "9F1A") (go "Terminal Country Code") binNum [optMaxLen 2] in
  let b := emv_tag b (go "9F03") (go "Amount Other") binNum [optMaxLen 6] in
  let b := emv_tag b (go "9F02") (go "Amount Authorised") binNum [optMaxLen 6] in
  MustBuild b.

(** One iteration of the loop of [build]. *)
Definition build_field (r : rep) (b : SchemaBuilder) (f : fieldSpec) : result SchemaBuilder :=
  let opts := [optMaxLen (fs_max f)] in
  let opts := if bool_decide (fs_typ f = tAmount) then opts ++ [optScale (fs_scale f)] else opts in
  if bool_decide (fs_typ f = tEMV) then
    let! sub := emvSchema in
    Ok (builder_Composite b (fs_de f) (fs_name f) (Some sub) (lengthFor r (fs_ln f)) [optWithCodec (Some berTLV)])
  else Ok (builder_Field b (fs_de f) (fs_name f) (Some (valueFor r (fs_typ f))) (lengthFor r (fs_ln f)) opts).

Fixpoint build_loop (r : rep) (b : SchemaBuilder) (dir : list fieldSpec) : result SchemaBuilder :=
  match dir with
  | [] => Ok b
  | f :: dir => let! b := build_field r b f in build_loop r b dir
  end.

Definition build (id : bytes) (dir : list fieldSpec) (r : rep) : result Schema :=
  let b := builder_Bitmap (builder_MTI (NewSchema id) (Some (r_mti r))) (mkBitmapSpec (Some (r_bitmap r)) (r_levels r)) in
  let! b := build_loop r b dir in
  MustBuild b.

(** ** ISO 8583:1987 and :1993 *)

Definition iso87Dir : list fieldSpec := [
  mkFieldSpec 2 (go "Primary Account Number") tNum lLL 19 0;
  mkFieldSpec 3 (go "Processing Code") tNum lFixed 6 0;
  mkFieldSpec 4 (go "Amount, Transaction") tAmount lFixed 12 0;
  mkFieldSpec 5 (go "Amount, Settlement") tAmount lFixed 12 0;
  mkFieldSpec 6 (go "Amount, Cardholder Billing") tAmount lFixed 12 0;
  mkFieldSpec 7 (go "Transmission Date and Time") tNum lFixed 10 0;
  mkFieldSpec 9 (go "Conversion Rate, Settlement") tNum lFixed 8 0;
  mkFieldSpec 10 (go "Conversion Rate, Cardholder Billing") tNum lFixed 8 0;
  mkFieldSpec 11 (go "System Trace Audit Number") tNum lFixed 6 0;
  mkFieldSpec 12 (go "Local Transaction Time") tNum lFixed 6 0;
  mkFieldSpec 13 (go "Local Transaction Date") tNum lFixed 4 0;
  mkFieldSpec 14 (go "Expiration Date") tNum lFixed 4 0;
  mkFieldSpec 15 (go "Settlement Date") tNum lFixed 4 0;
  mkFieldSpec 18 (go "Merchant Category Code") tNum lFixed 4 0;
  mkFieldSpec 19 (go "Acquiring Institution Country Code") tNum lFixed 3 0;
  mkFieldSpec 22 (go "POS Entry Mode") tNum lFixed 3 0;
  mkFieldSpec 23 (go "Card Sequence Number") tNum lFixed 3 0;
  mkFieldSpec 25 (go "POS Condition Code") tNum lFixed 2 0;
  mkFieldSpec 32 (go "Acquiring Institution ID Code") tNum lLL 11 0;
  mkFieldSpec 33 (go "Forwarding Institution ID Code") tNum lLL 11 0;
  mkFieldSpec 35 (go "Track 2 Data") tBinary lLL 37 0;
  mkFieldSpec 37 (go "Retrieval Reference Number") tAlpha lFixed 12 0;
  mkFieldSpec 38 (go "Authorization ID Response") tAlpha lFixed 6 0;
  mkFieldSpec 39 (go "Response Code") tAlpha lFixed 2 0;
  mkFieldSpec 41 (go "Card Acceptor Terminal ID") tAlpha lFixed 8 0;
  mkFieldSpec 42 (go "Card Acceptor ID Code") tAlpha lFixed 15 0;
  mkFieldSpec 43 (go "Card Acceptor Name/Location") tAlpha lFixed 40 0;
  mkFieldSpec 48 (go "Additional Data - Private") tAlpha lLLL 999 0;
  mkFieldSpec 49 (go "Currency Code, Transaction") tNum lFixed 3 0;
  mkFieldSpec 52 (go "PIN Data") tBinary lFixed 8 0;
  mkFieldSpec 53 (go "Security Related Control Information") tNum lFixed 16 0;
  mkFieldSpec 55 (go "ICC Data") tEMV lLLL 999 0;
  mkFieldSpec 60 (go "Reserved Private") tAlpha lLLL 999 0;
  mkFieldSpec 62 (go "Reserved Private") tAlpha lLLL 999 0;
  mkFieldSpec 63 (go "Reserved Private") tAlpha lLLL 999 0;
  mkFieldSpec 64 (go "Message Authentication Code") tBinary lFixed 8 0;
  mkFieldSpec 70 (go "Network Management Information Code") tNum lFixed 3 0;
  mkFieldSpec 90 (go "Original Data Elements") tNum lFixed 42 0;
  mkFieldSpec 100 (go "Receiving Institution ID Code") tNum lLL 11 0;
  mkFieldSpec 128 (go "Message Authentication Code") tBinary lFixed 8 0
].

Definition repASCII : rep :=
  mkRep numASCII ascii amountASCII binaryRaw LLVarASCII LLLVarASCII hexWord 2 numASCII.
Definition repBCD : rep :=
  mkRep bcdNum ascii amountBCD binaryRaw LLVarBCD LLLVarBCD binWord 2 bcdNum.
Definition repEBCDIC : rep :=
  mkRep numEBCDIC ebcdic037 amountASCII binaryRaw LLVarEBCDIC LLLVarEBCDIC ebcdicWord 2 numEBCDIC.

Definition ISO87A (_ : unit) : result Schema := build (go "iso87-a") iso87Dir repASCII.
Definition ISO87B (_ : unit) : result Schema := build (go "iso87-b") iso87Dir repBCD.
Definition ISO87C (_ : unit) : result Schema := build (go "iso87-c") iso87Dir repEBCDIC.

Definition set_fs_max (f : fieldSpec) (n : Z) : fieldSpec :=
  mkFieldSpec (fs_de f) (fs_name f) (fs_typ f) (fs_ln f) n (fs_scale f).

Definition iso93Directory : list fieldSpec :=
  ((fun f => if fs_de f =? 39 then set_fs_max f 3 else f) <$> iso87Dir) ++
  [mkFieldSpec 56 (go "Message Reason Code") tNum lLLL 4 0;
   mkFieldSpec 95 (go "Replacement Amounts") tAlpha lFixed 42 0].

Definition ISO93A (_ : unit) : result Schema := build (go "iso93-a") iso93Directory repASCII.
Definition ISO93B (_ : unit) : result Schema := build (go "iso93-b") iso93Directory repBCD.

(** ** Card-scheme deltas *)

Definition VisaBaseI (_ : unit) : result Schema :=
  let! s := ISO93A tt in
  let b := Derive s (go "visa-base1") in
  let b := builder_Override b 62 [optWithCodec (Some binaryRaw); optMaxLen 255] in
  let b := builder_Override b 63 [optWithCodec (Some binaryRaw); optMaxLen 255] in
  MustBuild b.

Definition Mastercard (_ : unit) : result Schema :=
  let! s := ISO93A tt in
  let b := Derive s (go "mastercard") in
  let b := builder_Override b 48 [optMaxLen 999] in
  let b := builder_Override b 63 [optWithCodec (Some binaryRaw); optMaxLen 512] in
  MustBuild b.

(** ** Positional layouts *)

Record postField := mkPostField {
  pf_de : Z;
  pf_name : bytes;
  pf_value : FieldCodec;
  pf_length : option LengthCodec;
  pf_max : Z;
}.

Definition pNum : FieldCodec := numASCII.
Definition pChr : FieldCodec := ascii.
Definition pBin : FieldCodec := binaryRaw.
Definition pHex : FieldCodec := hexBinary.

Definition pFix : option LengthCodec := None.
Definition pLL : option LengthCodec := Some LLVarASCII.
Definition pLLL : option LengthCodec := Some LLLVarASCII.
Definition pLLLL : option LengthCodec := Some LLLLVarASCII.
Definition pLLLLL : option LengthCodec := Some LLLLLVarASCII.
Definition pLLLLLL : option LengthCodec := Some LLLLLLVarASCII.

(** The loop [for _, f := range fields { b.Field(...) }]. *)
Definition add_fields (b : SchemaBuilder) (fields : list postField) : SchemaBuilder :=
  fold_left (fun b f =>
    builder_Field b (pf_de f) (pf_name f) (Some (pf_value f)) (pf_length f) [optMaxLen (pf_max f)]) fields b.

Definition postilionFields : list postField := [
  mkPostField 2 (go "PRIMARY ACCOUNT NUMBER") pNum pLL 19;
  mkPostField 3 (go "PROCESSING CODE") pNum pFix 6;
  mkPostField 4 (go "AMOUNT, TRANSACTION") pNum pFix 12;
  mkPostField 5 (go "AMOUNT, SETTLEMENT") pNum pFix 12;
  mkPostField 6 (go "AMOUNT, CARDHOLDER BILLING") pNum pFix 12;
  mkPostField 7 (go "TRANSMISSION DATE AND TIME") pNum pFix 10;
  mkPostField 8 (go "AMOUNT, CARDHOLDER BILLING FEE") pNum pFix 8;
  mkPostField 9 (go "CONVERSION RATE, SETTLEMENT") pNum pFix 8;
  mkPostField 10 (go "CONVERSION RATE, CARDHOLDER BILLING") pNum pFix 8;
  mkPostField 11 (go "SYSTEM TRACE AUDIT NUMBER") pNum pFix 6;
  mkPostField 12 (go "TIME, LOCAL TRANSACTION") pNum pFix 6;
  mkPostField 13 (go "DATE, LOCAL TRANSACTION") pNum pFix 4;
  mkPostField 14 (go "DATE, EXPIRATION") pNum pFix 4;
  mkPostField 15 (go "DATE, SETTLEMENT") pNum pFix 4;
  mkPostField 16 (go "DATE, CONVERSION") pNum pFix 4;
  mkPostField 17 (go "DATE, CAPTURE") pNum pFix 4;
  mkPostField 18 (go "MERCHANT TYPE") pNum pFix 4;
  mkPostField 19 (go "ACQUIRING INSTITUTION COUNTRY CODE") pNum pFix 3;
  mkPostField 20 (go "PAN EXTENDED COUNTRY CODE") pNum pFix 3;
  mkPostField 21 (go "FORWARDING INSTITUTION COUNTRY CODE") pNum pFix 3;
  mkPostField 22 (go "POINT OF SERVICE ENTRY MODE") pNum pFix 3;
  mkPostField 23 (go "CARD SEQUENCE NUMBER") pNum pFix 3;
  mkPostField 24 (go "NETWORK INTERNATIONAL IDENTIFIER") pNum pFix 3;
  mkPostField 25 (go "POINT OF SERVICE CONDITION CODE") pNum pFix 2;
  mkPostField 26 (go "POINT OF SERVICE PIN CAPTURE CODE") pNum pFix 2;
  mkPostField 27 (go "AUTHORIZATION IDENTIFICATION RESPONSE LENGTH") pNum pFix 1;
  mkPostField 28 (go "AMOUNT, TRANSACTION FEE") pChr pFix 9;
  mkPostField 29 (go "AMOUNT, SETTLEMENT FEE") pChr pFix 9;
  mkPostField 30 (go "AMOUNT, TRANSACTION PROCESSING FEE") pChr pFix 9;
  mkPostField 31 (go "AMOUNT, SETTLEMENT PROCESSING FEE") pChr pFix 9;
  mkPostField 32 (go "ACQUIRING INSTITUTION IDENTIFICATION CODE") pNum pLL 11;
  mkPostField 33 (go "FORWARDING INSTITUTION IDENTIFICATION CODE") pNum pLL 11;
  mkPostField 34 (go "PRIMARY ACCOUNT NUMBER, EXTENDED") pChr pLL 28;
  mkPostField 35 (go "TRACK 2 DATA") pChr pLL 37;
  mkPostField 36 (go "TRACK 3 DATA") pChr pLLL 104;
  mkPostField 37 (go "RETRIEVAL REFERENCE NUMBER") pChr pFix 12;
  mkPostField 38 (go "AUTHORIZATION IDENTIFICATION RESPONSE") pChr pFix 6;
  mkPostField 39 (go "RESPONSE CODE") pChr pFix 2;
  mkPostField 40 (go "SERVICE RESTRICTION CODE") pChr pFix 3;
  mkPostField 41 (go "CARD ACCEPTOR TERMINAL IDENTIFICATION") pChr pFix 8;
  mkPostField 42 (go "CARD ACCEPTOR IDENTIFICATION CODE") pChr pFix 15;
  mkPostField 43 (go "CARD ACCEPTOR NAME/LOCATION") pChr pFix 40;
  mkPostField 44 (go "ADDITIONAL RESPONSE DATA") pChr pLL 25;
  mkPostField 45 (go "TRACK 1 DATA") pChr pLL 76;
  mkPostField 46 (go "ADDITIONAL DATA - ISO") pChr pLLL 999;
  mkPostField 47 (go "ADDITIONAL DATA - NATIONAL") pChr pLLL 999;
  mkPostField 48 (go "ADDITIONAL DATA - PRIVATE") pChr pLLL 999;
  mkPostField 49 (go "CURRENCY CODE, TRANSACTION") pChr pFix 3;
  mkPostField 50 (go "CURRENCY CODE, SETTLEMENT") pChr pFix 3;
  mkPostField 51 (go "CURRENCY CODE, CARDHOLDER BILLING") pChr pFix 3;
  mkPostField 52 (go "PERSONAL IDENTIFICATION NUMBER DATA") pBin pFix 8;
  mkPostField 53 (go "SECURITY RELATED CONTROL INFORMATION") pBin pFix 48;
  mkPostField 54 (go "ADDITIONAL AMOUNTS") pChr pLLL 120;
  mkPostField 55 (go "RESERVED ISO") pChr pLLL 999;
  mkPostField 56 (go "RESERVED ISO") pChr pLLL 999;
  mkPostField 57 (go "RESERVED NATIONAL") pChr pLLL 999;
  mkPostField 58 (go "RESERVED NATIONAL") pChr pLLL 999;
  mkPostField 59 (go "RESERVED NATIONAL") pChr pLLL 999;
  mkPostField 60 (go "RESERVED PRIVATE") pChr pLLL 999;
  mkPostField 61 (go "RESERVED PRIVATE") pChr pLLL 999;
  mkPostField 62 (go "RESERVED PRIVATE") pChr pLLL 999;
  mkPostField 63 (go "RESERVED PRIVATE") pChr pLLL 999;
  mkPostField 64 (go "MESSAGE AUTHENTICATION CODE FIELD") pHex pFix 8;
  mkPostField 65 (go "BITMAP, EXTENDED") pHex pFix 8;
  mkPostField 66 (go "SETTLEMENT CODE") pNum pFix 1;
  mkPostField 67 (go "EXTENDED PAYMENT CODE") pNum pFix 2;
  mkPostField 68 (go "RECEIVING INSTITUTION COUNTRY CODE") pNum pFix 3;
  mkPostField 69 (go "SETTLEMENT INSTITUTION COUNTRY CODE") pNum pFix 3;
  mkPostField 70 (go "NETWORK MANAGEMENT INFORMATION CODE") pNum pFix 3;
  mkPostField 71 (go "MESSAGE NUMBER") pNum pFix 4;
  mkPostField 72 (go "MESSAGE NUMBER LAST") pNum pFix 4;
  mkPostField 73 (go "DATE, ACTION") pNum pFix 6;
  mkPostField 74 (go "CREDITS, NUMBER") pNum pFix 10;
  mkPostField 75 (go "CREDITS, REVERSAL NUMBER") pNum pFix 10;
  mkPostField 76 (go "DEBITS, NUMBER") pNum pFix 10;
  mkPostField 77 (go "DEBITS, REVERSAL NUMBER") pNum pFix 10;
  mkPostField 78 (go "TRANSFER, NUMBER") pNum pFix 10;
  mkPostField 79 (go "TRANSFER, REVERSAL NUMBER") pNum pFix 10;
  mkPostField 80 (go "INQUIRIES, NUMBER") pNum pFix 10;
  mkPostField 81 (go "AUTHORIZATIONS, NUMBER") pNum pFix 10;
  mkPostField 82 (go "CREDITS, PROCESSING FEE AMOUNT") pNum pFix 12;
  mkPostField 83 (go "CREDITS, TRANSACTION FEE AMOUNT") pNum pFix 12;
  mkPostField 84 (go "DEBITS, PROCESSING FEE AMOUNT") pNum pFix 12;
  mkPostField 85 (go "DEBITS, TRANSACTION FEE AMOUNT") pNum pFix 12;
  mkPostField 86 (go "CREDITS, AMOUNT") pNum pFix 16;
  mkPostField 87 (go "CREDITS, REVERSAL AMOUNT") pNum pFix 16;
  mkPostField 88 (go "DEBITS, AMOUNT") pNum pFix 16;
  mkPostField 89 (go "DEBITS, REVERSAL AMOUNT") pNum pFix 16;
  mkPostField 90 (go "ORIGINAL DATA ELEMENTS") pNum pFix 42;
  mkPostField 91 (go "FILE UPDATE CODE") pChr pFix 1;
  mkPostField 92 (go "FILE SECURITY CODE") pChr pFix 2;
  mkPostField 93 (go "RESPONSE INDICATOR") pChr pFix 5;
  mkPostField 94 (go "SERVICE INDICATOR") pChr pFix 7;
  mkPostField 95 (go "REPLACEMENT AMOUNTS") pChr pFix 42;
  mkPostField 96 (go "MESSAGE SECURITY CODE") pHex pFix 8;
  mkPostField 97 (go "AMOUNT, NET SETTLEMENT") pChr pFix 17;
  mkPostField 98 (go "PAYEE") pChr pFix 25;
  mkPostField 99 (go "SETTLEMENT INSTITUTION IDENTIFICATION CODE") pNum pLL 11;
  mkPostField 100 (go "RECEIVING INSTITUTION IDENTIFICATION CODE") pNum pLL 11;
  mkPostField 101 (go "FILE NAME") pChr pLL 17;
  mkPostField 102 (go "ACCOUNT IDENTIFICATION 1") pChr pLL 28;
  mkPostField 103 (go "ACCOUNT IDENTIFICATION 2") pChr pLL 28;
  mkPostField 104 (go "TRANSACTION DESCRIPTION") pChr pLLL 100;
  mkPostField 105 (go "RESERVED ISO USE") pChr pLLL 999;
  mkPostField 106 (go "RESERVED ISO USE") pChr pLLL 999;
  mkPostField 107 (go "RESERVED ISO USE") pChr pLLL 999;
  mkPostField 108 (go "RESERVED ISO USE") pChr pLLL 999;
  mkPostField 109 (go "RESERVED ISO USE") pChr pLLL 999;
  mkPostField 110 (go "RESERVED ISO USE") pChr pLLL 999;
  mkPostField 111 (go "RESERVED ISO USE") pChr pLLL 999;
  mkPostField 112 (go "RESERVED NATIONAL USE") pChr pLLL 999;
  mkPostField 113 (go "RESERVED NATIONAL USE") pChr pLLL 999;
  mkPostField 114 (go "RESERVED NATIONAL USE") pChr pLLL 999;
  mkPostField 115 (go "RESERVED NATIONAL USE") pChr pLLL 999;
  mkPostField 116 (go "RESERVED NATIONAL USE") pChr pLLL 999;
  mkPostField 117 (go "RESERVED NATIONAL USE") pChr pLLL 999;
  mkPostField 118 (go "RESERVED NATIONAL USE") pChr pLLL 999;
  mkPostField 119 (go "RESERVED NATIONAL USE") pChr pLLL 999;
  mkPostField 120 (go "RESERVED PRIVATE USE") pChr pLLL 999;
  mkPostField 121 (go "RESERVED PRIVATE USE") pChr pLLL 999;
  mkPostField 122 (go "RESERVED PRIVATE USE") pChr pLLL 999;
  mkPostField 123 (go "RESERVED PRIVATE USE") pChr pLLL 999;
  mkPostField 124 (go "RESERVED PRIVATE USE") pChr pLLL 999;
  mkPostField 125 (go "RESERVED PRIVATE USE") pChr pLLL 999;
  mkPostField 126 (go "RESERVED PRIVATE USE") pChr pLLL 999;
  mkPostField 128 (go "MESSAGE AUTHENTICATION CODE 2") pChr pLLL 999
].

Definition postilionSub127 : list postField := [
  mkPostField 2 (go "SWITCH KEY") pChr pLL 32;
  mkPostField 3 (go "ROUTING INFORMATION") pChr pFix 48;
  mkPostField 4 (go "POS DATA") pChr pFix 22;
  mkPostField 5 (go "SERVICE STATION DATA") pChr pFix 73;
  mkPostField 6 (go "AUTHORIZATION PROFILE") pNum pFix 2;
  mkPostField 7 (go "CHECK DATA") pChr pLL 70;
  mkPostField 8 (go "RETENTION DATA") pChr pLLL 999;
  mkPostField 9 (go "ADDITIONAL NODE DATA") pChr pLLL 255;
  mkPostField 10 (go "CVV2") pNum pFix 3;
  mkPostField 11 (go "ORIGINAL KEY") pChr pLL 32;
  mkPostField 12 (go "TERMINAL OWNER") pChr pLL 25;
  mkPostField 13 (go "POS GEOGRAPHIC DATA") pChr pFix 17;
  mkPostField 14 (go "SPONSOR BANK") pChr pFix 8;
  mkPostField 15 (go "AVS REQUEST") pChr pLL 29;
  mkPostField 16 (go "AVS RESPONSE") pChr pFix 1;
  mkPostField 17 (go "CARDHOLDER INFORMATION") pChr pLL 50;
  mkPostField 18 (go "VALIDATION DATA") pChr pLL 50;
  mkPostField 19 (go "BANK DETAILS") pChr pFix 31;
  mkPostField 20 (go "AUTHORIZER DATE SETTLEMENT") pNum pFix 8;
  mkPostField 21 (go "RECORD IDENTIFICATION") pChr pLL 12;
  mkPostField 22 (go "STRUCTURED DATA") pChr pLLLLL 99999;
  mkPostField 23 (go "PAYEE NAME AND ADDRESS") pChr pFix 253;
  mkPostField 24 (go "PAYER ACCOUNT INFORMATION") pChr pLL 28;
  mkPostField 25 (go "ICC DATA") pChr pLLLL 9999;
  mkPostField 26 (go "ORIGINAL NODE") pChr pLL 20;
  mkPostField 27 (go "CARD VERIFICATION RESULT") pChr pFix 1;
  mkPostField 28 (go "AMERICAN EXPRESS CARD IDENTIFIER") pChr pFix 4;
  mkPostField 29 (go "SECURED DATA") pBin pFix 40;
  mkPostField 30 (go "SECURED RESULT") pChr pFix 1;
  mkPostField 31 (go "ISSUER NETWORK ID") pChr pLL 11;
  mkPostField 32 (go "UCAF DATA") pChr pLL 33;
  mkPostField 33 (go "EXTENDED TRANSACTION TYPE") pChr pFix 4;
  mkPostField 34 (go "ACCOUNT TYPE QUALIFIERS") pChr pFix 2;
  mkPostField 35 (go "ACQUIRER NETWORK ID") pChr pLL 11;
  mkPostField 36 (go "CUSTOMER ID") pChr pLL 25;
  mkPostField 37 (go "EXTENDED RESPONSE CODE") pChr pFix 4;
  mkPostField 38 (go "ADDITIONAL POS DATA CODE") pChr pLL 99;
  mkPostField 39 (go "ORIGINAL RESPONSE CODE") pChr pFix 2;
  mkPostField 40 (go "TRANSACTION REFERENCE") pChr pFix 512;
  mkPostField 41 (go "ORIGINAL REMOTE ADDRESS") pChr pLL 99;
  mkPostField 42 (go "TRANSACTION NUMBER") pChr pLL 10;
  mkPostField 43 (go "EXTENDED CARD ACCEPTOR TERMINAL ID") pChr pLL 25;
  mkPostField 44 (go "EXTENDED CARD ACCEPTOR ID CODE") pChr pLL 25;
  mkPostField 45 (go "ORIGINAL CARD ACCEPTOR TERMINAL ID") pChr pFix 8;
  mkPostField 46 (go "ORIGINAL CARD ACCEPTOR ID CODE") pChr pFix 15
].

Definition coralpayFields : list postField := [
  mkPostField 2 (go "PRIMARY ACCOUNT NUMBER") pNum pLL 19;
  mkPostField 3 (go "PROCESSING CODE") pChr pFix 6;
  mkPostField 4 (go "AMOUNT, TRANSACTION") pNum pFix 12;
  mkPostField 5 (go "AMOUNT, SETTLEMENT") pNum pFix 12;
  mkPostField 7 (go "TRANSMISSION DATE AND TIME") pChr pFix 10;
  mkPostField 9 (go "CONVERSION RATE, SETTLEMENT") pChr pFix 8;
  mkPostField 11 (go "SYSTEM TRACE AUDIT NUMBER") pNum pFix 6;
  mkPostField 12 (go "TIME, LOCAL TRANSACTION") pChr pFix 6;
  mkPostField 13 (go "DATE, LOCAL TRANSACTION") pChr pFix 4;
  mkPostField 14 (go "DATE, EXPIRATION") pChr pFix 4;
  mkPostField 15 (go "DATE, SETTLEMENT") pChr pFix 4;
  mkPostField 18 (go "MERCHANT TYPE") pChr pFix 4;
  mkPostField 22 (go "POS ENTRY MODE") pChr pFix 3;
  mkPostField 23 (go "CARD SEQUENCE NUMBER") pChr pFix 3;
  mkPostField 25 (go "POS CONDITION CODE") pChr pFix 2;
  mkPostField 26 (go "POS PIN CAPTURE CODE") pChr pFix 2;
  mkPostField 28 (go "AMOUNT, TRANSACTION FEE") pChr pFix 9;
  mkPostField 29 (go "AMOUNT, SETTLEMENT FEE") pChr pFix 9;
  mkPostField 30 (go "AMOUNT, TRANSACTION PROCESSING FEE") pChr pFix 9;
  mkPostField 31 (go "AMOUNT, SETTLEMENT PROCESSING FEE") pChr pFix 9;
  mkPostField 32 (go "ACQUIRING INSTITUTION IDENTIFICATION CODE") pChr pLL 11;
  mkPostField 33 (go "FORWARDING INSTITUTION IDENTIFICATION CODE") pNum pLL 11;
  mkPostField 35 (go "TRACK 2 DATA") pChr pLL 37;
  mkPostField 37 (go "RETRIEVAL REFERENCE NUMBER") pChr pFix 12;
  mkPostField 38 (go "AUTHORIZATION CODE") pChr pFix 6;
  mkPostField 39 (go "RESPONSE CODE") pChr pFix 2;
  mkPostField 40 (go "SERVICE RESTRICTION CODE") pChr pFix 3;
  mkPostField 41 (go "CARD ACCEPTOR TERMINAL IDENTIFICATION") pChr pFix 8;
  mkPostField 42 (go "CARD ACCEPTOR IDENTIFICATION CODE") pChr pFix 15;
  mkPostField 43 (go "CARD ACCEPTOR NAME/LOCATION") pChr pFix 40;
  mkPostField 48 (go "ADDITIONAL DATA") pChr pLLL 999;
  mkPostField 49 (go "CURRENCY CODE") pChr pFix 3;
  mkPostField 52 (go "PIN DATA") pHex pFix 8;
  mkPostField 53 (go "SECURITY RELATED CONTROL INFORMATION") pChr pFix 96;
  mkPostField 54 (go "ADDITIONAL AMOUNT") pChr pLLL 120;
  mkPostField 55 (go "INTEGRATED CIRCUIT CARD SYSTEM RELATED DATA") pChr pLLL 510;
  mkPostField 56 (go "MESSAGE REASON CODE") pChr pLLL 4;
  mkPostField 59 (go "ECHO DATA") pChr pLLL 255;
  mkPostField 60 (go "PAYMENT INFORMATION") pChr pLLL 999;
  mkPostField 61 (go "PRIVATE FIELD, MANAGEMENT DATA 1") pChr pLLL 999;
  mkPostField 62 (go "PRIVATE FIELD, MANAGEMENT DATA 1") pChr pLLL 999;
  mkPostField 63 (go "PRIVATE FIELD, MANAGEMENT DATA 2") pChr pLLLL 9999;
  mkPostField 64 (go "PRIMARY MESSAGE HASH VALUE") pChr pFix 64;
  mkPostField 70 (go "Network Management Information Code") pChr pFix 3;
  mkPostField 90 (go "ORIGINAL DATA ELEMENTS") pNum pFix 42;
  mkPostField 95 (go "REPLACEMENT AMOUNTS") pNum pFix 42;
  mkPostField 98 (go "PAYEE") pChr pFix 25;
  mkPostField 100 (go "RECEIVING INSTITUTION IDENT CODE") pNum pLL 11;
  mkPostField 102 (go "ACCOUNT IDENTIFICATION 1") pChr pLL 28;
  mkPostField 103 (go "ACCOUNT IDENTIFICATION 2") pChr pLL 28;
  mkPostField 123 (go "POS DATA CODE") pChr pLLL 15;
  mkPostField 128 (go "SECONDARY MESSAGE HASH VALUE") pChr pFix 64
].

Definition coralpaySub127 : list postField := [
  mkPostField 2 (go "SWITCH KEY") pChr pLL 32;
  mkPostField 3 (go "ROUTING INFORMATION") pChr pFix 48;
  mkPostField 4 (go "POS DATA") pChr pFix 22;
  mkPostField 5 (go "SERVICE STATION DATA") pChr pFix 73;
  mkPostField 6 (go "AUTHORIZATION PROFILE") pNum pFix 2;
  mkPostField 7 (go "CHECK DATA") pChr pLL 50;
  mkPostField 8 (go "RETENTION DATA") pChr pLLL 999;
  mkPostField 9 (go "ADDITIONAL NODE DATA") pChr pLLL 255;
  mkPostField 10 (go "CVV2") pNum pFix 3;
  mkPostField 11 (go "ORIGINAL KEY") pChr pLL 32;
  mkPostField 12 (go "TERMINAL OWNER") pChr pLL 25;
  mkPostField 13 (go "POS GEOGRAPHIC DATA") pChr pFix 17;
  mkPostField 14 (go "SPONSOR BANK") pChr pFix 8;
  mkPostField 15 (go "AVS REQUEST") pChr pLL 29;
  mkPostField 16 (go "AVS RESPONSE") pChr pFix 1;
  mkPostField 17 (go "CARDHOLDER INFORMATION") pChr pLL 50;
  mkPostField 18 (go "VALIDATION DATA") pChr pLL 50;
  mkPostField 19 (go "BANK DETAILS") pChr pFix 31;
  mkPostField 20 (go "AUTHORIZER DATE SETTLEMENT") pNum pFix 8;
  mkPostField 21 (go "RECORD IDENTIFICATION") pChr pLL 12;
  mkPostField 22 (go "STRUCTURED DATA") pChr pLLLLL 99999;
  mkPostField 23 (go "PAYEE NAME AND ADDRESS") pChr pFix 253;
  mkPostField 24 (go "PAYER ACCOUNT INFORMATION") pChr pLL 28;
  mkPostField 25 (go "ICC DATA") pChr pLLLL 9999;
  mkPostField 26 (go "ORIGINAL NODE") pChr pLL 20;
  mkPostField 27 (go "CARD VERIFICATION RESULT") pChr pFix 1;
  mkPostField 28 (go "AMERICAN EXPRESS CARD IDENTIFIER") pNum pFix 4;
  mkPostField 29 (go "3-D SECURE DATA") pHex pFix 40;
  mkPostField 30 (go "3-D SECURE RESULT") pChr pFix 1;
  mkPostField 31 (go "ISSUER NETWORK ID") pChr pLL 11;
  mkPostField 32 (go "UCAF DATA") pChr pLL 33;
  mkPostField 33 (go "EXTENDED TRANSACTION TYPE") pNum pFix 4;
  mkPostField 34 (go "ACCOUNT TYPE QUALIFIERS") pNum pFix 2;
  mkPostField 35 (go "ACQUIRER NETWORK ID") pChr pLL 11;
  mkPostField 36 (go "CUSTOMER ID") pChr pLL 25;
  mkPostField 37 (go "EXTENDED RESPONSE CODE") pChr pFix 4;
  mkPostField 38 (go "ADDITIONAL POS DATA CODE") pChr pLL 99;
  mkPostField 39 (go "ORIGINAL RESPONSE CODE") pChr pFix 2;
  mkPostField 40 (go "ACCOUNT TYPE QUALIFIERS") pChr pLLL 512;
  mkPostField 41 (go "ORIGINATING REMOTE ADDRESS") pChr pLL 99;
  mkPostField 42 (go "TRANSACTION NUMBER") pChr pLL 10
].

Definition zoneFields : list postField := [
  mkPostField 2 (go "PAN - PRIMARY ACCOUNT NUMBER") pNum pLL 19;
  mkPostField 3 (go "PROCESSING CODE") pNum pFix 6;
  mkPostField 4 (go "AMOUNT, TRANSACTION") pNum pFix 12;
  mkPostField 5 (go "AMOUNT, SETTLEMENT") pNum pFix 12;
  mkPostField 6 (go "AMOUNT, CARDHOLDER BILLING") pNum pFix 12;
  mkPostField 7 (go "TRANSMISSION DATE AND TIME") pNum pFix 10;
  mkPostField 8 (go "Cardholder billing fee amount") pNum pFix 8;
  mkPostField 9 (go "CONVERSION RATE, SETTLEMENT") pNum pFix 8;
  mkPostField 10 (go "Cardholder billing conversion rate") pNum pFix 8;
  mkPostField 11 (go "SYSTEM TRACE AUDIT NUMBER") pNum pFix 6;
  mkPostField 12 (go "TIME, LOCAL TRANSACTION") pNum pFix 6;
  mkPostField 13 (go "DATE, LOCAL TRANSACTION") pNum pFix 4;
  mkPostField 14 (go "DATE, EXPIRATION") pNum pFix 4;
  mkPostField 15 (go "DATE, SETTLEMENT") pNum pFix 4;
  mkPostField 16 (go "DATE, CONVERSION") pNum pFix 4;
  mkPostField 17 (go "DATE, CAPTURE") pNum pFix 4;
  mkPostField 18 (go "MERCHANTS TYPE") pNum pFix 4;
  mkPostField 19 (go "Acquiring institution country code") pNum pFix 3;
  mkPostField 20 (go "Primary account number country code") pNum pFix 3;
  mkPostField 21 (go "Forwarding institution country code") pNum pFix 3;
  mkPostField 22 (go "POINT OF SERVICE ENTRY MODE") pNum pFix 3;
  mkPostField 23 (go "CARD SEQUENCE NUMBER") pNum pFix 3;
  mkPostField 24 (go "Network international identifier") pNum pFix 3;
  mkPostField 25 (go "POINT OF SERVICE CONDITION CODE") pNum pFix 2;
  mkPostField 26 (go "POINT OF SERVICE PIN CAPTURE CODE") pNum pFix 2;
  mkPostField 27 (go "AUTHORIZATION IDENTIFICATION RESP LEN") pNum pFix 1;
  mkPostField 28 (go "AMOUNT, TRANSACTION FEE") pChr pFix 9;
  mkPostField 29 (go "AMOUNT, SETTLEMENT FEE") pChr pFix 9;
  mkPostField 30 (go "AMOUNT, TRANSACTION PROCESSING FEE") pChr pFix 9;
  mkPostField 31 (go "AMOUNT, SETTLEMENT PROCESSING FEE") pChr pFix 9;
  mkPostField 32 (go "ACQUIRING INSTITUTION IDENT CODE") pNum pLL 11;
  mkPostField 33 (go "FORWARDING INSTITUTION IDENT CODE") pNum pLL 11;
  mkPostField 34 (go "Extended primary account number") pNum pLL 28;
  mkPostField 35 (go "TRACK 2 DATA") pNum pLL 37;
  mkPostField 36 (go "TRACK 3 DATA") pNum pLLL 104;
  mkPostField 37 (go "RETRIEVAL REFERENCE NUMBER") pChr pFix 12;
  mkPostField 38 (go "AUTHORIZATION IDENTIFICATION RESPONSE") pChr pFix 6;
  mkPostField 39 (go "RESPONSE CODE") pChr pFix 2;
  mkPostField 40 (go "SERVICE RESTRICTION CODE") pChr pFix 3;
  mkPostField 41 (go "CARD ACCEPTOR TERMINAL IDENTIFICACION") pChr pFix 8;
  mkPostField 42 (go "CARD ACCEPTOR IDENTIFICATION CODE") pChr pFix 15;
  mkPostField 43 (go "CARD ACCEPTOR NAME/LOCATION") pChr pFix 40;
  mkPostField 44 (go "ADITIONAL RESPONSE DATA") pChr pLL 25;
  mkPostField 45 (go "TRACK 1 DATA") pChr pLL 76;
  mkPostField 46 (go "Additional data - ISO") pChr pLLL 999;
  mkPostField 47 (go "Additional data - national") pChr pLLL 999;
  mkPostField 48 (go "ADITIONAL DATA - PRIVATE") pChr pLLL 999;
  mkPostField 49 (go "CURRENCY CODE, TRANSACTION") pChr pFix 3;
  mkPostField 50 (go "CURRENCY CODE, SETTLEMENT") pChr pFix 3;
  mkPostField 51 (go "Cardholder billing currency code") pChr pFix 3;
  mkPostField 52 (go "PIN DATA") pBin pFix 8;
  mkPostField 53 (go "SECURITY RELATED CONTROL INFORMATION") pBin pFix 48;
  mkPostField 54 (go "ADDITIONAL AMOUNTS") pChr pLLL 120;
  mkPostField 55 (go "Reserved for ISO use") pChr pLLL 999;
  mkPostField 56 (go "RESERVED ISO") pChr pLLL 999;
  mkPostField 57 (go "RESERVED NATIONAL") pChr pFix 3;
  mkPostField 58 (go "RESERVED NATIONAL") pChr pLLL 11;
  mkPostField 59 (go "RESERVED NATIONAL") pChr pLLL 999;
  mkPostField 60 (go "RESERVED PRIVATE") pChr pLLL 999;
  mkPostField 61 (go "RESERVED PRIVATE") pChr pLLL 999;
  mkPostField 62 (go "RESERVED PRIVATE") pChr pLLL 999;
  mkPostField 63 (go "RESERVED PRIVATE") pChr pLLL 999;
  mkPostField 64 (go "RESERVED PRIVATE") pBin pFix 8;
  mkPostField 65 (go "RESERVED PRIVATE") pBin pFix 8;
  mkPostField 66 (go "SETTLEMENT CODE") pNum pFix 1;
  mkPostField 67 (go "EXTENDED PAYMENT CODE") pNum pFix 2;
  mkPostField 68 (go "Receiving institution country code") pNum pFix 3;
  mkPostField 69 (go "SETTLEMENT INSTITUTION COUNTRY CODE") pNum pFix 3;
  mkPostField 70 (go "NETWORK MANAGEMENT INFORMATION CODE") pNum pFix 3;
  mkPostField 71 (go "MESSAGE NUMBER") pNum pFix 4;
  mkPostField 72 (go "LAST MESSAGE NUMBER") pNum pFix 4;
  mkPostField 73 (go "DATE ACTION") pNum pFix 6;
  mkPostField 74 (go "CREDITS NUMBER") pNum pFix 10;
  mkPostField 75 (go "CREDITS REVERSAL NUMBER") pNum pFix 10;
  mkPostField 76 (go "DEBITS NUMBER") pNum pFix 10;
  mkPostField 77 (go "DEBITS REVERSAL NUMBER") pNum pFix 10;
  mkPostField 78 (go "TRANSFER NUMBER") pNum pFix 10;
  mkPostField 79 (go "TRANSFER REVERSAL NUMBER") pNum pFix 10;
  mkPostField 80 (go "INQUIRIES NUMBER") pNum pFix 10;
  mkPostField 81 (go "AUTHORIZATION NUMBER") pNum pFix 10;
  mkPostField 82 (go "CREDITS, PROCESSING FEE AMOUNT") pNum pFix 12;
  mkPostField 83 (go "CREDITS, TRANSACTION FEE AMOUNT") pNum pFix 12;
  mkPostField 84 (go "DEBITS, PROCESSING FEE AMOUNT") pNum pFix 12;
  mkPostField 85 (go "DEBITS, TRANSACTION FEE AMOUNT") pNum pFix 12;
  mkPostField 86 (go "CREDITS, AMOUNT") pNum pFix 16;
  mkPostField 87 (go "CREDITS, REVERSAL AMOUNT") pNum pFix 16;
  mkPostField 88 (go "DEBITS, AMOUNT") pNum pFix 16;
  mkPostField 89 (go "DEBITS, REVERSAL AMOUNT") pNum pFix 16;
  mkPostField 90 (go "ORIGINAL DATA ELEMENTS") pNum pFix 42;
  mkPostField 91 (go "FILE UPDATE CODE") pChr pFix 1;
  mkPostField 92 (go "FILE SECURITY CODE") pChr pFix 2;
  mkPostField 93 (go "RESPONSE INDICATOR") pChr pFix 6;
  mkPostField 94 (go "SERVICE INDICATOR") pChr pFix 7;
  mkPostField 95 (go "REPLACEMENT AMOUNTS") pChr pFix 42;
  mkPostField 96 (go "MESSAGE SECURITY CODE") pHex pFix 8;
  mkPostField 97 (go "AMOUNT, NET SETTLEMENT") pChr pFix 17;
  mkPostField 98 (go "PAYEE") pChr pFix 25;
  mkPostField 99 (go "Settlement institution Id code") pNum pLL 11;
  mkPostField 100 (go "RECEIVING INSTITUTION IDENT CODE") pNum pLL 11;
  mkPostField 101 (go "FILE NAME") pChr pLL 17;
  mkPostField 102 (go "ACCOUNT IDENTIFICATION 1") pChr pLL 28;
  mkPostField 103 (go "ACCOUNT IDENTIFICATION 2") pChr pLL 28;
  mkPostField 104 (go "Transaction description") pChr pLLL 100;
  mkPostField 105 (go "Reserved for ISO use") pChr pLLL 999;
  mkPostField 106 (go "Reserved for ISO use") pChr pLLL 999;
  mkPostField 107 (go "Reserved for ISO use") pChr pLLL 999;
  mkPostField 108 (go "Reserved for ISO use") pChr pLLL 999;
  mkPostField 109 (go "Reserved for ISO use") pChr pLLL 999;
  mkPostField 110 (go "Reserved for ISO use") pChr pLLL 999;
  mkPostField 111 (go "Reserved for ISO use") pChr pLLL 999;
  mkPostField 112 (go "Reserved for ISO use") pChr pLLL 999;
  mkPostField 113 (go "Reserved for ISO use") pChr pLLL 999;
  mkPostField 114 (go "Reserved for ISO use") pChr pLLL 999;
  mkPostField 115 (go "Reserved for ISO use") pChr pLLL 999;
  mkPostField 116 (go "Reserved for ISO use") pChr pLLL 999;
  mkPostField 117 (go "Reserved for ISO use") pChr pLLL 999;
  mkPostField 118 (go "RESERVED NATIONAL USE") pChr pFix 10;
  mkPostField 119 (go "RESERVED NATIONAL USE") pChr pFix 10;
  mkPostField 120 (go "RESERVED PRIVATE USE") pChr pLLL 999;
  mkPostField 121 (go "RESERVED PRIVATE USE") pChr pLLL 999;
  mkPostField 122 (go "RESERVED PRIVATE USE") pChr pLLL 999;
  mkPostField 123 (go "RESERVED PRIVATE USE") pChr pLLL 999;
  mkPostField 124 (go "RESERVED PRIVATE USE") pChr pLLL 999;
  mkPostField 125 (go "RESERVED PRIVATE USE") pChr pLLL 40;
  mkPostField 126 (go "RESERVED PRIVATE USE") pChr pLLL 999;
  mkPostField 128 (go "MAC EXTENDED") pBin pFix 32
].

Definition zoneSub127 : list postField := [
  mkPostField 2 (go "SWITCH KEY") pChr pLL 32;
  mkPostField 3 (go "ROUTING INFORMATION") pChr pFix 48;
  mkPostField 4 (go "POS DATA") pChr pFix 22;
  mkPostField 5 (go "SERVICE STATION DATA") pChr pFix 73;
  mkPostField 6 (go "AUTHORIZATION PROFILE") pNum pFix 2;
  mkPostField 7 (go "CHECK DATA") pChr pLL 50;
  mkPostField 8 (go "RETENTION DATA") pChr pLLL 999;
  mkPostField 9 (go "ADDITIONAL NODE DATA") pChr pLLL 255;
  mkPostField 10 (go "CVV2") pNum pFix 3;
  mkPostField 11 (go "ORIGINAL KEY") pChr pLL 32;
  mkPostField 12 (go "TERMINAL OWNER") pChr pLL 25;
  mkPostField 13 (go "POS GEOGRAPHIC DATA") pChr pFix 17;
  mkPostField 14 (go "SPONSOR BANK") pChr pFix 8;
  mkPostField 15 (go "AVS REQUEST") pChr pLL 29;
  mkPostField 16 (go "AVS RESPONSE") pChr pFix 1;
  mkPostField 17 (go "CARDHOLDER INFORMATION") pChr pLL 50;
  mkPostField 18 (go "VALIDATION DATA") pChr pLL 50;
  mkPostField 19 (go "BANK DETAILS") pChr pFix 31;
  mkPostField 20 (go "AUTHORIZER DATE SETTLEMENT") pNum pFix 8;
  mkPostField 21 (go "RECORD IDENTIFICATION") pChr pLL 12;
  mkPostField 22 (go "STRUCTURED DATA") pChr pLLLLL 99999;
  mkPostField 23 (go "PAYEE NAME AND ADDRESS") pChr pFix 253;
  mkPostField 24 (go "PAYER ACCOUNT INFORMATION") pChr pLL 28;
  mkPostField 25 (go "ICC DATA") pChr pLLLL 9999;
  mkPostField 26 (go "ORIGINAL NODE") pChr pLL 20;
  mkPostField 27 (go "CARD VERIFICATION RESULT") pChr pFix 1;
  mkPostField 28 (go "AMERICAN EXPRESS CARD IDENTIFIER") pNum pFix 4;
  mkPostField 29 (go "3-D SECURE DATA") pHex pFix 40;
  mkPostField 30 (go "3-D SECURE RESULT") pChr pFix 1;
  mkPostField 31 (go "ISSUER NETWORK ID") pChr pLL 11;
  mkPostField 32 (go "UCAF DATA") pChr pLL 33;
  mkPostField 33 (go "EXTENDED TRANSACTION TYPE") pNum pFix 4;
  mkPostField 34 (go "ACCOUNT TYPE QUALIFIERS") pNum pFix 2;
  mkPostField 35 (go "ACQUIRER NETWORK ID") pChr pLL 11;
  mkPostField 36 (go "CUSTOMER ID") pChr pLLL 999;
  mkPostField 37 (go "EXTENDED RESPONSE CODE") pChr pLLL 999;
  mkPostField 38 (go "ADDITIONAL POS DATA CODE") pChr pLLL 999;
  mkPostField 39 (go "ORIGINAL RESPONSE CODE") pChr pLLL 999;
  mkPostField 40 (go "ACCOUNT TYPE QUALIFIERS") pChr pLLL 999;
  mkPostField 41 (go "ORIGINATING REMOTE ADDRESS") pChr pLLL 999;
  mkPostField 42 (go "TRANSACTION NUMBER") pChr pLLL 999
].


Definition Postilion (_ : unit) : result Schema :=
  let sub := builder_Bitmap (builder_Headerless (NewSchema (go "postilion-127"))) (mkBitmapSpec (Some binWord) 2) in
  let! subSchema := MustBuild (add_fields sub postilionSub127) in
  let b := builder_Bitmap (builder_MTI (NewSchema (go "postilion")) (Some numASCII)) (mkBitmapSpec (Some binWord) 2) in
  let b := add_fields b postilionFields in
  let b := builder_Composite b 127 (go "RESERVED PRIVATE USE") (Some subSchema) pLLLLLL [optWithCodec (Some packager)] in
  MustBuild b.

Definition CoralPay (_ : unit) : result Schema :=
  let sub := builder_Bitmap (builder_Headerless (NewSchema (go "coralpay-127"))) (mkBitmapSpec (Some hexWord) 1) in
  let! subSchema := MustBuild (add_fields sub coralpaySub127) in
  let b := builder_Bitmap (builder_MTI (NewSchema (go "coralpay")) (Some ascii)) (mkBitmapSpec (Some hexWord) 2) in
  let b := add_fields b coralpayFields in
  let b := builder_Composite b 127 (go "RESERVED PRIVATE USE") (Some subSchema) pLLLLLL [optWithCodec (Some packager)] in
  MustBuild b.

Definition Zone (_ : unit) : result Schema :=
  let sub := builder_Bitmap (builder_Headerless (NewSchema (go "zone-127"))) (mkBitmapSpec (Some binWord) 1) in
  let! subSchema := MustBuild (add_fields sub zoneSub127) in
  let b := builder_Bitmap (builder_MTI (NewSchema (go "zone")) (Some numASCII)) (mkBitmapSpec (Some binWord) 2) in
  let b := add_fields b zoneFields in
  let b := builder_Composite b 127 (go "RESERVED PRIVATE USE") (Some subSchema) pLLLLLL [optWithCodec (Some packager)] in
  MustBuild b.

(** ** The catalogue *)

Definition Profiles : list (bytes * (unit -> result Schema)) := [
  (go "iso87-a", ISO87A);
  (go "iso87-b", ISO87B);
  (go "iso87-c", ISO87C);
  (go "iso93-a", ISO93A);
  (go "iso93-b", ISO93B);
  (go "visa-base1", VisaBaseI);
  (go "mastercard", Mastercard);
  (go "postilion", Postilion);
  (go "coralpay", CoralPay);
  (go "zone", Zone)
].

(** [Profile]: [None] is the result [nil, false]. *)
Definition Profile (id : bytes) : result (option Schema) :=
  match (list_to_map Profiles : gmap bytes (unit -> result Schema)) !! id with
  | Some ctor => let! s := ctor tt in Ok (Some s)
  | None => Ok None
  end.
