(* ===== verification/Profiles.v ===== *)
(** * The built-in profiles are sound

    Every profile of [packager.Profiles] builds, and fits the engine: its
    schemas can be parsed at every depth, and a message assembled over it by
    calls of [Set] is delivered. *)

From S2P Require Import Prelude Errors Strconv Bcd Bitmap Decimal Path Schema LengthCodec BitmapCodec Value FieldCodec Message BerTlv Engine Layout Wire Recursion Access Invariant Store EndToEnd Packager.

(** ** Definitions the engine can delimit *)

(** A definition whose values of its own kind are delimitable. *)
Definition wired (d : FieldDef) : bool :=
  match fd_Codec d with
  | None => false
  | Some c =>
      match fd_Length d with
      | None => negb (is_composite_codec c) && (0 <? fd_MaxLen d)
      | Some l =>
          length_ok l && negb (bool_decide (l = fixed)) &&
          if is_composite_codec c then bool_decide (fd_Kind d = KindComposite)
          else unit_codec c && match fd_Kind d with KindNumeric | KindString | KindBytes => true | _ => false end
      end
  end.

(** Every definition of the schema is wired and inside the bitmap's two levels. *)
Definition wired_schema (s : Schema) : bool :=
  forallb (fun o => match o with Some d => wired d | None => true end) (s_mti s :: s_defs s) &&
  (bs_Levels (s_bitmap s) =? 2) && (s_maxDE s <=? 128) &&
  match Schema_Field s 1 with None => true | Some _ => false end.

(** The kind of a set value suits the field: what [Set] stores for text, bytes
    and integers is of the field's kind, the others bring their own. *)
Definition suits (d : FieldDef) (x : any) : Prop :=
  match x with
  | anyValue v => v_kind v = fd_Kind d
  | anyDecimal _ | anyAmount _ => fd_Kind d = KindAmount
  | anyOther _ => False
  | _ => fd_Kind d <> KindComposite
  end.

Lemma makeValue_kind d x v : fd_Kind d <> KindInvalid -> suits d x -> makeValue (Some d) x = Ok v ->
  v_kind v = fd_Kind d \/ v_kind v = numericKind (fd_Kind d).
Proof.
  intros HI HS. unfold makeValue. rewrite bool_decide_false by done.
  destruct x; cbn [suits] in HS; try (intros [= <-]; cbn; by auto); try done.
  - unfold scalarFromBytes. destruct (fd_Kind d) eqn:EK; try done; [intros [= <-]; by auto..|].
    intros HV. apply rbind_Ok in HV as (n & _ & [= <-]). by auto.
  - unfold scalarFromInt. destruct (fd_Kind d); try done; intros [= <-]; cbn; by auto.
  - unfold scalarFromInt. destruct (fd_Kind d); try done; intros [= <-]; cbn; by auto.
Qed.

Lemma wired_delimitable d v : wired d = true ->
  v_kind v = fd_Kind d \/ v_kind v = numericKind (fd_Kind d) -> delimitable d v.
Proof.
  unfold wired, delimitable. destruct (fd_Codec d) as [c|]; [|done]. destruct (fd_Length d) as [l|].
  - intros H HK. apply andb_prop in H as [[H1 H2]%andb_prop H3]. apply negb_true_iff, bool_decide_eq_false in H2.
    split_and!; [done..|]. destruct (is_composite_codec c).
    + apply bool_decide_eq_true in H3. rewrite H3 in HK. by destruct HK.
    + apply andb_prop in H3 as [H3 H4]. split; [done|]. destruct (fd_Kind d); try done; cbn in HK; tauto.
  - intros H _. apply andb_prop in H as [H1 H2]. exists c. split_and!; [done|by apply negb_true_iff|by apply Z.ltb_lt].
Qed.

Lemma fixed_delimitable d v : wired d = true -> fd_Length d = None -> delimitable d v.
Proof.
  unfold wired, delimitable. intros H HL. rewrite HL in *. destruct (fd_Codec d) as [c|]; [|done].
  apply andb_prop in H as [H1 H2]. exists c. split_and!; [done|by apply negb_true_iff|by apply Z.ltb_lt].
Qed.

Lemma wired_field s de d : wired_schema s = true -> Schema_Field s de = Some d -> wired d = true.
Proof.
  intros H HD. apply andb_prop in H as [H _]. apply andb_prop in H as [H _]. apply andb_prop in H as [H _].
  assert (Some d ∈ s_mti s :: s_defs s) as Hin.
  { destruct (decide (de = 0)) as [->|]; [rewrite <- HD; left|]. right. by eapply Schema_Field_defs. }
  by apply (forallb_elem _ _ _ H) in Hin.
Qed.

Lemma wired_range s de d : schema_ok s -> wired_schema s = true -> Schema_Field s de = Some d ->
  0 <= de <= 128 /\ de <> 1.
Proof.
  intros HO HW HF. apply andb_prop in HW as [[_ HX%Z.leb_le]%andb_prop H1].
  assert (de <> 1) by (intros ->; by rewrite HF in H1). split; [|done].
  destruct (decide (de = 0)) as [->|Hn]; [lia|]. destruct (so_defs s HO de d Hn HF). lia.
Qed.

(** ** Messages assembled by [Set] *)

(** A run of [Set] calls that all succeed. *)
Fixpoint set_all (m : Message) (sets : list (Z * any)) : result Message :=
  match sets with
  | [] => Ok m
  | (de, x) :: sets => let! m := MSet m de x in set_all m sets
  end.

Definition suited (s : Schema) (p : Z * any) : Prop :=
  p.1 <> 65 /\ forall d, Schema_Field s p.1 = Some d -> fd_Kind d <> KindInvalid /\ suits d p.2.

(** What such a run maintains. *)
Record assembled (s : Schema) (m : Message) : Prop := {
  as_ok : msg_ok s m;
  as_src : m_src m = None;
  as_slots : forall de sl, slot_at m de = Ok sl -> sl_present sl = true ->
    de <> 65 /\ exists d, Schema_Field s de = Some d /\
    (v_kind (sl_v sl) = fd_Kind d \/ v_kind (sl_v sl) = numericKind (fd_Kind d));
}.

Lemma New_assembled s : schema_ok s -> assembled s (New s).
Proof.
  intros H. split; [by apply New_ok|done|]. intros de sl [_ HL]%slot_at_lookup HP.
  cbn in HL. by apply lookup_replicate_1 in HL as [-> _].
Qed.

Lemma MSet_assembled s m de x m' : s_maxDE s <= 192 -> suited s (de, x) -> assembled s m ->
  MSet m de x = Ok m' -> assembled s m'.
Proof.
  intros Hmax [H65 HD] [HM HS HA] HSet. split; [by eapply MSet_ok|..]; revert HSet; unfold MSet;
    (destruct (m_sealed m); [done|]); intros H; apply rbind_Ok in H as ([d|] & HF & H); try done;
    apply rbind_Ok in H as (v & HV & H); (destruct (Z.leb_spec (len (m_slots m)) de); [done|]);
    apply rbind_Ok in H as (s0 & HS0 & [= <-]).
  - unfold mark_set. by case_match.
  - intros e sl HSl HP. pose proof HS0 as [Hde _]%slot_at_lookup.
    assert (slot_at (with_slot m de (set_slot s0 (set_v_codec v (fd_Codec d)))) e = Ok sl) as HSl'
      by (revert HSl; unfold mark_set; by case_match).
    apply slot_at_with_slot in HSl' as [[-> ->]|[? HSl']]; [|by eauto|done]. split; [done|].
    assert (Schema_Field s de = Some d) as HF'.
    { revert HF. unfold msg_def. rewrite (mo_schema _ _ HM). unfold Schema_Field. destruct (de =? 0); congruence. }
    exists d. split; [done|]. destruct (HD d HF'). cbn. by eapply makeValue_kind.
Qed.

Lemma set_all_assembled s m sets m' : s_maxDE s <= 192 -> Forall (suited s) sets -> assembled s m ->
  set_all m sets = Ok m' -> assembled s m'.
Proof.
  intros Hmax HF. revert m. induction HF as [|[de x] sets HX _ IH]; intros m HA; cbn [set_all]; [by intros [= <-]|].
  intros H. apply rbind_Ok in H as (m1 & H1 & H2). eapply IH; [|done]. by eapply MSet_assembled.
Qed.

(** An assembled message can be sent. *)
Lemma assembled_sendable s m : schema_wire s -> wired_schema s = true -> fd_Length <$> s_mti s = Some None ->
  assembled s m -> sendable s m.
Proof.
  intros Hw HW HMTI [HM HS HA]. pose proof HW as HW'. apply andb_prop in HW' as [[[_ HL]%andb_prop HX]%andb_prop H1].
  apply Z.eqb_eq in HL. apply Z.leb_le in HX.
  assert (forall de, Has m de = true -> 0 <= de <= 128 /\ de <> 65 /\ de <> 1) as HH.
  { intros de HH. pose proof (Has_range m de HH) as HR. rewrite (mo_len s m HM) in HR. unfold Has in HH.
    destruct (in_slots m de) eqn:EI; [|done]. destruct (m_slots m !! Z.to_nat de) as [sl|] eqn:ES; [|done].
    destruct (HA de sl) as [? (d & HD & _)]; [apply slot_at_lookup; split; [lia|done]|done|].
    split_and!; [lia..|done|]. intros ->. by rewrite HD in H1. }
  split; [done|done| |].
  - rewrite HL. pose proof (present_bitmap_ok m) as HB. split; [done|lia|..].
    + rewrite IsSet_present. destruct (Has m 1) eqn:E; [apply HH in E; tauto|apply andb_false_r].
    + rewrite IsSet_present. destruct (Has m 65) eqn:E; [apply HH in E; tauto|apply andb_false_r].
    + lia.
    + intros _. apply word2_zero; [done|]. intros de Hde. rewrite IsSet_present.
      destruct (Has m de) eqn:E; [apply HH in E; lia|apply andb_false_r].
  - intros de d sl (HD & HSl & Hpr & _). pose proof (wired_field s de d HW HD) as Hd.
    destruct Hpr as [->|Hpr].
    + apply fixed_delimitable; [done|]. cbn in HD. rewrite HD in HMTI. by injection HMTI.
    + destruct (HA de sl HSl Hpr) as [_ (d' & HD' & HK)]. rewrite HD in HD'. injection HD' as <-. by apply wired_delimitable.
Qed.

(** ** The catalogue *)

(** What is checked of each profile, by evaluation. *)
Definition profile_check (s : Schema) : bool :=
  deep_schemab 3 s && wired_schema s && bool_decide (fd_Length <$> s_mti s = Some None) &&
  match s_mti s with Some d => (fd_MaxLen d =? 4) | None => false end.

Definition constructor_check (p : bytes * (unit -> result Schema)) : bool :=
  match p.2 tt with Ok s => profile_check s && bool_decide (s_id s = p.1) | _ => false end.

Lemma Profiles_check : forallb constructor_check Profiles = true.
Proof. vm_compute. reflexivity. Qed.

Lemma Profile_built id : exists os, Profile id = Ok os /\
  (forall s, os = Some s -> profile_check s = true /\ s_id s = id) /\
  (os = None -> id ∉ Profiles.*1).
Proof.
  unfold Profile. destruct (list_to_map Profiles !! id) as [ctor|] eqn:E.
  - apply elem_of_list_to_map_2 in E. apply (forallb_elem _ _ _ Profiles_check) in E.
    unfold constructor_check in E. cbn [fst snd] in E. destruct (ctor tt) as [s|e|]; [|done|done].
    apply andb_prop in E as [E1 E2%bool_decide_eq_true]. exists (Some s). split; [done|]. split; [|done].
    by intros ? [= <-].
  - exists None. split; [done|]. split; [done|]. intros _. by apply not_elem_of_list_to_map.
Qed.

Lemma profile_check_facts s : profile_check s = true ->
  deep_schema s /\ wired_schema s = true /\ fd_Length <$> s_mti s = Some None.
Proof.
  unfold profile_check. intros H. apply andb_prop in H as [[[H1 H2]%andb_prop H3]%andb_prop _].
  split_and!; [by eapply deep_schemab_ok|done|by apply bool_decide_eq_true in H3].
Qed.

Lemma set_all_sendable s sets m : profile_check s = true -> Forall (suited s) sets ->
  set_all (New s) sets = Ok m -> sendable s m /\ m_src m = None.
Proof.
  intros HC HF HM. apply profile_check_facts in HC as (HD & HW & HT). pose proof (deep_wire _ HD) as Hw.
  assert (assembled s m) as HA.
  { eapply set_all_assembled; [apply (so_max s), sw_ok, Hw|done|apply New_assembled, sw_ok, Hw|done]. }
  split; [by apply assembled_sendable|apply HA].
Qed.

(** ** Properties *)

(** C24: the catalogue is sound.  Looking a profile up never panics; a known id
    gives the schema of that id, an unknown one gives none.  The schema can be
    parsed at every depth (every definition bounded, every sub-schema built the
    same way), its elements lie within the two bitmap levels and avoid the
    secondary continuation bit, and every element holds values of its own kind
    whose width the wire announces. *)
Theorem profiles_well_typed id :
  exists os, Profile id = Ok os /\ (os = None <-> id ∉ Profiles.*1) /\
  forall s, os = Some s -> s_id s = id /\ deep_schema s /\
    forall de d, Schema_Field s de = Some d ->
      0 <= de <= 128 /\ de <> 1 /\ fd_Codec d <> None /\ forall v, v_kind v = fd_Kind d -> delimitable d v.
Proof.
  destruct (Profile_built id) as (os & HP & HS & HN). exists os. split; [done|]. split.
  { split; [done|]. intros Hid. destruct os as [s|]; [|done]. destruct Hid. revert HP. unfold Profile.
    destruct (list_to_map Profiles !! id) as [ctor|] eqn:E; [|done]. intros _.
    apply elem_of_list_to_map_2 in E. by apply (list_elem_of_fmap_2 fst) in E. }
  intros s ->. destruct (HS s eq_refl) as [HC HI]. split; [done|]. apply profile_check_facts in HC as (HD & HW & _).
  split; [done|]. intros de d HF. pose proof (wired_field s de d HW HF) as Hd.
  destruct (wired_range s de d) as [? ?]; [apply sw_ok, deep_wire, HD|done..|].
  split_and!; [lia..|done|intros HN'; unfold wired in Hd; by rewrite HN' in Hd|by intros v HV; apply wired_delimitable; auto].
Qed.

(** C3: every profile delivers.  Take a built-in profile and a message assembled
    by any successful run of [Set] calls whose values suit their fields, DE 65
    left alone.  If it marshals, the bytes parse back with the same profile to a
    message with the same elements, and every text, numeric or binary element
    the codec can represent reads back as the value set, padded to the width of
    a fixed field. *)
Theorem profile_delivers id s opts sets m h wire :
  Profile id = Ok (Some s) -> Forall (suited s) sets -> set_all (New s) sets = Ok m ->
  let c := NewCodec s opts in
  Marshal h c m [] = Ok wire ->
  (exists m', Unmarshal c wire = Ok m' /\ forall de, 1 <= de -> Has m' de = Has m de) /\
  forall de d sl cd, 1 <= de -> Schema_Field s de = Some d -> slot_at m de = Ok sl -> sl_present sl = true ->
    fd_Codec d = Some cd -> unit_codec cd = true -> encodable cd (v_raw (sl_v sl)) = true -> v_raw (sl_v sl) <> [] ->
    exists l h' v', UnmarshalNew c wire h = (Ok l, h') /\ fst (Get l de h') = Ok (Some v') /\
      v_raw v' = padded d (fst (codec_pad cd)) (snd (codec_pad cd)) (v_raw (sl_v sl)).
Proof.
  intros HP HF HM c HW. destruct (Profile_built id) as (os & HP' & HS & _). rewrite HP in HP'. injection HP' as <-.
  destruct (HS s eq_refl) as [HC _]. destruct (set_all_sendable s sets m HC HF HM) as [HSend Hsrc].
  rewrite <- (app_nil_r wire). split.
  - destruct (marshal_unmarshal_facts h c m wire [] HSend (or_intror Hsrc) HW) as (m' & HU & HH & _). by exists m'.
  - intros de d sl cd Hde HD HSl Hpr HCd HU HE Hne.
    destruct (edited_value_facts h c m wire [] de d sl cd HSend (or_intror Hsrc) HW Hde) as (l & h' & v' & H1 & H2 & H3 & _);
      [|done..|by exists l, h', v'].
    split_and!; [done|done|by right|]. unfold clean_src. rewrite Hsrc. by destruct (sl_fromSrc sl && negb (sl_dirty sl)).
Qed.

(** A sign-on over the Postilion layout. *)
Definition signon : list (Z * any) :=
  [(0, anyString (go "0800")); (7, anyString (go "0924121530")); (11, anyInt 42); (70, anyString (go "301"))].

Lemma profile_delivers_witness :
  exists s m wire m', Profile (go "postilion") = Ok (Some s) /\ set_all (New s) signon = Ok m /\
    Marshal [] (NewCodec s []) m [] = Ok wire /\ Unmarshal (NewCodec s []) wire = Ok m' /\ Has m' 70 = true /\
    exists l h' v', UnmarshalNew (NewCodec s []) wire [] = (Ok l, h') /\ fst (Get l 11 h') = Ok (Some v') /\ v_raw v' = go "000042".
Proof.
  destruct (Profile (go "postilion")) as [[s|]|e|] eqn:HP; [|vm_compute in HP; discriminate..].
  assert (C : match Profile (go "postilion") with
    | Ok (Some s) =>
        forallb (fun p => match Schema_Field s p.1 with
          | Some d => negb (bool_decide (fd_Kind d = KindInvalid)) && negb (bool_decide (fd_Kind d = KindComposite))
          | None => false end) signon &&
        match set_all (New s) signon with
        | Ok m => Has m 70 && match Marshal [] (NewCodec s []) m [] with Ok _ => true | _ => false end &&
            match Schema_Field s 11, slot_at m 11 with
            | Some d, Ok sl => sl_present sl && bool_decide (fd_Codec d = Some numASCII) && bool_decide (v_raw (sl_v sl) = go "42") &&
                bool_decide (padded d (zb 48) true (go "42") = go "000042")
            | _, _ => false end
        | _ => false end
    | _ => false end = true) by (vm_compute; reflexivity).
  rewrite HP in C. apply andb_prop in C as [CF C].
  destruct (set_all (New s) signon) as [m|e|] eqn:HM; [|discriminate C..].
  apply andb_prop in C as [C CV]. apply andb_prop in C as [C70 CW].
  destruct (Marshal [] (NewCodec s []) m []) as [wire|e|] eqn:HW; [|discriminate CW..].
  destruct (Schema_Field s 11) as [d|] eqn:HD; [|discriminate CV]. destruct (slot_at m 11) as [sl|e|] eqn:HSl; [|discriminate CV..].
  apply andb_prop in CV as [CV C4]. apply andb_prop in CV as [CV C3]. apply andb_prop in CV as [C1 C2].
  apply bool_decide_eq_true in C2, C3, C4.
  assert (HF : Forall (suited s) signon).
  { apply list.Forall_forall. intros [de x] Hin. pose proof (forallb_elem _ _ _ CF Hin) as Hb. cbn [fst] in Hb.
    split; cbn [fst snd].
    - intros ->. repeat (apply elem_of_cons in Hin as [Hin|Hin]; [discriminate Hin|]). apply elem_of_nil in Hin; exact Hin.
    - intros d' Hd'. rewrite Hd' in Hb. apply andb_prop in Hb as [B1 B2].
      apply negb_true_iff, bool_decide_eq_false in B1, B2. split; [exact B1|].
      repeat (apply elem_of_cons in Hin as [Hin|Hin]; [injection Hin as -> ->; exact B2|]). apply elem_of_nil in Hin; destruct Hin. }
  destruct (profile_delivers (go "postilion") s [] signon m [] wire HP HF HM HW) as [(m' & HU & HH) HV].
  exists s, m, wire, m'. split; [reflexivity|]. split; [exact HM|]. split; [exact HW|]. split; [exact HU|].
  split; [rewrite HH by lia; exact C70|].
  destruct (HV 11 d sl numASCII ltac:(lia) HD HSl C1 C2 eq_refl ltac:(rewrite C3; reflexivity) ltac:(rewrite C3; discriminate))
    as (l & h' & v' & H1 & H2 & H3).
  exists l, h', v'. split; [exact H1|]. split; [exact H2|]. rewrite H3, C3. exact C4.
Defined.

(** The same sign-on with DE 65, which the Postilion and Zone layouts declare. *)
Definition signon65 : list (Z * any) := signon ++ [(65, anyBytes (go "ABCDEFGH"))].

(** What a receiver reads of an element, after [Set]s, [Marshal] and [Unmarshal]. *)
Definition sent_and_read (id : bytes) (sets : list (Z * any)) (de : Z) : result (bool * option bytes) :=
  let! os := Profile id in
  match os with
  | None => Panic
  | Some s =>
      let! m := set_all (New s) sets in
      let! wire := Marshal [] (NewCodec s []) m [] in
      let '(r, h) := UnmarshalNew (NewCodec s []) wire [] in
      let! l := r in
      let! v := fst (Get l de h) in
      Ok (Has m de, v_raw <$> v)
  end.

(** An element on the continuation bit shifts the message.  The Postilion
    and Zone layouts declare DE 65, whose bit the engine reserves: a message
    that sets it marshals without an error, its receiver does not see DE 65,
    and reads the bytes of DE 65 as those of the next element. *)
Theorem profile_de65_shifts :
  sent_and_read (go "postilion") signon 70 = Ok (true, Some (go "301")) /\
  sent_and_read (go "postilion") signon65 70 = Ok (true, Some (go "414")) /\
  sent_and_read (go "postilion") signon65 65 = Ok (true, None) /\
  sent_and_read (go "zone") signon65 70 = Ok (true, Some (go "ABC")) /\
  sent_and_read (go "zone") signon65 65 = Ok (true, None).
Proof. vm_compute. done. Qed.
