(* ===== verification/Loader.v ===== *)
(** * The codec registry and the declarative loader
      ([fieldcodec/registry.go], [packager/generic.go])

    A registry maps names to codecs; the loader assembles a schema from a
    document that names them.  A document's JSON objects are Go maps, which Go
    iterates in an unspecified order: here they are association lists, in the
    order of one such iteration, and the theorems quantify over the order. *)

From S2P Require Import Prelude Errors Strconv Path Schema LengthCodec BitmapCodec Packager Store Profiles.

(** ** Registry *)

Record Registry := mkRegistry {
  rg_values : gmap bytes FieldCodec;
  rg_lengths : gmap bytes LengthCodec;
  rg_bitmaps : gmap bytes BitmapCodec;
}.

Definition NewRegistry : Registry := mkRegistry ∅ ∅ ∅.

Definition Register (r : Registry) (c : FieldCodec) : Registry :=
  mkRegistry (<[codec_Name c := c]> (rg_values r)) (rg_lengths r) (rg_bitmaps r).
Definition RegisterLength (r : Registry) (l : LengthCodec) : Registry :=
  mkRegistry (rg_values r) (<[length_Name l := l]> (rg_lengths r)) (rg_bitmaps r).
Definition RegisterBitmap (r : Registry) (b : BitmapCodec) : Registry :=
  mkRegistry (rg_values r) (rg_lengths r) (<[bitmap_Name b := b]> (rg_bitmaps r)).

Definition reg_Lookup (r : Registry) (name : bytes) : option FieldCodec := rg_values r !! name.
Definition LookupLength (r : Registry) (name : bytes) : option LengthCodec := rg_lengths r !! name.
Definition LookupBitmap (r : Registry) (name : bytes) : option BitmapCodec := rg_bitmaps r !! name.

Definition DefaultRegistry : Registry :=
  let r := NewRegistry in
  let r := fold_left Register
    [ascii; ebcdic037; ebcdic1047; utf8Char; binaryRaw; hexBinary; numASCII; numEBCDIC; bcdNum; rbcdNum; binNum;
     amountASCII; amountBCD; amountBinary] r in
  let r := fold_left RegisterLength length_All r in
  fold_left RegisterBitmap [binWord; hexWord; ebcdicWord] r.

(** ** Documents *)

Record bitmapConfig := mkBitmapConfig { bc_Codec : bytes; bc_Levels : Z }.
Record tagConfig := mkTagConfig { tc_Name : bytes; tc_Codec : bytes; tc_Max : Z }.
Record fieldConfig := mkFieldConfig {
  fc_Name : bytes;
  fc_Codec : bytes;
  fc_Length : bytes;
  fc_Max : Z;
  fc_Scale : Z;
  fc_Composite : bytes;
}.
Record compositeConfig := mkCompositeConfig {
  cc_Type : bytes;
  cc_Bitmap : option bitmapConfig;
  cc_Tags : list (bytes * tagConfig);
  cc_Fields : list (bytes * fieldConfig);
}.
Record schemaConfig := mkSchemaConfig {
  cf_ID : bytes;
  cf_MTI : bytes;
  cf_Bitmap : bitmapConfig;
  cf_Composites : list (bytes * compositeConfig);
  cf_Fields : list (bytes * fieldConfig);
}.

Inductive load_error :=
| ParseFailed | UnknownMTICodec (name : bytes) | UnknownBitmapCodec (name : bytes) | NotANumber (key : bytes)
| UnknownLengthCodec (name : bytes) | UnknownComposite (de : Z) (name : bytes) | UnknownCodec (key name : bytes)
| NoSubBitmap (id : bytes) | UnknownType (id typ : bytes) | NotEmbedded (name : bytes)
| Invalid (errs : list schema_error).

(** ** Loading *)

Section Loading.
Context (reg : Registry).

Definition resolveLength (name : bytes) : res load_error (option LengthCodec) :=
  if bool_decide (name = []) || bool_decide (name = go "len.fixed") then Ok None else
  match LookupLength reg name with
  | None => Err (UnknownLengthCodec name)
  | Some l => Ok (Some l)
  end.

Definition atoi_key (key : bytes) : res load_error Z :=
  match Atoi key with Ok n => Ok n | Err _ => Err (NotANumber key) | Panic => Panic end.

Definition field_opts (fc : fieldConfig) : list FieldOpt :=
  let opts := [optMaxLen (fc_Max fc)] in
  if 0 <? fc_Scale fc then opts ++ [optScale (fc_Scale fc)] else opts.

(** [b.Build()] as a value and an error. *)
Definition finish (b : SchemaBuilder) : res load_error Schema :=
  match Build b with inr s => Ok s | inl errs => Err (Invalid errs) end.

(** One tag of a composite. *)
Definition add_tag (sb : SchemaBuilder) (e : bytes * tagConfig) : res load_error SchemaBuilder :=
  let '(tag, tc) := e in
  match reg_Lookup reg (tc_Codec tc) with
  | None => Err (UnknownCodec tag (tc_Codec tc))
  | Some vc =>
      let opts := if 0 <? tc_Max tc then [optMaxLen (tc_Max tc)] else [] in
      Ok (builder_Tag sb tag (tc_Name tc) (Some vc) opts)
  end.

(** One subfield of a composite. *)
Definition add_subfield (sb : SchemaBuilder) (e : bytes * fieldConfig) : res load_error SchemaBuilder :=
  let '(deStr, fc) := e in
  let! de := atoi_key deStr in
  let! length := resolveLength (fc_Length fc) in
  match reg_Lookup reg (fc_Codec fc) with
  | None => Err (UnknownCodec deStr (fc_Codec fc))
  | Some vc => Ok (builder_Field sb de (fc_Name fc) (Some vc) length (field_opts fc))
  end.

(** The [range] loops: the first error ends them. *)
Fixpoint range_loop {S A} (body : S -> A -> res load_error S) (s : S) (l : list A) : res load_error S :=
  match l with
  | [] => Ok s
  | a :: l => let! s := body s a in range_loop body s l
  end.

(** [compositeConfig.build]: the sub-schema and its kind. *)
Definition composite_build (cc : compositeConfig) (id : bytes) : res load_error (Schema * bytes) :=
  if bool_decide (cc_Type cc = []) || bool_decide (cc_Type cc = go "tlv") then
    let! sb := range_loop add_tag (NewSchema id) (cc_Tags cc) in
    let! s := finish sb in
    Ok (s, go "tlv")
  else if bool_decide (cc_Type cc = go "subfields") then
    match cc_Bitmap cc with
    | None => Err (NoSubBitmap id)
    | Some bc =>
        match LookupBitmap reg (bc_Codec bc) with
        | None => Err (UnknownBitmapCodec (bc_Codec bc))
        | Some bm =>
            let sb := builder_Bitmap (builder_Headerless (NewSchema id)) (mkBitmapSpec (Some bm) (bc_Levels bc)) in
            let! sb := range_loop add_subfield sb (cc_Fields cc) in
            let! s := finish sb in
            Ok (s, go "subfields")
        end
    end
  else Err (UnknownType id (cc_Type cc)).

(** The maps [subs] and [subType]. *)
Definition add_composite (m : gmap bytes Schema * gmap bytes bytes) (e : bytes * compositeConfig) :
    res load_error (gmap bytes Schema * gmap bytes bytes) :=
  let '(id, cc) := e in
  let! (s, kind) := composite_build cc id in
  Ok (<[id := s]> m.1, <[id := kind]> m.2).

Definition add_field (m : gmap bytes Schema * gmap bytes bytes) (b : SchemaBuilder) (e : bytes * fieldConfig) :
    res load_error SchemaBuilder :=
  let '(deStr, fc) := e in
  let! de := atoi_key deStr in
  let! length := resolveLength (fc_Length fc) in
  if negb (bool_decide (fc_Composite fc = [])) then
    match m.1 !! fc_Composite fc with
    | None => Err (UnknownComposite de (fc_Composite fc))
    | Some sub =>
        let cc := if bool_decide (default [] (m.2 !! fc_Composite fc) = go "subfields") then packager else berTLV in
        Ok (builder_Composite b de (fc_Name fc) (Some sub) length [optWithCodec (Some cc)])
    end
  else
    match reg_Lookup reg (fc_Codec fc) with
    | None => Err (UnknownCodec deStr (fc_Codec fc))
    | Some vc => Ok (builder_Field b de (fc_Name fc) (Some vc) length (field_opts fc))
    end.

Definition config_build (cfg : schemaConfig) : res load_error Schema :=
  let! subs := range_loop add_composite (∅, ∅) (cf_Composites cfg) in
  match reg_Lookup reg (cf_MTI cfg) with
  | None => Err (UnknownMTICodec (cf_MTI cfg))
  | Some mti =>
      match LookupBitmap reg (bc_Codec (cf_Bitmap cfg)) with
      | None => Err (UnknownBitmapCodec (bc_Codec (cf_Bitmap cfg)))
      | Some bm =>
          let b := builder_Bitmap (builder_MTI (NewSchema (cf_ID cfg)) (Some mti))
                     (mkBitmapSpec (Some bm) (bc_Levels (cf_Bitmap cfg))) in
          let! b := range_loop (add_field subs) b (cf_Fields cfg) in
          finish b
      end
  end.

(** [json.Unmarshal] is a parameter. *)
Definition Load (json_Unmarshal : bytes -> option schemaConfig) (data : bytes) : res load_error Schema :=
  match json_Unmarshal data with None => Err ParseFailed | Some cfg => config_build cfg end.
End Loading.

(** The embedded file system is a parameter, too. *)
Definition LoadEmbedded (readFile : bytes -> option bytes) (json_Unmarshal : bytes -> option schemaConfig)
    (name : bytes) : res load_error Schema :=
  match readFile (go "schemadef/" ++ name) with
  | None => Err (NotEmbedded name)
  | Some data => Load DefaultRegistry json_Unmarshal data
  end.

(** ** Documents of schemas *)

(** The document that declares a schema. *)
Definition bitmap_config (s : Schema) : bitmapConfig :=
  mkBitmapConfig (from_option bitmap_Name [] (bs_Codec (s_bitmap s))) (bs_Levels (s_bitmap s)).

Definition field_config (de : Z) (d : FieldDef) : bytes * fieldConfig :=
  (FormatUint de,
   mkFieldConfig (fd_Name d) (from_option codec_Name [] (fd_Codec d)) (from_option length_Name [] (fd_Length d))
     (fd_MaxLen d) (fd_Scale d) (from_option s_id [] (fd_Sub d))).

Definition fields_config (s : Schema) : list (bytes * fieldConfig) :=
  omap (fun de => field_config de <$> Schema_Field s de) (seqZ 1 (s_maxDE s)).

Definition composite_config (s : Schema) : compositeConfig :=
  if s_isTLV s then
    mkCompositeConfig (go "tlv") None
      (prod_map id (fun d => mkTagConfig (fd_Name d) (from_option codec_Name [] (fd_Codec d)) (fd_MaxLen d))
        <$> map_to_list (s_tags s)) []
  else mkCompositeConfig (go "subfields") (Some (bitmap_config s)) [] (fields_config s).

Definition schema_config (s : Schema) : schemaConfig :=
  mkSchemaConfig (s_id s) (from_option codec_Name [] (s_mti s ≫= fd_Codec)) (bitmap_config s)
    (omap (fun de => d ← Schema_Field s de; sub ← fd_Sub d; Some (s_id sub, composite_config sub)) (seqZ 1 (s_maxDE s)))
    (fields_config s).

(** ** Order of iteration *)

(** Builders that differ in the order of their tags build the same schema. *)
Lemma Build_perm id mti bm defs tags order order' isTLV headerless s : order ≡ₚ order' ->
  Build (mkSchemaBuilder id mti bm defs tags order isTLV headerless []) = inr s ->
  Build (mkSchemaBuilder id mti bm defs tags order' isTLV headerless []) = inr s.
Proof.
  intros HP HB. set (b := mkSchemaBuilder id mti bm defs tags order isTLV headerless []) in *.
  set (b' := mkSchemaBuilder id mti bm defs tags order' isTLV headerless []).
  destruct (Build_facts b s HB) as (_ & _ & _ & _ & HE).
  assert (build_errors b' = []) as HE'.
  { revert HE. unfold build_errors. cbn [b b' b_errs b_id b_defs b_tags b_order b_isTLV b_bitmap b_mti b_headerless app].
    intros HE. apply app_eq_nil in HE as [-> HE]. apply app_eq_nil in HE as [-> HE]. apply app_eq_nil in HE as [HT ->].
    cbn [app]. rewrite app_nil_r. set (f := fun key => _) in *.
    assert (forall l l' : list bytes, l ≡ₚ l' -> mjoin (f <$> l) = [] -> mjoin (f <$> l') = []) as HJ.
    { induction 1 as [|x l l' _ IH|x y l|l l' l'' _ IH1 _ IH2]; cbn; [done|..|by auto].
      - intros [-> H]%app_eq_nil. cbn. auto.
      - intros [-> [-> H]%app_eq_nil]%app_eq_nil. done. }
    by eapply HJ. }
  unfold Build in *. rewrite HE in HB. rewrite HE'. exact HB.
Qed.

(** Resolved entries, entered in turn. *)
Definition put_field (b : SchemaBuilder) (p : Z * FieldDef) : SchemaBuilder := put_def b p.1 p.2.
Definition put_all (b : SchemaBuilder) (l : list (Z * FieldDef)) : SchemaBuilder := fold_left put_field l b.

Definition set_b_defs (b : SchemaBuilder) (defs : gmap Z FieldDef) : SchemaBuilder :=
  mkSchemaBuilder (b_id b) (b_mti b) (b_bitmap b) defs (b_tags b) (b_order b) (b_isTLV b) (b_headerless b) (b_errs b).

Lemma put_all_errs b l : b_errs b <> [] -> b_errs (put_all b l) <> [].
Proof.
  revert b. induction l as [|[de d] l IH]; intros b Hb; [done|]. apply IH. cbn. case_match; [|done].
  by destruct (b_errs b).
Qed.

Lemma put_all_fresh b l : b_errs b = [] -> b_errs (put_all b l) = [] ->
  NoDup l.*1 /\ forall de, de ∈ l.*1 -> b_defs b !! de = None.
Proof.
  revert b. induction l as [|[de d] l IH]; intros b Hb HE; [split; [constructor|by intros ? ?%elem_of_nil]|].
  cbn [put_all fold_left] in HE. change (fold_left put_field l (put_field b (de, d))) with (put_all (put_def b de d) l) in HE.
  destruct (b_defs b !! de) as [d0|] eqn:ED.
  { exfalso. revert HE. apply put_all_errs. cbn. rewrite ED, Hb. done. }
  destruct (IH (put_def b de d)) as (HN & HF); [cbn; by rewrite ED|done|]. cbn [b_defs put_def] in HF.
  assert (de ∉ l.*1) as Hnot. { intros Hin. specialize (HF de Hin). by rewrite lookup_insert_eq in HF. }
  split; [by constructor|]. intros e [->|He]%elem_of_cons; [done|]. specialize (HF e He). by apply lookup_insert_None in HF as [].
Qed.

Lemma put_all_defs b l : NoDup l.*1 -> (forall de, de ∈ l.*1 -> b_defs b !! de = None) ->
  put_all b l = set_b_defs b (list_to_map l ∪ b_defs b).
Proof.
  revert b. induction l as [|[de d] l IH]; intros b HN HF.
  { cbn. rewrite (left_id_L ∅ (∪)). by destruct b. }
  apply list.NoDup_cons in HN as [Hnot HN]. cbn [put_all fold_left]. change (fold_left put_field l (put_field b (de, d))) with (put_all (put_def b de d) l).
  assert (b_defs b !! de = None) as ED by (apply HF; left). rewrite IH; [|done|].
  - unfold set_b_defs. cbn [b_id b_mti b_bitmap b_defs b_tags b_order b_isTLV b_headerless b_errs put_def].
    rewrite ED. f_equal. rewrite list_to_map_cons, <- insert_union_l.
    symmetry. apply insert_union_r. by apply not_elem_of_list_to_map_1.
  - intros e He. cbn [b_defs put_def]. rewrite lookup_insert_ne by (intros ->; done). apply HF. by right.
Qed.

Lemma finish_Ok b s : finish b = Ok s -> Build b = inr s /\ b_errs b = [].
Proof.
  unfold finish. destruct (Build b) as [|s0] eqn:EB; [done|]. intros [= ->]. split; [done|].
  destruct (Build_facts _ _ EB) as (_ & _ & _ & _ & HE). by apply app_eq_nil in HE as [? _].
Qed.

Lemma finish_put_perm b l l' s : b_errs b = [] -> l ≡ₚ l' -> finish (put_all b l) = Ok s -> finish (put_all b l') = Ok s.
Proof.
  intros Hb HP HF. pose proof (finish_Ok _ _ HF) as [_ HE]. destruct (put_all_fresh b l Hb HE) as (HN & HFr).
  enough (put_all b l' = put_all b l) as -> by done. rewrite !put_all_defs; [|done|done|by rewrite <- HP|].
  - f_equal. f_equal. symmetry. by apply list_to_map_proper.
  - intros de. rewrite <- HP. apply HFr.
Qed.

(** The same for tags. *)
Definition put_tag (b : SchemaBuilder) (p : bytes * FieldDef) : SchemaBuilder :=
  let dup := bool_decide (is_Some (b_tags b !! p.1)) in
  mkSchemaBuilder (b_id b) (b_mti b) (b_bitmap b) (b_defs b) (<[p.1 := p.2]> (b_tags b))
    (if dup then b_order b else b_order b ++ [p.1]) true (b_headerless b)
    (if dup then b_errs b ++ [TagDuplicate p.1] else b_errs b).

Definition set_b_tags (b : SchemaBuilder) (tags : gmap bytes FieldDef) (order : list bytes) : SchemaBuilder :=
  mkSchemaBuilder (b_id b) (b_mti b) (b_bitmap b) (b_defs b) tags order true (b_headerless b) (b_errs b).

Lemma put_tags_errs b l : b_errs b <> [] -> b_errs (fold_left put_tag l b) <> [].
Proof.
  revert b. induction l as [|p l IH]; intros b Hb; [done|]. cbn [fold_left]. apply IH. cbn. case_match; [|done].
  by destruct (b_errs b).
Qed.

Lemma put_tags_fresh b l : b_errs b = [] -> b_errs (fold_left put_tag l b) = [] ->
  NoDup l.*1 /\ forall k, k ∈ l.*1 -> b_tags b !! k = None.
Proof.
  revert b. induction l as [|[k d] l IH]; intros b Hb HE; [split; [constructor|by intros ? ?%elem_of_nil]|].
  cbn [fold_left] in HE. destruct (b_tags b !! k) as [d0|] eqn:ED.
  { exfalso. revert HE. apply put_tags_errs. cbn. rewrite ED, bool_decide_true by done. by destruct (b_errs b). }
  assert (bool_decide (is_Some (b_tags b !! k)) = false) as HD by (rewrite ED; apply bool_decide_false; by intros []).
  destruct (IH (put_tag b (k, d))) as (HN & HF); [cbn; by rewrite HD|done|]. cbn [b_tags put_tag fst snd] in HF.
  assert (k ∉ l.*1) as Hnot. { intros Hin. specialize (HF k Hin). by rewrite lookup_insert_eq in HF. }
  split; [by constructor|]. intros e [->|He]%elem_of_cons; [done|]. specialize (HF e He). by apply lookup_insert_None in HF as [].
Qed.

Lemma put_tags_eq b p l : NoDup (p :: l).*1 -> (forall k, k ∈ (p :: l).*1 -> b_tags b !! k = None) ->
  fold_left put_tag (p :: l) b = set_b_tags b (list_to_map (p :: l) ∪ b_tags b) (b_order b ++ (p :: l).*1).
Proof.
  revert b p. induction l as [|q l IH]; intros b [k d] HN HF;
    (assert (bool_decide (is_Some (b_tags b !! k)) = false) as HD
      by (rewrite (HF k) by left; apply bool_decide_false; by intros [])).
  - cbn. unfold put_tag, set_b_tags. cbn [fst snd]. rewrite HD. f_equal. by rewrite <- insert_union_l, (left_id_L ∅ (∪)).
  - apply list.NoDup_cons in HN as [Hnot HN]. cbn [fst] in Hnot.
    change (fold_left put_tag ((k, d) :: q :: l) b) with (fold_left put_tag (q :: l) (put_tag b (k, d))). rewrite IH; [|done|].
    + unfold set_b_tags. cbn [b_id b_mti b_bitmap b_defs b_tags b_order b_headerless b_errs put_tag fst snd]. rewrite HD.
      rewrite list_to_map_cons. rewrite <- insert_union_l, <- app_assoc. f_equal.
      symmetry. apply insert_union_r. by apply not_elem_of_list_to_map_1.
    + intros e He. cbn [b_tags put_tag fst snd]. rewrite lookup_insert_ne by (intros ->; done). apply HF. by right.
Qed.

Lemma finish_tags_perm b l l' s : b_errs b = [] -> l ≡ₚ l' ->
  finish (fold_left put_tag l b) = Ok s -> finish (fold_left put_tag l' b) = Ok s.
Proof.
  intros Hb HP HF. pose proof (finish_Ok _ _ HF) as [HB HE]. destruct (put_tags_fresh b l Hb HE) as (HN & HFr).
  destruct l as [|p l]; [apply Permutation_nil in HP as ->; done|].
  destruct l' as [|p' l']; [by apply Permutation_nil_r in HP|].
  rewrite put_tags_eq in HB by done. unfold finish. rewrite put_tags_eq; [|by rewrite <- HP|intros k; rewrite <- HP; apply HFr].
  unfold set_b_tags in *. rewrite Hb in *. rewrite <- (list_to_map_proper (p :: l) (p' :: l') HN HP).
  erewrite Build_perm; [done| |exact HB]. by rewrite HP.
Qed.

(** ** Loops over resolved entries *)

(** A loop whose body resolves its entry, then changes the state. *)
Lemma range_loop_resolved {S A P} (body : S -> A -> res load_error S) (resolve : A -> res load_error P) (put : S -> P -> S) :
  (forall s a, body s a = let! p := resolve a in Ok (put s p)) ->
  forall l s s', range_loop body s l = Ok s' <-> exists ps, map resolve l = map Ok ps /\ s' = fold_left put ps s.
Proof.
  intros HB. induction l as [|a l IH]; intros s s'; cbn [range_loop map].
  - split; [intros [= <-]; by exists []|]. intros ([|p ps] & E & ->); [done|discriminate E].
  - rewrite HB. split.
    + intros H. apply rbind_Ok in H as (s1 & H & H2). apply rbind_Ok in H as (p & Hp & [= <-]).
      apply IH in H2 as (ps & Hps & ->). exists (p :: ps). cbn. by rewrite Hp, Hps.
    + intros ([|p ps] & E & ->); [discriminate E|]. injection E as Hp Hps. rewrite Hp. cbn [rbind]. apply IH. by exists ps.
Qed.

Lemma range_loop_perm {S A P} (body : S -> A -> res load_error S) (resolve : A -> res load_error P) (put : S -> P -> S) l l' s s' :
  (forall s a, body s a = let! p := resolve a in Ok (put s p)) -> l ≡ₚ l' -> range_loop body s l = Ok s' ->
  exists ps ps', map resolve l = map Ok ps /\ ps ≡ₚ ps' /\ s' = fold_left put ps s /\ range_loop body s l' = Ok (fold_left put ps' s).
Proof.
  intros HB HP HL. apply (range_loop_resolved _ _ _ HB) in HL as (ps & Hps & ->).
  destruct (Permutation_map_inv Ok ps (l1 := map resolve l')) as (ps' & HE & HPP).
  { rewrite <- Hps. symmetry. by apply Permutation_map. }
  exists ps, ps'. split_and!; [done|done|done|]. apply (range_loop_resolved _ _ _ HB). by exists ps'.
Qed.

Section Order.
Context (reg : Registry).

Definition tag_entry (e : bytes * tagConfig) : res load_error (bytes * FieldDef) :=
  let '(tag, tc) := e in
  match reg_Lookup reg (tc_Codec tc) with
  | None => Err (UnknownCodec tag (tc_Codec tc))
  | Some vc =>
      let opts := if 0 <? tc_Max tc then [optMaxLen (tc_Max tc)] else [] in
      Ok (ToUpper tag,
          applyOpts (field_def (mkFieldPath [mkPathElem (-1) (ToUpper tag)]) (tc_Name tc) (kindOf (Some vc)) (Some vc) None 0 None) opts)
  end.

Lemma add_tag_entry b e : add_tag reg b e = let! p := tag_entry e in Ok (put_tag b p).
Proof. destruct e as [tag tc]. cbn. by destruct (reg_Lookup reg (tc_Codec tc)). Qed.

Definition field_entry (m : gmap bytes Schema * gmap bytes bytes) (e : bytes * fieldConfig) : res load_error (Z * FieldDef) :=
  let '(deStr, fc) := e in
  let! de := atoi_key deStr in
  let! length := resolveLength reg (fc_Length fc) in
  if negb (bool_decide (fc_Composite fc = [])) then
    match m.1 !! fc_Composite fc with
    | None => Err (UnknownComposite de (fc_Composite fc))
    | Some sub =>
        let cc := if bool_decide (default [] (m.2 !! fc_Composite fc) = go "subfields") then packager else berTLV in
        Ok (de, applyOpts (field_def (DE de) (fc_Name fc) KindComposite None length 0 (Some sub)) [optWithCodec (Some cc)])
    end
  else
    match reg_Lookup reg (fc_Codec fc) with
    | None => Err (UnknownCodec deStr (fc_Codec fc))
    | Some vc => Ok (de, applyOpts (field_def (DE de) (fc_Name fc) (kindOf (Some vc)) (Some vc) length 0 None) (field_opts fc))
    end.

Lemma add_field_entry m b e : add_field reg m b e = let! p := field_entry m e in Ok (put_field b p).
Proof.
  destruct e as [deStr fc]. cbn [add_field field_entry]. destruct (atoi_key deStr); [|done|done]. cbn [rbind].
  destruct (resolveLength reg (fc_Length fc)); [|done|done]. cbn [rbind].
  destruct (negb _); [by destruct (m.1 !! _)|by destruct (reg_Lookup reg (fc_Codec fc))].
Qed.

Definition subfield_entry (e : bytes * fieldConfig) : res load_error (Z * FieldDef) :=
  let '(deStr, fc) := e in
  let! de := atoi_key deStr in
  let! length := resolveLength reg (fc_Length fc) in
  match reg_Lookup reg (fc_Codec fc) with
  | None => Err (UnknownCodec deStr (fc_Codec fc))
  | Some vc => Ok (de, applyOpts (field_def (DE de) (fc_Name fc) (kindOf (Some vc)) (Some vc) length 0 None) (field_opts fc))
  end.

Lemma add_subfield_entry b e : add_subfield reg b e = let! p := subfield_entry e in Ok (put_field b p).
Proof.
  destruct e as [deStr fc]. cbn [add_subfield subfield_entry]. destruct (atoi_key deStr); [|done|done]. cbn [rbind].
  destruct (resolveLength reg (fc_Length fc)); [|done|done]. cbn [rbind]. by destruct (reg_Lookup reg (fc_Codec fc)).
Qed.

(** Documents that are the same up to the order of their objects. *)
Record same_composite (c c' : compositeConfig) : Prop := {
  sc_Type : cc_Type c = cc_Type c';
  sc_Bitmap : cc_Bitmap c = cc_Bitmap c';
  sc_Tags : cc_Tags c ≡ₚ cc_Tags c';
  sc_Fields : cc_Fields c ≡ₚ cc_Fields c';
}.

Record same_document (c c' : schemaConfig) : Prop := {
  sd_ID : cf_ID c = cf_ID c';
  sd_MTI : cf_MTI c = cf_MTI c';
  sd_Bitmap : cf_Bitmap c = cf_Bitmap c';
  sd_Composites : exists mid, cf_Composites c ≡ₚ mid /\
    Forall2 (fun e e' => e.1 = e'.1 /\ same_composite e.2 e'.2) mid (cf_Composites c');
  sd_Fields : cf_Fields c ≡ₚ cf_Fields c';
}.

Lemma composite_build_perm c c' id r : same_composite c c' -> composite_build reg c id = Ok r -> composite_build reg c' id = Ok r.
Proof.
  intros [HT HB HG HF]. unfold composite_build. rewrite <- HT, <- HB. destruct (_ || _).
  - intros H. apply rbind_Ok in H as (sb & HL & H). apply rbind_Ok in H as (s & HS & [= <-]).
    destruct (range_loop_perm _ _ _ _ _ _ _ add_tag_entry HG HL) as (ps & ps' & _ & HP & -> & ->). cbn [rbind].
    by rewrite (finish_tags_perm (NewSchema id) _ _ s eq_refl HP HS).
  - destruct (bool_decide _); [|done]. destruct (cc_Bitmap c) as [bc|]; [|done]. destruct (LookupBitmap reg (bc_Codec bc)) as [bm|]; [|done].
    intros H. apply rbind_Ok in H as (sb & HL & H). apply rbind_Ok in H as (s & HS & [= <-]).
    destruct (range_loop_perm _ _ _ _ _ _ _ add_subfield_entry HF HL) as (ps & ps' & _ & HP & -> & ->). cbn [rbind].
    apply (finish_put_perm _ ps ps' s) in HS; [|done|done]. unfold put_all in HS. by rewrite HS.
Qed.

Definition composite_entry (e : bytes * compositeConfig) : res load_error (bytes * (Schema * bytes)) :=
  let! p := composite_build reg e.2 e.1 in Ok (e.1, p).

Definition put_composite (m : gmap bytes Schema * gmap bytes bytes) (p : bytes * (Schema * bytes)) :=
  (<[p.1 := p.2.1]> m.1, <[p.1 := p.2.2]> m.2).

Lemma add_composite_entry m e : add_composite reg m e = let! p := composite_entry e in Ok (put_composite m p).
Proof. destruct e as [id cc]. unfold composite_entry. cbn. by destruct (composite_build reg cc id) as [[s k]| |]. Qed.

Lemma put_composites_perm ps ps' m : ps ≡ₚ ps' -> NoDup ps.*1 -> fold_left put_composite ps m = fold_left put_composite ps' m.
Proof.
  intros HP. revert m. induction HP as [|p l l' HP IH|p q l|l l' l'' H1 IH1 H2 IH2]; intros m HN; cbn [fold_left]; [done|..].
  - apply list.NoDup_cons in HN as [_ HN]. by apply IH.
  - f_equal. apply list.NoDup_cons in HN as [Hn _]. unfold put_composite. cbn.
    assert (q.1 <> p.1) as Hne by (intros E; apply Hn; rewrite E; left).
    f_equal; by apply insert_insert_ne.
  - rewrite IH1 by done. apply IH2. by rewrite <- H1.
Qed.

Lemma composites_perm l l' m :
  NoDup l.*1 -> (exists mid, l ≡ₚ mid /\ Forall2 (fun e e' => e.1 = e'.1 /\ same_composite e.2 e'.2) mid l') ->
  range_loop (add_composite reg) (∅, ∅) l = Ok m -> range_loop (add_composite reg) (∅, ∅) l' = Ok m.
Proof.
  intros HN (mid & HP & H2) HL.
  destruct (range_loop_perm _ _ _ _ _ _ _ add_composite_entry HP HL) as (ps & ps' & Hps & HPP & -> & HL').
  assert (ps.*1 = l.*1) as Hkeys.
  { clear -Hps. revert ps Hps. induction l as [|[id cc] l IH]; intros [|p ps] E; try discriminate E; [done|].
    cbn in E. injection E as Ep Eps. unfold composite_entry in Ep. apply rbind_Ok in Ep as (r & _ & [= <-]). cbn. f_equal. by apply IH. }
  rewrite (put_composites_perm ps ps') by (try done; by rewrite Hkeys). rewrite <- HL'. clear -H2 HL'.
  rewrite HL'. revert HL'. generalize (fold_left put_composite ps' (∅, ∅)) as r. generalize ((∅, ∅) : gmap bytes Schema * gmap bytes bytes) as m0.
  induction H2 as [|[id c] [id' c'] mid l' [HI HC] _ IH]; intros m0 r; cbn [range_loop]; [done|]. cbn in HI, HC. subst id'.
  intros H. apply rbind_Ok in H as (m1 & HA & H). unfold add_composite in *. apply rbind_Ok in HA as ([s k] & HS & HA).
  rewrite (composite_build_perm c c' id _ HC HS). injection HA as <-. cbn [rbind]. by apply IH.
Qed.
End Order.

(** Loading does not depend on the order of iteration.  Go ranges over the
    objects of a document in an unspecified order.  If a document loads in one
    order, then in every order of its composites, tags, subfields and fields it
    loads, and to the same schema. *)
Theorem load_deterministic reg cfg cfg' s :
  same_document cfg cfg' -> NoDup (cf_Composites cfg).*1 ->
  config_build reg cfg = Ok s -> config_build reg cfg' = Ok s.
Proof.
  intros [HI HM HB HC HF] HN H. unfold config_build in *. apply rbind_Ok in H as (subs & HL & H).
  rewrite (composites_perm reg _ _ _ HN HC HL). cbn [rbind]. rewrite <- HM, <- HB, <- HI.
  destruct (reg_Lookup reg (cf_MTI cfg)) as [mti|]; [|done]. destruct (LookupBitmap reg _) as [bm|]; [|done].
  apply rbind_Ok in H as (b & HFl & HS).
  destruct (range_loop_perm _ _ _ _ _ _ _ (add_field_entry reg subs) HF HFl) as (ps & ps' & _ & HP & -> & ->). cbn [rbind].
  by apply (finish_put_perm _ ps ps').
Qed.

(** The embedded document [schemadef/iso87b.json], and the same document with
    its objects iterated in another order. *)
Definition iso87b_tags : list (bytes * tagConfig) :=
  [(go "9F26", mkTagConfig (go "Application Cryptogram") (go "b.raw") 0);
   (go "9F36", mkTagConfig (go "Application Transaction Counter") (go "num.bin") 2);
   (go "95", mkTagConfig (go "Terminal Verification Results") (go "b.raw") 5)].

Definition iso87b_fields : list (bytes * fieldConfig) :=
  [(go "2", mkFieldConfig (go "Primary Account Number") (go "num.bcd") (go "len.ll.bcd") 19 0 []);
   (go "3", mkFieldConfig (go "Processing Code") (go "num.bcd") (go "len.fixed") 6 0 []);
   (go "4", mkFieldConfig (go "Amount, Transaction") (go "amount.bcd") (go "len.fixed") 12 0 []);
   (go "11", mkFieldConfig (go "System Trace Audit Nr") (go "num.bcd") (go "len.fixed") 6 0 []);
   (go "39", mkFieldConfig (go "Response Code") (go "char.ascii") (go "len.fixed") 2 0 []);
   (go "41", mkFieldConfig (go "Card Acceptor Terminal") (go "char.ascii") (go "len.fixed") 8 0 []);
   (go "55", mkFieldConfig (go "ICC Data") [] (go "len.lll.bcd") 0 0 (go "emv-55"))].

Definition iso87b_document (tags : list (bytes * tagConfig)) (fields : list (bytes * fieldConfig)) : schemaConfig :=
  mkSchemaConfig (go "iso87-b-generic") (go "num.bcd") (mkBitmapConfig (go "bitmap.bin") 2)
    [(go "emv-55", mkCompositeConfig [] None tags [])] fields.

Lemma load_deterministic_witness :
  exists s, config_build DefaultRegistry (iso87b_document iso87b_tags iso87b_fields) = Ok s /\
    config_build DefaultRegistry (iso87b_document (rev iso87b_tags) (rev iso87b_fields)) = Ok s /\ s_maxDE s = 55.
Proof.
  assert (C : match config_build DefaultRegistry (iso87b_document iso87b_tags iso87b_fields) with
    | Ok s => s_maxDE s =? 55 | _ => false end = true) by (vm_compute; reflexivity).
  destruct (config_build DefaultRegistry (iso87b_document iso87b_tags iso87b_fields)) as [s|e|] eqn:E; [|discriminate C..].
  exists s. split; [reflexivity|]. split; [|apply Z.eqb_eq; exact C].
  apply (load_deterministic DefaultRegistry (iso87b_document iso87b_tags iso87b_fields)); [|apply NoDup_singleton|exact E].
  split; try reflexivity; [|apply Permutation_rev]. exists [(go "emv-55", mkCompositeConfig [] None iso87b_tags [])].
  split; [reflexivity|]. constructor; [|constructor]. split; [reflexivity|]. split; try reflexivity. apply Permutation_rev.
Defined.

(** What a constructor builds, and what the loader rebuilds from its document. *)
Definition built (ctor : unit -> result Schema) : res load_error Schema :=
  match ctor tt with Ok s => Ok s | _ => Panic end.
Definition reloaded (ctor : unit -> result Schema) : res load_error Schema :=
  match ctor tt with Ok s => config_build DefaultRegistry (schema_config s) | _ => Panic end.

(** A comparison of schemas without validators that computes, and is sound. *)
#[local] Instance PadSide_EqDecision : EqDecision PadSide.
Proof. solve_decision. Defined.
#[local] Instance PadRule_EqDecision : EqDecision PadRule.
Proof. solve_decision. Defined.
#[local] Instance RequiredMode_EqDecision : EqDecision RequiredMode.
Proof. solve_decision. Defined.
#[local] Instance RequiredRule_EqDecision : EqDecision RequiredRule.
Proof. solve_decision. Defined.
#[local] Instance BitmapSpec_EqDecision : EqDecision BitmapSpec.
Proof. solve_decision. Defined.

Definition same_opt {A} (f : A -> A -> bool) (a b : option A) : bool :=
  match a, b with Some a, Some b => f a b | None, None => true | _, _ => false end.
Fixpoint same_list {A} (f : A -> A -> bool) (a b : list A) : bool :=
  match a, b with x :: a, y :: b => f x y && same_list f a b | [], [] => true | _, _ => false end.

Fixpoint same_def (n : nat) (a b : FieldDef) {struct n} : bool :=
  match n with
  | O => false
  | S n =>
      bool_decide (fd_Path a = fd_Path b) && bool_decide (fd_Name a = fd_Name b) && bool_decide (fd_Kind a = fd_Kind b) &&
      bool_decide (fd_Codec a = fd_Codec b) && bool_decide (fd_Length a = fd_Length b) && (fd_MaxLen a =? fd_MaxLen b) &&
      (fd_Scale a =? fd_Scale b) && bool_decide (fd_Pad a = fd_Pad b) &&
      match fd_Validate a, fd_Validate b with [], [] => true | _, _ => false end &&
      bool_decide (fd_Required a = fd_Required b) && same_opt (same_schema n) (fd_Sub a) (fd_Sub b)
  end
with same_schema (n : nat) (a b : Schema) {struct n} : bool :=
  match n with
  | O => false
  | S n =>
      bool_decide (s_id a = s_id b) && same_opt (same_def n) (s_mti a) (s_mti b) && bool_decide (s_bitmap a = s_bitmap b) &&
      same_list (same_opt (same_def n)) (s_defs a) (s_defs b) &&
      same_list (fun p q => bool_decide (p.1 = q.1) && same_def n p.2 q.2) (map_to_list (s_tags a)) (map_to_list (s_tags b)) &&
      (s_maxDE a =? s_maxDE b) && Bool.eqb (s_isTLV a) (s_isTLV b)
  end.

Lemma same_opt_sound {A} (f : A -> A -> bool) : (forall a b, f a b = true -> a = b) -> forall a b, same_opt f a b = true -> a = b.
Proof. intros HF [a|] [b|] H; cbn in H; try done. f_equal. by apply HF. Qed.

Lemma same_list_sound {A} (f : A -> A -> bool) : (forall a b, f a b = true -> a = b) -> forall a b, same_list f a b = true -> a = b.
Proof.
  intros HF a. induction a as [|x a IH]; intros [|y b] H; cbn in H; try done.
  apply andb_true_iff in H as [H1 H2]. f_equal; [by apply HF|by apply IH].
Qed.

Ltac split_andb := repeat match goal with
  | H : _ && _ = true |- _ => apply andb_true_iff in H as [? ?]
  | H : bool_decide _ = true |- _ => apply bool_decide_eq_true in H
  | H : (_ =? _) = true |- _ => apply Z.eqb_eq in H
  | H : Bool.eqb _ _ = true |- _ => apply Bool.eqb_prop in H
  end.

Lemma same_sound n : (forall a b, same_def n a b = true -> a = b) /\ (forall a b, same_schema n a b = true -> a = b).
Proof.
  induction n as [|n [IHd IHs]]; [done|]. split; intros a b H; cbn [same_def same_schema] in H; split_andb.
  - destruct a, b; cbn in *. subst. repeat case_match; try done.
    match goal with H : same_opt _ _ _ = true |- _ => apply (same_opt_sound _ IHs) in H; by subst end.
  - assert (HT : s_tags a = s_tags b).
    { apply map_to_list_inj. match goal with H : same_list _ (map_to_list _) _ = true |- _ => apply same_list_sound in H; [by rewrite H|] end.
      intros [k x] [k' y] H'. cbn in H'. split_andb. subst. f_equal. by apply IHd. }
    destruct a, b; cbn in *. subst.
    match goal with H : same_list _ s_defs _ = true |- _ => apply (same_list_sound _ (same_opt_sound _ IHd)) in H; subst end.
    match goal with H : same_opt _ _ _ = true |- _ => apply (same_opt_sound _ IHd) in H; by subst end.
Qed.

Definition reload_check (p : bytes * (unit -> result Schema)) : bool :=
  match reloaded p.2, built p.2 with
  | Ok a, Ok b => same_schema 6 a b
  | _, _ => false
  end.

Lemma Profiles_reload_check : forallb reload_check Profiles = true.
Proof. vm_compute. reflexivity. Qed.

Lemma Profiles_reloaded id ctor : (id, ctor) ∈ Profiles -> reloaded ctor = built ctor.
Proof.
  intros H%list_elem_of_In. pose proof Profiles_reload_check as HC. rewrite forallb_forall in HC. specialize (HC _ H).
  unfold reload_check in HC. cbn [snd] in HC. destruct (reloaded ctor) as [a| |], (built ctor) as [b| |]; try done.
  by rewrite (proj2 (same_sound 6) a b HC).
Qed.

(** documents are as expressive as code.  For every built-in profile, the
    document that names its codecs, lengths, widths and composites loads against
    the default registry to exactly the schema that the profile's constructor
    builds, nested sub-schemas included. *)
Theorem profile_documents id s :
  Profile id = Ok (Some s) -> config_build DefaultRegistry (schema_config s) = Ok s.
Proof.
  unfold Profile. destruct (list_to_map Profiles !! id) as [ctor|] eqn:E; [|done].
  apply elem_of_list_to_map_2 in E. pose proof (Profiles_reloaded _ _ E) as HD.
  unfold reloaded, built in HD. intros H. apply rbind_Ok in H as (s' & HS & [= <-]). by rewrite HS in HD.
Qed.

Lemma profile_documents_witness :
  exists s, Profile (go "zone") = Ok (Some s) /\ config_build DefaultRegistry (schema_config s) = Ok s /\ s_maxDE s = 128.
Proof.
  assert (C : match Profile (go "zone") with Ok (Some s) => s_maxDE s =? 128 | _ => false end = true) by (vm_compute; reflexivity).
  destruct (Profile (go "zone")) as [[s|]|e|] eqn:E; [|discriminate C..].
  exists s. split; [reflexivity|]. split; [exact (profile_documents (go "zone") s E)|apply Z.eqb_eq; exact C].
Defined.
