(* ===== verification/Rbac.v ===== *)
(** * Access control ([rbac/rbac.go], [rbac/credentials.go])

    Roles, users and credentials.  The key derivation function is a parameter:
    [KDF] is [pbkdf2.Key] with SHA-256, which may fail.  Random bytes are an
    argument of the operations that draw a salt.  The policy is specified by its
    history: what a user may do is decided by the last calls that concern it. *)

From stdpp Require Import sorting.
From S2P Require Import Prelude Errors Strconv Path Framer Validate GoStrings.

(** ** Credentials *)

Class KDF := pbkdf2_Key : bytes -> bytes -> Z -> Z -> option bytes.

Definition DefaultIterations : Z := 600000.
Definition saltLen : Z := 16.
Definition keyLen : Z := 32.

Record Credential := mkCredential { cr_Salt : bytes; cr_Iterations : Z; cr_Hash : bytes }.

Inductive rbac_error := NoSalt | NoKey | ErrNoSuchUser (name : bytes).

Section Policy.
Context `{KDF}.

(** The result and what is left of the reader. *)
Definition hashPasswordRand (password : bytes) (iterations : Z) (r : bytes) : res rbac_error Credential * bytes :=
  match ReadFull saltLen r with
  | (Ok salt, r) =>
      match pbkdf2_Key password salt iterations keyLen with
      | None => (Err NoKey, r)
      | Some hash => (Ok (mkCredential salt iterations hash), r)
      end
  | (_, r) => (Err NoSalt, r)
  end.

Definition HashPassword (password r : bytes) : res rbac_error Credential * bytes :=
  hashPasswordRand password DefaultIterations r.

Definition hashPassword (password : bytes) (iterations : Z) (r : bytes) : res rbac_error Credential * bytes :=
  let iterations := if iterations <=? 0 then DefaultIterations else iterations in
  hashPasswordRand password iterations r.

(** A call of the key derivation, by what its cost depends on: the iterations and
    the length of the key. *)
Definition derivation : Type := Z * Z.

(** The answer, and the derivations it took. *)
Definition Verify (c : Credential) (password : bytes) : bool * list derivation :=
  if (len (cr_Hash c) =? 0) || (cr_Iterations c <=? 0) then (false, []) else
  let work := [(cr_Iterations c, len (cr_Hash c))] in
  match pbkdf2_Key password (cr_Salt c) (cr_Iterations c) (len (cr_Hash c)) with
  | None => (false, work)
  | Some got => (bool_decide (got = cr_Hash c), work)
  end.

(** ** The policy *)

Record userRec := mkUserRec { ur_roles : gset bytes; ur_cred : option Credential }.

Record Policy := mkPolicy {
  p_roles : gmap bytes (gset bytes);
  p_users : gmap bytes userRec;
  p_iterations : Z;
  p_dummy : option Credential;
}.

(** [WithIterations] values, in order. *)
Definition WithIterations (n cur : Z) : Z := if 0 <? n then n else cur.

Definition NewPolicy (opts : list Z) (r : bytes) : Policy * bytes :=
  let iterations := fold_left (fun cur n => WithIterations n cur) opts DefaultIterations in
  let '(d, r) := hashPassword [] iterations r in
  (mkPolicy ∅ ∅ iterations (match d with Ok d => Some d | _ => None end), r).

Definition set_users (p : Policy) (us : gmap bytes userRec) : Policy :=
  mkPolicy (p_roles p) us (p_iterations p) (p_dummy p).

Definition AddRole (p : Policy) (name : bytes) (perms : list bytes) : Policy :=
  mkPolicy (<[name := list_to_set perms]> (p_roles p)) (p_users p) (p_iterations p) (p_dummy p).

Definition AddUser (p : Policy) (name : bytes) (roles : list bytes) : Policy :=
  set_users p (<[name := mkUserRec (list_to_set roles) (p_users p !! name ≫= ur_cred)]> (p_users p)).

Definition Grant (p : Policy) (user role : bytes) : res rbac_error Policy :=
  match p_users p !! user with
  | None => Err (ErrNoSuchUser user)
  | Some rec => Ok (set_users p (<[user := mkUserRec ({[role]} ∪ ur_roles rec) (ur_cred rec)]> (p_users p)))
  end.

Definition Revoke (p : Policy) (user role : bytes) : res rbac_error Policy :=
  match p_users p !! user with
  | None => Err (ErrNoSuchUser user)
  | Some rec => Ok (set_users p (<[user := mkUserRec (ur_roles rec ∖ {[role]}) (ur_cred rec)]> (p_users p)))
  end.

Definition SetPassword (p : Policy) (user password r : bytes) : res rbac_error Policy * bytes :=
  match hashPassword password (p_iterations p) r with
  | (Ok cred, r) =>
      (match p_users p !! user with
       | None => Err (ErrNoSuchUser user)
       | Some rec => Ok (set_users p (<[user := mkUserRec (ur_roles rec) (Some cred)]> (p_users p)))
       end, r)
  | (Err e, r) => (Err e, r)
  | (Panic, r) => (Panic, r)
  end.

(** The answer, and the derivations it took. *)
Definition Authenticate (p : Policy) (user password : bytes) : bool * list derivation :=
  match p_users p !! user ≫= ur_cred with
  | None =>
      match p_dummy p with
      | Some dummy => let '(_, work) := Verify dummy password in (false, work)
      | None => (false, [])
      end
  | Some cred => Verify cred password
  end.

Definition trimSuffix (s suf : bytes) : bytes :=
  if HasSuffix s suf then take (length s - length suf) s else s.

Definition permMatch (granted requested : bytes) : bool :=
  if bool_decide (granted = go "*") || bool_decide (granted = requested) then true else
  if HasSuffix granted (go ":*") then has_prefix requested (trimSuffix granted (go "*"))
  else false.

Definition Can (p : Policy) (user perm : bytes) : bool :=
  match p_users p !! user with
  | None => false
  | Some rec =>
      existsb (fun role => existsb (fun granted => permMatch granted perm) (elements (default ∅ (p_roles p !! role))))
        (elements (ur_roles rec))
  end.

Definition Roles (p : Policy) (user : bytes) : res rbac_error (list bytes) :=
  match p_users p !! user with
  | None => Err (ErrNoSuchUser user)
  | Some rec => Ok (merge_sort bytes_le (elements (ur_roles rec)))
  end.
End Policy.

(** What the code relies on: a derived key has the length asked for. *)
Class KDFLaws `{KDF} := kdf_len : forall password salt iterations n key,
  pbkdf2_Key password salt iterations n = Some key -> len key = n.

(** ** The specification: a history of calls, the last one first *)

Inductive policy_call :=
| CAddRole (name : bytes) (perms : list bytes)
| CAddUser (name : bytes) (roles : list bytes)
| CGrant (user role : bytes)
| CRevoke (user role : bytes)
| CSetPassword (user password r : bytes).

Definition same (a b : bytes) : bool := bool_decide (a = b).
Definition listed (a : bytes) (l : list bytes) : bool := bool_decide (a ∈ l).

Fixpoint known_user (hist : list policy_call) (user : bytes) : bool :=
  match hist with
  | [] => false
  | CAddUser u _ :: hist => same u user || known_user hist user
  | _ :: hist => known_user hist user
  end.

(** The last call that says whether the user has the role. *)
Fixpoint holds_role (hist : list policy_call) (user role : bytes) : bool :=
  match hist with
  | [] => false
  | CAddUser u roles :: hist => if same u user then listed role roles else holds_role hist user role
  | CGrant u r :: hist =>
      if same u user && same r role then known_user hist user else holds_role hist user role
  | CRevoke u r :: hist => if same u user && same r role then false else holds_role hist user role
  | _ :: hist => holds_role hist user role
  end.

(** The last definition of the role. *)
Fixpoint role_grants (hist : list policy_call) (role perm : bytes) : bool :=
  match hist with
  | [] => false
  | CAddRole r perms :: hist => if same r role then listed perm perms else role_grants hist role perm
  | _ :: hist => role_grants hist role perm
  end.

Section History.
Context `{KDF}.

(** The last password that was accepted, and its credential. *)
Fixpoint password_of (iterations : Z) (hist : list policy_call) (user : bytes) : option (bytes * Credential) :=
  match hist with
  | [] => None
  | CSetPassword u pw r :: hist =>
      if same u user && known_user hist user then
        match fst (hashPassword pw iterations r) with Ok c => Some (pw, c) | _ => password_of iterations hist user end
      else password_of iterations hist user
  | _ :: hist => password_of iterations hist user
  end.

(** A call on the policy; a call that fails leaves it as it was. *)
Definition policy_step (c : policy_call) (p : Policy) : Policy :=
  let or_same (x : res rbac_error Policy) := match x with Ok p => p | _ => p end in
  match c with
  | CAddRole name perms => AddRole p name perms
  | CAddUser name roles => AddUser p name roles
  | CGrant u r => or_same (Grant p u r)
  | CRevoke u r => or_same (Revoke p u r)
  | CSetPassword u pw r => or_same (fst (SetPassword p u pw r))
  end.

Definition policy_run (p : Policy) (hist : list policy_call) : Policy := foldr policy_step p hist.

(** A grant covers a request: everything, the same action, or every action of
    the grant's namespace. *)
Definition covers (granted requested : bytes) : Prop :=
  granted = go "*" \/ granted = requested \/
  exists ns action, granted = ns ++ go ":*" /\ requested = ns ++ go ":" ++ action.

Lemma has_prefix_iff s p : has_prefix s p = true <-> exists t, s = p ++ t.
Proof.
  revert s. induction p as [|x p IH]; intros s; [split; [by exists s|by destruct s]|].
  destruct s as [|y s]; cbn.
  - split; [done|by intros [? ?]].
  - rewrite andb_true_iff, bool_decide_eq_true, IH. split.
    + intros [-> (t & ->)]. by exists t.
    + intros (t & [= -> ->]). split; [done|by exists t].
Qed.

Lemma hasSuffix_iff s suf : HasSuffix s suf = true <-> exists t, s = t ++ suf.
Proof.
  unfold HasSuffix. rewrite has_prefix_iff. split; intros (t & E).
  - exists (rev t). rewrite <- (rev_involutive s), E, rev_app_distr, rev_involutive. done.
  - exists (rev t). by rewrite E, rev_app_distr.
Qed.

Lemma permMatch_covers granted requested : permMatch granted requested = true <-> covers granted requested.
Proof.
  unfold permMatch, covers. destruct (decide (granted = go "*")) as [->|H1]; [rewrite bool_decide_true by done; cbn; tauto|].
  rewrite bool_decide_false by done. destruct (decide (granted = requested)) as [->|H2]; [rewrite bool_decide_true by done; cbn; tauto|].
  rewrite bool_decide_false by done. cbn [orb]. destruct (HasSuffix granted (go ":*")) eqn:E.
  - apply hasSuffix_iff in E as (ns & ->).
    assert (trimSuffix (ns ++ go ":*") (go "*") = ns ++ go ":") as ->.
    { unfold trimSuffix. rewrite (proj2 (hasSuffix_iff _ _)) by (exists (ns ++ go ":"); by rewrite <- app_assoc).
      rewrite length_app. replace (length ns + length (go ":*") - length (go "*"))%nat with (length (ns ++ go ":")) by (rewrite length_app; cbn; lia).
      replace (ns ++ go ":*") with ((ns ++ go ":") ++ go "*") by (by rewrite <- app_assoc). apply take_app_length. }
    rewrite has_prefix_iff. split.
    + intros (t & ->). right. right. exists ns, t. by rewrite <- app_assoc.
    + intros [?|[?|(ns' & action & E & ->)]]; [done..|]. apply app_inj_2 in E as [-> _]; [|done]. exists action. by rewrite <- app_assoc.
  - split; [done|]. intros [?|[?|(ns & action & -> & _)]]; [done..|].
    by rewrite (proj2 (hasSuffix_iff _ _)) in E by (by exists ns).
Qed.

(** ** The policy follows its history *)

Record follows (iterations : Z) (hist : list policy_call) (p : Policy) : Prop := {
  fo_iterations : p_iterations p = iterations;
  fo_roles : forall role perm, perm ∈ default ∅ (p_roles p !! role) <-> role_grants hist role perm = true;
  fo_known : forall user, is_Some (p_users p !! user) <-> known_user hist user = true;
  fo_holds : forall user rec role, p_users p !! user = Some rec -> role ∈ ur_roles rec <-> holds_role hist user role = true;
  fo_cred : forall user rec, p_users p !! user = Some rec -> ur_cred rec = snd <$> password_of iterations hist user;
}.

Lemma unknown_holds hist user role : known_user hist user = false -> holds_role hist user role = false.
Proof.
  induction hist as [|c hist IH]; [done|]. destruct c; cbn; unfold same; auto.
  - intros [-> HK]%orb_false_iff. auto.
  - intros HK. rewrite HK. destruct (_ && _); auto.
  - intros HK. destruct (_ && _); auto.
Qed.

Lemma unknown_password it hist user : known_user hist user = false -> password_of it hist user = None.
Proof.
  induction hist as [|c hist IH]; [done|]. destruct c; cbn; auto.
  - intros [_ HK]%orb_false_iff. auto.
  - intros HK. rewrite HK, andb_false_r. auto.
Qed.

Lemma same_iff a b : same a b = true <-> a = b.
Proof. apply bool_decide_eq_true. Qed.

Lemma same_false a b : a <> b -> same a b = false.
Proof. intros. by apply bool_decide_eq_false. Qed.

Lemma same_refl a : same a a = true.
Proof. by apply same_iff. Qed.

(** Replacing the record of one user. *)
Lemma follows_user it hist c p user rec :
  follows it hist p -> (forall role perm, role_grants (c :: hist) role perm = role_grants hist role perm) ->
  (forall u, u <> user -> known_user (c :: hist) u = known_user hist u /\
    (forall role, holds_role (c :: hist) u role = holds_role hist u role) /\
    password_of it (c :: hist) u = password_of it hist u) ->
  known_user (c :: hist) user = true ->
  (forall role, role ∈ ur_roles rec <-> holds_role (c :: hist) user role = true) ->
  ur_cred rec = snd <$> password_of it (c :: hist) user ->
  follows it (c :: hist) (set_users p (<[user := rec]> (p_users p))).
Proof.
  intros [HI HR HK HH HC] EG EU HN HHo HCr. split; cbn [set_users p_iterations p_roles p_users].
  - done.
  - intros role perm. rewrite EG. apply HR.
  - intros u. destruct (decide (u = user)) as [->|Hne]; [by rewrite lookup_insert_eq|].
    rewrite lookup_insert_ne by done. destruct (EU u Hne) as (-> & _). apply HK.
  - intros u r role. destruct (decide (u = user)) as [->|Hne]; [rewrite lookup_insert_eq; intros [= <-]; apply HHo|].
    rewrite lookup_insert_ne by done. destruct (EU u Hne) as (_ & -> & _). apply HH.
  - intros u r. destruct (decide (u = user)) as [->|Hne]; [by rewrite lookup_insert_eq; intros [= <-]|].
    rewrite lookup_insert_ne by done. destruct (EU u Hne) as (_ & _ & ->). apply HC.
Qed.

(** A call that changes nothing the history says. *)
Lemma follows_skip it hist c p : follows it hist p ->
  (forall role perm, role_grants (c :: hist) role perm = role_grants hist role perm) ->
  (forall u, known_user (c :: hist) u = known_user hist u /\
    (forall role, holds_role (c :: hist) u role = holds_role hist u role) /\
    password_of it (c :: hist) u = password_of it hist u) -> follows it (c :: hist) p.
Proof.
  intros [HI HR HK HH HC] EG EU. split; [done|intros; rewrite EG; apply HR|..].
  - intros u. destruct (EU u) as (-> & _). apply HK.
  - intros u r role. destruct (EU u) as (_ & -> & _). apply HH.
  - intros u r. destruct (EU u) as (_ & _ & ->). apply HC.
Qed.

Lemma listed_iff a l : listed a l = true <-> a ∈ l.
Proof. apply bool_decide_eq_true. Qed.

Lemma known_false it hist p user : follows it hist p -> p_users p !! user = None -> known_user hist user = false.
Proof.
  intros HF HN. destruct (known_user hist user) eqn:E; [|done]. apply (fo_known _ _ _ HF) in E as [? E]. congruence.
Qed.

Lemma step_follows it hist p c : follows it hist p -> follows it (c :: hist) (policy_step c p).
Proof.
  intros HF. pose proof HF as [HI HR HK HH HC]. destruct c as [name perms|name roles|user role|user role|user pw r]; cbn [policy_step].
  - split; cbn [AddRole p_iterations p_roles p_users]; [done| |done..]. intros role perm. cbn [role_grants].
    destruct (decide (name = role)) as [->|Hne].
    + rewrite lookup_insert_eq, same_refl, listed_iff. cbn. apply elem_of_list_to_set.
    + rewrite lookup_insert_ne, same_false by done. apply HR.
  - unfold AddUser. apply (follows_user it hist); [done|done| | | |]; cbn [known_user holds_role password_of].
    + intros u Hne. rewrite same_false by done. split_and!; done.
    + by rewrite same_refl.
    + intros role. rewrite same_refl, listed_iff. cbn. apply elem_of_list_to_set.
    + cbn. destruct (p_users p !! name) as [rec|] eqn:E; [by apply HC in E|]. cbn.
      by rewrite unknown_password by (by eapply known_false).
  - unfold Grant. destruct (p_users p !! user) as [rec|] eqn:E.
    + assert (known_user hist user = true) as HKu by (apply HK; by eexists).
      apply (follows_user it hist); [done|done| |done| |by apply HC in E]; cbn [known_user holds_role password_of].
      * intros u Hne. split_and!; [done| |done]. intros r'. by rewrite same_false by done.
      * intros r'. rewrite same_refl. cbn [andb ur_roles]. rewrite elem_of_union, elem_of_singleton.
        destruct (decide (role = r')) as [->|Hne]; [rewrite same_refl; naive_solver|]. rewrite same_false by done.
        rewrite (HH _ _ _ E). naive_solver.
    + pose proof (known_false _ _ _ _ HF E) as HKf. apply follows_skip; [done|done|]. intros u. split_and!; [done| |done].
      intros r'. cbn [holds_role]. destruct (same user u) eqn:ES; [|done]. apply same_iff in ES as ->.
      destruct (same role r'); [|done]. cbn. rewrite HKf. symmetry. by apply unknown_holds.
  - unfold Revoke. destruct (p_users p !! user) as [rec|] eqn:E.
    + assert (known_user hist user = true) as HKu by (apply HK; by eexists).
      apply (follows_user it hist); [done|done| |done| |by apply HC in E]; cbn [known_user holds_role password_of].
      * intros u Hne. split_and!; [done| |done]. intros r'. by rewrite same_false by done.
      * intros r'. rewrite same_refl. cbn [andb ur_roles]. rewrite elem_of_difference, elem_of_singleton.
        destruct (decide (role = r')) as [->|Hne]; [rewrite same_refl; naive_solver|]. rewrite same_false by done.
        rewrite (HH _ _ _ E). naive_solver.
    + pose proof (known_false _ _ _ _ HF E) as HKf. apply follows_skip; [done|done|]. intros u. split_and!; [done| |done].
      intros r'. cbn [holds_role]. destruct (same user u) eqn:ES; [|done]. apply same_iff in ES as ->.
      destruct (same role r'); [|done]. cbn. symmetry. by apply unknown_holds.
  - unfold SetPassword. rewrite HI. destruct (hashPassword pw it r) as [x r'] eqn:EP.
    assert (HS : (forall c, x = Ok c -> known_user hist user = true -> False) -> follows it (CSetPassword user pw r :: hist) p).
    { intros HN. apply follows_skip; [done|done|]. intros u. split_and!; [done|done|]. cbn [password_of].
      destruct (same user u) eqn:ES; [|done]. apply same_iff in ES as ->. destruct (known_user hist u) eqn:EK; [|done]. cbn.
      rewrite EP. cbn. destruct x as [c| |]; [|done|done]. by destruct (HN c). }
    destruct x as [cred|e|]; [|apply HS; done|apply HS; done]. cbn [fst].
    destruct (p_users p !! user) as [rec|] eqn:E; [|apply HS; intros ? _ HKt; by rewrite (known_false _ _ _ _ HF E) in HKt].
    assert (known_user hist user = true) as HKu by (apply HK; by eexists).
    apply (follows_user it hist); [done|done| |done|intros; by apply (HH _ _ _ E)|]; cbn [known_user holds_role password_of].
    + intros u Hne. split_and!; [done|done|]. by rewrite same_false by done.
    + rewrite same_refl, HKu. cbn. by rewrite EP.
Qed.

Lemma new_follows opts r p r' : NewPolicy opts r = (p, r') -> follows (p_iterations p) [] p.
Proof.
  unfold NewPolicy. destruct (hashPassword _ _ _) as [d r1]. intros [= <- <-]. split; cbn; [done|..].
  - intros role perm. rewrite lookup_empty. cbn. set_solver.
  - intros user. rewrite lookup_empty. split; [by intros []|done].
  - intros user rec role. by rewrite lookup_empty.
  - intros user rec. by rewrite lookup_empty.
Qed.

Lemma step_dummy c p : p_dummy (policy_step c p) = p_dummy p.
Proof.
  destruct c as [| |u role|u role|u pw r]; cbn; [done|done|unfold Grant; by destruct (p_users p !! u)|
    unfold Revoke; by destruct (p_users p !! u)|].
  unfold SetPassword. destruct (hashPassword _ _ _) as [[c|e|] r']; cbn; [by destruct (p_users p !! u)|done|done].
Qed.

Lemma run_follows it p hist : follows it [] p -> follows it hist (policy_run p hist).
Proof. intros HF. induction hist as [|c hist IH]; [done|]. by apply step_follows. Qed.

Lemma Can_iff it hist p user perm : follows it hist p ->
  Can p user perm = true <-> exists role granted, holds_role hist user role = true /\ role_grants hist role granted = true /\ covers granted perm.
Proof.
  intros HF. unfold Can. destruct (p_users p !! user) as [rec|] eqn:E.
  - rewrite existsb_exists. split.
    + intros (role & Hin & HE). apply existsb_exists in HE as (g & Hg & HM). exists role, g.
      apply list_elem_of_In, elem_of_elements in Hin, Hg.
      split_and!; [by apply (fo_holds _ _ _ HF _ _ _ E)|by apply (fo_roles _ _ _ HF)|by apply permMatch_covers].
    + intros (role & g & HH & HG & HC). exists role. split.
      * apply list_elem_of_In, elem_of_elements. by apply (fo_holds _ _ _ HF _ _ _ E).
      * apply existsb_exists. exists g. split; [|by apply permMatch_covers].
        apply list_elem_of_In, elem_of_elements. by apply (fo_roles _ _ _ HF).
  - split; [done|]. intros (role & g & HH & _). by rewrite (unknown_holds _ _ _ (known_false _ _ _ _ HF E)) in HH.
Qed.
End History.

(** ** Credentials verify the password they were made from *)

Section Credentials.
Context `{KDFLaws}.

Lemma hashPassword_Ok pw it r c r' : hashPassword pw it r = (Ok c, r') ->
  0 < cr_Iterations c /\ len (cr_Hash c) = keyLen /\
  pbkdf2_Key pw (cr_Salt c) (cr_Iterations c) keyLen = Some (cr_Hash c).
Proof.
  unfold hashPassword, hashPasswordRand. destruct (ReadFull saltLen r) as [[salt|e|] r1]; [|done|done].
  set (n := if it <=? 0 then DefaultIterations else it).
  destruct (pbkdf2_Key pw salt n keyLen) as [h|] eqn:E; [|done]. intros [= <- <-]. cbn.
  split_and!; [|by eapply kdf_len|done]. unfold n, DefaultIterations. destruct (Z.leb_spec it 0); lia.
Qed.

Lemma Verify_iff pw pw0 it r c r' : hashPassword pw0 it r = (Ok c, r') ->
  fst (Verify c pw) = true <->
  pbkdf2_Key pw (cr_Salt c) (cr_Iterations c) keyLen = pbkdf2_Key pw0 (cr_Salt c) (cr_Iterations c) keyLen.
Proof.
  intros HP. destruct (hashPassword_Ok _ _ _ _ _ HP) as (HI & HL & HK). unfold Verify. rewrite HL, HK.
  destruct (Z.eqb_spec keyLen 0); [done|]. destruct (Z.leb_spec (cr_Iterations c) 0); [lia|]. cbn [orb].
  destruct (pbkdf2_Key pw _ _ _) as [got|]; [|done]. cbn [fst]. rewrite bool_decide_eq_true. naive_solver.
Qed.

(** A credential costs one derivation at the work factor it was made with. *)
Lemma Verify_work pw pw0 it r c r' : 0 < it -> hashPassword pw0 it r = (Ok c, r') -> snd (Verify c pw) = [(it, keyLen)].
Proof.
  intros Hit HP. destruct (hashPassword_Ok _ _ _ _ _ HP) as (HI & HL & _).
  assert (cr_Iterations c = it) as HC.
  { revert HP. unfold hashPassword, hashPasswordRand. destruct (Z.leb_spec it 0); [lia|]. destruct (ReadFull saltLen r) as [[salt|e|] r1]; [|done|done].
    destruct (pbkdf2_Key pw0 salt it keyLen); [|done]. by intros [= <- <-]. }
  unfold Verify. rewrite HL, HC. destruct (Z.eqb_spec keyLen 0); [done|]. destruct (Z.leb_spec it 0); [lia|]. cbn [orb]. by destruct (pbkdf2_Key pw _ _ _).
Qed.

Lemma NewPolicy_iterations opts r : 0 < p_iterations (fst (NewPolicy opts r)).
Proof.
  unfold NewPolicy. set (it := fold_left _ opts DefaultIterations). assert (0 < it).
  { unfold it. assert (0 < DefaultIterations) as HD by done. revert HD. generalize DefaultIterations. induction opts as [|n opts IH]; intros cur HC; [done|].
    cbn. apply IH. unfold WithIterations. by destruct (Z.ltb_spec 0 n). }
  by destruct (hashPassword [] it r).
Qed.

(** The dummy credential, when there is randomness and the derivation works. *)
Lemma NewPolicy_dummy opts r : saltLen <= len r ->
  is_Some (pbkdf2_Key [] (take (Z.to_nat saltLen) r) (p_iterations (fst (NewPolicy opts r))) keyLen) ->
  exists d r', p_dummy (fst (NewPolicy opts r)) = Some d /\ hashPassword [] (p_iterations (fst (NewPolicy opts r))) r = (Ok d, r').
Proof.
  pose proof (NewPolicy_iterations opts r) as HI. revert HI. unfold NewPolicy. set (it := fold_left _ opts DefaultIterations).
  assert (p_iterations (fst (let '(d, r0) := hashPassword [] it r in (mkPolicy ∅ ∅ it match d with Ok d0 => Some d0 | _ => None end, r0))) = it) as ->
    by by destruct (hashPassword [] it r).
  intros HI HL [key HK]. unfold hashPassword, hashPasswordRand. destruct (Z.leb_spec it 0); [lia|].
  unfold ReadFull. change (saltLen <=? 0) with false. cbn iota. destruct (Z.leb_spec saltLen (len r)); [|lia]. rewrite HK. by eexists _, _.
Qed.

Lemma run_dummy p0 hist : p_dummy (policy_run p0 hist) = p_dummy p0.
Proof. induction hist as [|c hist IH]; [done|]. cbn [policy_run foldr]. fold (policy_run p0 hist). rewrite <- IH. apply step_dummy. Qed.

Lemma password_of_hash it hist user pw c : password_of it hist user = Some (pw, c) ->
  exists r r', hashPassword pw it r = (Ok c, r').
Proof.
  induction hist as [|e hist IH]; [done|]. destruct e; cbn; auto. destruct (_ && _); [|by auto].
  destruct (hashPassword password it r) as [[x|x|] r'] eqn:E; cbn; [|by auto..]. intros [= <- <-]. by exists r, r'.
Qed.

(** C7: access control follows the history.  Given a key derivation whose keys have
    the length asked for, after any sequence of calls on a new policy: a user may do an action exactly when a role it holds (by the last
    call that adds the user, grants or revokes) has, in its last definition, a
    permission that covers the action; a password is accepted exactly when the
    key derived from it is that of the last password set for the user, in
    particular that password is; provided the policy was made with sixteen random
    bytes at hand and a key derivation that works, so that it has a credential to
    check unknown users against, an authentication takes one key derivation, of
    the policy's iterations and of the same key length, whoever the user is and
    whether or not it exists or has a password; and the roles listed are those
    held, sorted. *)
Theorem policy_exact opts r hist :
  let p0 := fst (NewPolicy opts r) in
  let p := policy_run p0 hist in
  (forall user perm, Can p user perm = true <->
     exists role granted, holds_role hist user role = true /\ role_grants hist role granted = true /\ covers granted perm) /\
  (forall user pw, fst (Authenticate p user pw) = true <->
     exists pw0 c, password_of (p_iterations p0) hist user = Some (pw0, c) /\
       pbkdf2_Key pw (cr_Salt c) (cr_Iterations c) keyLen = pbkdf2_Key pw0 (cr_Salt c) (cr_Iterations c) keyLen) /\
  (saltLen <= len r -> is_Some (pbkdf2_Key [] (take (Z.to_nat saltLen) r) (p_iterations p0) keyLen) ->
     forall user pw, snd (Authenticate p user pw) = [(p_iterations p0, keyLen)]) /\
  (forall user, known_user hist user = true -> exists roles, Roles p user = Ok roles /\
     Sorted bytes_le roles /\ NoDup roles /\ forall role, role ∈ roles <-> holds_role hist user role = true).
Proof.
  cbv zeta. destruct (NewPolicy opts r) as [p0 r'] eqn:E0. cbn [fst].
  pose proof (run_follows _ _ hist (new_follows _ _ _ _ E0)) as HF. set (p := policy_run p0 hist) in *.
  split_and!; [intros; by eapply Can_iff|..].
  - intros user pw. unfold Authenticate. destruct (p_users p !! user) as [rec|] eqn:E; cbn.
    + rewrite (fo_cred _ _ _ HF _ _ E). destruct (password_of _ hist user) as [[pw0 c]|] eqn:EP; cbn.
      * destruct (password_of_hash _ _ _ _ _ EP) as (r1 & r2 & HP). rewrite (Verify_iff _ _ _ _ _ _ HP). naive_solver.
      * destruct (p_dummy p) as [d|]; [destruct (Verify d pw)|]; (split; [done|]; by intros (? & ? & ? & _)).
    + destruct (p_dummy p) as [d|]; [destruct (Verify d pw)|]; (split; [done|]); intros (? & ? & HP & _);
      by rewrite (unknown_password _ _ _ (known_false _ _ _ _ HF E)) in HP.
  - intros HRnd HKey user pw. pose proof (NewPolicy_iterations opts r) as HI. pose proof (NewPolicy_dummy opts r HRnd) as HD. rewrite E0 in HI, HD. cbn [fst] in HI, HD.
    destruct (HD HKey) as (d & r1 & HPd & HHd). unfold Authenticate. destruct (p_users p !! user) as [rec|] eqn:E; cbn [mbind option_bind].
    + rewrite (fo_cred _ _ _ HF _ _ E). destruct (password_of _ hist user) as [[pw0 c]|] eqn:EP; cbn.
      * destruct (password_of_hash _ _ _ _ _ EP) as (r2 & r3 & HP). by eapply Verify_work.
      * unfold p. rewrite run_dummy, HPd. pose proof (Verify_work pw _ _ _ _ _ HI HHd) as HW. by destruct (Verify d pw).
    + unfold p. rewrite run_dummy, HPd. pose proof (Verify_work pw _ _ _ _ _ HI HHd) as HW. by destruct (Verify d pw).
  - intros user HK. apply (fo_known _ _ _ HF) in HK as [rec E]. unfold Roles. rewrite E. eexists. split; [done|]. split_and!.
    + apply Sorted_merge_sort. apply _.
    + rewrite merge_sort_Permutation. apply NoDup_elements.
    + intros role. rewrite merge_sort_Permutation, elem_of_elements. apply (fo_holds _ _ _ HF _ _ _ E).
Qed.
End Credentials.

(** A stand-in for PBKDF2 that satisfies the law. *)
Definition toy_kdf : KDF := fun password salt iterations n =>
  if n <? 0 then None else Some (take (Z.to_nat n) (password ++ salt ++ replicate (Z.to_nat n) x00)).

Lemma policy_exact_witness :
  let hist := [CGrant (go "ada") (go "ops"); CSetPassword (go "ada") (go "s3cret") (replicate 16 x01);
               CAddUser (go "ada") [go "viewer"]; CAddRole (go "ops") [go "tx:*"]] in
  let p := @policy_run toy_kdf (fst (@NewPolicy toy_kdf [1000] (replicate 16 x00))) hist in
  Can p (go "ada") (go "tx:reverse") = true /\ fst (@Authenticate toy_kdf p (go "ada") (go "s3cret")) = true /\
  snd (@Authenticate toy_kdf p (go "eve") (go "s3cret")) = [(1000, 32)].
Proof.
  assert (@KDFLaws toy_kdf) as HL.
  { intros pw salt it n key. unfold pbkdf2_Key, toy_kdf. destruct (Z.ltb_spec n 0); [discriminate|].
    intros [= <-]. unfold len. rewrite length_take, !length_app, length_replicate. lia. }
  intros hist p. destruct (policy_exact (H := toy_kdf) [1000] (replicate 16 x00) hist) as (HC & HA & HD & _).
  split; [|split].
  - apply HC. exists (go "ops"), (go "tx:*"). split; [vm_compute; reflexivity|]. split; [vm_compute; reflexivity|].
    right. right. exists (go "tx"), (go "reverse"). split; reflexivity.
  - apply HA. eexists _, _. split; [vm_compute; reflexivity|]. reflexivity.
  - apply HD; [vm_compute; discriminate|vm_compute; eexists; reflexivity].
Defined.
