(* ===== verification/Describe.v ===== *)
(** * Diagnostic rendering ([iso8583/describe.go], [iso8583/view.go])

    The renderer reads a message through the interface [View]; here a view is
    the tree of what its methods return: the schema, the bitmap, the MTI, and
    the fields (or, for a TLV sub-message, the tags) with their values, each
    composite value with the view of its child.  [view_of] reads that tree from
    a message of the store.  Text is UTF-8 bytes; [fmt] pads by runes. *)

From S2P Require Import Prelude Errors Strconv Bitmap Decimal Path Schema BitmapCodec Value Message Engine Access.

(** ** Runes ([unicode/utf8]) *)

Definition runeError : Z := 0xFFFD.

Definition in_bytes (lo hi : Z) (b : byte) : bool := (lo <=? bz b) && (bz b <=? hi).
Definition cont_bits (b : byte) : Z := bz b - 0x80.

(** The first rune of a text and the bytes it takes; an invalid sequence is one
    byte. *)
Definition decode_rune (b0 : byte) (rest : bytes) : Z * nat :=
  let x := bz b0 in
  if x <? 0x80 then (x, 1%nat) else
  match rest with
  | b1 :: rest1 =>
      if (0xC2 <=? x) && (x <=? 0xDF) then
        if in_bytes 0x80 0xBF b1 then ((x - 0xC0) * 64 + cont_bits b1, 2%nat) else (runeError, 1%nat)
      else
      match rest1 with
      | b2 :: rest2 =>
          if (0xE0 <=? x) && (x <=? 0xEF) then
            if in_bytes (if x =? 0xE0 then 0xA0 else 0x80) (if x =? 0xED then 0x9F else 0xBF) b1 && in_bytes 0x80 0xBF b2
            then ((x - 0xE0) * 4096 + cont_bits b1 * 64 + cont_bits b2, 3%nat) else (runeError, 1%nat)
          else
          match rest2 with
          | b3 :: _ =>
              if (0xF0 <=? x) && (x <=? 0xF4) then
                if in_bytes (if x =? 0xF0 then 0x90 else 0x80) (if x =? 0xF4 then 0x8F else 0xBF) b1
                   && in_bytes 0x80 0xBF b2 && in_bytes 0x80 0xBF b3
                then ((x - 0xF0) * 262144 + cont_bits b1 * 4096 + cont_bits b2 * 64 + cont_bits b3, 4%nat)
                else (runeError, 1%nat)
              else (runeError, 1%nat)
          | [] => (runeError, 1%nat)
          end
      | [] => (runeError, 1%nat)
      end
  | [] => (runeError, 1%nat)
  end.

(** The runes of a text with their widths; the length is fuel enough, as each
    rune takes a byte or more. *)
Fixpoint runes_n (n : nat) (s : bytes) : list (Z * nat * byte) :=
  match n, s with
  | S n, b :: rest => let '(r, w) := decode_rune b rest in (r, w, b) :: runes_n n (drop w s)
  | _, _ => []
  end.
Definition runes (s : bytes) : list (Z * nat * byte) := runes_n (length s) s.

Definition encode_rune (r : Z) : bytes :=
  if r <? 0x80 then [zb r]
  else if r <? 0x800 then [zb (0xC0 + r / 64); zb (0x80 + r mod 64)]
  else if r <? 0x10000 then [zb (0xE0 + r / 4096); zb (0x80 + (r / 64) mod 64); zb (0x80 + r mod 64)]
  else [zb (0xF0 + r / 262144); zb (0x80 + (r / 4096) mod 64); zb (0x80 + (r / 64) mod 64); zb (0x80 + r mod 64)].

Definition displayWidth (s : bytes) : Z := len (runes s).

Definition truncate (s : bytes) (w : Z) : bytes :=
  let r := runes s in
  if len r <=? w then s else
  if w <=? 1 then mjoin ((fun x => encode_rune x.1.1) <$> take (Z.to_nat w) r)
  else mjoin ((fun x => encode_rune x.1.1) <$> take (Z.to_nat (w - 1)) r) ++ go "…".

(** [strings.Repeat] and the verb [%-*s]. *)
Definition Repeat (s : bytes) (n : Z) : bytes := mjoin (replicate (Z.to_nat n) s).
Definition pad_right (w : Z) (s : bytes) : bytes := s ++ Repeat (go " ") (w - displayWidth s).

(** ** Hexadecimal *)

Definition hexUpper (b : bytes) : bytes := ToUpper (hex_encode b).

(** ** Masks *)

Inductive maskKind := maskNone | maskPAN | maskFull.

#[export] Instance maskKind_EqDecision : EqDecision maskKind.
Proof. solve_decision. Defined.

Definition sensitiveDE (de : Z) : maskKind :=
  if de =? 2 then maskPAN
  else if (de =? 35) || (de =? 36) || (de =? 45) || (de =? 52) then maskFull
  else maskNone.

Definition sensitiveTag (tag : bytes) : maskKind :=
  if bool_decide (tag = go "5A") then maskPAN
  else if bool_decide (tag = go "57") || bool_decide (tag = go "99") then maskFull
  else maskNone.

Record describeConfig := mkDescribeConfig {
  dc_unmask : bool;
  dc_raw : bool;
  dc_color : bool;
  dc_title : bytes;
}.

Definition DescribeOption : Type := describeConfig -> describeConfig.
Definition Unmasked : DescribeOption := fun c => mkDescribeConfig true (dc_raw c) (dc_color c) (dc_title c).
Definition WithRaw : DescribeOption := fun c => mkDescribeConfig (dc_unmask c) true (dc_color c) (dc_title c).
Definition WithTitle (s : bytes) : DescribeOption := fun c => mkDescribeConfig (dc_unmask c) (dc_raw c) (dc_color c) s.
Definition WithColor : DescribeOption := fun c => mkDescribeConfig (dc_unmask c) (dc_raw c) true (dc_title c).

Definition describe_resolve (opts : list DescribeOption) : describeConfig :=
  fold_left (fun c o => o c) opts (mkDescribeConfig false false false (go "ISO 8583 message")).

Definition ansi (code : bytes) : bytes := [zb 0x1b] ++ go "[" ++ code ++ go "m".
Definition ansiReset : bytes := ansi (go "0").
Definition ansiBold : bytes := ansi (go "1").
Definition ansiDim : bytes := ansi (go "2").
Definition ansiCyan : bytes := ansi (go "36").
Definition ansiGreen : bytes := ansi (go "32").

Definition paint (c : describeConfig) (code s : bytes) : bytes :=
  if negb (dc_color c) then s else code ++ s ++ ansiReset.

Definition de2mask (de : Z) (c : describeConfig) : maskKind := if dc_unmask c then maskNone else sensitiveDE de.
Definition tag2mask (tag : bytes) (c : describeConfig) : maskKind :=
  if dc_unmask c then maskNone else sensitiveTag (ToUpper tag).

Definition stars (n : Z) : bytes := if n <=? 0 then [] else Repeat (go "*") n.

Definition maskPANDigits (pan : bytes) : result bytes :=
  let n := len pan in
  if n <=? 4 then Ok pan
  else if n <=? 10 then let! tail := slice pan (n - 4) n in Ok (stars (n - 4) ++ tail)
  else let! head := slice pan 0 6 in let! tail := slice pan (n - 4) n in Ok (head ++ stars (n - 10) ++ tail).

(** ** Views *)

Inductive View : Type := mkView {
  vw_Schema : option Schema;
  vw_Bitmap : Bitmap;
  vw_MTI : option Value;
  vw_Fields : list (FieldPath * Node);
  vw_Tags : list (bytes * Node);
}
with Node : Type := mkNode { nd_value : Value; nd_child : option View }.

Definition view_isTLV (v : View) : bool := match vw_Schema v with Some s => s_isTLV s | None => false end.

Definition schemaID (v : View) : bytes := match vw_Schema v with Some s => s_id s | None => go "?" end.

Definition fieldName (s : option Schema) (de : Z) : bytes :=
  match s with None => [] | Some s => match Schema_Field s de with Some d => fd_Name d | None => [] end end.

Definition defName (d : option FieldDef) : bytes := match d with None => [] | Some d => fd_Name d end.

Definition head_DE (p : FieldPath) : Z := match fp_elems p with e :: _ => pe_N e | [] => 0 end.

Definition redacted (v : Value) : bytes := go "[redacted " ++ FormatInt (len (v_raw v)) ++ go "B]".

Definition compositeSummary (child : option View) : bytes :=
  match child with
  | None => go "{}"
  | Some c => go "{" ++ FormatInt (if view_isTLV c then len (vw_Tags c) else len (vw_Fields c)) ++ go " element(s)}"
  end.

Section Render.
(** [strconv.IsPrint] of runes from [0x80] on. *)
Context (isPrint : Z -> bool).

Definition hex_of (n : nat) (r : Z) : bytes := drop (16 - n) (hex_encode (be_put 8 r)).

(** [strconv.appendEscapedRune] for a double-quoted text. *)
Definition escape_rune (x : Z * nat * byte) : bytes :=
  let '(r, w, b) := x in
  if (w =? 1)%nat && (r =? runeError) then go "\x" ++ hex_of 2 (bz b)
  else if (r =? 34) || (r =? 92) then [zb 92; zb r]
  else if (if r <? 0x80 then (0x20 <=? r) && (r <? 0x7f) else isPrint r) then encode_rune r
  else if r =? 7 then go "\a" else if r =? 8 then go "\b" else if r =? 12 then go "\f"
  else if r =? 10 then go "\n" else if r =? 13 then go "\r" else if r =? 9 then go "\t" else if r =? 11 then go "\v"
  else if (r <? 0x20) || (r =? 0x7f) then go "\x" ++ hex_of 2 r
  else if r <? 0x10000 then go "\u" ++ hex_of 4 r
  else go "\U" ++ hex_of 8 r.

Definition Quote (s : bytes) : bytes := [zb 34] ++ mjoin (escape_rune <$> runes s) ++ [zb 34].

Definition display (v : Value) (mk : maskKind) (child : option View) : result bytes :=
  match mk with
  | maskPAN => match Value_String v with Ok s => maskPANDigits s | _ => Ok (redacted v) end
  | maskFull => Ok (redacted v)
  | maskNone =>
      match v_kind v with
      | KindAmount => match Value_Decimal v with Ok d => Ok (DString d) | _ => Ok (go "?") end
      | KindBytes => Ok (hexUpper (v_raw v))
      | KindComposite => Ok (compositeSummary child)
      | KindString => match Value_String v with Ok s => Ok (Quote s) | _ => Ok (hexUpper (v_raw v)) end
      | _ => match Value_String v with Ok s => Ok s | _ => Ok (hexUpper (v_raw v)) end
      end
  end.

(** ** Rows *)

Record descRow := mkRow { dr_key : bytes; dr_name : bytes; dr_value : bytes; dr_raw : bytes; dr_depth : Z }.

(** The loops over children, which may panic where [display] does. *)
Definition rows_of {A B} (f : A -> result (list B)) : list A -> result (list B) :=
  fix go l := match l with
              | [] => Ok []
              | a :: l => let! r := f a in let! rs := go l in Ok (r ++ rs)
              end.

Fixpoint appendRow (c : describeConfig) (key name : bytes) (mk : maskKind) (depth : Z) (n : Node) {struct n} : result (list descRow) :=
  match n with
  | mkNode v (Some child) =>
      let! rows := appendChildren c key (depth + 1) child in
      Ok (mkRow key name (compositeSummary (Some child)) [] depth :: rows)
  | mkNode v None =>
      let raw := if bool_decide (mk = maskNone) then hexUpper (v_raw v) else go "[redacted]" in
      let! value := display v mk None in
      Ok [mkRow key name value raw depth]
  end
with appendChildren (c : describeConfig) (prefix : bytes) (depth : Z) (child : View) {struct child} : result (list descRow) :=
  match child with
  | mkView (Some s) _ _ fields tags =>
      if s_isTLV s then
        rows_of (fun p => appendRow c (prefix ++ go "." ++ p.1) (defName (LookupTag s p.1)) (tag2mask p.1 c) depth p.2) tags
      else
        rows_of (fun p => appendRow c (prefix ++ go "." ++ path_String p.1) (fieldName (Some s) (head_DE p.1)) maskNone depth p.2) fields
  | mkView None _ _ fields _ =>
      rows_of (fun p => appendRow c (prefix ++ go "." ++ path_String p.1) (fieldName None (head_DE p.1)) maskNone depth p.2) fields
  end.

Definition collect (v : View) (c : describeConfig) : result (list descRow) :=
  rows_of (fun p => appendRow c (path_String p.1) (fieldName (vw_Schema v) (head_DE p.1)) (de2mask (head_DE p.1) c) 0 p.2)
    (vw_Fields v).

(** ** The dump *)

Definition maxNameWidth : Z := 40.

Definition bitmapHex (b : Bitmap) : bytes :=
  let n := if negb (Word b 2 =? 0) then 3 else if negb (Word b 1 =? 0) then 2 else 1 in
  mjoin ((fun i => hexUpper (be_put 8 (Word b i))) <$> seqZ 0 n).

Definition newline : bytes := [zb 10].

(** The calls of [Fprintf] and [Fprintln] for one row. *)
Definition row_chunks (c : describeConfig) (keyW nameW : Z) (r : descRow) : list bytes :=
  let name := truncate (Repeat (go "  ") (dr_depth r) ++ dr_name r) nameW in
  let key := paint c ansiCyan (pad_right keyW (dr_key r)) in
  [go "  " ++ key ++ go "  " ++ pad_right nameW name ++ go " = " ++ paint c ansiGreen (dr_value r)] ++
  (if dc_raw c && negb (bool_decide (dr_raw r = [])) then [go "  raw=" ++ paint c ansiDim (dr_raw r)] else []) ++
  [newline].

Definition mti_chunk (c : describeConfig) (v : View) : list bytes :=
  match vw_MTI v with
  | Some mti => match Value_String mti with Ok s => [go "  MTI     : " ++ paint c ansiBold s ++ newline] | _ => [] end
  | None => []
  end.

Definition column_widths (rows : list descRow) : Z * Z :=
  let keyW := fold_left (fun w r => Z.max w (len (dr_key r))) rows 2 in
  let nameW := fold_left (fun w r => Z.max w (dr_depth r * 2 + displayWidth (dr_name r))) rows 0 in
  (keyW, Z.min nameW maxNameWidth).

(** What [Describe] hands to its writer, call by call. *)
Definition describe_chunks (c : describeConfig) (v : View) : result (list bytes) :=
  let! rows := collect v c in
  let '(keyW, nameW) := column_widths rows in
  let bm := vw_Bitmap v in
  Ok ([paint c ansiBold (dc_title c) ++ go " · profile " ++ paint c ansiDim (schemaID v) ++ newline] ++
      mti_chunk c v ++
      [go "  bitmap  : " ++ bitmapHex bm ++ go "  " ++
         paint c ansiDim (go "(" ++ FormatInt (Count bm) ++ go " field(s) · " ++ BString bm ++ go ")") ++ newline;
       go "  " ++ paint c ansiDim (Repeat (go "─") (keyW + nameW + 6)) ++ newline] ++
      mjoin (row_chunks c keyW nameW <$> rows)).

(** [errWriter]: nothing is written after the first error. *)
Definition err_write {W E} (write : W -> bytes -> W * option E) (s : W * option E) (p : bytes) : W * option E :=
  match s.2 with Some _ => s | None => write s.1 p end.

Definition Describe {W E} (write : W -> bytes -> W * option E) (w : W) (v : View) (opts : list DescribeOption) :
    result (W * option E) :=
  let! chunks := describe_chunks (describe_resolve opts) v in
  Ok (fold_left (err_write write) chunks (w, None)).

(** A [strings.Builder] takes every write. *)
Definition build_write (w p : bytes) : bytes * option Empty_set := (w ++ p, None).

Definition Dump (v : View) (opts : list DescribeOption) : result bytes :=
  let! s := Describe build_write [] v opts in Ok s.1.

(** ** Structured logging *)

Inductive slogValue := slogString (s : bytes) | slogGroup (attrs : list (bytes * slogValue)).

Fixpoint logField (c : describeConfig) (mk : maskKind) (n : Node) {struct n} : result slogValue :=
  match n with
  | mkNode v (Some child) => let! sub := logChildren c child in Ok (slogGroup sub)
  | mkNode v None => let! s := display v mk None in Ok (slogString s)
  end
with logChildren (c : describeConfig) (child : View) {struct child} : result (list (bytes * slogValue)) :=
  match child with
  | mkView s _ _ fields tags =>
      if match s with Some s => s_isTLV s | None => false end then
        rows_of (fun p => let! x := logField c (tag2mask p.1 c) p.2 in Ok [(p.1, x)]) tags
      else rows_of (fun p => let! x := logField c maskNone p.2 in Ok [(path_String p.1, x)]) fields
  end.

Definition logValue (v : View) (c : describeConfig) : result slogValue :=
  let mti := match vw_MTI v with
             | Some mti => match Value_String mti with Ok s => [(go "mti", slogString s)] | _ => [] end
             | None => []
             end in
  let! fields := rows_of (fun p => let! x := logField c (de2mask (head_DE p.1) c) p.2 in
                                   Ok [(go "de" ++ FormatInt (head_DE p.1), x)]) (vw_Fields v) in
  Ok (slogGroup ([(go "schema", slogString (schemaID v))] ++ mti ++ fields)).

Definition LogValue (v : View) : result slogValue := logValue v (mkDescribeConfig false false false []).
Definition LogValuer (v : View) (opts : list DescribeOption) : result slogValue := logValue v (describe_resolve opts).
End Render.

(** [Message.String]. *)
Definition summary (v : View) : bytes :=
  let mti := match vw_MTI v with
             | Some mti => match Value_String mti with Ok s => s | _ => go "----" end
             | None => go "----"
             end in
  go "iso8583.Message{" ++ schemaID v ++ go " mti=" ++ mti ++ go " " ++ BString (vw_Bitmap v) ++ go "}".

(** ** Reading a view from the store *)

(** What [Schema], [Bitmap], [Get], [Fields] and [TagSeq] give for a message and,
    down to a depth, for the children of its composite values. *)
Fixpoint view_of (depth : nat) (l : loc) : ST View :=
  let* mti := Get l 0 in
  let* fields := Fields l in
  let* m := hget l in
  let node v :=
    match depth, Value_Composite v with
    | S depth, Some sub => let* c := view_of depth sub in sret (mkNode v (Some c))
    | _, _ => sret (mkNode v None)
    end in
  let each {K} := fix each (l : list (K * Value)) : ST (list (K * Node)) :=
    match l with
    | [] => sret []
    | (k, v) :: l => let* n := node v in let* ns := each l in sret ((k, n) :: ns)
    end in
  let* fields := each fields in
  let* tags := each (TagSeq m) in
  sret (mkView (m_schema m) (m_bm m) mti fields tags).

(** ** What may be shown *)

(** The secrecy of data elements and of EMV tags, as the comments of the code class
    them. *)
Definition secrecy_DE (de : Z) : maskKind :=
  if bool_decide (de ∈ [35; 36; 45; 52]) then maskFull else if bool_decide (de ∈ [2]) then maskPAN else maskNone.
Definition secrecy_tag (tag : bytes) : maskKind :=
  if bool_decide (ToUpper tag ∈ [go "57"; go "99"]) then maskFull
  else if bool_decide (ToUpper tag ∈ [go "5A"]) then maskPAN else maskNone.

(** What the mask leaves of an account number, counted in bytes: the last four,
    and the first six of more than ten.  They are digits where the account number
    is text; of one packed two digits to a byte (tag 5A) four bytes are eight
    digits ([emv_pan_shows_eight_digits]). *)
Definition hide_pan (s : bytes) : bytes :=
  let n := length s in
  if (n <=? 4)%nat then s
  else if (n <=? 10)%nat then replicate (n - 4) (zb 48) ++ drop (n - 4) s
  else take 6 s ++ replicate (n - 10) (zb 48) ++ drop (n - 4) s.

(** A value without what the mask of its class hides: only its size survives, or
    what is left of an account number. *)
Definition blank (v : Value) : Value := mkValue (replicate (length (v_raw v)) (zb 48)) KindInvalid None 0 None zeroDecimal.

Definition redact_value (mk : maskKind) (v : Value) : Value :=
  match mk with
  | maskNone => v
  | maskFull => blank v
  | maskPAN => match Value_String v with Ok s => StringValue (hide_pan s) | _ => blank v end
  end.

Fixpoint redact_node (mk : maskKind) (n : Node) {struct n} : Node :=
  match n with
  | mkNode v (Some child) => mkNode zeroValue (Some (redact_child child))
  | mkNode v None => mkNode (redact_value mk v) None
  end
with redact_child (c : View) {struct c} : View :=
  match c with
  | mkView s bm mti fields tags =>
      mkView s bm mti ((fun p => (p.1, redact_node maskNone p.2)) <$> fields)
        ((fun p => (p.1, redact_node (secrecy_tag p.1) p.2)) <$> tags)
  end.

Definition redact (v : View) : View :=
  mkView (vw_Schema v) (vw_Bitmap v) (vw_MTI v)
    ((fun p => (p.1, redact_node (secrecy_DE (head_DE p.1)) p.2)) <$> vw_Fields v) [].

(** ** Induction over views *)

Section Induction.
Context (P : Node -> Prop) (Q : View -> Prop).
Context (HLeaf : forall v, P (mkNode v None)) (HComp : forall v c, Q c -> P (mkNode v (Some c))).
Context (HView : forall s bm mti fields tags, Forall (fun p => P p.2) fields -> Forall (fun p => P p.2) tags ->
  Q (mkView s bm mti fields tags)).

Fixpoint node_view_ind (n : Node) : P n :=
  match n with
  | mkNode v None => HLeaf v
  | mkNode v (Some c) => HComp v c (view_node_ind c)
  end
with view_node_ind (c : View) : Q c :=
  match c with
  | mkView s bm mti fields tags =>
      HView s bm mti fields tags
        ((fix each l : Forall (fun p : FieldPath * Node => P p.2) l :=
            match l with [] => Forall_nil_2 _ | p :: l => Forall_cons_2 _ _ _ (node_view_ind p.2) (each l) end) fields)
        ((fix each l : Forall (fun p : bytes * Node => P p.2) l :=
            match l with [] => Forall_nil_2 _ | p :: l => Forall_cons_2 _ _ _ (node_view_ind p.2) (each l) end) tags)
  end.

Lemma view_induction : (forall n, P n) /\ (forall c, Q c).
Proof. split; [exact node_view_ind|exact view_node_ind]. Qed.
End Induction.

(** ** Masking *)

Lemma maskPAN_total s : exists m, maskPANDigits s = Ok m.
Proof.
  unfold maskPANDigits. pose proof (len_nonneg s). destruct (Z.leb_spec (len s) 4); [by eexists|].
  rewrite (slice_ok s (len s - 4)) by lia. destruct (Z.leb_spec (len s) 10); [by eexists|].
  rewrite slice_ok by lia. by eexists.
Qed.

Lemma length_hide s : length (hide_pan s) = length s.
Proof.
  unfold hide_pan. destruct (Nat.leb_spec (length s) 4); [done|]. destruct (Nat.leb_spec (length s) 10);
    rewrite ?length_app, ?length_take, ?length_replicate, ?length_drop; lia.
Qed.

Lemma maskPAN_hide s : maskPANDigits (hide_pan s) = maskPANDigits s.
Proof.
  unfold maskPANDigits, len. rewrite length_hide. destruct (Z.leb_spec (Z.of_nat (length s)) 4).
  - unfold hide_pan. by destruct (Nat.leb_spec (length s) 4); [|lia].
  - assert (drop (length s - 4) (hide_pan s) = drop (length s - 4) s) as HT.
    { unfold hide_pan. destruct (Nat.leb_spec (length s) 4); [done|]. destruct (Nat.leb_spec (length s) 10).
      - rewrite drop_app_ge by (rewrite length_replicate; lia). rewrite length_replicate, drop_drop. f_equal. lia.
      - rewrite drop_app_ge by (rewrite length_take; lia). rewrite length_take, drop_app_ge by (rewrite length_replicate; lia).
        rewrite length_replicate, drop_drop. f_equal. lia. }
    assert (forall x : bytes, length x = length s -> slice (E:=error) x (Z.of_nat (length s) - 4) (Z.of_nat (length s)) = Ok (drop (length s - 4) x)) as HS.
    { intros x Hx. rewrite slice_ok by (unfold len; lia). f_equal. rewrite take_ge by (rewrite length_drop; lia). f_equal. lia. }
    rewrite !HS, HT by (rewrite ?length_hide; done). destruct (Z.leb_spec (Z.of_nat (length s)) 10); [done|].
    rewrite !slice_ok by (unfold len; rewrite ?length_hide; lia). cbn [rbind]. do 2 f_equal.
    change (Z.to_nat 0) with 0%nat. rewrite !drop_0. change (Z.to_nat (6 - 0)) with 6%nat.
    unfold hide_pan. destruct (Nat.leb_spec (length s) 4); [lia|]. destruct (Nat.leb_spec (length s) 10); [lia|].
    rewrite take_app_le by (rewrite length_take; lia). rewrite take_take. done.
Qed.

Lemma len_blank v : len (v_raw (blank v)) = len (v_raw v).
Proof. unfold len. cbn. by rewrite length_replicate. Qed.

Section Noninterference.
Context (isPrint : Z -> bool).

(** What is displayed of a scalar is a function of its redaction. *)
Lemma display_redact v mk child : display isPrint (redact_value mk v) mk child = display isPrint v mk child.
Proof.
  destruct mk; cbn [redact_value display]; [done| |].
  - destruct (Value_String v) as [s|e|] eqn:E; [apply maskPAN_hide|..];
      (assert (exists e', Value_String (blank v) = Err e') as (e' & ->) by (by eexists)); unfold redacted; by rewrite len_blank.
  - unfold redacted. by rewrite len_blank.
Qed.

Lemma row_redact c key name mk depth v :
  appendRow isPrint c key name mk depth (mkNode (redact_value mk v) None) = appendRow isPrint c key name mk depth (mkNode v None).
Proof. cbn [appendRow]. rewrite display_redact. by destruct mk. Qed.

Lemma rows_of_map {A A' B} (f : A -> result (list B)) (g : A' -> result (list B)) (h : A' -> A) l :
  Forall (fun a => f (h a) = g a) l -> rows_of f (h <$> l) = rows_of g l.
Proof. induction 1 as [|a l HA _ IH]; [done|]. cbn. rewrite HA. destruct (g a); [|done|done]. cbn. cbn in IH. by rewrite IH. Qed.

Lemma secrecy_DE_mask c de : dc_unmask c = false -> de2mask de c = secrecy_DE de.
Proof.
  intros HC. unfold de2mask, sensitiveDE, secrecy_DE. rewrite HC.
  destruct (Z.eqb_spec de 2) as [->|]; [done|]. rewrite (bool_decide_ext (de ∈ [2]) False) by set_solver.
  destruct (Z.eqb_spec de 35) as [->|]; [done|]. destruct (Z.eqb_spec de 36) as [->|]; [done|].
  destruct (Z.eqb_spec de 45) as [->|]; [done|]. destruct (Z.eqb_spec de 52) as [->|]; [done|]. cbn [orb].
  rewrite bool_decide_false by set_solver. done.
Qed.

Lemma secrecy_tag_mask c tag : dc_unmask c = false -> tag2mask tag c = secrecy_tag tag.
Proof.
  intros HC. unfold tag2mask, sensitiveTag, secrecy_tag. rewrite HC. generalize (ToUpper tag) as t. intros t.
  destruct (decide (t = go "5A")) as [->|]; [done|]. rewrite bool_decide_false by done.
  destruct (decide (t = go "57")) as [->|]; [done|]. destruct (decide (t = go "99")) as [->|]; [done|].
  rewrite !bool_decide_false by set_solver. done.
Qed.

Lemma summary_redact c : compositeSummary (Some (redact_child c)) = compositeSummary (Some c).
Proof. destruct c as [s bm mti fields tags]. unfold compositeSummary, view_isTLV. cbn. by rewrite !len_fmap. Qed.

Lemma rows_redact c : dc_unmask c = false ->
  (forall n key name mk depth, appendRow isPrint c key name mk depth (redact_node mk n) = appendRow isPrint c key name mk depth n) /\
  (forall v prefix depth, appendChildren isPrint c prefix depth (redact_child v) = appendChildren isPrint c prefix depth v).
Proof.
  intros HC. apply (view_induction
    (fun n => forall key name mk depth, appendRow isPrint c key name mk depth (redact_node mk n) = appendRow isPrint c key name mk depth n)
    (fun v => forall prefix depth, appendChildren isPrint c prefix depth (redact_child v) = appendChildren isPrint c prefix depth v)).
  - intros v key name mk depth. apply row_redact.
  - intros v child IH key name mk depth. cbn [redact_node appendRow]. by rewrite IH, summary_redact.
  - intros s bm mti fields tags HF HT prefix depth. cbn [redact_child appendChildren].
    assert (forall d, rows_of (fun p => appendRow isPrint c (prefix ++ go "." ++ path_String p.1) (fieldName d (head_DE p.1)) maskNone depth p.2)
        ((fun p => (p.1, redact_node maskNone p.2)) <$> fields) =
      rows_of (fun p => appendRow isPrint c (prefix ++ go "." ++ path_String p.1) (fieldName d (head_DE p.1)) maskNone depth p.2) fields) as HFe.
    { intros d. apply rows_of_map. eapply Forall_impl; [|exact HF]. intros [p n] Hn. cbn. apply Hn. }
    destruct s as [s|]; [|apply HFe]. destruct (s_isTLV s); [|apply HFe].
    apply rows_of_map. eapply Forall_impl; [|exact HT]. intros [tag n] Hn. cbn. rewrite secrecy_tag_mask by done. apply Hn.
Qed.

Lemma log_redact c : dc_unmask c = false ->
  (forall n mk, logField isPrint c mk (redact_node mk n) = logField isPrint c mk n) /\
  (forall v, logChildren isPrint c (redact_child v) = logChildren isPrint c v).
Proof.
  intros HC. apply (view_induction
    (fun n => forall mk, logField isPrint c mk (redact_node mk n) = logField isPrint c mk n)
    (fun v => logChildren isPrint c (redact_child v) = logChildren isPrint c v)).
  - intros v mk. cbn [redact_node logField]. by rewrite display_redact.
  - intros v child IH mk. cbn [redact_node logField]. by rewrite IH.
  - intros s bm mti fields tags HF HT. cbn [redact_child logChildren].
    destruct (match s with Some s => s_isTLV s | None => false end); apply rows_of_map.
    + eapply Forall_impl; [|exact HT]. intros [tag n] Hn. cbn. by rewrite secrecy_tag_mask, Hn by done.
    + eapply Forall_impl; [|exact HF]. intros [p n] Hn. cbn. by rewrite Hn.
Qed.

(** Rendering is total. *)
Lemma display_total v mk child : exists s, display isPrint v mk child = Ok s.
Proof.
  destruct mk; cbn [display]; [|destruct (Value_String v); [apply maskPAN_total|by eexists..]|by eexists].
  repeat case_match; by eexists.
Qed.

Lemma rows_of_total {A B} (f : A -> result (list B)) l : Forall (fun a => exists r, f a = Ok r) l -> exists rs, rows_of f l = Ok rs.
Proof.
  induction 1 as [|a l (r & HA) _ (rs & IH)]; [by eexists|]. cbn. rewrite HA. cbn. cbn in IH. rewrite IH. by eexists.
Qed.

Lemma rows_total c :
  (forall n key name mk depth, exists rows, appendRow isPrint c key name mk depth n = Ok rows) /\
  (forall v prefix depth, exists rows, appendChildren isPrint c prefix depth v = Ok rows).
Proof.
  apply (view_induction
    (fun n => forall key name mk depth, exists rows, appendRow isPrint c key name mk depth n = Ok rows)
    (fun v => forall prefix depth, exists rows, appendChildren isPrint c prefix depth v = Ok rows)).
  - intros v key name mk depth. cbn [appendRow]. destruct (display_total v mk None) as (s & ->). by eexists.
  - intros v child IH key name mk depth. cbn [appendRow]. destruct (IH key (depth + 1)) as (rows & ->). by eexists.
  - intros s bm mti fields tags HF HT prefix depth. cbn [appendChildren].
    destruct s as [s|]; [destruct (s_isTLV s)|]; apply rows_of_total; (eapply Forall_impl; [|eassumption]); intros [k n] Hn; apply Hn.
Qed.

Lemma collect_redact v c : dc_unmask c = false -> collect isPrint (redact v) c = collect isPrint v c.
Proof.
  intros HC. apply rows_of_map, list.Forall_forall. intros [p n] _. cbn. rewrite <- secrecy_DE_mask with (c := c) by done.
  by apply (rows_redact c HC).
Qed.

Lemma logValue_redact v c : dc_unmask c = false -> logValue isPrint (redact v) c = logValue isPrint v c.
Proof.
  intros HC. unfold logValue. cbn [redact vw_MTI vw_Schema vw_Fields schemaID]. f_equal.
  apply rows_of_map, list.Forall_forall. intros [p n] _. cbn. rewrite <- secrecy_DE_mask with (c := c) by done.
  by rewrite (proj1 (log_redact c HC)).
Qed.

Lemma Dump_redact v opts : dc_unmask (describe_resolve opts) = false -> Dump isPrint v opts = Dump isPrint (redact v) opts.
Proof. intros HC. unfold Dump, Describe, describe_chunks. by rewrite collect_redact. Qed.

Lemma Dump_total v opts : exists text, Dump isPrint v opts = Ok text.
Proof.
  unfold Dump, Describe, describe_chunks, collect.
  destruct (rows_of_total (fun p => appendRow isPrint (describe_resolve opts) (path_String p.1) (fieldName (vw_Schema v) (head_DE p.1))
      (de2mask (head_DE p.1) (describe_resolve opts)) 0 p.2) (vw_Fields v)) as (rows & ->).
  { apply list.Forall_forall. intros [p n] _. apply rows_total. }
  cbn [rbind]. destruct (column_widths rows). by eexists.
Qed.

(** C4: diagnostics show of the sensitive fields what the mask leaves, and no
    more.  Unless unmasking is asked for, the dump of a message and its structured
    log entry, with or without raw bytes and colours, are those of its redaction:
    the same message in which track and PIN data are reduced to their size, and
    the bytes of an account number to the last four (and the first six, when
    there are more than ten; all, when there are at most four), at the top level
    and in EMV data at every depth.  The mask counts bytes, as the code does: of
    an account number held as text these are digits, of tag 5A in EMV data, where
    a byte holds two, the last four bytes are eight digits, more than the comment
    on the mask promises.  So two messages that differ only in what the redaction
    removes are rendered alike; and rendering never panics. *)
Theorem describe_masks v opts : dc_unmask (describe_resolve opts) = false ->
  Dump isPrint v opts = Dump isPrint (redact v) opts /\ LogValuer isPrint v opts = LogValuer isPrint (redact v) opts /\
  LogValue isPrint v = LogValue isPrint (redact v) /\ summary v = summary (redact v) /\
  exists text, Dump isPrint v opts = Ok text.
Proof.
  intros HC. split_and!; [by apply Dump_redact|unfold LogValuer; by rewrite logValue_redact|unfold LogValue; by rewrite logValue_redact|done|apply Dump_total].
Qed.
End Noninterference.

(** Two card payments that differ in the secret digits of the PAN and in the
    track data. *)
Definition payment (pan track : bytes) : View :=
  mkView None empty_bitmap (Some (NumericValue (go "0200")))
    [(DE 2, mkNode (NumericValue pan) None); (DE 4, mkNode (AmountValue (mkDecimal 1099 2) (go "1099")) None);
     (DE 35, mkNode (StringValue track) None)] [].

Lemma describe_masks_witness :
  let shown := Dump (fun _ => true) (payment (go "4111111111111111") (go "4111111111111111D2512")) [] in
  shown = Dump (fun _ => true) (payment (go "4111119876541111") (go "9999999999999999D0000")) [] /\
  exists text, shown = Ok text.
Proof.
  destruct (describe_masks (fun _ => true) (payment (go "4111111111111111") (go "4111111111111111D2512")) [] eq_refl)
    as (H1 & _ & _ & _ & H2).
  destruct (describe_masks (fun _ => true) (payment (go "4111119876541111") (go "9999999999999999D0000")) [] eq_refl)
    as (H3 & _). cbv zeta. split; [|exact H2].
  transitivity (Dump (fun _ => true) (redact (payment (go "4111111111111111") (go "4111111111111111D2512"))) []); [exact H1|].
  transitivity (Dump (fun _ => true) (redact (payment (go "4111119876541111") (go "9999999999999999D0000"))) []); [|symmetry; exact H3].
  vm_compute. reflexivity.
Defined.

(** A PAN in EMV data is packed two digits to a byte, and the mask counts bytes:
    of a 16-digit PAN (tag 5A, 8 bytes) the last eight digits are shown. *)
Lemma emv_pan_shows_eight_digits isPrint b1 b2 b3 b4 b5 b6 b7 b8 :
  display isPrint (BytesValue [b1; b2; b3; b4; b5; b6; b7; b8]) (tag2mask (go "5A") (describe_resolve [])) None =
    Ok (go "****" ++ [b5; b6; b7; b8]).
Proof. reflexivity. Qed.
