(* ===== verification/Pool.v ===== *)
(** * The connection pool ([link/pool.go])

    A pool keeps a fixed number of slots; goroutines of the pool dial for the
    empty ones, callers take links round robin, give broken ones back and close
    the pool.  A link is the number of the dial that made it.  The goroutines,
    and the callers inside [Discard] and [Close], are jobs; a step runs one job
    up to its next visible action (a lock section, a channel test, a dial, a
    timer), so every interleaving is a sequence of steps. *)

From S2P Require Import Prelude.

Inductive pool_error := ErrNoHealthy | ErrPoolClosed.

(** Where a reconnecting goroutine stands. *)
Inductive redial :=
| Checking        (* the [select] at the top of the loop *)
| Dialing         (* about to call [dial] *)
| Dialed (l : nat) (* holds a new link, about to take the lock *)
| Sleeping.       (* waits for the timer *)

Inductive job :=
| Filling (i : nat)                           (* [NewPool], about to dial for slot [i] *)
| Removing (l : nat)                          (* [Discard], the link closed, about to take the lock *)
| Spawning (i : nat)                          (* [Discard], slot [i] cleared, about to start a goroutine *)
| Redialing (i : nat) (p : redial) (backoff : Z) (* the goroutine of [reconnect] *)
| Getting                                     (* [Get], [done] tested, about to take the lock *)
| Sweeping                                    (* [Close], [done] closed, about to take the lock *)
| Waiting.                                    (* [Close], in [wg.Wait] *)

Record Pool := mkPool {
  pl_slots : list (option nat);
  pl_next : nat;
  pl_done : bool;
  pl_jobs : list job;
  pl_dialed : nat;            (* links made so far *)
  pl_closed : gset nat;       (* links closed so far *)
  pl_returned : bool;         (* some [Close] has returned *)
}.

Definition set_jobs (p : Pool) (js : list job) : Pool :=
  mkPool (pl_slots p) (pl_next p) (pl_done p) js (pl_dialed p) (pl_closed p) (pl_returned p).
Definition set_pl_slots (p : Pool) (ss : list (option nat)) : Pool :=
  mkPool ss (pl_next p) (pl_done p) (pl_jobs p) (pl_dialed p) (pl_closed p) (pl_returned p).
Definition set_done (p : Pool) : Pool :=
  mkPool (pl_slots p) (pl_next p) true (pl_jobs p) (pl_dialed p) (pl_closed p) (pl_returned p).
Definition set_returned (p : Pool) : Pool :=
  mkPool (pl_slots p) (pl_next p) (pl_done p) (pl_jobs p) (pl_dialed p) (pl_closed p) true.
Definition new_link (p : Pool) : Pool :=
  mkPool (pl_slots p) (pl_next p) (pl_done p) (pl_jobs p) (S (pl_dialed p)) (pl_closed p) (pl_returned p).
Definition link_Close (p : Pool) (l : nat) : Pool :=
  mkPool (pl_slots p) (pl_next p) (pl_done p) (pl_jobs p) (pl_dialed p) ({[l]} ∪ pl_closed p) (pl_returned p).

(** Job [k] becomes the jobs [js]. *)
Definition run_job (p : Pool) (k : nat) (js : list job) : Pool :=
  set_jobs p (take k (pl_jobs p) ++ js ++ drop (S k) (pl_jobs p)).
Definition add_job (p : Pool) (j : job) : Pool := set_jobs p (pl_jobs p ++ [j]).

(** ** Operations *)

(** The loop of [Get]: [rem] slots are left to try. *)
Fixpoint get_loop (slots : list (option nat)) (next tried rem : nat) : option (nat * nat) :=
  match rem with
  | O => None
  | S rem =>
      let n := length slots in
      let idx := ((next + tried) mod n)%nat in
      match slots !! idx with
      | Some (Some l) => Some (l, ((idx + 1) mod n)%nat)
      | _ => get_loop slots next (S tried) rem
      end
  end.

(** [Get] under the lock. *)
Definition get_locked (p : Pool) : res pool_error nat * Pool :=
  match get_loop (pl_slots p) (pl_next p) 0 (length (pl_slots p)) with
  | Some (l, next) =>
      (Ok l, mkPool (pl_slots p) next (pl_done p) (pl_jobs p) (pl_dialed p) (pl_closed p) (pl_returned p))
  | None => (Err ErrNoHealthy, p)
  end.

(** An uninterrupted [Get]. *)
Definition pool_Get (p : Pool) : res pool_error nat * Pool :=
  if pl_done p then (Err ErrPoolClosed, p) else get_locked p.

(** [for i, s := range p.slots { if s == l ...]: the first slot with the link. *)
Fixpoint slot_of (slots : list (option nat)) (l : nat) : option nat :=
  match slots with
  | [] => None
  | s :: slots => if bool_decide (s = Some l) then Some 0%nat else S <$> slot_of slots l
  end.

(** The sweep of [Close]. *)
Definition sweep (p : Pool) : Pool :=
  let p := fold_left (fun p s => match s with Some l => link_Close p l | None => p end) (pl_slots p) p in
  set_pl_slots p (replicate (length (pl_slots p)) None).

Section Steps.
(** [WithBackoff]. *)
Context (minBackoff maxBackoff : Z).

Definition reconnect (i : nat) : job := Redialing i Checking minBackoff.

(** [if backoff *= 2; backoff > p.maxBackoff]. *)
Definition next_backoff (b : Z) : Z := let b := wrap64 (b * 2) in if maxBackoff <? b then maxBackoff else b.

Definition is_redialing (j : job) : bool := match j with Redialing _ _ _ => true | _ => false end.
Definition is_filling (j : job) : bool := match j with Filling _ => true | _ => false end.

Definition NewPool (size : nat) : Pool := mkPool (replicate size None) 0 false [Filling 0] 0 ∅ false.

Inductive pool_step : Pool -> Pool -> Prop :=
(* [NewPool] fills the slots in turn. *)
| step_fill_ok p k i : pl_jobs p !! k = Some (Filling i) -> (i < length (pl_slots p))%nat ->
    pool_step p (run_job (new_link (set_pl_slots p (<[i := Some (pl_dialed p)]> (pl_slots p)))) k [Filling (S i)])
| step_fill_fail p k i : pl_jobs p !! k = Some (Filling i) -> (i < length (pl_slots p))%nat ->
    pool_step p (run_job p k [reconnect i; Filling (S i)])
| step_fill_end p k i : pl_jobs p !! k = Some (Filling i) -> (length (pl_slots p) <= i)%nat ->
    pool_step p (run_job p k [])
(* The goroutine of [reconnect]. *)
| step_check_done p k i b : pl_jobs p !! k = Some (Redialing i Checking b) -> pl_done p = true ->
    pool_step p (run_job p k [])
| step_check p k i b : pl_jobs p !! k = Some (Redialing i Checking b) -> pl_done p = false ->
    pool_step p (run_job p k [Redialing i Dialing b])
| step_dial_ok p k i b : pl_jobs p !! k = Some (Redialing i Dialing b) ->
    pool_step p (run_job (new_link p) k [Redialing i (Dialed (pl_dialed p)) b])
| step_dial_fail p k i b : pl_jobs p !! k = Some (Redialing i Dialing b) ->
    pool_step p (run_job p k [Redialing i Sleeping b])
| step_store_done p k i l b : pl_jobs p !! k = Some (Redialing i (Dialed l) b) -> pl_done p = true ->
    pool_step p (run_job (link_Close p l) k [])
| step_store p k i l b : pl_jobs p !! k = Some (Redialing i (Dialed l) b) -> pl_done p = false ->
    pool_step p (run_job (set_pl_slots p (<[i := Some l]> (pl_slots p))) k [])
| step_sleep_done p k i b : pl_jobs p !! k = Some (Redialing i Sleeping b) -> pl_done p = true ->
    pool_step p (run_job p k [])
| step_wake p k i b : pl_jobs p !! k = Some (Redialing i Sleeping b) ->
    pool_step p (run_job p k [Redialing i Checking (next_backoff b)])
(* Callers, once [NewPool] has returned. *)
| step_Get p : existsb is_filling (pl_jobs p) = false -> pl_done p = false -> pool_step p (add_job p Getting)
| step_get_locked p k : pl_jobs p !! k = Some Getting -> pool_step p (run_job (snd (get_locked p)) k [])
| step_Discard p l : existsb is_filling (pl_jobs p) = false -> (l < pl_dialed p)%nat ->
    pool_step p (add_job (link_Close p l) (Removing l))
| step_remove p k l i : pl_jobs p !! k = Some (Removing l) -> slot_of (pl_slots p) l = Some i ->
    pool_step p (run_job (set_pl_slots p (<[i := None]> (pl_slots p))) k [Spawning i])
| step_remove_none p k l : pl_jobs p !! k = Some (Removing l) -> slot_of (pl_slots p) l = None ->
    pool_step p (run_job p k [])
| step_spawn p k i : pl_jobs p !! k = Some (Spawning i) -> pool_step p (run_job p k [reconnect i])
| step_Close p : existsb is_filling (pl_jobs p) = false -> pool_step p (add_job (set_done p) Sweeping)
| step_sweep p k : pl_jobs p !! k = Some Sweeping -> pool_step p (run_job (sweep p) k [Waiting])
| step_wait p k : pl_jobs p !! k = Some Waiting -> existsb is_redialing (pl_jobs p) = false ->
    pool_step p (run_job (set_returned p) k []).
End Steps.

(** ** The invariant *)

(** The jobs that will fill slot [i]. *)
Definition fills (i : nat) (j : job) : nat :=
  match j with
  | Filling k => if (k <=? i)%nat then 1 else 0
  | Spawning k | Redialing k _ _ => if (k =? i)%nat then 1 else 0
  | _ => 0
  end.
Definition fillers (i : nat) (js : list job) : nat := list_sum (map (fills i) js).

Lemma fillers_app i js js' : fillers i (js ++ js') = (fillers i js + fillers i js')%nat.
Proof. unfold fillers. by rewrite map_app, list_sum_app. Qed.

Lemma fillers_cons i j js : fillers i (j :: js) = (fills i j + fillers i js)%nat.
Proof. done. Qed.

Definition vacant (slots : list (option nat)) (i : nat) : nat := match slots !! i with Some None => 1 | _ => 0 end.

Record pool_inv (maxBackoff : Z) (p : Pool) : Prop := {
  pi_redial : forall i q b, Redialing i q b ∈ pl_jobs p -> (i < length (pl_slots p))%nat /\ 0 <= b <= maxBackoff;
  pi_spawn : forall i, Spawning i ∈ pl_jobs p -> (i < length (pl_slots p))%nat;
  pi_count : pl_done p = false -> forall i, (i < length (pl_slots p))%nat -> fillers i (pl_jobs p) = vacant (pl_slots p) i;
  pi_removing : forall l, Removing l ∈ pl_jobs p -> l ∈ pl_closed p;
  pi_tracked : forall l, (l < pl_dialed p)%nat ->
    l ∈ pl_closed p \/ Some l ∈ pl_slots p \/ exists i b, Redialing i (Dialed l) b ∈ pl_jobs p;
  pi_filling : pl_done p = true -> forall i, Filling i ∉ pl_jobs p;
  pi_sweeping : Sweeping ∈ pl_jobs p -> pl_done p = true;
  pi_swept : Waiting ∈ pl_jobs p \/ pl_returned p = true -> pl_done p = true /\ forall i l, pl_slots p !! i <> Some (Some l);
  pi_quiet : pl_returned p = true -> forall i q b, Redialing i q b ∈ pl_jobs p -> q = Checking;
}.

Lemma vacant_insert slots i j s : (i < length slots)%nat ->
  vacant (<[i := s]> slots) j = if (i =? j)%nat then match s with None => 1%nat | _ => 0%nat end else vacant slots j.
Proof.
  intros Hi. unfold vacant. destruct (Nat.eqb_spec i j) as [->|Hne].
  - rewrite list_lookup_insert_eq by done. by destruct s.
  - by rewrite list_lookup_insert_ne.
Qed.

Lemma slot_of_Some slots l i : slot_of slots l = Some i -> slots !! i = Some (Some l).
Proof.
  revert i. induction slots as [|s slots IH]; intros i; cbn; [done|]. destruct (decide (s = Some l)) as [->|Hne].
  - rewrite bool_decide_true by done. by intros [= <-].
  - rewrite bool_decide_false by done. intros (j & HJ & ->)%fmap_Some. cbn. by apply IH.
Qed.

Lemma run_jobs p k j new : pl_jobs p !! k = Some j ->
  exists js1 js2, pl_jobs p = js1 ++ j :: js2 /\ take k (pl_jobs p) ++ new ++ drop (S k) (pl_jobs p) = js1 ++ new ++ js2.
Proof. intros H. exists (take k (pl_jobs p)), (drop (S k) (pl_jobs p)). split; [by rewrite take_drop_middle|done]. Qed.

(** A slot that was not lost keeps its link. *)
Lemma elem_insert_slots (slots : list (option nat)) i s l : Some l ∈ slots -> slots !! i <> Some (Some l) -> Some l ∈ <[i := s]> slots.
Proof.
  intros [j Hj]%list_elem_of_lookup Hi. apply list_elem_of_lookup. exists j. rewrite list_lookup_insert_ne by (intros ->; done). done.
Qed.

Lemma elem_run (js1 js2 new : list job) j x : x ∈ js1 ++ new ++ js2 -> x ∈ new \/ x ∈ js1 ++ j :: js2.
Proof. rewrite !elem_of_app, elem_of_cons. tauto. Qed.

Section Invariant.
Context (minBackoff maxBackoff : Z) (HB : 0 <= minBackoff <= maxBackoff /\ maxBackoff < 2 ^ 62).

(** A step of one job: what it must respect. *)
Record job_step (p q : Pool) (j : job) (new : list job) : Prop := {
  js_same : pl_done q = pl_done p /\ pl_returned q = pl_returned p /\ pl_jobs q = pl_jobs p /\ length (pl_slots q) = length (pl_slots p);
  js_redial : forall i t b, Redialing i t b ∈ new ->
    (i < length (pl_slots p))%nat /\ 0 <= b <= maxBackoff /\ (pl_returned p = true -> t = Checking);
  js_spawn : forall i, Spawning i ∈ new -> (i < length (pl_slots p))%nat;
  js_count : pl_done p = false -> forall i, (i < length (pl_slots p))%nat ->
    (fillers i new + vacant (pl_slots p) i = fills i j + vacant (pl_slots q) i)%nat;
  js_closed : pl_closed p ⊆ pl_closed q;
  js_removing : forall l, Removing l ∉ new;
  js_kept : forall l, (l < pl_dialed p)%nat -> Some l ∈ pl_slots p \/ (exists i b, j = Redialing i (Dialed l) b) ->
    l ∈ pl_closed q \/ Some l ∈ pl_slots q;
  js_new : forall l, (pl_dialed p <= l < pl_dialed q)%nat -> Some l ∈ pl_slots q \/ exists i b, Redialing i (Dialed l) b ∈ new;
  js_filling : forall i, Filling i ∈ new -> is_filling j = true;
  js_sweeping : Sweeping ∉ new;
  js_swept : pl_done p = true -> forall i l, pl_slots q !! i = Some (Some l) -> pl_slots p !! i = Some (Some l);
  js_waiting : Waiting ∈ new -> pl_done p = true /\ forall i l, pl_slots q !! i <> Some (Some l);
}.

Lemma inv_job p q k j new :
  pool_inv maxBackoff p -> pl_jobs p !! k = Some j -> job_step p q j new -> pool_inv maxBackoff (run_job q k new).
Proof.
  intros [H1 H2 H3 H4 H5 H6 H7 H8 H9] HJ [(S1 & S2 & S3 & S4) N1 N2 N3 N4 N5 N6 N7 N8 N9 N10 N11].
  destruct (run_jobs p k j new HJ) as (js1 & js2 & E & E'). unfold run_job, set_jobs. rewrite S3, E'. rewrite E in *.
  split; cbn [pl_slots pl_next pl_done pl_jobs pl_dialed pl_closed pl_returned]; rewrite ?S1, ?S2, ?S4.
  - intros i t b [HN|HO]%(elem_run _ _ _ j); [by edestruct N1 as (? & ? & _)|by eapply H1].
  - intros i [HN|HO]%(elem_run _ _ _ j); [by apply N2|by apply H2].
  - intros HD i Hi. specialize (H3 HD i Hi). specialize (N3 HD i Hi). rewrite !fillers_app, fillers_cons in *. lia.
  - intros l [HN|HO]%(elem_run _ _ _ j); [by destruct (N5 l)|by apply N4, H4].
  - intros l Hl. destruct (decide (l < pl_dialed p)%nat) as [Hp|Hp].
    + destruct (H5 l Hp) as [?|[?|(i & b & HI)]]; [left; by apply N4|destruct (N6 l Hp); [by left|by left|by right; left]|].
      rewrite elem_of_app, elem_of_cons in HI. destruct HI as [?|[HE|?]].
      * right. right. exists i, b. rewrite !elem_of_app. tauto.
      * destruct (N6 l Hp); [right; by exists i, b|by left|by right; left].
      * right. right. exists i, b. rewrite !elem_of_app. tauto.
    + right. destruct (N7 l ltac:(lia)) as [?|(i & b & ?)]; [by left|]. right. exists i, b. rewrite !elem_of_app. tauto.
  - intros HD i [HF|HO]%(elem_run _ _ _ j); [|by eapply (H6 HD i)].
    apply N8 in HF. destruct j as [i'|?|?|? ? ?| | |]; try done. apply (H6 HD i'). rewrite elem_of_app, elem_of_cons. tauto.
  - intros [HN|HO]%(elem_run _ _ _ j); [by destruct N9|by apply H7].
  - intros HW. assert (HW' : Waiting ∈ new \/ (Waiting ∈ js1 ++ j :: js2 \/ pl_returned p = true)).
    { destruct HW as [[?|?]%(elem_run _ _ _ j)|?]; tauto. }
    destruct HW' as [HN|HO]; [by apply N11|].
    destruct (H8 HO) as (HD & HS). split; [done|]. intros i l HQ. by apply (HS i l), N10.
  - intros HR i t b [HN|HO]%(elem_run _ _ _ j); [edestruct N1 as (_ & _ & ?); eauto|by eapply (H9 HR)].
Qed.

(** A job that leaves the slots, the links and [done] alone. *)
Lemma job_step_same p q j new :
  pl_slots q = pl_slots p -> pl_done q = pl_done p -> pl_returned q = pl_returned p -> pl_jobs q = pl_jobs p ->
  pl_closed q = pl_closed p -> pl_dialed q = pl_dialed p ->
  (forall i t b, Redialing i t b ∈ new ->
     (i < length (pl_slots p))%nat /\ 0 <= b <= maxBackoff /\ (pl_returned p = true -> t = Checking)) ->
  (forall x, x ∈ new -> is_redialing x = true \/ is_filling x = true /\ is_filling j = true) ->
  (pl_done p = false -> forall i, (i < length (pl_slots p))%nat -> fillers i new = fills i j) ->
  (forall i l b, j <> Redialing i (Dialed l) b) ->
  job_step p q j new.
Proof.
  intros Es Ed Er Ej Ec El N1 N2 N3 N4. split; rewrite ?Es, ?Ed, ?Er, ?Ej, ?Ec, ?El.
  - done.
  - done.
  - intros i HI. apply N2 in HI. naive_solver.
  - intros HD i Hi. rewrite N3 by done. done.
  - done.
  - intros l HI. apply N2 in HI. naive_solver.
  - naive_solver.
  - intros. lia.
  - intros i HI. apply N2 in HI. naive_solver.
  - intros HI. apply N2 in HI. naive_solver.
  - done.
  - intros HI. apply N2 in HI. naive_solver.
Qed.

Lemma next_backoff_range b : 0 <= b <= maxBackoff -> 0 <= next_backoff maxBackoff b <= maxBackoff.
Proof.
  intros Hb. unfold next_backoff. rewrite wrap64_id by (unfold int64; lia). cbn zeta.
  destruct (Z.ltb_spec maxBackoff (b * 2)); lia.
Qed.

Lemma vacant_cases slots i : (i < length slots)%nat -> (vacant slots i = 1%nat <-> slots !! i = Some None) /\ (vacant slots i <= 1)%nat.
Proof. intros Hi. unfold vacant. destruct (lookup_lt_is_Some_2 slots i Hi) as [[l|] E]; rewrite E; split; try lia; naive_solver. Qed.

(** A slot with a job to fill it is empty. *)
Lemma filled_by p k j i : pool_inv maxBackoff p -> pl_jobs p !! k = Some j -> pl_done p = false ->
  (i < length (pl_slots p))%nat -> fills i j = 1%nat -> pl_slots p !! i = Some None.
Proof.
  intros HI HJ HD Hi HF. apply vacant_cases; [done|].
  pose proof (proj2 (vacant_cases (pl_slots p) i Hi)) as HV. rewrite <- (pi_count _ _ HI HD i Hi) in *.
  rewrite <- (take_drop_middle _ _ _ HJ) in *. rewrite fillers_app, fillers_cons in *. lia.
Qed.

(** Storing a link in an empty slot. *)
Lemma job_step_insert p q j new i l :
  (i < length (pl_slots p))%nat -> pl_slots p !! i = Some None -> pl_done p = false ->
  pl_slots q = <[i := Some l]> (pl_slots p) -> pl_done q = pl_done p -> pl_returned q = pl_returned p ->
  pl_jobs q = pl_jobs p -> pl_closed q = pl_closed p ->
  (pl_dialed q = pl_dialed p \/ pl_dialed q = S (pl_dialed p) /\ l = pl_dialed p) ->
  (forall l' i b, j = Redialing i (Dialed l') b -> l' = l) ->
  (forall x, x ∈ new -> is_filling x = true /\ is_filling j = true) ->
  (forall n, (n < length (pl_slots p))%nat -> (fillers n new + (if (i =? n)%nat then 1 else 0) = fills n j)%nat) ->
  job_step p q j new.
Proof.
  intros Hi HV HD Es Ed Er Ej Ec El Nj Nf Nc.
  assert (HL : Some l ∈ <[i := Some l]> (pl_slots p)).
  { apply list_elem_of_lookup. exists i. by apply list_lookup_insert_eq. }
  split; rewrite ?Es, ?Ed, ?Er, ?Ej, ?Ec.
  - rewrite length_insert. done.
  - intros ? ? ? HI. apply Nf in HI. naive_solver.
  - intros ? HI. apply Nf in HI. naive_solver.
  - intros _ n Hn. specialize (Nc n Hn). rewrite vacant_insert by done. unfold vacant at 1.
    destruct (Nat.eqb_spec i n) as [->|Hne]; [rewrite HV|unfold vacant]; lia.
  - done.
  - intros ? HI. apply Nf in HI. naive_solver.
  - intros l' Hl' [HI|(i' & b & HE)]; right; [|by rewrite (Nj _ _ _ HE)].
    apply elem_insert_slots; [done|]. by rewrite HV.
  - intros l' Hl'. left. destruct El as [El|[El ->]]; [lia|]. by replace l' with (pl_dialed p) by lia.
  - intros ? HI. by destruct (Nf _ HI).
  - intros HI. apply Nf in HI. naive_solver.
  - congruence.
  - intros HI. apply Nf in HI. naive_solver.
Qed.

(** A job that drops a link from the slots after closing it. *)
Lemma job_step_drop p q j new :
  length (pl_slots q) = length (pl_slots p) -> pl_done q = pl_done p -> pl_returned q = pl_returned p -> pl_jobs q = pl_jobs p ->
  pl_dialed q = pl_dialed p -> pl_closed p ⊆ pl_closed q ->
  (forall i l, pl_slots q !! i = Some (Some l) -> pl_slots p !! i = Some (Some l)) ->
  (forall l, Some l ∈ pl_slots p \/ (exists i b, j = Redialing i (Dialed l) b) -> l ∈ pl_closed q \/ Some l ∈ pl_slots q) ->
  (new = [] \/ (exists i, new = [Spawning i] /\ (i < length (pl_slots p))%nat) \/
   new = [Waiting] /\ pl_done p = true /\ forall i l, pl_slots q !! i <> Some (Some l)) ->
  (pl_done p = false -> forall i, (i < length (pl_slots p))%nat ->
     (fillers i new + vacant (pl_slots p) i = fills i j + vacant (pl_slots q) i)%nat) ->
  job_step p q j new.
Proof.
  intros Es Ed Er Ej El Ec Ek Et Nn Nc.
  assert (HN : forall x, x ∈ new -> x = Waiting \/ exists i, x = Spawning i /\ (i < length (pl_slots p))%nat).
  { destruct Nn as [->|[(i & -> & Hi)|(-> & _)]]; intros x; [by intros ?%elem_of_nil| |];
      intros ->%list_elem_of_singleton; [right; eauto|by left]. }
  split; rewrite ?El; auto.
  - intros ? ? ? HI. apply HN in HI. naive_solver.
  - intros ? HI. apply HN in HI. naive_solver.
  - intros ? HI. apply HN in HI. naive_solver.
  - intros. lia.
  - intros ? HI. apply HN in HI. naive_solver.
  - intros HI. apply HN in HI. naive_solver.
  - intros HI. destruct Nn as [->|[(i & -> & Hi)|(-> & ?)]]; [by apply elem_of_nil in HI| |done].
    by apply list_elem_of_singleton in HI.
Qed.

Lemma sweep_spec p :
  pl_slots (sweep p) = replicate (length (pl_slots p)) None /\ pl_done (sweep p) = pl_done p /\
  pl_returned (sweep p) = pl_returned p /\ pl_jobs (sweep p) = pl_jobs p /\ pl_dialed (sweep p) = pl_dialed p /\
  pl_closed p ⊆ pl_closed (sweep p) /\ forall l, Some l ∈ pl_slots p -> l ∈ pl_closed (sweep p).
Proof.
  assert (HF : forall ss q, let r := fold_left (fun p s => match s with Some l => link_Close p l | None => p end) ss q in
    pl_slots r = pl_slots q /\ pl_done r = pl_done q /\ pl_returned r = pl_returned q /\ pl_jobs r = pl_jobs q /\
    pl_dialed r = pl_dialed q /\ pl_closed q ⊆ pl_closed r /\ forall l, Some l ∈ ss -> l ∈ pl_closed r).
  { intros ss. induction ss as [|[l|] ss IH]; intros q; cbn [fold_left]; cbv zeta.
    - repeat split; [done|]. by intros l ?%elem_of_nil.
    - destruct (IH (link_Close q l)) as (-> & -> & -> & -> & -> & HC & HS). cbn in HC |- *. repeat split; [set_solver|].
      intros l' [[= ->]|?]%elem_of_cons; [set_solver|by apply HS].
    - destruct (IH q) as (-> & -> & -> & -> & -> & HC & HS). repeat split; [done|].
      intros l' [[=]|?]%elem_of_cons. by apply HS. }
  destruct (HF (pl_slots p) p) as (E1 & E2 & E3 & E4 & E5 & E6 & E7). unfold sweep. cbn. by rewrite E1.
Qed.

Lemma fillers_single i j : fillers i [j] = fills i j.
Proof. unfold fillers. cbn. lia. Qed.

Lemma inv_fill p k i new : pool_inv maxBackoff p -> pl_jobs p !! k = Some (Filling i) ->
  (i < length (pl_slots p))%nat /\ new = [reconnect minBackoff i; Filling (S i)] \/ (length (pl_slots p) <= i)%nat /\ new = [] ->
  pool_inv maxBackoff (run_job p k new).
Proof.
  intros HI HJ HN. eapply inv_job; [done..|]. apply job_step_same; try done.
  - intros i' t b HE. destruct HN as [[Hi ->]|[? ->]]; [|by apply elem_of_nil in HE].
    apply elem_of_cons in HE. destruct HE as [[= -> -> ->]|HE%list_elem_of_singleton]; [|done].
    split; [done|]. split; [lia|done].
  - intros x HE. destruct HN as [[Hi ->]|[? ->]]; [|by apply elem_of_nil in HE].
    apply elem_of_cons in HE. destruct HE as [->|HE%list_elem_of_singleton]; [by left|subst x; by right].
  - intros _ n Hn. destruct HN as [[Hi ->]|[? ->]]; cbn [fills fillers]; unfold fillers; cbn.
    + destruct (Nat.leb_spec i n), (Nat.eqb_spec i n); destruct n as [|n]; try lia;
        destruct (Nat.leb_spec i n); lia.
    + destruct (Nat.leb_spec i n); lia.
Qed.

Lemma inv_fill_ok p k i : pool_inv maxBackoff p -> pl_jobs p !! k = Some (Filling i) -> (i < length (pl_slots p))%nat ->
  pool_inv maxBackoff (run_job (new_link (set_pl_slots p (<[i := Some (pl_dialed p)]> (pl_slots p)))) k [Filling (S i)]).
Proof.
  intros HI HJ Hi. assert (HD : pl_done p = false).
  { destruct (pl_done p) eqn:HD; [|done]. destruct (pi_filling _ _ HI HD i). by eapply list_elem_of_lookup_2. }
  eapply inv_job; [done..|]. apply job_step_insert with (i := i) (l := pl_dialed p); try done.
  - eapply filled_by; try done. cbn. by rewrite Nat.leb_refl.
  - by right.
  - intros x ->%list_elem_of_singleton. done.
  - intros n Hn. rewrite fillers_single. cbn [fills]. destruct n as [|n];
      repeat (match goal with |- context [(?a <=? ?b)%nat] => destruct (Nat.leb_spec a b) | |- context [(?a =? ?b)%nat] => destruct (Nat.eqb_spec a b) end); lia.
Qed.

(** A redialing goroutine that goes on or stops without a link. *)
Lemma inv_redial p k i t b new : pool_inv maxBackoff p -> pl_jobs p !! k = Some (Redialing i t b) -> (forall l, t <> Dialed l) ->
  (pl_done p = true /\ new = []) \/ (exists t' b', new = [Redialing i t' b'] /\ (forall l, t' <> Dialed l) /\ 0 <= b' <= maxBackoff /\
     (pl_done p = false \/ t <> Checking)) ->
  pool_inv maxBackoff (run_job p k new).
Proof.
  intros HI HJ Ht HN. destruct (pi_redial _ _ HI i t b ltac:(by eapply list_elem_of_lookup_2)) as [Hi Hb].
  eapply inv_job; [done..|]. apply job_step_same; try done.
  - intros i' t' b' HE. destruct HN as [[? ->]|(t1 & b1 & -> & _ & Hb1 & HD)]; [by apply elem_of_nil in HE|].
    apply list_elem_of_singleton in HE. simplify_eq. split; [done|]. split; [done|]. intros HR.
    destruct HD as [HD|HD]; [by rewrite (proj1 (pi_swept _ _ HI (or_intror HR))) in HD|].
    destruct HD. eapply (pi_quiet _ _ HI HR). by eapply list_elem_of_lookup_2.
  - intros x HE. left. destruct HN as [[? ->]|(t1 & b1 & -> & _)]; [by apply elem_of_nil in HE|].
    apply list_elem_of_singleton in HE. by subst x.
  - intros HD n Hn. destruct HN as [[? ->]|(t1 & b1 & -> & _)]; [congruence|]. by rewrite fillers_single.
  - intros ? l ? [= -> -> ->]. by destruct (Ht l).
Qed.

Lemma inv_dial_ok p k i b : pool_inv maxBackoff p -> pl_jobs p !! k = Some (Redialing i Dialing b) ->
  pool_inv maxBackoff (run_job (new_link p) k [Redialing i (Dialed (pl_dialed p)) b]).
Proof.
  intros HI HJ. pose proof (list_elem_of_lookup_2 _ _ _ HJ) as HE. destruct (pi_redial _ _ HI i _ b HE) as [Hi Hb].
  eapply inv_job; [done..|]. split; cbn [new_link pl_slots pl_next pl_done pl_jobs pl_dialed pl_closed pl_returned].
  - done.
  - intros i' t' b' ?%list_elem_of_singleton. simplify_eq. split; [done|]. split; [done|].
    intros HR. by apply (pi_quiet _ _ HI HR) in HE.
  - by intros ? ?%list_elem_of_singleton.
  - intros _ n Hn. by rewrite fillers_single.
  - done.
  - by intros ? ?%list_elem_of_singleton.
  - intros l _ [?|(? & ? & ?)]; [by right|done].
  - intros l Hl. right. exists i, b. replace l with (pl_dialed p) by lia. by apply list_elem_of_singleton.
  - by intros ? ?%list_elem_of_singleton.
  - by intros ?%list_elem_of_singleton.
  - done.
  - by intros ?%list_elem_of_singleton.
Qed.

Lemma inv_store p k i l b : pool_inv maxBackoff p -> pl_jobs p !! k = Some (Redialing i (Dialed l) b) -> pl_done p = false ->
  pool_inv maxBackoff (run_job (set_pl_slots p (<[i := Some l]> (pl_slots p))) k []).
Proof.
  intros HI HJ HD. destruct (pi_redial _ _ HI i _ b (list_elem_of_lookup_2 _ _ _ HJ)) as [Hi _].
  eapply inv_job; [done..|]. apply job_step_insert with (i := i) (l := l); try done.
  - eapply filled_by; try done. cbn. by rewrite Nat.eqb_refl.
  - by left.
  - naive_solver.
  - by intros x ?%elem_of_nil.
Qed.

Lemma inv_store_done p k i l b : pool_inv maxBackoff p -> pl_jobs p !! k = Some (Redialing i (Dialed l) b) -> pl_done p = true ->
  pool_inv maxBackoff (run_job (link_Close p l) k []).
Proof.
  intros HI HJ HD. eapply inv_job; [done..|]. apply job_step_drop; cbn [set_pl_slots link_Close pl_slots pl_next pl_done pl_jobs pl_dialed pl_closed pl_returned]; try done.
  - set_solver.
  - intros l' [?|(? & ? & [= -> -> ->])]; [by right|left; set_solver].
  - by left.
  - congruence.
Qed.

Lemma inv_remove p k l i : pool_inv maxBackoff p -> pl_jobs p !! k = Some (Removing l) -> slot_of (pl_slots p) l = Some i ->
  pool_inv maxBackoff (run_job (set_pl_slots p (<[i := None]> (pl_slots p))) k [Spawning i]).
Proof.
  intros HI HJ HS%slot_of_Some. pose proof (lookup_lt_Some _ _ _ HS) as Hi.
  eapply inv_job; [done..|]. apply job_step_drop; cbn [set_pl_slots link_Close pl_slots pl_next pl_done pl_jobs pl_dialed pl_closed pl_returned]; try done.
  - apply length_insert.
  - intros n l'. destruct (decide (i = n)) as [->|Hne]; [by rewrite list_lookup_insert_eq|by rewrite list_lookup_insert_ne].
  - intros l' [HE|(? & ? & ?)]; [|done]. destruct (decide (l' = l)) as [->|Hne].
    + left. apply (pi_removing _ _ HI). by eapply list_elem_of_lookup_2.
    + right. apply elem_insert_slots; [done|]. rewrite HS. congruence.
  - right. left. eauto.
  - intros _ n Hn. rewrite fillers_single, vacant_insert by done. cbn [fills].
    destruct (Nat.eqb_spec i n) as [->|Hne]; [unfold vacant; by rewrite HS|lia].
Qed.

Lemma inv_idle p q k j new : pool_inv maxBackoff p -> pl_jobs p !! k = Some j ->
  pl_slots q = pl_slots p -> pl_done q = pl_done p -> pl_returned q = pl_returned p -> pl_jobs q = pl_jobs p ->
  pl_closed q = pl_closed p -> pl_dialed q = pl_dialed p ->
  new = [] /\ (j = Getting \/ exists l, j = Removing l) \/ (exists i, j = Spawning i /\ new = [reconnect minBackoff i]) ->
  pool_inv maxBackoff (run_job q k new).
Proof.
  intros HI HJ Es Ed Er Ej Ec El HN. eapply inv_job; [done..|]. apply job_step_same; try done.
  - intros i t b HE. destruct HN as [[-> _]|(i' & -> & ->)]; [by apply elem_of_nil in HE|].
    apply list_elem_of_singleton in HE. unfold reconnect in HE. simplify_eq. split; [|split; [lia|done]].
    apply (pi_spawn _ _ HI). by eapply list_elem_of_lookup_2.
  - intros x HE. destruct HN as [[-> _]|(i' & -> & ->)]; [by apply elem_of_nil in HE|].
    apply list_elem_of_singleton in HE. subst x. by left.
  - intros _ n Hn. destruct HN as [[-> [->|[l ->]]]|(i' & -> & ->)]; [done..|]. by rewrite fillers_single.
  - destruct HN as [[_ [->|[l ->]]]|(i' & -> & _)]; done.
Qed.

Lemma inv_sweep p k : pool_inv maxBackoff p -> pl_jobs p !! k = Some Sweeping -> pool_inv maxBackoff (run_job (sweep p) k [Waiting]).
Proof.
  intros HI HJ. destruct (sweep_spec p) as (E1 & E2 & E3 & E4 & E5 & E6 & E7).
  assert (HD : pl_done p = true) by (apply (pi_sweeping _ _ HI); by eapply list_elem_of_lookup_2).
  assert (HN : forall i l, pl_slots (sweep p) !! i <> Some (Some l)).
  { intros i l. rewrite E1. intros [? ?]%lookup_replicate. done. }
  eapply inv_job; [done..|]. apply job_step_drop; try done.
  - by rewrite E1, length_replicate.
  - intros i l HQ. by apply HN in HQ.
  - intros l [?|(? & ? & ?)]; [left; by apply E7|done].
  - right. right. done.
  - congruence.
Qed.

(** A caller enters. *)
Lemma inv_enter p q j : pool_inv maxBackoff p ->
  pl_slots q = pl_slots p -> pl_returned q = pl_returned p -> pl_jobs q = pl_jobs p -> pl_dialed q = pl_dialed p ->
  (pl_done p = true -> pl_done q = true) -> pl_closed p ⊆ pl_closed q ->
  (pl_done q = true -> pl_done p = true \/ existsb is_filling (pl_jobs p) = false) ->
  (j = Getting \/ j = Sweeping /\ pl_done q = true \/ exists l, j = Removing l /\ l ∈ pl_closed q) ->
  pool_inv maxBackoff (add_job q j).
Proof.
  intros [H1 H2 H3 H4 H5 H6 H7 H8 H9] Es Er Ej El Ed Ec Ef HJ. unfold add_job, set_jobs. rewrite Ej.
  assert (HN : forall x, x ∈ pl_jobs p ++ [j] -> x ∈ pl_jobs p \/ x = j).
  { intros x. rewrite elem_of_app, list_elem_of_singleton. done. }
  split; cbn [pl_slots pl_next pl_done pl_jobs pl_dialed pl_closed pl_returned]; rewrite ?Es, ?Er, ?El.
  - intros i t b [?|?]%HN; [by eapply H1|naive_solver].
  - intros i [?|?]%HN; [by apply H2|naive_solver].
  - intros HD i Hi. rewrite fillers_app, fillers_single, H3 by (done || by destruct (pl_done p); [rewrite Ed in HD|]).
    destruct HJ as [->|[[-> _]|(l & -> & _)]]; cbn; lia.
  - intros l [?|?]%HN; [by apply Ec, H4|naive_solver].
  - intros l Hl. destruct (H5 l Hl) as [?|[?|(i & b & ?)]]; [left; by apply Ec|by right; left|].
    right. right. exists i, b. rewrite elem_of_app. by left.
  - intros HD i [HI|?]%HN; [|naive_solver]. destruct (Ef HD) as [HD'|HF]; [by eapply (H6 HD')|].
    assert (existsb is_filling (pl_jobs p) = true); [|congruence].
    apply existsb_exists. exists (Filling i). split; [by apply list_elem_of_In|done].
  - intros [?|?]%HN; [by apply Ed, H7|naive_solver].
  - intros HW. destruct H8 as [HD HS]; [|by split; [apply Ed|]]. destruct HW as [[?|?]%HN|?]; [by left|naive_solver|by right].
  - intros HR i t b [?|?]%HN; [by eapply (H9 HR)|naive_solver].
Qed.

Lemma inv_wait p k : pool_inv maxBackoff p -> pl_jobs p !! k = Some Waiting -> existsb is_redialing (pl_jobs p) = false ->
  pool_inv maxBackoff (run_job (set_returned p) k []).
Proof.
  intros HI HJ HR. pose proof (list_elem_of_lookup_2 _ _ _ HJ) as HE.
  destruct (pi_swept _ _ HI (or_introl HE)) as [HD HS].
  assert (HI' : pool_inv maxBackoff (set_returned p)).
  { destruct HI as [H1 H2 H3 H4 H5 H6 H7 H8 H9]. split; try done. intros _ i t b HX. exfalso.
    assert (existsb is_redialing (pl_jobs p) = true); [|congruence].
    apply existsb_exists. exists (Redialing i t b). split; [by apply list_elem_of_In|done]. }
  eapply inv_job; [done|apply HJ|]. apply job_step_same; try done.
  - by intros ? ? ? ?%elem_of_nil.
  - by intros ? ?%elem_of_nil.
Qed.

Lemma get_locked_keeps p : let q := snd (get_locked p) in
  pl_slots q = pl_slots p /\ pl_done q = pl_done p /\ pl_returned q = pl_returned p /\ pl_jobs q = pl_jobs p /\
  pl_closed q = pl_closed p /\ pl_dialed q = pl_dialed p.
Proof. unfold get_locked. by destruct (get_loop _ _ _ _) as [[l n]|]. Qed.

Lemma pool_step_inv p q : pool_step minBackoff maxBackoff p q -> pool_inv maxBackoff p -> pool_inv maxBackoff q.
Proof.
  intros HS HI. destruct HS.
  - by apply inv_fill_ok.
  - eapply inv_fill; eauto.
  - eapply inv_fill; eauto.
  - eapply inv_redial; eauto; done.
  - destruct (pi_redial _ _ HI i _ b ltac:(by eapply list_elem_of_lookup_2)) as [_ ?].
    eapply inv_redial; [done..|]. right. exists Dialing, b. naive_solver.
  - by apply inv_dial_ok.
  - destruct (pi_redial _ _ HI i _ b ltac:(by eapply list_elem_of_lookup_2)) as [_ ?].
    eapply inv_redial; [done..|]. right. exists Sleeping, b. naive_solver.
  - by eapply inv_store_done.
  - by eapply inv_store.
  - eapply inv_redial; eauto; done.
  - destruct (pi_redial _ _ HI i _ b ltac:(by eapply list_elem_of_lookup_2)) as [_ ?].
    eapply inv_redial; [done..|]. right. exists Checking, (next_backoff maxBackoff b).
    pose proof (next_backoff_range b). naive_solver.
  - apply (inv_enter p); try done; [congruence|by left].
  - destruct (get_locked_keeps p) as (? & ? & ? & ? & ? & ?). eapply (inv_idle p); eauto.
  - apply (inv_enter p); try done; [cbn; set_solver|auto|]. right. right. exists l. cbn. split; [done|set_solver].
  - by eapply inv_remove.
  - eapply (inv_idle p); eauto.
  - eapply (inv_idle p); eauto.
  - apply (inv_enter p); try done; [auto|]. right. left. done.
  - by apply inv_sweep.
  - by apply inv_wait.
Qed.

Lemma NewPool_inv size : pool_inv maxBackoff (NewPool size).
Proof.
  split; cbn [NewPool pl_slots pl_next pl_done pl_jobs pl_dialed pl_closed pl_returned]; try done.
  - by intros ? ? ? ?%list_elem_of_singleton.
  - by intros ? ?%list_elem_of_singleton.
  - intros _ i Hi. rewrite fillers_single. rewrite length_replicate in Hi. unfold vacant. by rewrite lookup_replicate_2.
  - by intros ? ?%list_elem_of_singleton.
  - intros l Hl. lia.
  - by intros ?%list_elem_of_singleton.
  - by intros [?%list_elem_of_singleton|?].
Qed.

Lemma pool_step_length p q : pool_step minBackoff maxBackoff p q -> length (pl_slots q) = length (pl_slots p).
Proof.
  intros HS. destruct HS; cbn [run_job add_job set_jobs new_link link_Close set_done set_returned set_pl_slots pl_slots]; rewrite ?length_insert; try done.
  - by rewrite (proj1 (get_locked_keeps p)).
  - rewrite (proj1 (sweep_spec p)). apply length_replicate.
Qed.

Lemma pool_reach_inv size p : rtc (pool_step minBackoff maxBackoff) (NewPool size) p ->
  pool_inv maxBackoff p /\ length (pl_slots p) = size.
Proof.
  apply (rtc_ind_r (fun p => pool_inv maxBackoff p /\ length (pl_slots p) = size)).
  - split; [apply NewPool_inv|apply length_replicate].
  - intros q r _ HS [HI HL]. split; [by eapply pool_step_inv|]. by rewrite (pool_step_length _ _ HS).
Qed.
End Invariant.

(** ** What [Get] answers *)

Lemma get_loop_spec slots next tried rem : (0 < length slots)%nat ->
  let at_ d := slots !! ((next + d) mod length slots)%nat in
  match get_loop slots next tried rem with
  | Some (l, n) => exists d, (tried <= d < tried + rem)%nat /\ at_ d = Some (Some l) /\
      n = (((next + d) mod length slots + 1) mod length slots)%nat /\ forall d', (tried <= d' < d)%nat -> at_ d' = Some None
  | None => forall d, (tried <= d < tried + rem)%nat -> at_ d = Some None
  end.
Proof.
  intros Hn. cbv zeta. revert tried. induction rem as [|rem IH]; intros tried; cbn [get_loop]; [intros; lia|]. cbv zeta.
  destruct (lookup_lt_is_Some_2 slots ((next + tried) mod length slots)%nat) as [[l|] E]; [apply Nat.mod_upper_bound; lia| |]; rewrite E.
  - exists tried. split; [lia|]. split; [done|]. split; [done|]. intros; lia.
  - specialize (IH (S tried)). destruct (get_loop _ _ _ _) as [[l n]|].
    + destruct IH as (d & Hd & E1 & E2 & HA). exists d. split; [lia|]. split; [done|]. split; [done|].
      intros d' Hd'. destruct (decide (d' = tried)) as [->|]; [done|]. apply HA. lia.
    + intros d Hd. destruct (decide (d = tried)) as [->|]; [done|]. apply IH. lia.
Qed.

(** Counting from [next], the first [size] places are all the slots. *)
Lemma round_robin_covers next size i : (i < size)%nat -> exists d, (d < size)%nat /\ ((next + d) mod size)%nat = i.
Proof.
  intros Hi. exists ((i + (size - next mod size)) mod size)%nat. split; [apply Nat.mod_upper_bound; lia|].
  rewrite Nat.Div0.add_mod_idemp_r. rewrite <- Nat.Div0.add_mod_idemp_l.
  pose proof (Nat.mod_upper_bound next size ltac:(lia)).
  replace (next mod size + (i + (size - next mod size)))%nat with (i + 1 * size)%nat by lia.
  rewrite Nat.Div0.mod_add. apply Nat.mod_small. lia.
Qed.

Definition get_answer (p : Pool) : Prop :=
  let size := length (pl_slots p) in
  match pool_Get p with
  | (Ok l, q) => pl_done p = false /\ exists d, (d < size)%nat /\
      pl_slots p !! ((pl_next p + d) mod size)%nat = Some (Some l) /\
      (forall d', (d' < d)%nat -> pl_slots p !! ((pl_next p + d') mod size)%nat = Some None) /\
      pl_next q = (((pl_next p + d) mod size + 1) mod size)%nat
  | (Err ErrPoolClosed, _) => pl_done p = true
  | (Err ErrNoHealthy, _) => pl_done p = false /\ forall i, (i < size)%nat -> pl_slots p !! i = Some None
  | (Panic, _) => False
  end.

Lemma pool_Get_answer p : get_answer p.
Proof.
  unfold get_answer, pool_Get, get_locked. destruct (pl_done p); [done|].
  destruct (decide (length (pl_slots p) = 0)%nat) as [E|Hn].
  { rewrite E. cbn. split; [done|]. lia. }
  pose proof (get_loop_spec (pl_slots p) (pl_next p) 0 (length (pl_slots p)) ltac:(lia)) as HG. cbv zeta in HG.
  destruct (get_loop _ _ _ _) as [[l n]|]; cbn [fst snd pl_next].
  - destruct HG as (d & Hd & E1 & E2 & HA). split; [done|]. exists d. split; [lia|]. split; [done|]. split; [|done].
    intros d' Hd'. apply HA. lia.
  - split; [done|]. intros i Hi. destruct (round_robin_covers (pl_next p) _ i Hi) as (d & Hd & <-). apply HG. lia.
Qed.

(** C5: Whatever the order in which [NewPool], the redialing goroutines and
    the callers of [Get], [Discard] and [Close] run: the number of slots is the
    size asked for; until the pool is closed a filled slot has no goroutine
    dialing for it and an empty one exactly one, so no two links compete for a
    slot and none is left without its goroutine; the delay of a redial stays
    within the bound; [Get] answers the first link at or after [next] and moves
    past it, reports no healthy link only when every slot is empty, and a
    closed pool only when it is closed; and once a [Close] has returned, every
    link that was ever dialed is closed. *)
Theorem pool_invariant minBackoff maxBackoff size p :
  0 <= minBackoff <= maxBackoff -> maxBackoff < 2 ^ 62 ->
  rtc (pool_step minBackoff maxBackoff) (NewPool size) p ->
  length (pl_slots p) = size /\
  (pl_done p = false -> forall i, (i < size)%nat ->
     fillers i (pl_jobs p) = match pl_slots p !! i with Some None => 1%nat | _ => 0%nat end) /\
  (forall i t b, Redialing i t b ∈ pl_jobs p -> (i < size)%nat /\ 0 <= b <= maxBackoff) /\
  get_answer p /\
  (pl_returned p = true -> forall l, (l < pl_dialed p)%nat -> l ∈ pl_closed p).
Proof.
  intros HM HB HR. destruct (pool_reach_inv minBackoff maxBackoff (conj HM HB) size p HR) as [HI HL].
  split; [done|]. split; [intros HD i Hi; apply (pi_count _ _ HI HD); lia|].
  split; [intros i t b HE; rewrite <- HL; by eapply (pi_redial _ _ HI)|]. split; [apply pool_Get_answer|].
  intros HT l Hl. destruct (pi_tracked _ _ HI l Hl) as [?|[HS|(i & b & HE)]]; [done| |].
  - apply list_elem_of_lookup in HS. destruct HS as [i HS]. by apply (proj2 (pi_swept _ _ HI (or_intror HT))) in HS.
  - by apply (pi_quiet _ _ HI HT) in HE.
Qed.

(** A pool of one slot: the first dial works, the link is discarded, the
    goroutine dials again while the pool is closed, and closes what it got. *)
Definition run1 : Pool := mkPool [None] 0 true [] 2 {[0%nat; 1%nat]} true.

Lemma run1_reached : rtc (pool_step 100 1000) (NewPool 1) run1.
Proof.
  eapply rtc_l; [apply (step_fill_ok _ _ _ 0 0); [reflexivity|cbn; lia]|].
  eapply rtc_l; [apply (step_fill_end _ _ _ 0 1); [reflexivity|cbn; lia]|].
  eapply rtc_l; [apply (step_Discard _ _ _ 0); [reflexivity|cbn; lia]|].
  eapply rtc_l; [apply (step_remove _ _ _ 0 0 0); reflexivity|].
  eapply rtc_l; [apply (step_spawn _ _ _ 0 0); reflexivity|].
  eapply rtc_l; [apply (step_check _ _ _ 0 0 100); reflexivity|].
  eapply rtc_l; [apply (step_Close); reflexivity|].
  eapply rtc_l; [apply (step_sweep _ _ _ 1); reflexivity|].
  eapply rtc_l; [apply (step_dial_ok _ _ _ 0 0 100); reflexivity|].
  eapply rtc_l; [apply (step_store_done _ _ _ 0 0 1 100); reflexivity|].
  eapply rtc_l; [apply (step_wait _ _ _ 0); reflexivity|].
  vm_compute. apply rtc_refl.
Qed.

Lemma pool_invariant_witness : pl_dialed run1 = 2%nat /\ 0%nat ∈ pl_closed run1 /\ 1%nat ∈ pl_closed run1.
Proof.
  destruct (pool_invariant 100 1000 1 run1 ltac:(lia) ltac:(lia) run1_reached) as (_ & _ & _ & _ & HL).
  split; [reflexivity|]. split; apply HL; solve [reflexivity|cbn; lia].
Defined.
