(* ===== verification/Host.v ===== *)
(** * The component host ([runtime/host.go])

    A host starts its components in registration order and stops them in the
    reverse order; components come and go while it runs.  The components are
    the application's: their [Start] and [Stop] are parameters over a world
    that every call may change.  A host operation returns the error it reports,
    the host and the world, or nothing where the Go code would call a method of
    a nil component. *)

From S2P Require Import Prelude Path.

Section Hosting.
Context {Comp E W : Type} (cname : Comp -> bytes) (cstart cstop : Comp -> W -> option E * W).

Inductive host_error :=
| ErrDuplicate (name : bytes)
| ErrNotFound (name : bytes)
| ErrRunning
| StartFailed (name : bytes) (e : E) (unwind : list (bytes * E))  (* the start error joined with the unwind errors *)
| StopFailed (errs : list (bytes * E))                            (* the joined stop errors *)
| DeployFailed (name : bytes) (e : E)
| UndeployFailed (e : E).

Record Host := mkHost {
  h_order : list bytes;
  h_comps : gmap bytes Comp;
  h_running : gset bytes;
  h_started : bool;
}.

Definition host_New : Host := mkHost [] ∅ ∅ false.

Definition set_running (h : Host) (r : gset bytes) : Host := mkHost (h_order h) (h_comps h) r (h_started h).
Definition set_started (h : Host) (b : bool) : Host := mkHost (h_order h) (h_comps h) (h_running h) b.

(** [errors.Join]: no error when there is none to join. *)
Definition join_stop (errs : list (bytes * E)) : option host_error :=
  match errs with [] => None | _ => Some (StopFailed errs) end.

Definition host_add (h : Host) (c : Comp) : option host_error * Host :=
  let name := cname c in
  match h_comps h !! name with
  | Some _ => (Some (ErrDuplicate name), h)
  | None => (None, mkHost (h_order h ++ [name]) (<[name := c]> (h_comps h)) (h_running h) (h_started h))
  end.

Definition host_Register (h : Host) (c : Comp) : option host_error * Host :=
  if h_started h then (Some ErrRunning, h) else host_add h c.

Definition startOne (h : Host) (name : bytes) (w : W) : option (option E * Host * W) :=
  c ← h_comps h !! name;
  match cstart c w with
  | (Some e, w) => Some (Some e, h, w)
  | (None, w) => Some (None, set_running h ({[name]} ∪ h_running h), w)
  end.

Definition stopOne (h : Host) (name : bytes) (w : W) : option (option E * Host * W) :=
  c ← h_comps h !! name;
  let '(err, w) := cstop c w in
  Some (err, set_running h (h_running h ∖ {[name]}), w).

(** The loop of [Stop] and of [stopStarted] over the names, last first. *)
Fixpoint stop_loop (names : list bytes) (h : Host) (w : W) : option (list (bytes * E) * Host * W) :=
  match names with
  | [] => Some ([], h, w)
  | name :: names =>
      if bool_decide (name ∈ h_running h) then
        '(err, h, w) ← stopOne h name w;
        '(errs, h, w) ← stop_loop names h w;
        Some (match err with Some e => (name, e) :: errs | None => errs end, h, w)
      else stop_loop names h w
  end.

Definition stopStarted (h : Host) (w : W) : option (list (bytes * E) * Host * W) := stop_loop (rev (h_order h)) h w.

(** The loop of [Start]. *)
Fixpoint start_loop (names : list bytes) (h : Host) (w : W) : option (option host_error * Host * W) :=
  match names with
  | [] => Some (None, set_started h true, w)
  | name :: names =>
      '(err, h, w) ← startOne h name w;
      match err with
      | Some e => '(errs, h, w) ← stopStarted h w; Some (Some (StartFailed name e errs), h, w)
      | None => start_loop names h w
      end
  end.

Definition host_Start (h : Host) (w : W) : option (option host_error * Host * W) :=
  if h_started h then Some (Some ErrRunning, h, w) else start_loop (h_order h) h w.

Definition host_Stop (h : Host) (w : W) : option (option host_error * Host * W) :=
  '(errs, h, w) ← stop_loop (rev (h_order h)) h w;
  Some (join_stop errs, set_started h false, w).

(** The first occurrence of a name is cut out of the order. *)
Fixpoint cut (name : bytes) (order : list bytes) : list bytes :=
  match order with
  | [] => []
  | n :: order => if bool_decide (n = name) then order else n :: cut name order
  end.

Definition host_remove (h : Host) (name : bytes) : Host :=
  mkHost (cut name (h_order h)) (delete name (h_comps h)) (h_running h ∖ {[name]}) (h_started h).

Definition Deploy (h : Host) (c : Comp) (w : W) : option (option host_error * Host * W) :=
  match host_add h c with
  | (Some err, h) => Some (Some err, h, w)
  | (None, h) =>
      if h_started h then
        '(err, h, w) ← startOne h (cname c) w;
        match err with
        | Some e => Some (Some (DeployFailed (cname c) e), host_remove h (cname c), w)
        | None => Some (None, h, w)
        end
      else Some (None, h, w)
  end.

Definition Undeploy (h : Host) (name : bytes) (w : W) : option (option host_error * Host * W) :=
  match h_comps h !! name with
  | None => Some (Some (ErrNotFound name), h, w)
  | Some _ =>
      let stopped : option (option E * Host * W) :=
        if bool_decide (name ∈ h_running h) then stopOne h name w else Some (None, h, w) in
      '(err, h, w) ← stopped;
      Some (option_map UndeployFailed err, host_remove h name, w)
  end.

Definition Components (h : Host) : list bytes := h_order h.

(** [Run], whose context is cancelled while it waits. *)
Definition host_Run (h : Host) (w : W) : option (option host_error * Host * W) :=
  '(err, h, w) ← host_Start h w;
  match err with
  | Some e => Some (Some e, h, w)
  | None => host_Stop h w
  end.

(** ** The specification

    A host is the list of its components, in registration order, and whether
    it runs; when it runs, every component does. *)

Record ahost := mkAhost { a_comps : list Comp; a_up : bool }.

Fixpoint stop_seq (cs : list Comp) (w : W) : list (bytes * E) * W :=
  match cs with
  | [] => ([], w)
  | c :: cs =>
      let '(err, w) := cstop c w in
      let '(errs, w) := stop_seq cs w in
      (match err with Some e => (cname c, e) :: errs | None => errs end, w)
  end.

(** Starts until one fails; [up] are the ones already up, the last first. *)
Fixpoint start_seq (up cs : list Comp) (w : W) : option host_error * W :=
  match cs with
  | [] => (None, w)
  | c :: cs =>
      match cstart c w with
      | (Some e, w) => let '(errs, w) := stop_seq up w in (Some (StartFailed (cname c) e errs), w)
      | (None, w) => start_seq (c :: up) cs w
      end
  end.

Definition named (name : bytes) (c : Comp) : bool := bool_decide (cname c = name).

Inductive host_op := OpRegister (c : Comp) | OpStart | OpStop | OpDeploy (c : Comp) | OpUndeploy (name : bytes) | OpRun.

Definition a_start (a : ahost) (w : W) : option host_error * ahost * W :=
  if a_up a then (Some ErrRunning, a, w) else
  let '(err, w) := start_seq [] (a_comps a) w in
  (err, mkAhost (a_comps a) (match err with None => true | Some _ => false end), w).

Definition a_stop (a : ahost) (w : W) : option host_error * ahost * W :=
  let '(errs, w) := if a_up a then stop_seq (rev (a_comps a)) w else ([], w) in
  (join_stop errs, mkAhost (a_comps a) false, w).

Definition aspec (o : host_op) (a : ahost) (w : W) : option host_error * ahost * W :=
  match o with
  | OpRegister c =>
      if a_up a then (Some ErrRunning, a, w) else
      if existsb (named (cname c)) (a_comps a) then (Some (ErrDuplicate (cname c)), a, w)
      else (None, mkAhost (a_comps a ++ [c]) false, w)
  | OpStart => a_start a w
  | OpStop => a_stop a w
  | OpDeploy c =>
      if existsb (named (cname c)) (a_comps a) then (Some (ErrDuplicate (cname c)), a, w) else
      let '(err, w) := if a_up a then cstart c w else (None, w) in
      match err with
      | Some e => (Some (DeployFailed (cname c) e), a, w)
      | None => (None, mkAhost (a_comps a ++ [c]) (a_up a), w)
      end
  | OpUndeploy name =>
      match List.find (named name) (a_comps a) with
      | None => (Some (ErrNotFound name), a, w)
      | Some c =>
          let '(err, w) := if a_up a then cstop c w else (None, w) in
          (option_map UndeployFailed err, mkAhost (List.filter (fun x => negb (named name x)) (a_comps a)) (a_up a), w)
      end
  | OpRun =>
      let '(err, a, w) := a_start a w in
      match err with Some e => (Some e, a, w) | None => a_stop a w end
  end.

Definition hstep (o : host_op) (h : Host) (w : W) : option (option host_error * Host * W) :=
  match o with
  | OpRegister c => let '(err, h) := host_Register h c in Some (err, h, w)
  | OpStart => host_Start h w
  | OpStop => host_Stop h w
  | OpDeploy c => Deploy h c w
  | OpUndeploy name => Undeploy h name w
  | OpRun => host_Run h w
  end.

(** What a host holds, as the list of its components. *)
Record represents (h : Host) (a : ahost) : Prop := {
  rp_order : h_order h = cname <$> a_comps a;
  rp_nodup : NoDup (h_order h);
  rp_comps : forall c, c ∈ a_comps a -> h_comps h !! cname c = Some c;
  rp_dom : forall n, is_Some (h_comps h !! n) -> n ∈ h_order h;
  rp_running : h_running h = if a_up a then list_to_set (h_order h) else ∅;
  rp_started : h_started h = a_up a;
}.

(** ** The loops *)

Lemma fmap_rev (cs : list Comp) : cname <$> rev cs = rev (cname <$> cs).
Proof. rewrite !rev_alt. apply fmap_reverse. Qed.

Lemma elem_of_rev {A} (x : A) l : x ∈ rev l <-> x ∈ l.
Proof. rewrite rev_alt. apply elem_of_reverse. Qed.

Lemma NoDup_rev_iff {A} (l : list A) : NoDup (rev l) <-> NoDup l.
Proof. rewrite rev_alt. change (rev_append l []) with (reverse l). by rewrite reverse_Permutation. Qed.

Lemma host_eq_running o m r r' b : (forall n, n ∈ r <-> n ∈ r') -> mkHost o m r b = mkHost o m r' b.
Proof. intros HE. f_equal. by apply set_eq. Qed.

Lemma stop_loop_skip a b h w : (forall n, n ∈ a -> n ∉ h_running h) -> stop_loop (a ++ b) h w = stop_loop b h w.
Proof.
  induction a as [|n a IH]; intros HN; cbn [app stop_loop]; [done|]. rewrite bool_decide_false by (apply HN; left).
  apply IH. intros m Hm. apply HN. by right.
Qed.

Lemma stop_loop_run cs h w : (forall c, c ∈ cs -> h_comps h !! cname c = Some c) -> NoDup (cname <$> cs) ->
  (forall c, c ∈ cs -> cname c ∈ h_running h) ->
  stop_loop (cname <$> cs) h w =
    let '(errs, w) := stop_seq cs w in Some (errs, set_running h (h_running h ∖ list_to_set (cname <$> cs)), w).
Proof.
  revert h w. induction cs as [|c cs IH]; intros h w HC HD HR; cbn [fmap list_fmap stop_loop stop_seq].
  { do 3 f_equal. destruct h as [o m r b]. apply host_eq_running. set_solver. }
  apply list.NoDup_cons in HD. destruct HD as [Hc HD]. rewrite bool_decide_true by (apply HR; left).
  unfold stopOne. rewrite (HC c) by left. cbn [mbind option_bind]. destruct (cstop c w) as [err w1]. cbn [mbind option_bind].
  rewrite IH; [|intros; apply HC; by right|done|].
  - destruct (stop_seq cs w1) as [errs w2]. cbn. unfold set_running. cbn. do 3 f_equal. apply host_eq_running. set_solver.
  - intros x Hx. cbn. apply elem_of_difference. split; [apply HR; by right|].
    rewrite elem_of_singleton. intros E'. apply Hc. rewrite <- E'. by apply list_elem_of_fmap_2.
Qed.

Lemma start_loop_run cs up h w :
  h_order h = cname <$> (rev up ++ cs) -> NoDup (h_order h) -> (forall c, c ∈ rev up ++ cs -> h_comps h !! cname c = Some c) ->
  h_running h = list_to_set (cname <$> up) -> h_started h = false ->
  start_loop (cname <$> cs) h w =
    let '(err, w) := start_seq up cs w in
    Some (err, match err with None => mkHost (h_order h) (h_comps h) (list_to_set (h_order h)) true | Some _ => set_running h ∅ end, w).
Proof.
  revert up h w. induction cs as [|c cs IH]; intros up h w HO HD HC HR HS; cbn [fmap list_fmap start_loop start_seq].
  { unfold set_started. do 3 f_equal. rewrite HR, HO, app_nil_r, fmap_rev.
    f_equal. apply set_eq. intros x. rewrite !elem_of_list_to_set. by rewrite elem_of_rev. }
  unfold startOne. rewrite (HC c) by set_solver. cbn [mbind option_bind]. destruct (cstart c w) as [[e|] w1]; cbn [mbind option_bind].
  - unfold stopStarted. rewrite HO, fmap_app, fmap_cons, fmap_rev, rev_app_distr, rev_involutive. cbn [rev].
    rewrite HO, fmap_app, fmap_cons, fmap_rev in HD. apply list.NoDup_app in HD. destruct HD as (HU & HX & HY).
    assert (HU' : forall n, n ∈ cname <$> up -> n ∈ rev (cname <$> up)).
    { intros n. by rewrite elem_of_rev. }
    rewrite stop_loop_skip.
    + rewrite stop_loop_run.
      * destruct (stop_seq up w1) as [errs w2]. cbn. rewrite HR. do 4 f_equal. set_solver.
      * intros x Hx. apply HC, elem_of_app. left. by apply elem_of_rev.
      * by apply NoDup_rev_iff.
      * intros x Hx. rewrite HR, elem_of_list_to_set. by apply list_elem_of_fmap_2.
    + intros n Hn. rewrite HR, elem_of_list_to_set. intros HU2. apply (HX n); [by apply HU'|].
      rewrite elem_of_app, elem_of_rev, list_elem_of_singleton in Hn. rewrite elem_of_cons. tauto.
  - rewrite IH with (up := c :: up); cbn.
    + done.
    + rewrite HO. cbn. by rewrite <- app_assoc.
    + done.
    + intros x. rewrite <- app_assoc. apply HC.
    + rewrite HR. done.
    + done.
Qed.

(** ** The refinement *)

Lemma rp_find h a n : represents h a -> h_comps h !! n = List.find (named n) (a_comps a).
Proof.
  intros [HO HD HC HX _ _]. destruct (List.find (named n) (a_comps a)) as [c|] eqn:HF.
  - apply find_some in HF. destruct HF as [HI HN%bool_decide_eq_true]. subst n. apply HC. by apply list_elem_of_In.
  - destruct (h_comps h !! n) as [c|] eqn:E'; [|done]. exfalso.
    assert (HN : n ∈ h_order h) by (apply HX; by rewrite E'). rewrite HO in HN.
    apply list_elem_of_fmap in HN. destruct HN as (c' & -> & HI). eapply find_none in HF; [|by apply list_elem_of_In].
    unfold named in HF. by rewrite bool_decide_true in HF.
Qed.

Lemma existsb_named n cs : existsb (named n) cs = match List.find (named n) cs with Some _ => true | None => false end.
Proof. induction cs as [|c cs IH]; cbn; [done|]. destruct (named n c); [done|apply IH]. Qed.

Lemma rp_fresh h a n : represents h a -> h_comps h !! n = None -> n ∉ h_order h.
Proof.
  intros HR HN HI. rewrite (rp_order _ _ HR) in HI. apply list_elem_of_fmap in HI. destruct HI as (c & -> & HI).
  by rewrite (rp_comps _ _ HR c HI) in HN.
Qed.

Lemma represents_add h a c : represents h a -> h_comps h !! cname c = None ->
  represents (mkHost (h_order h ++ [cname c]) (<[cname c := c]> (h_comps h))
               (if a_up a then {[cname c]} ∪ h_running h else h_running h) (h_started h))
             (mkAhost (a_comps a ++ [c]) (a_up a)).
Proof.
  intros HR HN. pose proof (rp_fresh _ _ _ HR HN) as HF. destruct HR as [HO HD HC HX Hr Hs].
  split; cbn [h_order h_comps h_running h_started a_comps a_up].
  - by rewrite HO, fmap_app.
  - apply list.NoDup_app. split; [done|]. split; [|by apply NoDup_singleton].
    intros x Hx ->%list_elem_of_singleton. done.
  - intros c'. rewrite elem_of_app, list_elem_of_singleton. intros [HI| ->]; [|by rewrite lookup_insert_eq].
    rewrite lookup_insert_ne; [by apply HC|]. intros E'. apply HF. rewrite HO, E'. by apply list_elem_of_fmap_2.
  - intros n. rewrite elem_of_app, list_elem_of_singleton. destruct (decide (cname c = n)) as [->|Hne]; [by right|].
    rewrite lookup_insert_ne by done. left. by apply HX.
  - rewrite Hr. destruct (a_up a); [|done]. apply set_eq. intros x. rewrite list_to_set_app. set_solver.
  - done.
Qed.

Lemma cut_spec n (cs : list Comp) : NoDup (cname <$> cs) ->
  cut n (cname <$> cs) = cname <$> List.filter (fun x => negb (named n x)) cs.
Proof.
  induction cs as [|c cs IH]; cbn [fmap list_fmap cut List.filter]; intros HD; [done|].
  apply list.NoDup_cons in HD. destruct HD as [Hc HD]. unfold named at 1. destruct (decide (cname c = n)) as [<-|Hne].
  - rewrite !bool_decide_true by done. cbn [negb]. clear IH HD. induction cs as [|x cs IH]; [done|].
    cbn [List.filter fmap list_fmap]. unfold named at 1. rewrite bool_decide_false; cbn [negb fmap list_fmap].
    + f_equal. apply IH. intros HI. apply Hc. by right.
    + intros E'. apply Hc. rewrite <- E'. left.
  - rewrite !bool_decide_false by done. cbn [negb fmap list_fmap]. f_equal. by apply IH.
Qed.

Lemma elem_filter_named n cs c : c ∈ List.filter (fun x => negb (named n x)) cs <-> c ∈ cs /\ cname c <> n.
Proof.
  rewrite list_elem_of_In, filter_In, <- list_elem_of_In. unfold named.
  rewrite negb_true_iff, bool_decide_eq_false. done.
Qed.

Lemma represents_remove h a n :
  represents h a -> represents (host_remove h n) (mkAhost (List.filter (fun x => negb (named n x)) (a_comps a)) (a_up a)).
Proof.
  intros [HO HD HC HX Hr Hs]. assert (HE : h_order (host_remove h n) = cname <$> List.filter (fun x => negb (named n x)) (a_comps a)).
  { cbn. rewrite HO in HD |- *. by apply cut_spec. }
  assert (HI : forall x, x ∈ h_order (host_remove h n) <-> x ∈ h_order h /\ x <> n).
  { intros x. rewrite HE, HO, !list_elem_of_fmap. setoid_rewrite elem_filter_named. naive_solver. }
  split; cbn [h_comps h_running h_started a_comps a_up].
  - done.
  - rewrite HE. rewrite HO in HD. clear -HD. induction (a_comps a) as [|c cs IH]; [done|]. cbn [List.filter].
    apply list.NoDup_cons in HD. destruct HD as [Hc HD]. destruct (negb (named n c)); [|by apply IH].
    apply list.NoDup_cons. split; [|by apply IH]. intros (x & Ex & Hx)%list_elem_of_fmap. apply elem_filter_named in Hx.
    apply Hc. rewrite Ex. apply list_elem_of_fmap_2. tauto.
  - intros c [Hc Hn]%elem_filter_named. cbn. rewrite lookup_delete_ne by done. by apply HC.
  - intros x. cbn [h_comps host_remove]. rewrite HI. destruct (decide (n = x)) as [->|Hne].
    + rewrite lookup_delete_eq. by intros [? ?].
    + rewrite lookup_delete_ne by done. intros ?%HX. done.
  - cbn [host_remove h_running]. rewrite Hr. destruct (a_up a); [|set_solver]. apply set_eq. intros x.
    rewrite elem_of_difference, !elem_of_list_to_set, HI. set_solver.
  - done.
Qed.

(** A host operation answers as its specification does. *)
Definition agrees (r : option (option host_error * Host * W)) (s : option host_error * ahost * W) : Prop :=
  exists h', r = Some (s.1.1, h', s.2) /\ represents h' s.1.2.

Lemma represents_up h a (b : bool) : represents h a ->
  represents (mkHost (h_order h) (h_comps h) (if b then list_to_set (h_order h) else ∅) b) (mkAhost (a_comps a) b).
Proof. intros [HO HD HC HX _ _]. split; done. Qed.

Lemma Start_agrees h a w : represents h a -> agrees (host_Start h w) (a_start a w).
Proof.
  intros HR. unfold host_Start, a_start. rewrite (rp_started _ _ HR). destruct (a_up a) eqn:HU; [by exists h|].
  pose proof (start_loop_run (a_comps a) ([] : list Comp) h w) as HL. rewrite <- (rp_order _ _ HR) in HL. rewrite HL; cycle 1.
  - apply (rp_order _ _ HR).
  - apply (rp_nodup _ _ HR).
  - apply (rp_comps _ _ HR).
  - rewrite (rp_running _ _ HR), HU. done.
  - by rewrite (rp_started _ _ HR).
  - destruct (start_seq [] (a_comps a) w) as [[e|] w'].
    + eexists. split; [done|]. cbn. pose proof (represents_up _ _ false HR) as HF. unfold set_running.
      by rewrite (rp_started _ _ HR), HU.
    + eexists. split; [done|]. apply (represents_up _ _ true HR).
Qed.

Lemma Stop_agrees h a w : represents h a -> agrees (host_Stop h w) (a_stop a w).
Proof.
  intros HR. unfold host_Stop, a_stop. destruct (a_up a) eqn:HU.
  - rewrite (rp_order _ _ HR), <- fmap_rev. rewrite stop_loop_run.
    + destruct (stop_seq (rev (a_comps a)) w) as [errs w']. eexists. split; [done|]. cbn.
      pose proof (represents_up _ _ false HR) as HF. unfold set_started, set_running. cbn. cbn in HF.
      replace (h_running h ∖ list_to_set (cname <$> rev (a_comps a))) with (∅ : gset bytes); [done|].
      rewrite (rp_running _ _ HR), HU, (rp_order _ _ HR). apply set_eq. intros x.
      rewrite elem_of_difference, fmap_rev, !elem_of_list_to_set, elem_of_rev. set_solver.
    + intros c Hc. apply (rp_comps _ _ HR). by apply elem_of_rev.
    + rewrite fmap_rev. apply NoDup_rev_iff. rewrite <- (rp_order _ _ HR). apply (rp_nodup _ _ HR).
    + intros c Hc. rewrite (rp_running _ _ HR), HU, elem_of_list_to_set, (rp_order _ _ HR). apply list_elem_of_fmap_2. by apply elem_of_rev.
  - rewrite <- (app_nil_r (rev (h_order h))), stop_loop_skip by (rewrite (rp_running _ _ HR), HU; set_solver).
    eexists. split; [done|]. cbn. pose proof (represents_up _ _ false HR) as HF. unfold set_started.
    by rewrite (rp_running _ _ HR), HU.
Qed.

Lemma Deploy_agrees h a c w : represents h a -> agrees (Deploy h c w) (aspec (OpDeploy c) a w).
Proof.
  intros HR. unfold Deploy, host_add. cbn [aspec]. rewrite existsb_named, <- (rp_find _ _ _ HR).
  destruct (h_comps h !! cname c) as [c'|] eqn:HN; [by exists h|]. cbn [h_started]. rewrite (rp_started _ _ HR).
  pose proof (represents_add _ _ c HR HN) as HA. destruct (a_up a) eqn:HU.
  - unfold startOne. cbn [h_comps]. rewrite lookup_insert_eq. cbn [mbind option_bind].
    destruct (cstart c w) as [[e|] w']; eexists; (split; [done|]).
    + cbn. unfold host_remove. cbn. rewrite delete_insert_id by done.
      replace (cut (cname c) (h_order h ++ [cname c])) with (h_order h).
      2:{ pose proof (rp_fresh _ _ _ HR HN) as HF. clear -HF. induction (h_order h) as [|n o IH]; cbn; [by rewrite bool_decide_true|].
          rewrite bool_decide_false by set_solver. f_equal. apply IH. set_solver. }
      replace (h_running h ∖ {[cname c]}) with (h_running h). { rewrite <- HU, <- (rp_started _ _ HR). by destruct h. }
      apply set_eq. intros x. rewrite elem_of_difference, elem_of_singleton.
      pose proof (rp_fresh _ _ _ HR HN) as HF. rewrite (rp_running _ _ HR), HU, elem_of_list_to_set. naive_solver.
    + rewrite (rp_started _ _ HR), HU in HA. exact HA.
  - eexists. split; [done|]. rewrite (rp_started _ _ HR), HU in HA. exact HA.
Qed.

Lemma Undeploy_agrees h a n w : represents h a -> agrees (Undeploy h n w) (aspec (OpUndeploy n) a w).
Proof.
  intros HR. unfold Undeploy. cbn [aspec]. rewrite (rp_find _ _ _ HR). destruct (List.find (named n) (a_comps a)) as [c|] eqn:HF; [|by exists h].
  rewrite <- (rp_find _ _ _ HR) in HF. pose proof (represents_remove _ _ n HR) as HM.
  assert (HN : n ∈ h_order h) by (apply (rp_dom _ _ HR); by rewrite HF).
  destruct (a_up a) eqn:HU.
  - rewrite bool_decide_true by (rewrite (rp_running _ _ HR), HU; by apply elem_of_list_to_set).
    unfold stopOne. rewrite HF. cbn [mbind option_bind]. destruct (cstop c w) as [err w']. cbn [mbind option_bind].
    eexists. split; [done|]. cbn. unfold host_remove in *. cbn.
    replace (h_running h ∖ {[n]} ∖ {[n]}) with (h_running h ∖ {[n]}) by set_solver. done.
  - rewrite bool_decide_false by (rewrite (rp_running _ _ HR), HU; apply not_elem_of_empty). cbn [mbind option_bind].
    eexists. split; done.
Qed.

Lemma host_step_agrees o h a w : represents h a -> agrees (hstep o h w) (aspec o a w).
Proof.
  intros HR. destruct o as [c| | |c|n|]; cbn [hstep].
  - unfold host_Register, host_add. cbn [aspec]. rewrite (rp_started _ _ HR). destruct (a_up a) eqn:HU; [by exists h|].
    rewrite existsb_named, <- (rp_find _ _ _ HR). destruct (h_comps h !! cname c) as [c'|] eqn:HN; [by exists h|].
    eexists. split; [done|]. pose proof (represents_add _ _ c HR HN) as HA. rewrite (rp_started _ _ HR), HU in HA. exact HA.
  - by apply Start_agrees.
  - by apply Stop_agrees.
  - by apply Deploy_agrees.
  - by apply Undeploy_agrees.
  - cbn [aspec]. unfold host_Run. destruct (Start_agrees h a w HR) as (h' & -> & HR'). cbn [mbind option_bind].
    destruct (a_start a w) as [[err a'] w']. cbn in HR' |- *. destruct err as [e|]; [by exists h'|]. by apply Stop_agrees.
Qed.

Fixpoint host_run (os : list host_op) (h : Host) (w : W) : option (list (option host_error) * Host * W) :=
  match os with
  | [] => Some ([], h, w)
  | o :: os => '(err, h, w) ← hstep o h w; '(errs, h, w) ← host_run os h w; Some (err :: errs, h, w)
  end.

Fixpoint aspec_run (os : list host_op) (a : ahost) (w : W) : list (option host_error) * ahost * W :=
  match os with
  | [] => ([], a, w)
  | o :: os => let '(err, a, w) := aspec o a w in let '(errs, a, w) := aspec_run os a w in (err :: errs, a, w)
  end.

Lemma host_run_agrees os h a w : represents h a ->
  exists h', host_run os h w = Some ((aspec_run os a w).1.1, h', (aspec_run os a w).2) /\ represents h' (aspec_run os a w).1.2.
Proof.
  revert h a w. induction os as [|o os IH]; intros h a w HR; cbn [host_run aspec_run]; [by exists h|].
  destruct (host_step_agrees o h a w HR) as (h1 & -> & HR1). cbn [mbind option_bind].
  destruct (aspec o a w) as [[err a1] w1]. cbn in HR1 |- *. destruct (IH h1 a1 w1 HR1) as (h2 & E2 & HR2). rewrite E2. cbn.
  destruct (aspec_run os a1 w1) as [[errs a2] w2]. cbn in HR2 |- *. by exists h2.
Qed.

Lemma represents_New : represents host_New (mkAhost [] false).
Proof. split; cbn; try done; [apply NoDup_nil_2|by intros c ?%elem_of_nil|]. intros n. rewrite lookup_empty. by intros [? ?]. Qed.

(** ** What a client of the host sees *)

Lemma Undeploy_ok h a n w : represents h a -> (forall c w, (cstop c w).1 = None) -> n ∈ h_order h ->
  exists h' w', Undeploy h n w = Some (None, h', w') /\ (exists a', represents h' a') /\
    forall x, x ∈ h_order h' <-> x ∈ h_order h /\ x <> n.
Proof.
  intros HR HS HN. destruct (Undeploy_agrees h a n w HR) as (h' & E' & HR'). cbn [aspec] in E', HR'.
  destruct (List.find (named n) (a_comps a)) as [c|] eqn:HF.
  - destruct (a_up a) eqn:HU.
    + pose proof (HS c w) as Hc. destruct (cstop c w) as [err w']. cbn in Hc. subst err. cbn in E', HR'.
      exists h', w'. split; [done|]. split; [by eexists|]. intros x. rewrite (rp_order _ _ HR'), (rp_order _ _ HR). cbn.
      rewrite !list_elem_of_fmap. setoid_rewrite elem_filter_named. naive_solver.
    + cbn in E', HR'. exists h', w. split; [done|]. split; [by eexists|]. intros x. rewrite (rp_order _ _ HR'), (rp_order _ _ HR). cbn.
      rewrite !list_elem_of_fmap. setoid_rewrite elem_filter_named. naive_solver.
  - exfalso. rewrite <- (rp_find _ _ _ HR) in HF. by apply (rp_fresh _ _ _ HR HF).
Qed.

Lemma Deploy_cases h a c w : represents h a ->
  exists err h' w', Deploy h c w = Some (err, h', w') /\ (exists a', represents h' a') /\
    match err with
    | None => cname c ∉ h_order h /\ forall x, x ∈ h_order h' <-> x ∈ h_order h \/ x = cname c
    | Some _ => h_order h' = h_order h
    end.
Proof.
  intros HR. destruct (Deploy_agrees h a c w HR) as (h' & E' & HR'). cbn [aspec] in E', HR'.
  rewrite existsb_named, <- (rp_find _ _ _ HR) in E', HR'. destruct (h_comps h !! cname c) as [c'|] eqn:HN.
  { cbn in E', HR'. exists (Some (ErrDuplicate (cname c))), h', w. split; [done|]. split; [by exists a|].
    by rewrite (rp_order _ _ HR'), (rp_order _ _ HR). }
  pose proof (rp_fresh _ _ _ HR HN) as HF. destruct (if a_up a then cstart c w else (None, w)) as [[e|] w'].
  - cbn in E', HR'. exists (Some (DeployFailed (cname c) e)), h', w'. split; [done|]. split; [by exists a|].
    by rewrite (rp_order _ _ HR'), (rp_order _ _ HR).
  - cbn in E', HR'. exists None, h', w'. split; [done|]. split; [by eexists|]. split; [done|]. intros x.
    rewrite (rp_order _ _ HR'), (rp_order _ _ HR). cbn. rewrite fmap_app, elem_of_app. cbn. by rewrite list_elem_of_singleton.
Qed.

(** Which components the host holds afterwards. *)
Lemma Undeploy_holds h n w err h' w' : Undeploy h n w = Some (err, h', w') -> h_comps h' = delete n (h_comps h).
Proof.
  unfold Undeploy. destruct (h_comps h !! n) as [c|] eqn:HC; [|intros [= _ <- _]; by rewrite delete_id]. case_bool_decide.
  - unfold stopOne. rewrite HC. cbn. destruct (cstop c w) as [e w1]. by intros [= _ <- _].
  - by intros [= _ <- _].
Qed.

Lemma Deploy_holds h c w err h' w' : Deploy h c w = Some (err, h', w') ->
  h_comps h' = match err with None => <[cname c := c]> (h_comps h) | Some _ => h_comps h end.
Proof.
  unfold Deploy, host_add. destruct (h_comps h !! cname c) as [c'|] eqn:HC; [by intros [= <- <- _]|]. cbn [h_started].
  destruct (h_started h); [|by intros [= <- <- _]]. unfold startOne. cbn [h_comps]. rewrite lookup_insert_eq. cbn [mbind option_bind].
  destruct (cstart c w) as [[e|] w1]; cbn; intros [= <- <- _]; cbn; [|done]. by rewrite delete_insert_id.
Qed.
End Hosting.

(** C11: Over any sequence of [Register], [Start], [Stop], [Deploy], [Undeploy]
    and [Run] calls, whatever the components' [Start] and [Stop] do or report,
    the host never calls a component it does not hold, and it answers and acts
    on the world exactly as a list of components with one flag would: [Start]
    starts all of them in registration order or, when one fails, stops the ones
    already started in reverse; [Stop] stops all of them in reverse order and
    collects their errors; [Deploy] starts the new component of a running host
    or leaves the host as it was; [Undeploy] stops a component of a running
    host, and only that one.  In particular the running components are all of
    them or none. *)
Theorem host_refines {Comp E W} (cname : Comp -> bytes) (cstart cstop : Comp -> W -> option E * W) os w :
  let '(answers, a, w') := aspec_run cname cstart cstop os (mkAhost [] false) w in
  exists h, host_run cname cstart cstop os host_New w = Some (answers, h, w') /\
    Components h = cname <$> a_comps a /\ represents cname h a.
Proof.
  destruct (host_run_agrees cname cstart cstop os host_New (mkAhost [] false) w (represents_New cname)) as (h & E1 & HR).
  destruct (aspec_run cname cstart cstop os (mkAhost [] false) w) as [[answers a] w']. cbn in *.
  exists h. split; [done|]. split; [apply (rp_order _ _ _ HR)|done].
Qed.
