(* ===== verification/Deploy.v ===== *)
(** * The deployer ([runtime/deploy.go])

    A deployer keeps the components of a host in step with a directory of
    descriptor files.  The directory is seen as the map from paths to contents
    that [readDir] returns; the JSON decoder and the order in which Go iterates
    over a map are parameters. *)

From stdpp Require Import sorting.
From S2P Require Import Prelude Strconv Path Host.

Record Descriptor := mkDescriptor { ds_Name : bytes; ds_Type : bytes; ds_Enabled : bool; ds_Config : bytes }.

Record deployState := mkDeployState { dp_name : bytes; dp_raw : bytes }.

Section Deployer.
Context {Comp E W : Type} (cname : Comp -> bytes) (cstart cstop : Comp -> W -> option E * W).
(** [json.Unmarshal] into a descriptor; [errors.Is(err, ErrNotFound)] on a
    component's own error; the order of [range] over a map. *)
Context (json_Unmarshal : bytes -> option Descriptor) (wrapsNotFound : E -> bool)
        (map_order : gmap bytes deployState -> list bytes).

Definition Factory : Type := bytes -> bytes -> E + Comp.
Definition Factories : Type := gmap bytes Factory.

Definition NewFactories : Factories := ∅.
Definition RegisterFactory (r : Factories) (typ : bytes) (f : Factory) : Factories := <[typ := f]> r.

Inductive deploy_error :=
| ParseDescriptor (path : bytes)
| NoDescriptorName (path : bytes)
| NoFactory (typ : bytes)
| BuildFailed (name typ : bytes) (e : E)
| ReplaceFailed (name : bytes) (e : @host_error E)
| UndeployError (name : bytes) (e : @host_error E)
| HostError (e : @host_error E).

Definition BuildComponent (r : Factories) (d : Descriptor) : deploy_error + Comp :=
  match r !! ds_Type d with
  | None => inl (NoFactory (ds_Type d))
  | Some f =>
      match f (ds_Name d) (ds_Config d) with
      | inl e => inl (BuildFailed (ds_Name d) (ds_Type d) e)
      | inr c => inr c
      end
  end.

(** The deployer's map, the host and the world. *)
Record dstate := mkDstate { d_applied : gmap bytes deployState; d_host : Host (Comp := Comp); d_world : W }.

Definition is_ErrNotFound (e : @host_error E) : bool :=
  match e with ErrNotFound _ => true | UndeployFailed e => wrapsNotFound e | _ => false end.

(** [err != nil && !errors.Is(err, ErrNotFound)]. *)
Definition real_error (err : option (@host_error E)) : option (@host_error E) :=
  match err with Some e => if is_ErrNotFound e then None else Some e | None => None end.

Definition teardown (path : bytes) (prev : deployState) (s : dstate) : option (option deploy_error * dstate) :=
  '(err, h, w) ← Undeploy cstop (d_host s) (dp_name prev) (d_world s);
  match real_error err with
  | Some e => Some (Some (ReplaceFailed (dp_name prev) e), mkDstate (d_applied s) h w)
  | None => Some (None, mkDstate (delete path (d_applied s)) h w)
  end.

Section Scanning.
Context (reg : Factories).

Definition applyOne (path raw : bytes) (prev : option deployState) (s : dstate) : option (option deploy_error * dstate) :=
  match json_Unmarshal raw with
  | None => Some (Some (ParseDescriptor path), s)
  | Some desc =>
      if bool_decide (ds_Name desc = []) then Some (Some (NoDescriptorName path), s) else
      if negb (ds_Enabled desc) then
        match prev with Some prev => teardown path prev s | None => Some (None, s) end
      else
      match BuildComponent reg desc with
      | inl e => Some (Some e, s)
      | inr c =>
          let torn : option (option deploy_error * dstate) :=
            match prev with Some prev => teardown path prev s | None => Some (None, s) end in
          '(err, s) ← torn;
          match err with
          | Some e => Some (Some e, s)
          | None =>
              '(err, h, w) ← Deploy cname cstart (d_host s) c (d_world s);
              match err with
              | Some e => Some (Some (HostError e), mkDstate (d_applied s) h w)
              | None => Some (None, mkDstate (<[path := mkDeployState (ds_Name desc) raw]> (d_applied s)) h w)
              end
          end
      end
  end.

Definition opt_cons {A} (o : option A) (l : list A) : list A := match o with Some a => a :: l | None => l end.

(** The loop over the sorted paths. *)
Fixpoint apply_loop (files : gmap bytes bytes) (paths : list bytes) (s : dstate) : option (list deploy_error * dstate) :=
  match paths with
  | [] => Some ([], s)
  | path :: paths =>
      raw ← files !! path;
      let prev := d_applied s !! path in
      if match prev with Some p => bool_decide (dp_raw p = raw) | None => false end then apply_loop files paths s
      else
        '(err, s) ← applyOne path raw prev s;
        '(errs, s) ← apply_loop files paths s;
        Some (opt_cons err errs, s)
  end.

(** The loop over what was applied: files that are gone. *)
Fixpoint gone_loop (files : gmap bytes bytes) (paths : list bytes) (s : dstate) : option (list deploy_error * dstate) :=
  match paths with
  | [] => Some ([], s)
  | path :: paths =>
      match files !! path with
      | Some _ => gone_loop files paths s
      | None =>
          st ← d_applied s !! path;
          '(err, h, w) ← Undeploy cstop (d_host s) (dp_name st) (d_world s);
          '(errs, s) ← gone_loop files paths (mkDstate (delete path (d_applied s)) h w);
          Some (opt_cons (option_map (UndeployError (dp_name st)) (real_error err)) errs, s)
      end
  end.

(** [Scan], where [readDir] found [files]. *)
Definition Scan (files : gmap bytes bytes) (s : dstate) : option (list deploy_error * dstate) :=
  let paths := merge_sort bytes_le (elements (dom files)) in
  '(errs1, s) ← apply_loop files paths s;
  '(errs2, s) ← gone_loop files (map_order (d_applied s)) s;
  Some (errs1 ++ errs2, s).
End Scanning.

Definition NewDeployer (h : Host (Comp := Comp)) (w : W) : dstate := mkDstate ∅ h w.

(** ** The directory and the host in step *)

(** What a descriptor file asks for. *)
Definition wanted (raw : bytes) : option deployState :=
  match json_Unmarshal raw with
  | Some d => if ds_Enabled d then Some (mkDeployState (ds_Name d) raw) else None
  | None => None
  end.

Definition well_formed (raw : bytes) : Prop := exists d, json_Unmarshal raw = Some d /\ ds_Name d <> [].

Definition managed (m : gmap bytes deployState) (n : bytes) : Prop := exists path st, m !! path = Some st /\ dp_name st = n.

Section Sync.
Context (reg : Factories) (base : gmap bytes Comp).
Context (Hstop : forall c w, (cstop c w).1 = None).
Context (Hname : forall typ f name config c, reg !! typ = Some f -> f name config = inr c -> cname c = name).
Context (Horder : forall m, map_order m ≡ₚ (map_to_list m).*1).

(** The host holds the components of others, [base], under the names [ext], and
    those the factories build from the descriptors that were applied, each by one
    file. *)
Record synced (ext : gset bytes) (s : dstate) : Prop := {
  sy_host : exists a, represents cname (d_host s) a;
  sy_raw : forall path st, d_applied s !! path = Some st -> well_formed (dp_raw st) /\ wanted (dp_raw st) = Some st;
  sy_names : forall n, n ∈ h_order (d_host s) <-> n ∈ ext \/ managed (d_applied s) n;
  sy_apart : forall n, managed (d_applied s) n -> n ∉ ext;
  sy_built : forall path st, d_applied s !! path = Some st ->
    exists d c, json_Unmarshal (dp_raw st) = Some d /\ BuildComponent reg d = inr c /\ h_comps (d_host s) !! dp_name st = Some c;
  sy_base : forall n, n ∈ ext -> h_comps (d_host s) !! n = base !! n;
  sy_inj : forall p1 p2 s1 s2, d_applied s !! p1 = Some s1 -> d_applied s !! p2 = Some s2 -> dp_name s1 = dp_name s2 -> p1 = p2;
}.

Lemma managed_delete m path st n : (forall p1 p2 s1 s2, m !! p1 = Some s1 -> m !! p2 = Some s2 -> dp_name s1 = dp_name s2 -> p1 = p2) ->
  m !! path = Some st -> managed (delete path m) n <-> managed m n /\ n <> dp_name st.
Proof.
  intros HI HP. unfold managed. split.
  - intros (p & s & [Hp Hs]%lookup_delete_Some & <-). split; [by exists p, s|]. intros E1. apply Hp. by eapply HI.
  - intros ((p & s & Hs & <-) & Hn). exists p, s. split; [|done]. apply lookup_delete_Some. split; [|done].
    intros ->. congruence.
Qed.

Lemma managed_insert m path st n : m !! path = None -> managed (<[path := st]> m) n <-> managed m n \/ n = dp_name st.
Proof.
  intros HN. unfold managed. split.
  - intros (p & s & [[-> ->]|[Hp Hs]]%lookup_insert_Some & <-); [by right|]. left. by exists p, s.
  - intros [(p & s & Hs & <-)| ->].
    + exists p, s. split; [|done]. apply lookup_insert_Some. right. split; [|done]. intros ->. congruence.
    + exists path, st. split; [by rewrite lookup_insert_eq|done].
Qed.

(** Undeploying what a file had applied. *)
Lemma undeploy_synced ext s path st : synced ext s -> d_applied s !! path = Some st ->
  exists h w, Undeploy cstop (d_host s) (dp_name st) (d_world s) = Some (None, h, w) /\
    synced ext (mkDstate (delete path (d_applied s)) h w).
Proof.
  intros [(a & HR) S2 S3 S4 S6 S7 S5] HP.
  destruct (Undeploy_ok cname cstart cstop (d_host s) a (dp_name st) (d_world s) HR Hstop) as (h & w & HU & HA & HO).
  { apply S3. right. by exists path, st. }
  exists h, w. split; [done|]. split; cbn [d_applied d_host].
  - done.
  - intros p x [_ Hx]%lookup_delete_Some. by eapply S2.
  - intros n. rewrite HO, S3, (managed_delete _ _ _ _ S5 HP). specialize (S4 (dp_name st) ltac:(by exists path, st)). set_solver.
  - intros n [Hm _]%(managed_delete _ _ _ _ S5 HP). by apply S4.
  - intros p x [Hne Hx]%lookup_delete_Some. destruct (S6 p x Hx) as (d & c & HJ & HB & HC). exists d, c. split; [done|]. split; [done|].
    rewrite (Undeploy_holds _ _ _ _ _ _ _ HU). apply lookup_delete_Some. split; [|done]. intros E1. apply Hne. by eapply S5.
  - intros n Hn. rewrite (Undeploy_holds _ _ _ _ _ _ _ HU), lookup_delete_ne; [by apply S7|]. intros <-. by apply (S4 (dp_name st)); [exists path, st|].
  - intros p1 p2 s1 s2 [_ H1]%lookup_delete_Some [_ H2]%lookup_delete_Some. by eapply S5.
Qed.

Lemma deploy_synced ext s path c raw d : synced ext s -> d_applied s !! path = None -> cname c = ds_Name d ->
  json_Unmarshal raw = Some d -> ds_Name d <> [] -> ds_Enabled d = true -> BuildComponent reg d = inr c ->
  exists err h w, Deploy cname cstart (d_host s) c (d_world s) = Some (err, h, w) /\
    match err with
    | None => synced ext (mkDstate (<[path := mkDeployState (ds_Name d) raw]> (d_applied s)) h w)
    | Some _ => synced ext (mkDstate (d_applied s) h w)
    end.
Proof.
  intros [(a & HR) S2 S3 S4 S6 S7 S5] HP HN HJ HZ HE HB.
  destruct (Deploy_cases cname cstart cstop (d_host s) a c (d_world s) HR) as (err & h & w & HD & HA & HO).
  exists err, h, w. split; [done|]. pose proof (Deploy_holds _ _ _ _ _ _ _ _ HD) as HCo. destruct err as [e|].
  - split; cbn [d_applied d_host]; rewrite ?HCo; try done. by rewrite HO.
  - destruct HO as [HF HO]. rewrite HN in *. split; cbn [d_applied d_host].
    + done.
    + intros p x [[<- <-]|[_ Hx]]%lookup_insert_Some; [|by eapply S2]. cbn. split; [by exists d|]. unfold wanted. by rewrite HJ, HE.
    + intros n. rewrite HO, S3, (managed_insert _ _ _ _ HP). cbn. tauto.
    + intros n. rewrite (managed_insert _ _ _ _ HP). cbn. intros [Hm| ->]; [by apply S4|]. intros HX. apply HF, S3. by left.
    + intros p x. rewrite HCo. intros [[<- <-]|[_ Hx]]%lookup_insert_Some.
      * exists d, c. split; [done|]. split; [done|]. apply lookup_insert_eq.
      * destruct (S6 p x Hx) as (d' & c' & HJ' & HB' & HC'). exists d', c'. split; [done|]. split; [done|]. rewrite lookup_insert_ne; [done|].
        intros E1. apply HF, S3. right. by exists p, x.
    + intros n Hn. rewrite HCo, lookup_insert_ne; [by apply S7|]. intros <-. apply HF, S3. by left.
    + assert (HG : forall p x, d_applied s !! p = Some x -> dp_name x <> ds_Name d).
      { intros p x Hx E1. apply HF, S3. right. by exists p, x. }
      intros p1 p2 s1 s2 [[<- <-]|[H1 X1]]%lookup_insert_Some [[<- <-]|[H2 X2]]%lookup_insert_Some; cbn; intros E1.
      * done.
      * by destruct (HG _ _ X2).
      * by destruct (HG _ _ X1).
      * by eapply S5.
Qed.

Lemma teardown_synced ext s path st : synced ext s -> d_applied s !! path = Some st ->
  exists s', teardown path st s = Some (None, s') /\ synced ext s' /\ d_applied s' = delete path (d_applied s).
Proof.
  intros HS HP. destruct (undeploy_synced ext s path st HS HP) as (h & w & HU & HS'). unfold teardown. rewrite HU. by eexists.
Qed.

(** Where a file stands once it was applied without an error. *)
Definition settled (m : gmap bytes deployState) (path raw : bytes) : Prop := well_formed raw /\ m !! path = wanted raw.

Definition torn_down (path : bytes) (prev : option deployState) (s : dstate) : option (option deploy_error * dstate) :=
  match prev with Some prev => teardown path prev s | None => Some (None, s) end.

Lemma torn_down_synced ext s path : synced ext s ->
  exists s', torn_down path (d_applied s !! path) s = Some (None, s') /\ synced ext s' /\
    d_applied s' !! path = None /\ forall p, p <> path -> d_applied s' !! p = d_applied s !! p.
Proof.
  intros HS. destruct (d_applied s !! path) as [st|] eqn:HP; cbn [torn_down]; [|by exists s].
  destruct (teardown_synced ext s path st HS HP) as (s' & -> & HS' & HE). exists s'. split; [done|]. split; [done|].
  rewrite HE. split; [apply lookup_delete_eq|]. intros p Hp. by rewrite lookup_delete_ne.
Qed.

Lemma applyOne_synced ext s path raw : synced ext s ->
  exists err s', applyOne reg path raw (d_applied s !! path) s = Some (err, s') /\ synced ext s' /\
    (forall p, p <> path -> d_applied s' !! p = d_applied s !! p) /\ (err = None -> settled (d_applied s') path raw).
Proof.
  intros HS. unfold applyOne, settled, well_formed, wanted. destruct (json_Unmarshal raw) as [d|] eqn:HJ; [|by eexists _, s].
  destruct (decide (ds_Name d = [])) as [HN|HN]; [rewrite bool_decide_true by done; by eexists _, s|]. rewrite bool_decide_false by done.
  destruct (torn_down_synced ext s path HS) as (s1 & HT & HS1 & HP1 & HO1). unfold torn_down in HT.
  destruct (ds_Enabled d) eqn:HE; cbn [negb].
  - unfold BuildComponent. destruct (reg !! ds_Type d) as [f|] eqn:HR; [|by eexists _, s].
    destruct (f (ds_Name d) (ds_Config d)) as [e|c] eqn:HF; [by eexists _, s|]. rewrite HT. cbn [mbind option_bind].
    destruct (deploy_synced ext s1 path c raw d HS1 HP1 (Hname _ _ _ _ _ HR HF) HJ HN HE) as (err & h & w & HD & HS2); [unfold BuildComponent; by rewrite HR, HF|]. rewrite HD.
    cbn [mbind option_bind]. destruct err as [e|]; eexists _, _; (split; [done|]); (split; [done|]); cbn [d_applied].
    + split; [done|]. discriminate.
    + split; [intros p Hp; by rewrite lookup_insert_ne by done; apply HO1|]. intros _. split; [by exists d|].
      by rewrite lookup_insert_eq.
  - rewrite HT. eexists _, _. split; [done|]. split; [done|]. split; [done|]. intros _. split; [by exists d|done].
Qed.

Lemma applied_settled ext s m path st : synced ext s -> d_applied s !! path = Some st -> m !! path = d_applied s !! path ->
  settled m path (dp_raw st).
Proof. intros HS HP HM. destruct (sy_raw _ _ HS _ _ HP) as [HW HX]. split; [done|]. by rewrite HM, HP, HX. Qed.

Lemma opt_cons_nil {A} (o : option A) l : opt_cons o l = [] -> o = None /\ l = [].
Proof. by destruct o. Qed.

(** One round of the loop, when the file is to be applied. *)
Lemma apply_round ext files path paths raw s :
  (forall s, synced ext s -> exists errs s', apply_loop reg files paths s = Some (errs, s') /\ synced ext s' /\
     (forall p, p ∉ paths -> d_applied s' !! p = d_applied s !! p) /\
     (errs = [] -> forall p raw, p ∈ paths -> files !! p = Some raw -> settled (d_applied s') p raw)) ->
  synced ext s -> path ∉ paths -> files !! path = Some raw ->
  exists errs s', ('(err, s) ← applyOne reg path raw (d_applied s !! path) s;
                   '(errs, s) ← apply_loop reg files paths s; Some (opt_cons err errs, s)) = Some (errs, s') /\ synced ext s' /\
    (forall p, p ∉ path :: paths -> d_applied s' !! p = d_applied s !! p) /\
    (errs = [] -> forall p raw, p ∈ path :: paths -> files !! p = Some raw -> settled (d_applied s') p raw).
Proof.
  intros IH HS Hnot Hraw. destruct (applyOne_synced ext s path raw HS) as (err & s1 & -> & HS1 & HO1 & HE1). cbn [mbind option_bind].
  destruct (IH s1 HS1) as (errs & s2 & -> & HS2 & HO2 & HE2). cbn [mbind option_bind].
  exists (opt_cons err errs), s2. split; [done|]. split; [done|]. split.
  - intros p Hp. rewrite HO2 by set_solver. apply HO1. set_solver.
  - intros [-> ->]%opt_cons_nil p raw' [->|Hp]%elem_of_cons Hr; [|by apply HE2].
    replace raw' with raw by congruence. destruct (HE1 eq_refl) as [HW HL]. split; [done|]. by rewrite HO2.
Qed.

Lemma apply_loop_synced ext files paths s : synced ext s -> NoDup paths -> (forall p, p ∈ paths -> is_Some (files !! p)) ->
  exists errs s', apply_loop reg files paths s = Some (errs, s') /\ synced ext s' /\
    (forall p, p ∉ paths -> d_applied s' !! p = d_applied s !! p) /\
    (errs = [] -> forall p raw, p ∈ paths -> files !! p = Some raw ->
       settled (d_applied s') p raw).
Proof.
  revert s. induction paths as [|path paths IH]; intros s HS HD HF; cbn [apply_loop].
  { exists [], s. split; [done|]. split; [done|]. split; [done|]. by intros _ p raw ?%elem_of_nil. }
  apply list.NoDup_cons in HD. destruct HD as [Hnot HD]. destruct (HF path) as [raw Hraw]; [left|]. rewrite Hraw. cbn [mbind option_bind].
  assert (HF' : forall p, p ∈ paths -> is_Some (files !! p)) by (intros p Hp; apply HF; by right).
  destruct (d_applied s !! path) as [st|] eqn:HP; [destruct (decide (dp_raw st = raw)) as [E1|E1]|].
  - rewrite bool_decide_true by done. destruct (IH s HS HD HF') as (errs & s' & -> & HS' & HO & HE).
    exists errs, s'. split; [done|]. split; [done|]. split; [intros p Hp; apply HO; set_solver|].
    intros HN p raw' [->|Hp]%elem_of_cons Hr; [|by apply HE]. replace raw' with raw by congruence. rewrite <- E1.
    apply (applied_settled ext s); [done..|]. by rewrite HO.
  - rewrite bool_decide_false by done. rewrite <- HP. apply apply_round; auto.
  - rewrite <- HP. apply apply_round; auto.
Qed.

Lemma gone_loop_synced ext files paths s : synced ext s -> NoDup paths ->
  (forall p, p ∈ paths -> is_Some (d_applied s !! p)) ->
  exists s', gone_loop files paths s = Some ([], s') /\ synced ext s' /\
    forall p, d_applied s' !! p = if bool_decide (p ∈ paths /\ files !! p = None) then None else d_applied s !! p.
Proof.
  revert s. induction paths as [|path paths IH]; intros s HS HD HF; cbn [gone_loop].
  { exists s. split; [done|]. split; [done|]. intros p. rewrite bool_decide_false; [done|]. by intros [?%elem_of_nil _]. }
  apply list.NoDup_cons in HD. destruct HD as [Hnot HD]. destruct (files !! path) as [raw|] eqn:HX.
  - destruct (IH s HS HD) as (s' & -> & HS' & HL); [intros p Hp; apply HF; by right|]. exists s'. split; [done|]. split; [done|].
    intros p. rewrite HL. apply (f_equal (fun b : bool => if b then None else d_applied s !! p)). apply bool_decide_ext.
    rewrite elem_of_cons. naive_solver.
  - destruct (HF path) as [st Hst]; [left|]. rewrite Hst. cbn [mbind option_bind].
    destruct (undeploy_synced ext s path st HS Hst) as (h & w & HU & HS1). rewrite HU. cbn [mbind option_bind].
    edestruct (IH _ HS1 HD) as (s' & E1 & HS' & HL).
    { intros p Hp. cbn. rewrite lookup_delete_ne by (intros ->; done). apply HF. by right. }
    rewrite E1. cbn. exists s'. split; [done|]. split; [done|]. intros p. rewrite HL. cbn [d_applied].
    destruct (decide (p = path)) as [->|Hne].
    + rewrite lookup_delete_eq, (bool_decide_true (path ∈ path :: paths /\ _)) by (split; [left|done]). by case_bool_decide.
    + rewrite lookup_delete_ne by done. apply (f_equal (fun b : bool => if b then None else d_applied s !! p)). apply bool_decide_ext.
      rewrite elem_of_cons. naive_solver.
Qed.

Lemma scan_paths (files : gmap bytes bytes) : let paths := merge_sort bytes_le (elements (dom files)) in
  NoDup paths /\ forall p, p ∈ paths <-> is_Some (files !! p).
Proof.
  cbv zeta. split.
  - rewrite merge_sort_Permutation. apply NoDup_elements.
  - intros p. rewrite merge_sort_Permutation, elem_of_elements. apply elem_of_dom.
Qed.

Lemma order_spec m : NoDup (map_order m) /\ forall p, p ∈ map_order m <-> is_Some (m !! p).
Proof.
  split.
  - rewrite Horder. apply NoDup_fst_map_to_list.
  - intros p. rewrite Horder, list_elem_of_fmap. split.
    + intros ([q st] & -> & HI%elem_of_map_to_list). by exists st.
    + intros [st HI]. exists (p, st). split; [done|]. by apply elem_of_map_to_list.
Qed.

(** What a scan leaves, and when nothing is left to do. *)
Definition conforms (files : gmap bytes bytes) (m : gmap bytes deployState) : Prop :=
  (forall path raw, files !! path = Some raw -> well_formed raw) /\
  forall path, m !! path = files !! path ≫= wanted.

Lemma scan_synced ext files s : synced ext s ->
  exists errs s', Scan reg files s = Some (errs, s') /\ synced ext s' /\ (errs = [] -> conforms files (d_applied s')).
Proof.
  intros HS. unfold Scan. destruct (scan_paths files) as [HD HP]. cbv zeta.
  destruct (apply_loop_synced ext files _ s HS HD) as (errs & s1 & -> & HS1 & HO1 & HE1); [intros p; apply HP|]. cbn [mbind option_bind].
  destruct (order_spec (d_applied s1)) as [HD1 HP1].
  destruct (gone_loop_synced ext files _ s1 HS1 HD1) as (s2 & -> & HS2 & HL2); [intros p; apply HP1|]. cbn [mbind option_bind].
  exists (errs ++ []), s2. split; [done|]. split; [done|]. rewrite app_nil_r. intros HN. split.
  - intros path raw Hr. apply (HE1 HN path raw); [|done]. apply HP. by exists raw.
  - intros path. rewrite HL2. destruct (files !! path) as [raw|] eqn:Hr.
    + rewrite bool_decide_false by (intros [_ ?]; done). apply (HE1 HN path raw); [|done]. apply HP. by exists raw.
    + cbn. case_bool_decide as HX; [done|]. destruct (d_applied s1 !! path) as [st|] eqn:HA; [|done]. destruct HX. split; [|done].
      apply HP1. by exists st.
Qed.

Lemma apply_loop_idle files paths s : conforms files (d_applied s) -> (forall p, p ∈ paths -> is_Some (files !! p)) ->
  apply_loop reg files paths s = Some ([], s).
Proof.
  intros [HW HC]. induction paths as [|path paths IH]; intros HF; cbn [apply_loop]; [done|].
  destruct (HF path) as [raw Hraw]; [left|]. rewrite Hraw. cbn [mbind option_bind]. rewrite HC, Hraw. cbn [mbind option_bind].
  assert (HI : apply_loop reg files paths s = Some ([], s)) by (apply IH; intros p Hp; apply HF; by right).
  destruct (HW _ _ Hraw) as (d & HJ & HN). unfold applyOne, wanted. rewrite HJ. destruct (ds_Enabled d) eqn:HE.
  - cbn. by rewrite bool_decide_true.
  - cbn [negb]. rewrite bool_decide_false by done. cbn [mbind option_bind]. by rewrite HI.
Qed.

Lemma gone_loop_idle files paths s : conforms files (d_applied s) -> (forall p, p ∈ paths -> is_Some (d_applied s !! p)) ->
  gone_loop files paths s = Some ([], s).
Proof.
  intros [HW HC]. induction paths as [|path paths IH]; intros HF; cbn [gone_loop]; [done|].
  assert (HI : gone_loop files paths s = Some ([], s)) by (apply IH; intros p Hp; apply HF; by right).
  destruct (HF path) as [st Hst]; [left|]. rewrite HC in Hst. by destruct (files !! path).
Qed.

Lemma scan_idle files s : conforms files (d_applied s) -> Scan reg files s = Some ([], s).
Proof.
  intros HC. unfold Scan. rewrite apply_loop_idle by (done || apply scan_paths). cbn [mbind option_bind].
  rewrite gone_loop_idle by (done || apply order_spec). done.
Qed.
End Sync.
End Deployer.

Section Claims.
Context {Comp E W : Type} (cname : Comp -> bytes) (cstart cstop : Comp -> W -> option E * W)
        (json_Unmarshal : bytes -> option Descriptor) (wrapsNotFound : E -> bool)
        (map_order : gmap bytes deployState -> list bytes) (reg : @Factories Comp E).

(** The scans of a deployer's life, one directory after the other. *)
Fixpoint scans (dirs : list (gmap bytes bytes)) (s : @dstate Comp W) : option dstate :=
  match dirs with
  | [] => Some s
  | files :: dirs =>
      '(_, s) ← Scan cname cstart cstop json_Unmarshal wrapsNotFound map_order reg files s;
      scans dirs s
  end.
End Claims.

(** C12: If stopping a component does not fail and every factory names the
    component as it is told, then after any sequence of scans of changing
    directories over a host that holds components of others, a scan that
    reports no error leaves the deployer and the host exactly as the directory
    says: every file is a well-formed descriptor, what is recorded as applied is
    the enabled files with their contents, the host holds the components of
    others, untouched, and under the name of each enabled descriptor the component
    that its factory builds from the contents of the file as they are now, and no
    more, all of them running when the host runs; and a second scan of the same
    directory does nothing. *)
Theorem scan_converges {Comp E W} (cname : Comp -> bytes) (cstart cstop : Comp -> W -> option E * W)
    json_Unmarshal wrapsNotFound map_order (reg : Factories) h a w dirs files :
  (forall c w, (cstop c w).1 = None) ->
  (forall typ f name config c, reg !! typ = Some f -> f name config = inr c -> cname c = name) ->
  (forall m, map_order m ≡ₚ (map_to_list m).*1) ->
  represents cname h a ->
  let scan := Scan cname cstart cstop json_Unmarshal wrapsNotFound map_order reg in
  exists s errs s',
    scans cname cstart cstop json_Unmarshal wrapsNotFound map_order reg dirs (NewDeployer h w) = Some s /\
    scan files s = Some (errs, s') /\ (exists a', represents cname (d_host s') a') /\
    (errs = [] ->
       (forall path raw, files !! path = Some raw -> exists d, json_Unmarshal raw = Some d /\ ds_Name d <> []) /\
       (forall path, d_applied s' !! path = (raw ← files !! path; d ← json_Unmarshal raw;
          if ds_Enabled d then Some (mkDeployState (ds_Name d) raw) else None)) /\
       (forall n, n ∈ Components (d_host s') <-> n ∈ Components h \/
          exists path raw d, files !! path = Some raw /\ json_Unmarshal raw = Some d /\ ds_Enabled d = true /\ ds_Name d = n) /\
       (forall n, n ∈ Components h -> h_comps (d_host s') !! n = h_comps h !! n) /\
       (forall path raw d, files !! path = Some raw -> json_Unmarshal raw = Some d -> ds_Enabled d = true ->
          exists c, BuildComponent reg d = inr c /\ h_comps (d_host s') !! ds_Name d = Some c) /\
       scan files s' = Some ([], s')).
Proof.
  intros Hstop Hname Horder HR. cbv zeta.
  assert (HS0 : synced cname json_Unmarshal reg (h_comps h) (list_to_set (Components h)) (NewDeployer h w)).
  { split; cbn [NewDeployer d_applied d_host]; try done.
    - by exists a.
    - intros n. rewrite elem_of_list_to_set. unfold managed. setoid_rewrite lookup_empty. naive_solver.
    - intros n (p & st & HL & _). by rewrite lookup_empty in HL. }
  assert (HL : forall dirs s, synced cname json_Unmarshal reg (h_comps h) (list_to_set (Components h)) s -> exists s',
    scans cname cstart cstop json_Unmarshal wrapsNotFound map_order reg dirs s = Some s' /\
    synced cname json_Unmarshal reg (h_comps h) (list_to_set (Components h)) s').
  { clear dirs HS0. intros dirs. induction dirs as [|fs dirs IH]; intros s HS; cbn [scans]; [by exists s|].
    edestruct (scan_synced cname cstart cstop json_Unmarshal wrapsNotFound map_order reg (h_comps h) Hstop Hname Horder) as (errs & s' & -> & HS' & _); [done|].
    cbn [mbind option_bind]. by apply IH. }
  destruct (HL dirs _ HS0) as (s & HSc & HS).
  edestruct (scan_synced cname cstart cstop json_Unmarshal wrapsNotFound map_order reg (h_comps h) Hstop Hname Horder) as (errs & s' & HE & HS' & HC); [exact HS|].
  exists s, errs, s'. split; [done|]. split; [exact HE|]. split; [apply HS'|]. intros HN. specialize (HC HN).
  split; [apply HC|]. split.
  { intros path. rewrite (proj2 HC path). destruct (files !! path) as [raw|]; [|done]. cbn. unfold wanted.
    by destruct (json_Unmarshal raw). }
  split; [|split; [|split]].
  2: { intros n Hn. apply (sy_base _ _ _ _ _ _ HS'). by apply elem_of_list_to_set. }
  2: { intros path raw d HF HJ HD. destruct (sy_built _ _ _ _ _ _ HS' path (mkDeployState (ds_Name d) raw)) as (d' & c & HJ' & HB & HL').
       - rewrite (proj2 HC path), HF. cbn. unfold wanted. by rewrite HJ, HD.
       - cbn in HJ', HL'. exists c. split; [congruence|done]. }
  2: by apply scan_idle.
  intros n. unfold Components. rewrite (sy_names _ _ _ _ _ _ HS' n), elem_of_list_to_set. apply or_iff_compat_l.
  unfold managed. setoid_rewrite (proj2 HC). unfold wanted. split.
  - intros (path & st & HM & <-). destruct (files !! path) as [raw|] eqn:HF; [|done]. cbn in HM.
    destruct (json_Unmarshal raw) as [d|] eqn:HJ; [|done]. destruct (ds_Enabled d) eqn:HD; [|done]. simplify_eq. by exists path, raw, d.
  - intros (path & raw & d & HF & HJ & HD & <-). exists path, (mkDeployState (ds_Name d) raw). rewrite HF. cbn. by rewrite HJ, HD.
Qed.

(** Components that are their names, descriptors written as a flag and a name. *)
Definition toy_lifecycle (c : bytes) (w : nat) : option unit * nat := (None, S w).
Definition toy_json (raw : bytes) : option Descriptor :=
  match raw with
  | flag :: name => Some (mkDescriptor name (go "toy") (bool_decide (flag = x2b)) [])
  | [] => None
  end.
Definition toy_factories : @Factories bytes unit := RegisterFactory NewFactories (go "toy") (fun name _ => inr name).
Definition toy_dir : gmap bytes bytes := {[go "a.json" := go "+mux"; go "b.json" := go "-idle"]}.

Lemma toy_named typ f name config c : toy_factories !! typ = Some f -> f name config = inr c -> id c = name.
Proof.
  unfold toy_factories, RegisterFactory, NewFactories, Factories. intros HF HN.
  apply (lookup_insert_Some (M := gmap bytes)) in HF. destruct HF as [[_ <-]|[_ HF]]; [by injection HN as <-|].
  by rewrite (lookup_empty (M := gmap bytes)) in HF.
Qed.

Lemma scan_converges_witness :
  exists s', Scan id toy_lifecycle toy_lifecycle toy_json (fun _ => false) (fun m => (map_to_list m).*1) toy_factories
               toy_dir (NewDeployer host_New 0%nat) = Some ([], s') /\
    go "mux" ∈ Components (d_host s') /\
    Scan id toy_lifecycle toy_lifecycle toy_json (fun _ => false) (fun m => (map_to_list m).*1) toy_factories toy_dir s' = Some ([], s').
Proof.
  destruct (scan_converges id toy_lifecycle toy_lifecycle toy_json (fun _ => false) (fun m => (map_to_list m).*1) toy_factories
    host_New (mkAhost [] false) 0%nat [] toy_dir) as (s & errs & s' & HS & HE & _ & HC).
  - done.
  - apply toy_named.
  - done.
  - apply represents_New.
  - cbn [scans] in HS. injection HS as <-. exists s'. assert (errs = []) as ->.
    { vm_compute in HE. by injection HE as <- _. }
    split; [exact HE|]. destruct (HC eq_refl) as (_ & _ & HN & _ & _ & HI). split; [|exact HI]. apply HN. right.
    exists (go "a.json"), (go "+mux"), (mkDescriptor (go "mux") (go "toy") true []). repeat split.
Defined.

(** When the component that a changed descriptor replaces fails to stop, the
    host drops it all the same while the deployer keeps recording it as
    applied: once the file is put back to its old contents, the next scan
    reports no error and does nothing, and the component stays gone. *)
Theorem failed_stop_hides_component {Comp E W} (cname : Comp -> bytes) (cstart cstop : Comp -> W -> option E * W)
    json_Unmarshal wrapsNotFound map_order (reg : Factories) h a c w path st raw d c' e w' :
  (forall m, map_order m ≡ₚ (map_to_list m).*1) ->
  represents cname h a -> a_up a = true -> c ∈ a_comps a -> dp_name st = cname c -> dp_raw st <> raw ->
  json_Unmarshal raw = Some d -> ds_Name d <> [] -> ds_Enabled d = true ->
  BuildComponent reg d = inr c' -> cstop c w = (Some e, w') -> wrapsNotFound e = false ->
  let scan := Scan cname cstart cstop json_Unmarshal wrapsNotFound map_order reg in
  exists s', scan {[path := raw]} (mkDstate {[path := st]} h w) = Some ([ReplaceFailed (cname c) (UndeployFailed e)], s') /\
    cname c ∉ Components (d_host s') /\
    scan {[path := dp_raw st]} s' = Some ([], s').
Proof.
  intros Horder HR HU HI HN Hne HJ HZ HE HB HS HX. cbv zeta.
  destruct (Undeploy_agrees cname cstart cstop h a (cname c) w HR) as (h' & E1 & HR'). cbn [aspec] in E1, HR'.
  rewrite <- (rp_find cname _ _ (cname c) HR), (rp_comps _ _ _ HR c HI), HU, HS in E1, HR'. cbn in E1, HR'.
  exists (mkDstate {[path := st]} h' w').
  assert (HM : forall fs : bytes, merge_sort bytes_le (elements (dom ({[path := fs]} : gmap bytes bytes))) = [path]).
  { intros fs. rewrite dom_singleton_L, elements_singleton. reflexivity. }
  assert (HO : map_order {[path := st]} = [path]).
  { apply Permutation_singleton_r. rewrite Horder, map_to_list_singleton. done. }
  split; [|split].
  - unfold Scan. rewrite HM. cbn [apply_loop]. rewrite lookup_singleton_eq. cbn [mbind option_bind d_applied]. rewrite lookup_singleton_eq.
    rewrite bool_decide_false by done. unfold applyOne. rewrite HJ, bool_decide_false, HE by done. cbn [negb]. rewrite HB.
    unfold teardown. cbn [d_host d_world]. rewrite HN, E1. cbn [mbind option_bind real_error is_ErrNotFound]. rewrite HX.
    cbn [mbind option_bind opt_cons d_applied]. rewrite HO. cbn [gone_loop]. by rewrite lookup_singleton_eq.
  - unfold Components. cbn [d_host]. rewrite (rp_order _ _ _ HR'). cbn. rewrite list_elem_of_fmap. setoid_rewrite elem_filter_named. naive_solver.
  - unfold Scan. rewrite HM. cbn [apply_loop]. rewrite lookup_singleton_eq. cbn [mbind option_bind d_applied]. rewrite lookup_singleton_eq.
    rewrite bool_decide_true by done. cbn [mbind option_bind d_applied]. rewrite HO. cbn [gone_loop]. by rewrite lookup_singleton_eq.
Qed.

Definition toy_stuck (c : bytes) (w : nat) : option unit * nat := (Some tt, S w).

Lemma failed_stop_hides_component_witness :
  exists s', Scan id toy_lifecycle toy_stuck toy_json (fun _ => false) (fun m => (map_to_list m).*1) toy_factories
      {[go "a.json" := go "+mux2"]}
      (mkDstate {[go "a.json" := mkDeployState (go "mux") (go "+mux")]} (mkHost [go "mux"] {[go "mux" := go "mux"]} {[go "mux"]} true) 0%nat)
    = Some ([ReplaceFailed (go "mux") (UndeployFailed tt)], s') /\ go "mux" ∉ Components (d_host s').
Proof.
  destruct (failed_stop_hides_component id toy_lifecycle toy_stuck toy_json (fun _ => false) (fun m => (map_to_list m).*1) toy_factories
    (mkHost [go "mux"] {[go "mux" := go "mux"]} {[go "mux"]} true) (mkAhost [go "mux"] true) (go "mux") 0%nat
    (go "a.json") (mkDeployState (go "mux") (go "+mux")) (go "+mux2") (mkDescriptor (go "mux2") (go "toy") true []) (go "mux2") tt 1%nat)
    as (s' & H1 & H2 & _); try reflexivity.
  - split; try reflexivity.
    + apply NoDup_singleton.
    + intros c ->%list_elem_of_singleton. reflexivity.
    + intros n [c Hc]. cbn in Hc. apply (lookup_singleton_Some (M := gmap bytes)) in Hc. destruct Hc as [<- _]. left.
  - left.
  - discriminate.
  - discriminate.
  - exists s'. split; [exact H1|exact H2].
Defined.
