(* ===== verification/Connector.v ===== *)
(** * The connector ([connector/connector.go])

    A connector keeps one multiplexed link up: a supervisor goroutine dials,
    signs on, publishes the multiplexer, serves it with keepalives until it
    dies, and dials again after a growing delay.  Every [Start] launches a
    supervisor of its own with a context of its own, of which [Stop] cancels the
    last.  Multiplexers are numbered as they are made.  A step runs one
    goroutine to its next visible action, and links may die at any time, so every
    interleaving is a sequence of steps.  [Start], and [Stop] up to its wait, are
    single steps: the field [cancel] they share is not guarded, so they may not
    run at once.  The dial, the sign-on and keepalive hooks and the clock answer
    freely. *)

From S2P Require Import Prelude.

(** The configuration, as far as it decides what the connector does. *)
Record Config := mkConfig {
  cf_Name : bytes;
  cf_Network : bytes;
  cf_Addr : bytes;
  cf_hasKeyer : bool;
  cf_hasOnConnect : bool;
  cf_hasKeepalive : bool;      (* [Keepalive != nil && KeepaliveInterval > 0] *)
  cf_MinBackoff : Z;
  cf_MaxBackoff : Z;
}.

Inductive new_error := NameRequired | AddrRequired | KeyerRequired.
Inductive connector_error := ErrNotConnected | ErrClosed.

(** Where the supervisor stands. *)
Inductive phase :=
| Top                                    (* the top of the loop *)
| Connecting                             (* in [connect], about to dial *)
| SigningOn (m : nat)                    (* in [connect], the sign-on hook runs *)
| Failed                                 (* [connect] returned an error *)
| Napping                                (* [sleep] *)
| Publishing (m : nat)                   (* about to store the multiplexer *)
| Serving (m : nat) (inflight : option (option bool))
                                         (* in [serve]; a keepalive is out, or has answered *)
| Dropping (m : nat)                     (* [serve] returned, about to swap the pointer *)
| Closing (m : nat)                      (* about to close the multiplexer *)
| Dropped                                (* closed; checks the context *)
| Finished.                              (* the goroutine has returned *)

(** A supervisor goroutine: where it stands, its delay and its context. *)
Record supervisor := mkSupervisor { sv_phase : phase; sv_backoff : Z; sv_cancelled : bool }.

Record Connector := mkConnector {
  c_sups : list supervisor;    (* one per [Start], in order *)
  c_mux : option nat;          (* the published multiplexer *)
  c_closed : bool;
  c_waiting : nat;             (* calls of [Stop] in [wg.Wait] *)
  c_stopped : bool;            (* a call of [Stop] has returned *)
  c_made : nat;                (* multiplexers made *)
  c_dead : gset nat;           (* those whose link died *)
  c_shut : gset nat;           (* those that were closed *)
  c_signed : gset nat;         (* those whose sign-on succeeded *)
  c_keepalives : list nat;     (* where keepalives are running *)
}.

Definition NewConnector (cfg : Config) : res new_error (Config * Connector) :=
  if bool_decide (cf_Name cfg = []) then Err NameRequired else
  if bool_decide (cf_Addr cfg = []) then Err AddrRequired else
  if negb (cf_hasKeyer cfg) then Err KeyerRequired else
  let network := if bool_decide (cf_Network cfg = []) then go "tcp" else cf_Network cfg in
  let min := if cf_MinBackoff cfg <=? 0 then 250000000 else cf_MinBackoff cfg in
  let max := if cf_MaxBackoff cfg <=? 0 then 30000000000 else cf_MaxBackoff cfg in
  let cfg := mkConfig (cf_Name cfg) network (cf_Addr cfg) true (cf_hasOnConnect cfg) (cf_hasKeepalive cfg) min max in
  Ok (cfg, mkConnector [] None false 0 false 0 ∅ ∅ ∅ []).

(** [Request] and [Send]: the multiplexer that is used. *)
Definition use_mux (c : Connector) : res connector_error nat :=
  match c_mux c with None => Err ErrNotConnected | Some m => Ok m end.

Definition Connected (c : Connector) : bool := match c_mux c with Some _ => true | None => false end.

Definition nextBackoff (cur max : Z) : Z := let cur := wrap64 (cur * 2) in if max <? cur then max else cur.

Definition set_sups (c : Connector) (svs : list supervisor) : Connector :=
  mkConnector svs (c_mux c) (c_closed c) (c_waiting c) (c_stopped c) (c_made c) (c_dead c) (c_shut c) (c_signed c) (c_keepalives c).
Definition set_mux (c : Connector) (m : option nat) : Connector :=
  mkConnector (c_sups c) m (c_closed c) (c_waiting c) (c_stopped c) (c_made c) (c_dead c) (c_shut c) (c_signed c) (c_keepalives c).
Definition set_flags (c : Connector) (closed : bool) (waiting : nat) (stopped : bool) : Connector :=
  mkConnector (c_sups c) (c_mux c) closed waiting stopped (c_made c) (c_dead c) (c_shut c) (c_signed c) (c_keepalives c).
Definition make_mux (c : Connector) : Connector :=
  mkConnector (c_sups c) (c_mux c) (c_closed c) (c_waiting c) (c_stopped c) (S (c_made c)) (c_dead c) (c_shut c) (c_signed c) (c_keepalives c).
Definition mux_dies (c : Connector) (m : nat) : Connector :=
  mkConnector (c_sups c) (c_mux c) (c_closed c) (c_waiting c) (c_stopped c) (c_made c) ({[m]} ∪ c_dead c) (c_shut c) (c_signed c) (c_keepalives c).
Definition mux_Close (c : Connector) (m : nat) : Connector :=
  mkConnector (c_sups c) (c_mux c) (c_closed c) (c_waiting c) (c_stopped c) (c_made c) ({[m]} ∪ c_dead c) ({[m]} ∪ c_shut c) (c_signed c)
    (c_keepalives c).
Definition sign (c : Connector) (m : nat) : Connector :=
  mkConnector (c_sups c) (c_mux c) (c_closed c) (c_waiting c) (c_stopped c) (c_made c) (c_dead c) (c_shut c) ({[m]} ∪ c_signed c) (c_keepalives c).
Definition set_keepalives (c : Connector) (ks : list nat) : Connector :=
  mkConnector (c_sups c) (c_mux c) (c_closed c) (c_waiting c) (c_stopped c) (c_made c) (c_dead c) (c_shut c) (c_signed c) ks.

Definition set_phase (sv : supervisor) (p : phase) : supervisor := mkSupervisor p (sv_backoff sv) (sv_cancelled sv).
Definition set_backoff (sv : supervisor) (b : Z) : supervisor := mkSupervisor (sv_phase sv) b (sv_cancelled sv).
Definition cancel (sv : supervisor) : supervisor := mkSupervisor (sv_phase sv) (sv_backoff sv) true.

Definition connector_Start (cfg : Config) (c : Connector) : res connector_error Connector :=
  if c_closed c then Err ErrClosed else Ok (set_sups c (c_sups c ++ [mkSupervisor Top (cf_MinBackoff cfg) false])).

(** [Stop] up to its wait: the flag, and the context of the last supervisor. *)
Definition connector_Stop (c : Connector) : Connector :=
  set_flags (set_sups c (alter cancel (pred (length (c_sups c))) (c_sups c))) true (S (c_waiting c)) (c_stopped c).

(** A keepalive goroutine answers: its channel is read only by the loop that made it. *)
Definition hear (m : nat) (ok : bool) (sv : supervisor) : supervisor :=
  match sv_phase sv with
  | Serving m' (Some None) => if Nat.eqb m' m then set_phase sv (Serving m (Some (Some ok))) else sv
  | _ => sv
  end.
Definition keepalive_answers (c : Connector) (m : nat) (ok : bool) : Connector :=
  set_keepalives (set_sups c (hear m ok <$> c_sups c)) (filter (fun k => k <> m) (c_keepalives c)).

(** What a step of a supervisor does to the connector. *)
Inductive effect := Nothing | Publish (m : nat) | Unpublish (m : nat) | Close (m : nat) | Make (signed : bool) | Signed (m : nat) | Ping (m : nat).

Definition take_effect (c : Connector) (e : effect) : Connector :=
  match e with
  | Nothing => c
  | Publish m => set_mux c (Some m)
  | Unpublish m => set_mux c (if bool_decide (c_mux c = Some m) then None else c_mux c)
  | Close m => mux_Close c m
  | Make signed => if signed then make_mux (sign c (c_made c)) else make_mux c
  | Signed m => sign c m
  | Ping m => set_keepalives c (m :: c_keepalives c)
  end.

Section Steps.
Context (cfg : Config).

(** The goroutine of [supervise]: [made] multiplexers exist, those of [dead] are done. *)
Inductive sup_step (made : nat) (dead : gset nat) (sv : supervisor) : supervisor -> effect -> Prop :=
| sup_top_done : sv_phase sv = Top -> sv_cancelled sv = true -> sup_step made dead sv (set_phase sv Finished) Nothing
| sup_top : sv_phase sv = Top -> sv_cancelled sv = false -> sup_step made dead sv (set_phase sv Connecting) Nothing
| sup_failed_done : sv_phase sv = Failed -> sv_cancelled sv = true -> sup_step made dead sv (set_phase sv Finished) Nothing
| sup_failed : sv_phase sv = Failed -> sv_cancelled sv = false -> sup_step made dead sv (set_phase sv Napping) Nothing
| sup_nap_cancelled : sv_phase sv = Napping -> sv_cancelled sv = true -> sup_step made dead sv (set_phase sv Finished) Nothing
| sup_nap : sv_phase sv = Napping ->
    sup_step made dead sv (set_backoff (set_phase sv Top) (nextBackoff (sv_backoff sv) (cf_MaxBackoff cfg))) Nothing
| sup_publish m : sv_phase sv = Publishing m -> sup_step made dead sv (set_phase sv (Serving m None)) (Publish m)
| sup_unpublish m : sv_phase sv = Dropping m -> sup_step made dead sv (set_phase sv (Closing m)) (Unpublish m)
| sup_close m : sv_phase sv = Closing m -> sup_step made dead sv (set_phase sv Dropped) (Close m)
| sup_dropped_done : sv_phase sv = Dropped -> sv_cancelled sv = true -> sup_step made dead sv (set_phase sv Finished) Nothing
| sup_dropped : sv_phase sv = Dropped -> sv_cancelled sv = false -> sup_step made dead sv (set_phase sv Napping) Nothing
| sup_dropped_long : sv_phase sv = Dropped -> sv_cancelled sv = false ->
    sup_step made dead sv (set_backoff (set_phase sv Napping) (cf_MinBackoff cfg)) Nothing
(* [connect] *)
| sup_dial_fails : sv_phase sv = Connecting -> sup_step made dead sv (set_phase sv Failed) Nothing
| sup_dial_hook : sv_phase sv = Connecting -> cf_hasOnConnect cfg = true -> sup_step made dead sv (set_phase sv (SigningOn made)) (Make false)
| sup_dial : sv_phase sv = Connecting -> cf_hasOnConnect cfg = false -> sup_step made dead sv (set_phase sv (Publishing made)) (Make true)
| sup_sign_on m : sv_phase sv = SigningOn m -> sup_step made dead sv (set_phase sv (Publishing m)) (Signed m)
| sup_sign_on_fails m : sv_phase sv = SigningOn m -> sup_step made dead sv (set_phase sv Failed) (Close m)
(* [serve] *)
| sup_serve_cancelled m i : sv_phase sv = Serving m i -> sv_cancelled sv = true -> sup_step made dead sv (set_phase sv (Dropping m)) Nothing
| sup_serve_dead m i : sv_phase sv = Serving m i -> m ∈ dead -> sup_step made dead sv (set_phase sv (Dropping m)) Nothing
| sup_serve_ok m : sv_phase sv = Serving m (Some (Some true)) -> sup_step made dead sv (set_phase sv (Serving m None)) Nothing
| sup_serve_fails m : sv_phase sv = Serving m (Some (Some false)) -> sup_step made dead sv (set_phase sv (Dropping m)) Nothing
| sup_tick m : sv_phase sv = Serving m None -> cf_hasKeepalive cfg = true -> sup_step made dead sv (set_phase sv (Serving m (Some None))) (Ping m)
| sup_tick_skipped m i : sv_phase sv = Serving m (Some i) -> cf_hasKeepalive cfg = true -> sup_step made dead sv sv Nothing.

Definition at_rest (p : phase) : bool := match p with Finished => true | _ => false end.

Inductive connector_step (c : Connector) : Connector -> Prop :=
| step_Start c' : connector_Start cfg c = Ok c' -> connector_step c c'
| step_Stop : connector_step c (connector_Stop c)
| step_Stop_returns n : c_waiting c = S n -> Forall (fun sv => at_rest (sv_phase sv) = true) (c_sups c) ->
    connector_step c (set_flags c (c_closed c) n true)
| step_dies m : (m < c_made c)%nat -> connector_step c (mux_dies c m)
| step_keepalive m ok : m ∈ c_keepalives c -> connector_step c (keepalive_answers c m ok)
| step_supervise i sv sv' e : c_sups c !! i = Some sv -> sup_step (c_made c) (c_dead c) sv sv' e ->
    connector_step c (take_effect (set_sups c (<[i := sv']> (c_sups c))) e).
End Steps.

(** ** The invariant *)

(** The multiplexer a supervisor holds. *)
Definition current (p : phase) : option nat :=
  match p with
  | SigningOn m | Publishing m | Serving m _ | Dropping m | Closing m => Some m
  | _ => None
  end.
(** The one it has published. *)
Definition published (p : phase) : option nat :=
  match p with Serving m _ | Dropping m => Some m | _ => None end.
(** A keepalive of the current multiplexer may be running. *)
Definition may_ping (p : phase) : bool :=
  match p with Serving _ (Some None) | Dropping _ | Closing _ => true | _ => false end.
Definition signing (p : phase) : bool := match p with SigningOn _ => true | _ => false end.

Definition backoff_ok (cfg : Config) (b : Z) : Prop :=
  Z.min (cf_MinBackoff cfg) (cf_MaxBackoff cfg) <= b <= Z.max (cf_MinBackoff cfg) (cf_MaxBackoff cfg).

(** What a supervisor holds is open, made, signed on unless it is about to be, and
    pinged only when it can be. *)
Record sup_ok (cfg : Config) (c : Connector) (sv : supervisor) : Prop := {
  so_held : forall m, current (sv_phase sv) = Some m -> (m < c_made c)%nat /\ (m ∉ c_shut c) /\
    (signing (sv_phase sv) = false -> m ∈ c_signed c) /\ (m ∈ c_keepalives c -> may_ping (sv_phase sv) = true);
  so_out : forall m, sv_phase sv = Serving m (Some None) -> m ∈ c_keepalives c;
  so_backoff : backoff_ok cfg (sv_backoff sv);
  so_rest : at_rest (sv_phase sv) = true -> sv_cancelled sv = true;
}.

Record conn_inv (cfg : Config) (c : Connector) : Prop := {
  ci_sup : forall i sv, c_sups c !! i = Some sv -> sup_ok cfg c sv;
  ci_alone : forall i j svi svj m, c_sups c !! i = Some svi -> c_sups c !! j = Some svj ->
    current (sv_phase svi) = Some m -> current (sv_phase svj) = Some m -> i = j;
  ci_made : forall m, (m < c_made c)%nat -> m ∈ c_shut c \/ exists i sv, c_sups c !! i = Some sv /\ current (sv_phase sv) = Some m;
  ci_shut : forall m, m ∈ c_shut c -> (m < c_made c)%nat;
  ci_mux : forall m, c_mux c = Some m -> exists i sv, c_sups c !! i = Some sv /\ published (sv_phase sv) = Some m;
  ci_one : forall sv, c_sups c = [sv] -> c_mux c = published (sv_phase sv);
  ci_closed : (0 < c_waiting c)%nat \/ c_stopped c = true -> c_closed c = true;
  ci_stopped : c_stopped c = true -> Forall (fun sv => at_rest (sv_phase sv) = true) (c_sups c);
  ci_pings : NoDup (c_keepalives c);
  ci_ping : forall m, m ∈ c_keepalives c -> (m < c_made c)%nat;
  ci_cancel : forall i sv, c_sups c !! i = Some sv -> sv_cancelled sv = c_closed c && Nat.eqb (S i) (length (c_sups c));
}.

Ltac at_insert H := apply list_lookup_insert_Some in H as [(<- & <- & _)|[? H]].

Lemma published_current p m : published p = Some m -> current p = Some m /\ signing p = false.
Proof. by destruct p; intros [= <-]. Qed.

Section Invariant.
Context (cfg : Config) (HB : 0 < cf_MinBackoff cfg < 2 ^ 62 /\ 0 < cf_MaxBackoff cfg < 2 ^ 62).

Lemma nextBackoff_range b : backoff_ok cfg b -> backoff_ok cfg (nextBackoff b (cf_MaxBackoff cfg)).
Proof.
  unfold backoff_ok. intros Hb. unfold nextBackoff. rewrite wrap64_id by (unfold int64; lia). cbn zeta.
  destruct (Z.ltb_spec (cf_MaxBackoff cfg) (b * 2)); lia.
Qed.

(** A supervisor is not touched by what happens to other multiplexers. *)
Lemma sup_ok_other c c' sv : sup_ok cfg c sv -> (c_made c <= c_made c')%nat -> c_signed c ⊆ c_signed c' ->
  (forall m, current (sv_phase sv) = Some m -> m ∈ c_shut c' -> m ∈ c_shut c) ->
  (forall m, current (sv_phase sv) = Some m -> (m ∈ c_keepalives c <-> m ∈ c_keepalives c')) -> sup_ok cfg c' sv.
Proof.
  intros [H1 H2 H3 H4] HM HS HC HK. split; [|intros m Hm; apply HK; [by rewrite Hm|by apply H2]|done|done].
  intros m Hm. destruct (H1 m Hm) as (L & S & G & P). split; [lia|]. split; [by intros ?%HC|]. split; [intros ?; by apply HS, G|].
  intros ?. by apply P, HK.
Qed.

(** A supervisor moves on with the multiplexer it has, or has not. *)
Lemma sup_moves c i sv sv' : conn_inv cfg c -> c_sups c !! i = Some sv -> at_rest (sv_phase sv) = false ->
  sup_ok cfg c sv' -> current (sv_phase sv') = current (sv_phase sv) -> published (sv_phase sv') = published (sv_phase sv) ->
  sv_cancelled sv' = sv_cancelled sv -> conn_inv cfg (set_sups c (<[i := sv']> (c_sups c))).
Proof.
  intros [H1 H2 H3 H4 H5 H6 H7 H8 H9 H10 H11] HL HR HO EC EP EX. pose proof (lookup_lt_Some _ _ _ HL) as Hi. split; cbn; try done.
  - intros j svj Hj. at_insert Hj; [by destruct HO|]. by destruct (H1 _ _ Hj).
  - intros j k svj svk m Hj Hk. at_insert Hj; at_insert Hk; rewrite ?EC; intros M1 M2; [done|..]; by eapply H2.
  - intros m Hm. destruct (H3 m Hm) as [?|(j & svj & Hj & HC)]; [by left|]. right. destruct (decide (i = j)) as [<-|Hne].
    + exists i, sv'. rewrite list_lookup_insert_eq by done. split; [done|]. rewrite EC. congruence.
    + exists j, svj. by rewrite list_lookup_insert_ne.
  - intros m Hm. destruct (H5 m Hm) as (j & svj & Hj & HC). destruct (decide (i = j)) as [<-|Hne].
    + exists i, sv'. rewrite list_lookup_insert_eq by done. split; [done|]. rewrite EP. congruence.
    + exists j, svj. by rewrite list_lookup_insert_ne.
  - intros sv0 HE. destruct (c_sups c) as [|sv1 [|? ?]] eqn:ES; [done| |by destruct i as [|[|?]]]. destruct i; [|done]. cbn in HE, HL. simplify_eq. rewrite EP. by apply H6.
  - intros HS. pose proof (proj1 (list.Forall_lookup _ _) (H8 HS) i sv HL) as HX. cbn in HX. congruence.
  - intros j svj Hj. rewrite length_insert. at_insert Hj; [rewrite EX; by apply H11|by apply H11].
Qed.

(** The same when the shared state changes for this multiplexer alone. *)
Lemma inv_publish c i sv m : conn_inv cfg c -> c_sups c !! i = Some sv -> sv_phase sv = Publishing m ->
  conn_inv cfg (set_mux (set_sups c (<[i := set_phase sv (Serving m None)]> (c_sups c))) (Some m)).
Proof.
  intros [H1 H2 H3 H4 H5 H6 H7 H8 H9 H10 H11] HL HP. pose proof (lookup_lt_Some _ _ _ HL) as Hi.
  destruct (H1 _ _ HL) as [HO1 HO2 HO3 HO4]. rewrite HP in HO1. split; cbn; try done.
  - intros j svj Hj. at_insert Hj; [by split|]. by destruct (H1 _ _ Hj).
  - intros j k svj svk x Hj Hk. at_insert Hj; at_insert Hk; cbn; intros M1 M2; [done|..]; eapply H2; (done || by rewrite HP).
  - intros x Hx. destruct (H3 x Hx) as [?|(j & svj & Hj & HC)]; [by left|]. right. destruct (decide (i = j)) as [<-|Hne].
    + eexists i, _. rewrite list_lookup_insert_eq by done. split; [done|]. simplify_eq. by rewrite HP in HC.
    + exists j, svj. by rewrite list_lookup_insert_ne.
  - intros x [= <-]. eexists i, _. by rewrite list_lookup_insert_eq.
  - intros sv0 HE. destruct (c_sups c) as [|sv1 [|? ?]] eqn:ES; [done| |by destruct i as [|[|?]]]. destruct i; [|done]. cbn in HE. by simplify_eq.
  - intros HS. pose proof (proj1 (list.Forall_lookup _ _) (H8 HS) i sv HL) as HX. cbn in HX. by rewrite HP in HX.
  - intros j svj Hj. rewrite length_insert. at_insert Hj; [exact (H11 _ _ HL)|by apply H11].
Qed.

Lemma inv_unpublish c i sv m : conn_inv cfg c -> c_sups c !! i = Some sv -> sv_phase sv = Dropping m ->
  conn_inv cfg (set_mux (set_sups c (<[i := set_phase sv (Closing m)]> (c_sups c))) (if bool_decide (c_mux c = Some m) then None else c_mux c)).
Proof.
  intros [H1 H2 H3 H4 H5 H6 H7 H8 H9 H10 H11] HL HP. pose proof (lookup_lt_Some _ _ _ HL) as Hi.
  destruct (H1 _ _ HL) as [HO1 HO2 HO3 HO4]. rewrite HP in HO1. split; cbn; try done.
  - intros j svj Hj. at_insert Hj; [by split|]. by destruct (H1 _ _ Hj).
  - intros j k svj svk x Hj Hk. at_insert Hj; at_insert Hk; cbn; intros M1 M2; [done|..]; eapply H2; (done || by rewrite HP).
  - intros x Hx. destruct (H3 x Hx) as [?|(j & svj & Hj & HC)]; [by left|]. right. destruct (decide (i = j)) as [<-|Hne].
    + eexists i, _. rewrite list_lookup_insert_eq by done. split; [done|]. simplify_eq. by rewrite HP in HC.
    + exists j, svj. by rewrite list_lookup_insert_ne.
  - intros x Hx. case_bool_decide as HM; [done|]. destruct (H5 x Hx) as (j & svj & Hj & HC). exists j, svj. rewrite list_lookup_insert_ne; [done|].
    intros <-. simplify_eq. rewrite HP in HC. cbn in HC. congruence.
  - intros sv0 HE. destruct (c_sups c) as [|sv1 [|? ?]] eqn:ES; [done| |by destruct i as [|[|?]]]. destruct i; [|done]. cbn in HE, HL. simplify_eq. cbn.
    rewrite (H6 _ eq_refl), HP. by rewrite bool_decide_true.
  - intros HS. pose proof (proj1 (list.Forall_lookup _ _) (H8 HS) i sv HL) as HX. cbn in HX. by rewrite HP in HX.
  - intros j svj Hj. rewrite length_insert. at_insert Hj; [exact (H11 _ _ HL)|by apply H11].
Qed.

(** A supervisor closes the multiplexer it holds. *)
Lemma inv_close c i sv m p : conn_inv cfg c -> c_sups c !! i = Some sv -> current (sv_phase sv) = Some m -> published (sv_phase sv) = None ->
  current p = None -> published p = None -> at_rest p = false -> conn_inv cfg (mux_Close (set_sups c (<[i := set_phase sv p]> (c_sups c))) m).
Proof.
  intros [H1 H2 H3 H4 H5 H6 H7 H8 H9 H10 H11] HL HP HU EC EP ER. pose proof (lookup_lt_Some _ _ _ HL) as Hi.
  pose proof (H1 _ _ HL) as HO. destruct (so_held _ _ _ HO m HP) as (Lm & _). split; cbn; try done.
  - intros j svj Hj. at_insert Hj.
    + split; [intros x; cbn; by rewrite EC|intros x; cbn; by intros ->|apply (so_backoff _ _ _ HO)|cbn; by rewrite ER].
    + apply (sup_ok_other c); [by eapply H1|done|done| |done]. cbn. intros x Hx [->%elem_of_singleton|?]%elem_of_union; [|done].
      by destruct (H2 i j sv svj m HL Hj HP Hx).
  - intros j k svj svk x Hj Hk. at_insert Hj; at_insert Hk; cbn; rewrite ?EC; intros M1 M2; [done..|]; by eapply H2.
  - intros x Hx. destruct (H3 x Hx) as [?|(j & svj & Hj & HC)]; [left; set_solver|]. destruct (decide (i = j)) as [<-|Hne].
    + left. simplify_eq. set_solver.
    + right. exists j, svj. by rewrite list_lookup_insert_ne.
  - intros x [->%elem_of_singleton|Hx]%elem_of_union; [done|by apply H4].
  - intros x Hx. destruct (H5 x Hx) as (j & svj & Hj & HC). exists j, svj. rewrite list_lookup_insert_ne; [done|]. intros <-. simplify_eq.
  - intros sv0 HE. destruct (c_sups c) as [|sv1 [|? ?]] eqn:ES; [done| |by destruct i as [|[|?]]]. destruct i; [|done]. cbn in HE, HL. simplify_eq. cbn.
    rewrite (H6 _ eq_refl). congruence.
  - intros HS. pose proof (proj1 (list.Forall_lookup _ _) (H8 HS) i sv HL) as HX. cbn in HX. by destruct (sv_phase sv).
  - intros j svj Hj. rewrite length_insert. at_insert Hj; [exact (H11 _ _ HL)|by apply H11].
Qed.

(** [connect] makes a multiplexer. *)
Lemma inv_make c i sv p : conn_inv cfg c -> c_sups c !! i = Some sv -> sv_phase sv = Connecting ->
  current p = Some (c_made c) -> published p = None -> may_ping p = false -> (signing p = false -> c_made c ∈ c_signed c) ->
  conn_inv cfg (make_mux (set_sups c (<[i := set_phase sv p]> (c_sups c)))).
Proof.
  intros [H1 H2 H3 H4 H5 H6 H7 H8 H9 H10 H11] HL HP EC EP EM ES. pose proof (lookup_lt_Some _ _ _ HL) as Hi. pose proof (H1 _ _ HL) as HO.
  assert (HN : forall j svj, c_sups c !! j = Some svj -> current (sv_phase svj) <> Some (c_made c)).
  { intros j svj Hj HC. destruct (so_held _ _ _ (H1 _ _ Hj) _ HC). lia. }
  split; cbn; try done.
  - intros j svj Hj. at_insert Hj.
    + split; cbn; [rewrite EC|by intros x ->|apply (so_backoff _ _ _ HO)|by intros HR; destruct p]. intros x [= <-]. split; [lia|].
      split; [intros HX; apply H4 in HX; lia|]. split; [done|]. intros HX. apply H10 in HX. lia.
    + apply (sup_ok_other c); cbn; [by eapply H1|lia|done..].
  - intros j k svj svk x Hj Hk. at_insert Hj; at_insert Hk; cbn; rewrite ?EC; intros M1 M2; [done|..]; [..|by eapply H2];
      exfalso; simplify_eq; by eapply HN.
  - intros x Hx. destruct (decide (x = c_made c)) as [->|].
    + right. eexists i, _. by rewrite list_lookup_insert_eq.
    + destruct (H3 x ltac:(lia)) as [?|(j & svj & Hj & HC)]; [by left|]. right. exists j, svj. rewrite list_lookup_insert_ne; [done|]. intros <-. simplify_eq. by rewrite HP in HC.
  - intros x Hx. apply H4 in Hx. lia.
  - intros x Hx. destruct (H5 x Hx) as (j & svj & Hj & HC). exists j, svj. rewrite list_lookup_insert_ne; [done|]. intros <-. simplify_eq. by rewrite HP in HC.
  - intros sv0 HE. destruct (c_sups c) as [|sv1 [|? ?]] eqn:EL; [done| |by destruct i as [|[|?]]]. destruct i; [|done]. cbn in HE, HL. simplify_eq. cbn.
    rewrite (H6 _ eq_refl), HP. by rewrite EP.
  - intros HS. pose proof (proj1 (list.Forall_lookup _ _) (H8 HS) i sv HL) as HX. cbn in HX. by rewrite HP in HX.
  - intros x Hx. apply H10 in Hx. lia.
  - intros j svj Hj. rewrite length_insert. at_insert Hj; [exact (H11 _ _ HL)|by apply H11].
Qed.

Lemma inv_sign c m : conn_inv cfg c -> conn_inv cfg (sign c m).
Proof.
  intros [H1 H2 H3 H4 H5 H6 H7 H8 H9 H10 H11]. split; try done. intros j svj Hj. apply (sup_ok_other c); cbn; [by eapply H1|lia|set_solver|done|done].
Qed.

Lemma inv_ping c i sv m : conn_inv cfg c -> c_sups c !! i = Some sv -> sv_phase sv = Serving m None ->
  conn_inv cfg (set_keepalives (set_sups c (<[i := set_phase sv (Serving m (Some None))]> (c_sups c))) (m :: c_keepalives c)).
Proof.
  intros HI HL HP. pose proof HI as [H1 H2 H3 H4 H5 H6 H7 H8 H9 H10 H11]. pose proof (H1 _ _ HL) as HO.
  destruct (so_held _ _ _ HO m ltac:(by rewrite HP)) as (Lm & Sm & Gm & Pm). rewrite HP in Gm, Pm.
  assert (HK : m ∉ c_keepalives c) by (by intros ?%Pm).
  assert (HX : forall j svj, c_sups c !! j = Some svj -> i <> j -> current (sv_phase svj) <> Some m).
  { intros j svj Hj Hne HC. apply Hne. eapply (H2 i j); [done|done|by rewrite HP|done]. }
  pose proof (lookup_lt_Some _ _ _ HL) as Hi. split; cbn; try done.
  - intros j svj Hj. at_insert Hj.
    + split; cbn; [|intros x [= <-]; left|apply (so_backoff _ _ _ HO)|done]. by intros x [= <-].
    + apply (sup_ok_other c); cbn; [by eapply H1|done|done|done|]. intros x Hx. rewrite elem_of_cons. split; [by right|]. intros [->|?]; [by destruct (HX j svj)|done].
  - intros j k svj svk x Hj Hk. at_insert Hj; at_insert Hk; cbn; intros M1 M2; [done|..]; eapply H2; (done || by rewrite HP).
  - intros x Hx. destruct (H3 x Hx) as [?|(j & svj & Hj & HC)]; [by left|]. right. destruct (decide (i = j)) as [<-|Hne].
    + eexists i, _. rewrite list_lookup_insert_eq by done. split; [done|]. simplify_eq. by rewrite HP in HC.
    + exists j, svj. by rewrite list_lookup_insert_ne.
  - intros x Hx. destruct (H5 x Hx) as (j & svj & Hj & HC). destruct (decide (i = j)) as [<-|Hne].
    + eexists i, _. rewrite list_lookup_insert_eq by done. split; [done|]. simplify_eq. by rewrite HP in HC.
    + exists j, svj. by rewrite list_lookup_insert_ne.
  - intros sv0 HE. destruct (c_sups c) as [|sv1 [|? ?]] eqn:EL; [done| |by destruct i as [|[|?]]]. destruct i; [|done]. cbn in HE, HL. simplify_eq. cbn.
    by rewrite (H6 _ eq_refl), HP.
  - intros HS. pose proof (proj1 (list.Forall_lookup _ _) (H8 HS) i sv HL) as HZ. cbn in HZ. by rewrite HP in HZ.
  - apply list.NoDup_cons. by split.
  - intros x [->|Hx]%elem_of_cons; [done|by apply H10].
  - intros j svj Hj. rewrite length_insert. at_insert Hj; [exact (H11 _ _ HL)|by apply H11].
Qed.

(** A keepalive answers. *)
Lemma hear_same m ok sv : current (sv_phase (hear m ok sv)) = current (sv_phase sv) /\ published (sv_phase (hear m ok sv)) = published (sv_phase sv) /\
  at_rest (sv_phase (hear m ok sv)) = at_rest (sv_phase sv) /\ signing (sv_phase (hear m ok sv)) = signing (sv_phase sv) /\
  sv_cancelled (hear m ok sv) = sv_cancelled sv /\ sv_backoff (hear m ok sv) = sv_backoff sv.
Proof. unfold hear. destruct (sv_phase sv) as [| | | | | |m' [[b|]|]| | | |] eqn:HP; rewrite ?HP; try done. destruct (Nat.eqb_spec m' m) as [->|]; cbn; by rewrite ?HP. Qed.

Lemma hear_ok c m ok sv : sup_ok cfg c sv -> sup_ok cfg (keepalive_answers c m ok) (hear m ok sv).
Proof.
  intros [H1 H2 H3 H4]. destruct (hear_same m ok sv) as (E1 & _ & E3 & E4 & E5 & E6). split; rewrite ?E1, ?E3, ?E4, ?E5, ?E6; try done.
  - intros x Hx. destruct (H1 x Hx) as (L & S & G & P). cbn. split_and!; try done. intros [Hne HK]%list_elem_of_filter. specialize (P HK).
    unfold hear. destruct (sv_phase sv) as [| | | | | |m' [[b|]|]| | | |] eqn:HP; rewrite ?HP; try done. destruct (Nat.eqb_spec m' m) as [->|]; [|by rewrite HP].
    by injection Hx as ->.
  - intros x. unfold hear. cbn. destruct (sv_phase sv) as [| | | | | |m' [[b|]|]| | | |] eqn:HP; rewrite ?HP; try done.
    destruct (Nat.eqb_spec m' m) as [->|Hne]; [done|]. rewrite HP. intros [= ->]. apply list_elem_of_filter. by split; [|apply H2].
Qed.

Lemma inv_answer c m ok : conn_inv cfg c -> conn_inv cfg (keepalive_answers c m ok).
Proof.
  intros [H1 H2 H3 H4 H5 H6 H7 H8 H9 H10 H11].
  assert (HX : forall j sv', (hear m ok <$> c_sups c) !! j = Some sv' -> exists sv, c_sups c !! j = Some sv /\ sv' = hear m ok sv).
  { intros j sv'. rewrite list_lookup_fmap. destruct (c_sups c !! j) as [sv|]; [|done]. intros [= <-]. by exists sv. }
  split; try done.
  - intros j ? (sv & Hj & ->)%HX. by eapply hear_ok, H1.
  - intros j k ? ? x (sv1 & Hj & ->)%HX (sv2 & Hk & ->)%HX. rewrite (proj1 (hear_same m ok sv1)), (proj1 (hear_same m ok sv2)). by apply H2.
  - intros x Hx. destruct (H3 x Hx) as [?|(j & sv & Hj & HC)]; [by left|]. right. exists j, (hear m ok sv). cbn. rewrite list_lookup_fmap, Hj.
    split; [done|]. by rewrite (proj1 (hear_same m ok sv)).
  - intros x Hx. destruct (H5 x Hx) as (j & sv & Hj & HC). exists j, (hear m ok sv). cbn. rewrite list_lookup_fmap, Hj. split; [done|].
    by rewrite (proj1 (proj2 (hear_same m ok sv))).
  - intros sv0 HE. cbn in HE |- *. destruct (c_sups c) as [|sv [|? ?]]; try done. injection HE as <-. rewrite (proj1 (proj2 (hear_same m ok sv))). by apply H6.
  - intros HS. cbn. apply list.Forall_fmap. eapply list.Forall_impl; [by apply H8|]. intros sv. cbn. by rewrite (proj1 (proj2 (proj2 (hear_same m ok sv)))).
  - by apply list.NoDup_filter.
  - intros x [_ Hx]%list_elem_of_filter. by apply H10.
  - intros j ? (sv & Hj & ->)%HX. cbn. rewrite length_fmap. destruct (hear_same m ok sv) as (_ & _ & _ & _ & -> & _). by apply H11.
Qed.

Lemma inv_Start c c' : conn_inv cfg c -> connector_Start cfg c = Ok c' -> conn_inv cfg c'.
Proof.
  unfold connector_Start. intros [H1 H2 H3 H4 H5 H6 H7 H8 H9 H10 H11] HS. destruct (c_closed c) eqn:HC; [done|]. injection HS as <-.
  assert (HX : forall j sv, (c_sups c ++ [mkSupervisor Top (cf_MinBackoff cfg) false]) !! j = Some sv ->
    c_sups c !! j = Some sv \/ sv = mkSupervisor Top (cf_MinBackoff cfg) false).
  { intros j sv [?|[_ HL]]%lookup_app_Some; [by left|]. apply list_lookup_singleton_Some in HL as [_ <-]. by right. }
  split; cbn; try done.
  - intros j sv [Hj| ->]%HX; [by destruct (H1 _ _ Hj)|]. split; cbn; try done. unfold backoff_ok. lia.
  - intros j k sv1 sv2 m [Hj| ->]%HX [Hk| ->]%HX; cbn; [|done..]. by apply H2.
  - intros m Hm. destruct (H3 m Hm) as [?|(j & sv & Hj & ?)]; [by left|]. right. exists j, sv. split; [by apply lookup_app_l_Some|done].
  - intros m Hm. destruct (H5 m Hm) as (j & sv & Hj & ?). exists j, sv. split; [by apply lookup_app_l_Some|done].
  - intros sv HE. destruct (c_sups c) as [|? [|? ?]] eqn:EL; try done. injection HE as <-. cbn. destruct (c_mux c) as [m|]; [|done].
    by destruct (H5 m eq_refl) as (j & sv & Hj & _).
  - intros HT. by specialize (H7 HT).
  - intros HT. by specialize (H7 (or_intror HT)).
  - intros j sv HL. rewrite HC. destruct (HX _ _ HL) as [Hj| ->]; [|done]. by rewrite (H11 _ _ Hj).
Qed.

Lemma inv_Stop c : conn_inv cfg c -> conn_inv cfg (connector_Stop c).
Proof.
  intros [H1 H2 H3 H4 H5 H6 H7 H8 H9 H10 H11]. unfold connector_Stop. set (n := pred (length (c_sups c))).
  assert (HX : forall j sv', alter cancel n (c_sups c) !! j = Some sv' -> exists sv, c_sups c !! j = Some sv /\ sv_phase sv' = sv_phase sv /\
    sv_backoff sv' = sv_backoff sv /\ (sv_cancelled sv = true -> sv_cancelled sv' = true) /\ (sv_cancelled sv' = if decide (n = j) then true else sv_cancelled sv)).
  { intros j sv' HL. destruct (decide (n = j)) as [<-|Hne].
    - rewrite list_lookup_alter_eq in HL. destruct (c_sups c !! n) as [sv|] eqn:E; [|done]. injection HL as <-. by exists sv.
    - rewrite list_lookup_alter_ne in HL by done. by exists sv'. }
  assert (HY : forall j sv, c_sups c !! j = Some sv -> exists sv', alter cancel n (c_sups c) !! j = Some sv' /\ sv_phase sv' = sv_phase sv).
  { intros j sv HL. destruct (decide (n = j)) as [<-|Hne].
    - exists (cancel sv). by rewrite list_lookup_alter_eq, HL.
    - exists sv. by rewrite list_lookup_alter_ne. }
  split; cbn -[Nat.eqb]; try done.
  - intros j ? (sv & Hj & E1 & E2 & E3 & _)%HX. destruct (H1 _ _ Hj). split; rewrite ?E1, ?E2; try done. intros ?. by apply E3, so_rest0.
  - intros j k ? ? x (sv1 & Hj & -> & _)%HX (sv2 & Hk & -> & _)%HX. by apply H2.
  - intros m Hm. destruct (H3 m Hm) as [?|(j & sv & Hj & HC)]; [by left|]. right. destruct (HY _ _ Hj) as (sv' & ? & E). exists j, sv'. by rewrite E.
  - intros m Hm. destruct (H5 m Hm) as (j & sv & Hj & HC). destruct (HY _ _ Hj) as (sv' & ? & E). exists j, sv'. by rewrite E.
  - intros sv0 HE. assert (length (c_sups c) = 1%nat) as HLen by (rewrite <- (length_alter cancel _ n); by rewrite HE).
    destruct (HX 0%nat sv0) as (sv & Hj & -> & _); [by rewrite HE|]. destruct (c_sups c) as [|sv1 [|? ?]] eqn:EL; try done. injection Hj as ->. by apply H6.
  - intros HS. apply list.Forall_lookup. intros j ? (sv & Hj & -> & _)%HX. pose proof (H8 HS) as HF. rewrite list.Forall_lookup in HF. by eapply HF.
  - intros j sv' HL. rewrite length_alter. pose proof (lookup_lt_Some _ _ _ HL) as Hlt. rewrite length_alter in Hlt.
    destruct (HX _ _ HL) as (sv & Hj & _ & _ & _ & ->). rewrite (H11 _ _ Hj). destruct (decide (n = j)) as [<-|Hne]; unfold n in *.
    + symmetry. apply Nat.eqb_eq. lia.
    + destruct (Nat.eqb_spec (S j) (length (c_sups c))); [lia|]. by rewrite andb_false_r.
Qed.

Lemma sup_ok_phase c sv p : sup_ok cfg c sv -> current p = current (sv_phase sv) -> (signing p = false -> signing (sv_phase sv) = false) ->
  (may_ping (sv_phase sv) = true -> may_ping p = true) -> (forall m, p <> Serving m (Some None)) -> (at_rest p = true -> sv_cancelled sv = true) ->
  sup_ok cfg c (set_phase sv p).
Proof.
  intros [H1 H2 H3 H4] EC ES EM EO ER. split; cbn; try done; [|by intros m HX%EO].
  intros m. rewrite EC. intros Hm. destruct (H1 m Hm) as (L & S & G & P). split_and!; try done; [intros ?; by apply G, ES|intros ?; by apply EM, P].
Qed.

Lemma sup_ok_backoff c sv b : sup_ok cfg c sv -> backoff_ok cfg b -> sup_ok cfg c (set_backoff sv b).
Proof. by intros [H1 H2 H3 H4]. Qed.

Lemma inv_supervise c i sv sv' e : conn_inv cfg c -> c_sups c !! i = Some sv -> sup_step cfg (c_made c) (c_dead c) sv sv' e ->
  conn_inv cfg (take_effect (set_sups c (<[i := sv']> (c_sups c))) e).
Proof.
  intros HI HL HS. pose proof (ci_sup _ _ HI _ _ HL) as HO.
  destruct HS; cbn [take_effect]; try (eapply sup_moves; [done|done|by rewrite H|apply sup_ok_phase; rewrite ?H; (done || by intros ? [=])|cbn; by rewrite H..|done]).
  - eapply sup_moves; [done|done|by rewrite H|apply sup_ok_backoff; [apply sup_ok_phase; rewrite ?H; (done || by intros ? [=])|]|cbn; by rewrite H..|done].
    apply nextBackoff_range, HO.
  - exact (inv_publish _ _ _ _ HI HL H).
  - exact (inv_unpublish _ _ _ _ HI HL H).
  - eapply inv_close; rewrite ?H; done.
  - eapply sup_moves; [done|done|by rewrite H|apply sup_ok_backoff; [apply sup_ok_phase; rewrite ?H; (done || by intros ? [=])|]|cbn; by rewrite H..|done].
    unfold backoff_ok. lia.
  - by eapply inv_make.
  - apply (inv_make (sign c (c_made c)) i sv (Publishing (c_made c))); try done; [by apply inv_sign|]. cbn. set_solver.
  - apply (sup_moves (sign c m) i sv); [by apply inv_sign|done|by rewrite H| |cbn; by rewrite H..|done].
    destruct HO as [H1 H2 H3 H4]. rewrite H in H1. split; cbn; try done. intros x [= <-]. destruct (H1 m eq_refl) as (L & S & _ & P). split_and!; try done. set_solver.
  - eapply inv_close; rewrite ?H; done.
  - exact (inv_ping _ _ _ _ HI HL H).
  - eapply sup_moves; [done|done|by rewrite H|done..].
Qed.

Lemma connector_step_inv c c' : connector_step cfg c c' -> conn_inv cfg c -> conn_inv cfg c'.
Proof.
  intros HS HI. destruct HS as [c' HS| |n HW HF|m Hm|m ok Hm|i sv sv' e HL HS].
  - by eapply inv_Start.
  - by apply inv_Stop.
  - destruct HI as [H1 H2 H3 H4 H5 H6 H7 H8 H9 H10 H11]. split; try done; [intros j sv Hj; by destruct (H1 _ _ Hj)|]. intros _. apply H7. left. lia.
  - destruct HI as [H1 H2 H3 H4 H5 H6 H7 H8 H9 H10 H11]. split; try done. intros j sv Hj. by destruct (H1 _ _ Hj).
  - by apply inv_answer.
  - by eapply inv_supervise.
Qed.
End Invariant.

Lemma NewConnector_inv cfg0 cfg c : NewConnector cfg0 = Ok (cfg, c) ->
  conn_inv cfg c /\ 0 < cf_MinBackoff cfg /\ 0 < cf_MaxBackoff cfg /\
  cf_MinBackoff cfg <= Z.max 250000000 (cf_MinBackoff cfg0) /\ cf_MaxBackoff cfg <= Z.max 30000000000 (cf_MaxBackoff cfg0).
Proof.
  unfold NewConnector. intros HN. repeat case_bool_decide; try done; destruct (cf_hasKeyer cfg0); try done; injection HN as <- <-; cbn;
    (split; [split; cbn; try done; solve [lia|set_solver|by intros [?|?]; lia|apply NoDup_nil_2|by intros ? ?%elem_of_nil|by left|intros [?|?]; [lia|done]]|]);
    destruct (Z.leb_spec (cf_MinBackoff cfg0) 0), (Z.leb_spec (cf_MaxBackoff cfg0) 0); lia.
Qed.

Lemma connector_reach_inv cfg c0 c : 0 < cf_MinBackoff cfg < 2 ^ 62 /\ 0 < cf_MaxBackoff cfg < 2 ^ 62 ->
  conn_inv cfg c0 -> rtc (connector_step cfg) c0 c -> conn_inv cfg c.
Proof. intros HB HI HR. induction HR as [|c0 c1 c HS _ IH]; [done|]. apply IH. by apply (connector_step_inv cfg HB c0). Qed.

(** The multiplexers that were made and not closed. *)
Definition open_muxes (c : Connector) : list nat := filter (fun m => m ∉ c_shut c) (seq 0 (c_made c)).

Lemma open_muxes_bound cfg c : conn_inv cfg c -> (length (open_muxes c) <= length (c_sups c))%nat.
Proof.
  intros HI. transitivity (length (omap (fun sv => current (sv_phase sv)) (c_sups c))).
  - apply submseteq_length, NoDup_submseteq; [apply list.NoDup_filter, NoDup_seq|]. intros m [Hs [_ Hm]%elem_of_seq]%list_elem_of_filter.
    destruct (ci_made _ _ HI m ltac:(lia)) as [?|(i & sv & HL & HC)]; [done|]. apply list_elem_of_omap. exists sv. split; [by eapply list_elem_of_lookup_2|done].
  - induction (c_sups c) as [|sv svs IH]; [done|]. cbn. destruct (current (sv_phase sv)); cbn; lia.
Qed.

(** How far a supervisor that is told to stop is from its end. *)
Definition way_down (p : phase) : nat :=
  match p with
  | Finished => 0
  | Top | Failed | Napping | Dropped => 1
  | Connecting | SigningOn _ | Closing _ => 2
  | Dropping _ => 3
  | Serving _ _ => 4
  | Publishing _ => 5
  end.

Lemma one_down cfg made dead sv n : sv_cancelled sv = true -> way_down (sv_phase sv) = S n ->
  exists sv' e, sup_step cfg made dead sv sv' e /\ sv_cancelled sv' = true /\ way_down (sv_phase sv') = n.
Proof.
  intros HC HN. destruct (sv_phase sv) eqn:HP; cbn in HN; try done; injection HN as <-.
  - eexists _, _. split; [by apply sup_top_done|]. by split.
  - eexists _, _. split; [by apply sup_dial_fails|]. by split.
  - eexists _, _. split; [by eapply sup_sign_on_fails|]. by split.
  - eexists _, _. split; [by apply sup_failed_done|]. by split.
  - eexists _, _. split; [by apply sup_nap_cancelled|]. by split.
  - eexists _, _. split; [by apply sup_publish|]. by split.
  - eexists _, _. split; [by eapply sup_serve_cancelled|]. by split.
  - eexists _, _. split; [by apply sup_unpublish|]. by split.
  - eexists _, _. split; [by eapply sup_close|]. by split.
  - eexists _, _. split; [by apply sup_dropped_done|]. by split.
Qed.

Lemma winds_down cfg n : forall c sv, c_sups c = [sv] -> sv_cancelled sv = true -> way_down (sv_phase sv) = n ->
  exists c' sv', nsteps (connector_step cfg) n c c' /\ c_sups c' = [sv'] /\ at_rest (sv_phase sv') = true /\ c_waiting c' = c_waiting c.
Proof.
  induction n as [|n IH]; intros c sv HL HC HN.
  - exists c, sv. split; [constructor|]. split; [done|]. split; [|done]. by destruct (sv_phase sv).
  - destruct (one_down cfg (c_made c) (c_dead c) sv n HC HN) as (sv1 & e & HS & HC1 & HN1).
    set (c1 := take_effect (set_sups c (<[0%nat := sv1]> (c_sups c))) e).
    assert (H1 : c_sups c1 = [sv1] /\ c_waiting c1 = c_waiting c) by (unfold c1; rewrite HL; by destruct e as [| | | |[]| |]). destruct H1 as [L1 W1].
    destruct (IH c1 sv1 L1 HC1 HN1) as (c' & sv' & HR & L' & R' & W'). exists c', sv'. split; [|split; [done|split; [done|congruence]]].
    eapply nsteps_l; [|exact HR]. apply (step_supervise cfg c 0 sv sv1 e); [by rewrite HL|done].
Qed.

(** [Stop] of a connector that was started at most once can return. *)
Lemma Stop_can_return cfg c n : conn_inv cfg c -> (length (c_sups c) <= 1)%nat -> c_waiting c = S n ->
  exists k c', (k <= 6)%nat /\ nsteps (connector_step cfg) k c c' /\ c_stopped c' = true.
Proof.
  intros HI HL HW. assert (HC : c_closed c = true) by (apply (ci_closed _ _ HI); left; lia).
  destruct (c_sups c) as [|sv [|? ?]] eqn:ES; cbn in HL; [..|lia].
  - eexists 1%nat, _. split; [lia|]. split; [eapply nsteps_l; [eapply (step_Stop_returns cfg c n HW); rewrite ES; constructor|constructor]|done].
  - assert (HX : sv_cancelled sv = true) by (rewrite (ci_cancel _ _ HI 0 sv) by (by rewrite ES); by rewrite HC, ES).
    destruct (winds_down cfg _ c sv ES HX eq_refl) as (c' & sv' & HR & L' & R' & W'). eexists (S (way_down (sv_phase sv))), _.
    split; [destruct (sv_phase sv); cbn; lia|]. split; [eapply nsteps_r; [exact HR|eapply (step_Stop_returns cfg c' n); [congruence|rewrite L'; by constructor]]|done].
Qed.

(** C9: Whatever the order in which the supervisors, the keepalives, dying links
    and the calls of [Start] and [Stop] run, each call of [Start] launching a
    supervisor ([Start], and [Stop] up to its wait, being single steps, and the
    delays of the configuration being below 2^62 nanoseconds): no
    more multiplexers are open than [Start] was called; [Request] and [Send] use
    one whose sign-on succeeded and that the connector has not closed; if [Start]
    was called once, that is the only one open, and they are refused only while
    none is served; at most one keepalive runs on a multiplexer; the delay before
    a reconnect stays between the configured bounds; once [Stop] has returned
    nothing is published and every multiplexer ever made is closed; and a call of
    [Stop] on a connector that was started at most once can always return, after
    at most five steps of its supervisor. *)
Theorem connector_invariant cfg0 cfg c0 c :
  NewConnector cfg0 = Ok (cfg, c0) -> cf_MinBackoff cfg0 < 2 ^ 62 -> cf_MaxBackoff cfg0 < 2 ^ 62 ->
  rtc (connector_step cfg) c0 c ->
  (length (open_muxes c) <= length (c_sups c))%nat /\
  match use_mux c with
  | Ok m => Connected c = true /\ m ∈ c_signed c /\ m ∈ open_muxes c /\ (length (c_sups c) = 1%nat -> open_muxes c = [m])
  | Err e => e = ErrNotConnected /\ Connected c = false /\
      (length (c_sups c) = 1%nat -> forall sv m i, sv ∈ c_sups c -> sv_phase sv <> Serving m i)
  | Panic => False
  end /\
  NoDup (c_keepalives c) /\
  (forall sv, sv ∈ c_sups c -> 0 < Z.min (cf_MinBackoff cfg) (cf_MaxBackoff cfg) <= sv_backoff sv /\
     sv_backoff sv <= Z.max (cf_MinBackoff cfg) (cf_MaxBackoff cfg)) /\
  (c_stopped c = true -> c_mux c = None /\ open_muxes c = []) /\
  (forall n, (length (c_sups c) <= 1)%nat -> c_waiting c = S n ->
     exists k c', (k <= 6)%nat /\ nsteps (connector_step cfg) k c c' /\ c_stopped c' = true).
Proof.
  intros HN HM1 HM2 HR. destruct (NewConnector_inv _ _ _ HN) as (HI0 & HB1 & HB2 & HB3 & HB4).
  pose proof (connector_reach_inv cfg c0 c ltac:(lia) HI0 HR) as HI. pose proof HI as [H1 H2 H3 H4 H5 H6 H7 H8 H9 H10 H11].
  split; [by eapply open_muxes_bound|]. split; [|split; [done|split; [|split]]].
  - unfold use_mux, Connected. destruct (c_mux c) as [m|] eqn:EM.
    + destruct (H5 m eq_refl) as (i & sv & HL & HP). destruct (published_current _ _ HP) as [HC HS].
      destruct (so_held _ _ _ (H1 _ _ HL) m HC) as (Lm & Sm & Gm & _).
      assert (HO : m ∈ open_muxes c) by (apply list_elem_of_filter; split; [done|]; apply elem_of_seq; lia).
      split_and!; [done|by apply Gm|done|]. intros H01. pose proof (open_muxes_bound cfg c HI) as HX. rewrite H01 in HX.
      destruct (open_muxes c) as [|m1 [|? ?]]; cbn in HX; [by apply elem_of_nil in HO| |lia]. by apply list_elem_of_singleton in HO as ->.
    + split_and!; [done|done|]. intros H01 sv m i Hsv HP. destruct (c_sups c) as [|sv1 [|? ?]]; try done. apply list_elem_of_singleton in Hsv as ->.
      specialize (H6 sv1 eq_refl). by rewrite HP in H6.
  - intros sv [i HL]%list_elem_of_lookup. pose proof (so_backoff _ _ _ (H1 _ _ HL)) as HX. unfold backoff_ok in HX. lia.
  - intros HS. pose proof (H8 HS) as HA. rewrite list.Forall_lookup in HA. split.
    + destruct (c_mux c) as [m|]; [|done]. destruct (H5 m eq_refl) as (i & sv & HL & HP). specialize (HA i sv HL). cbn in HA. by destruct (sv_phase sv).
    + destruct (open_muxes c) as [|m ms] eqn:EO; [done|]. exfalso. assert (HO : m ∈ open_muxes c) by (rewrite EO; left).
      apply list_elem_of_filter in HO as [HO [_ Lm]%elem_of_seq]. destruct (H3 m ltac:(lia)) as [?|(i & sv & HL & HP)]; [done|].
      specialize (HA i sv HL). cbn in HA. by destruct (sv_phase sv).
  - intros n. by apply Stop_can_return.
Qed.

(** A second [Start] replaces the cancel function of the first: the first
    supervisor is never told to stop, and no call of [Stop] returns. *)
Lemma second_Start_hangs_Stop cfg0 cfg c0 c : NewConnector cfg0 = Ok (cfg, c0) -> cf_MinBackoff cfg0 < 2 ^ 62 -> cf_MaxBackoff cfg0 < 2 ^ 62 ->
  rtc (connector_step cfg) c0 c -> (2 <= length (c_sups c))%nat -> c_stopped c = false.
Proof.
  intros HN HM1 HM2 HR H2. destruct (NewConnector_inv _ _ _ HN) as (HI0 & HB1 & HB2 & HB3 & HB4).
  pose proof (connector_reach_inv cfg c0 c ltac:(lia) HI0 HR) as HI. destruct (c_stopped c) eqn:ES; [|done].
  destruct (lookup_lt_is_Some_2 (c_sups c) 0) as [sv HL]; [lia|]. pose proof (ci_stopped _ _ HI ES) as HA. rewrite list.Forall_lookup in HA.
  pose proof (so_rest _ _ _ (ci_sup _ _ HI _ _ HL) (HA _ _ HL)) as HC. rewrite (ci_cancel _ _ HI _ _ HL) in HC.
  apply andb_prop in HC as [_ HC%Nat.eqb_eq]. lia.
Qed.

(** A connector that is started, connects, loses its link while a keepalive is
    out, and is stopped. *)
Definition sample_config : Config := mkConfig (go "isw") [] (go "host:1") true false true 0 0.

Definition sample_started : Config * Connector :=
  match NewConnector sample_config with Ok r => r | _ => (sample_config, mkConnector [] None false 0 false 0 ∅ ∅ ∅ []) end.

Ltac supervise i H := eapply rtc_l; [eapply (step_supervise _ _ i); [reflexivity|H]|].

Lemma sample_run : exists c, rtc (connector_step sample_started.1) sample_started.2 c /\ c_made c = 1%nat /\ c_stopped c = true.
Proof.
  eexists. split.
  - eapply rtc_l; [eapply step_Start; reflexivity|]. supervise 0%nat ltac:(apply sup_top; reflexivity). supervise 0%nat ltac:(apply sup_dial; reflexivity).
    supervise 0%nat ltac:(apply (sup_publish _ _ _ _ 0); reflexivity). supervise 0%nat ltac:(apply (sup_tick _ _ _ _ 0); reflexivity).
    eapply rtc_l; [apply (step_dies _ _ 0); cbn; lia|]. eapply rtc_l; [apply step_Stop|].
    supervise 0%nat ltac:(eapply (sup_serve_dead _ _ _ _ 0); [reflexivity|cbn; set_solver]). supervise 0%nat ltac:(apply (sup_unpublish _ _ _ _ 0); reflexivity).
    supervise 0%nat ltac:(apply (sup_close _ _ _ _ 0); reflexivity). supervise 0%nat ltac:(apply sup_dropped_done; reflexivity).
    eapply rtc_l; [apply (step_Stop_returns _ _ 0); [reflexivity|by repeat constructor]|]. apply rtc_refl.
  - split; reflexivity.
Qed.

Lemma connector_invariant_witness :
  exists c, rtc (connector_step sample_started.1) sample_started.2 c /\ c_made c = 1%nat /\ c_mux c = None /\ open_muxes c = [].
Proof.
  destruct sample_run as (c & HR & HM & HS).
  destruct (connector_invariant sample_config sample_started.1 sample_started.2 c eq_refl eq_refl eq_refl HR) as (_ & _ & _ & _ & HX & _).
  destruct (HX HS) as [HP HA]. exists c. by repeat split.
Defined.

(** Two calls of [Start] keep two links up at once. *)
Lemma two_Starts_two_links : exists c, rtc (connector_step sample_started.1) sample_started.2 c /\ open_muxes c = [0; 1]%nat /\ c_mux c = Some 1%nat.
Proof.
  eexists. split.
  - do 2 (eapply rtc_l; [eapply step_Start; reflexivity|]).
    supervise 0%nat ltac:(apply sup_top; reflexivity). supervise 0%nat ltac:(apply sup_dial; reflexivity). supervise 0%nat ltac:(apply (sup_publish _ _ _ _ 0); reflexivity).
    supervise 1%nat ltac:(apply sup_top; reflexivity). supervise 1%nat ltac:(apply sup_dial; reflexivity). supervise 1%nat ltac:(apply (sup_publish _ _ _ _ 1); reflexivity).
    apply rtc_refl.
  - split; reflexivity.
Qed.
