(* ===== verification/Gateway.v ===== *)
(** * The gateway ([gateway/gateway.go])

    One inbound frame is decoded, routed, possibly edited, forwarded, and the
    answer is possibly edited and sent back.  The hooks are the application's:
    parameters that run over the message store and the world, and so is the
    upstream connection.  Tracing and logging only observe and are left out. *)

From S2P Require Import Prelude Errors Strconv Bcd Bitmap Decimal Path Schema LengthCodec BitmapCodec Value FieldCodec Message BerTlv Engine Layout Wire Recursion Access Invariant Store EndToEnd.

Section Gateway.
Context {E W : Type}.

(** A hook may return, fail, or panic. *)
Definition hook (A : Type) : Type := heap * W -> res E A * (heap * W).

Definition Forwarder : Type := bytes -> W -> (E + bytes) * W.

Inductive gateway_error :=
| RouteError (e : E)
| ErrNoRoute
| BeforeRequestError (e : E)
| EncodeForward (e : error)
| ForwardError (e : E)
| DecodeUpstream (e : error)
| BeforeResponseError (e : E).

(** The fields of [Config] that decide what happens to a message. *)
Record Config := mkConfig {
  gw_Name : bytes;
  gw_Addr : bytes;
  gw_Codec : option Codec;
  gw_Route : option (loc -> hook (option Forwarder));
  gw_BeforeRequest : option (loc -> hook (option loc));
  gw_BeforeResponse : option (loc -> loc -> hook (option loc));
  gw_OnError : option (loc -> gateway_error -> hook (option loc));
}.

Inductive config_error := NameRequired | AddrRequired | CodecRequired | RouteRequired.

(** A gateway: its configuration with what is required. *)
Record Gateway := mkGateway {
  g_codec : Codec;
  g_Route : loc -> hook (option Forwarder);
  g_BeforeRequest : option (loc -> hook (option loc));
  g_BeforeResponse : option (loc -> loc -> hook (option loc));
  g_OnError : option (loc -> gateway_error -> hook (option loc));
}.

Definition NewGateway (cfg : Config) : res config_error Gateway :=
  if bool_decide (gw_Name cfg = []) then Err NameRequired else
  if bool_decide (gw_Addr cfg = []) then Err AddrRequired else
  match gw_Codec cfg, gw_Route cfg with
  | None, _ => Err CodecRequired
  | _, None => Err RouteRequired
  | Some c, Some r => Ok (mkGateway c r (gw_BeforeRequest cfg) (gw_BeforeResponse cfg) (gw_OnError cfg))
  end.

(** Computations over the store and the world. *)
Definition GW (A : Type) : Type := heap * W -> res gateway_error A * (heap * W).

Definition gret {A} (a : A) : GW A := fun s => (Ok a, s).
Definition gfail {A} (e : gateway_error) : GW A := fun s => (Err e, s).
Definition gbind {A B} (c : GW A) (k : A -> GW B) : GW B := fun s =>
  match c s with
  | (Ok a, s) => k a s
  | (Err e, s) => (Err e, s)
  | (Panic, s) => (Panic, s)
  end.
(** A hook and a computation of the engine, with the error they are reported as. *)
Definition ghook {A} (wrap : E -> gateway_error) (k : hook A) : GW A := fun s =>
  let '(r, s) := k s in (rmap_err wrap r, s).
Definition gengine {A} (wrap : error -> gateway_error) (c : ST A) : GW A := fun s =>
  let '(r, h) := c s.1 in (rmap_err wrap r, (h, s.2)).
Definition grequest (f : Forwarder) (frame : bytes) : GW bytes := fun s =>
  match f frame s.2 with
  | (inl e, w) => (Err (ForwardError e), (s.1, w))
  | (inr resp, w) => (Ok resp, (s.1, w))
  end.

#[local] Notation "'let^' x := c 'in' k" := (gbind c (fun x => k)) (at level 10, x pattern, c at level 200, k at level 200).

Section Handling.
Context (g : Gateway).

Definition process (req : loc) : GW loc :=
  let^ dest := ghook RouteError (g_Route g req) in
  match dest with
  | None => gfail ErrNoRoute
  | Some dest =>
      let^ out :=
        match g_BeforeRequest g with
        | Some before =>
            let^ clone := gengine EncodeForward (Clone req) in
            let^ edited := ghook BeforeRequestError (before clone) in
            gret (default req edited)
        | None => gret req
        end in
      let^ reqFrame := gengine EncodeForward (MarshalAt (g_codec g) out []) in
      let^ respFrame := grequest dest reqFrame in
      let^ resp := gengine DecodeUpstream (UnmarshalNew (g_codec g) respFrame) in
      match g_BeforeResponse g with
      | Some before =>
          let^ edited := ghook BeforeResponseError (before req resp) in
          gret (default resp edited)
      | None => gret resp
      end
  end.

(** The reply of [OnError], if there is one. *)
Definition errorReply (req : loc) (cause : gateway_error) (s : heap * W) : res Empty_set (option loc) * (heap * W) :=
  match g_OnError g with
  | None => (Ok None, s)
  | Some onError =>
      match onError req cause s with
      | (Ok resp, s) => (Ok resp, s)
      | (Err _, s) => (Ok None, s)
      | (Panic, s) => (Panic, s)
      end
  end.

(** The end of [handle]: encode the response and hand it to the link. *)
Definition send_back (resp : loc) (s : heap * W) : res Empty_set (option bytes) * (heap * W) :=
  match MarshalAt (g_codec g) resp [] s.1 with
  | (Ok out, h) => (Ok (Some out), (h, s.2))
  | (Err _, h) => (Ok None, (h, s.2))
  | (Panic, h) => (Panic, (h, s.2))
  end.

(** The error path of [handle]. *)
Definition fail_back (req : loc) (cause : gateway_error) (s : heap * W) : res Empty_set (option bytes) * (heap * W) :=
  match errorReply req cause s with
  | (Ok (Some resp), s) => send_back resp s
  | (Ok None, s) => (Ok None, s)
  | (Err e, s) => (Err e, s)
  | (Panic, s) => (Panic, s)
  end.

(** [handle]: the frame it sends back on the link, if any. *)
Definition handle (frame : bytes) (s : heap * W) : res Empty_set (option bytes) * (heap * W) :=
  match UnmarshalNew (g_codec g) frame s.1 with
  | (Err _, h) => (Ok None, (h, s.2))
  | (Panic, h) => (Panic, (h, s.2))
  | (Ok req, h) =>
      match process req (h, s.2) with
      | (Ok resp, s) => send_back resp s
      | (Panic, s) => (Panic, s)
      | (Err cause, s) => fail_back req cause s
      end
  end.

(** ** Transparency *)

(** A route that only reads the message it is given. *)
Definition reads_only : Prop :=
  forall l s, exists des, (snd (g_Route g l s)).1 = fold_left (fun h de => snd (Get l de h)) des s.1.

Lemma reads_ok l des h : heap_ok h -> heap_ok (fold_left (fun h de => snd (Get l de h)) des h).
Proof. revert h. induction des as [|de des IH]; intros h Hh; cbn; [done|]. apply IH. by apply Get_safe. Qed.

Lemma Unmarshal_no_panic c wire : deep_schema (c_schema c) -> Unmarshal c wire <> Panic.
Proof. intros HD. by apply (Unmarshal_layout c (deep_wire _ HD) wire). Qed.

Lemma MarshalAt_heap c l dst h : snd (MarshalAt c l dst h) = h.
Proof. unfold MarshalAt. by destruct (h !! l). Qed.

Lemma process_plain l h1 w f h2 w2 frame : g_BeforeRequest g = None -> g_BeforeResponse g = None ->
  g_Route g l (h1, w) = (Ok (Some f), (h2, w2)) -> fst (MarshalAt (g_codec g) l [] h2) = Ok frame ->
  process l (h1, w) =
    match f frame w2 with
    | (inl e, w3) => (Err (ForwardError e), (h2, w3))
    | (inr resp, w3) =>
        let '(r, h3) := UnmarshalNew (g_codec g) resp h2 in (rmap_err DecodeUpstream r, (h3, w3))
    end.
Proof.
  intros HB HA HR HM. unfold process, gbind, ghook, gengine, grequest, gret. rewrite HR, HB, HA. cbn [fst snd rmap_err].
  pose proof (MarshalAt_heap (g_codec g) l [] h2) as HH. destruct (MarshalAt (g_codec g) l [] h2) as [r h']. cbn in HM, HH. subst r h'. cbn [fst snd rmap_err].
  destruct (f frame w2) as [[e|resp] w3]; [done|]. cbn [fst snd].
  by destruct (UnmarshalNew (g_codec g) resp h2) as [[m|e|] h3].
Qed.
End Handling.
End Gateway.

(** C10: A gateway without editing hooks is transparent.  When its route only
    reads the request, then: an inbound frame that does not decode is dropped
    and nothing else happens; otherwise the route decides, the chosen upstream
    is given the inbound frame byte for byte, and its answer, if it decodes, is
    sent back byte for byte; a routing, upstream or decoding failure takes the
    error path with that cause and reaches the client only through [OnError]. *)
Theorem gateway_transparent {E W} (g : @Gateway E W) frame h w :
  g_BeforeRequest g = None -> g_BeforeResponse g = None -> reads_only g ->
  heap_ok h -> deep_schema (c_schema (g_codec g)) ->
  match UnmarshalNew (g_codec g) frame h with
  | (Ok l, h1) =>
      match g_Route g l (h1, w) with
      | (Ok (Some upstream), (h2, w2)) =>
          match upstream frame w2 with
          | (inr answer, w3) =>
              match UnmarshalNew (g_codec g) answer h2 with
              | (Ok _, h3) => handle g frame (h, w) = (Ok (Some answer), (h3, w3))
              | (Err e, h3) => handle g frame (h, w) = fail_back g l (DecodeUpstream e) (h3, w3)
              | (Panic, _) => False
              end
          | (inl e, w3) => handle g frame (h, w) = fail_back g l (ForwardError e) (h2, w3)
          end
      | (Ok None, s) => handle g frame (h, w) = fail_back g l ErrNoRoute s
      | (Err e, s) => handle g frame (h, w) = fail_back g l (RouteError e) s
      | (Panic, s) => handle g frame (h, w) = (Panic, s)
      end
  | (Err _, _) => handle g frame (h, w) = (Ok None, (h, w))
  | (Panic, _) => False
  end.
Proof.
  intros HB HA HRO Hh HD. assert (HU : forall fr h, match UnmarshalNew (g_codec g) fr h with (Panic, _) => False | (Err _, h') => h' = h | _ => True end).
  { intros fr h0. unfold UnmarshalNew, sbind, slift, halloc. pose proof (Unmarshal_no_panic (g_codec g) fr HD). by destruct (Unmarshal (g_codec g) fr). }
  pose proof (HU frame h) as HU1. unfold handle. cbn [fst snd].
  destruct (UnmarshalNew (g_codec g) frame h) as [[l|e|] h1] eqn:EU; [|by subst|done].
  assert (Hh1 : heap_ok h1).
  { replace h1 with (snd (UnmarshalNew (g_codec g) frame h)) by (by rewrite EU). apply (api_step_ok h); [|done]. by apply step_Unmarshal. }
  destruct (HRO l (h1, w)) as [des HR2]. destruct (g_Route g l (h1, w)) as [[[f|]|e|] [h2 w2]] eqn:ER;
    [|unfold process, gbind, ghook; cbv beta; by rewrite ER..]. cbn [fst snd] in HR2.
  assert (HV : fst (MarshalAt (g_codec g) l [] h2) = Ok frame) by (eapply verbatim_facts; [exact Hh|exact HD|exact EU|exact HR2]).
  rewrite (process_plain g l h1 w f h2 w2 frame HB HA ER HV).
  destruct (f frame w2) as [[e|answer] w3]; [done|]. pose proof (HU answer h2) as HU2.
  destruct (UnmarshalNew (g_codec g) answer h2) as [[l2|e|] h3] eqn:EU2; [|done|done]. cbn [rmap_err]. unfold send_back. cbn [fst snd].
  assert (HV2 : fst (MarshalAt (g_codec g) l2 [] h3) = Ok answer).
  { eapply (verbatim_facts _ answer h2 l2 h3 []); [|done|done|done]. rewrite HR2. by apply reads_ok. }
  pose proof (MarshalAt_heap (g_codec g) l2 [] h3) as HH. destruct (MarshalAt (g_codec g) l2 [] h3) as [r h']. cbn in HV2, HH. by subst.
Qed.

(** A gateway to an upstream that echoes and counts what it is given. *)
Definition echo_gateway : @Gateway unit (list bytes) :=
  mkGateway sample_codec (fun l s => (Ok (Some (fun frame w => (inr frame, w ++ [frame]))), s)) None None None.

Lemma gateway_transparent_witness :
  exists h, handle echo_gateway sample_wire ([], []) = (Ok (Some sample_wire), (h, [sample_wire])).
Proof.
  assert (HD : deep_schema (c_schema (g_codec echo_gateway))) by (apply (deep_schemab_ok 1); vm_compute; reflexivity).
  pose proof (gateway_transparent echo_gateway sample_wire [] [] eq_refl eq_refl
    (fun l s => ex_intro _ [] eq_refl) (Forall_nil_2 _) HD) as H.
  assert (HU : match UnmarshalNew (g_codec echo_gateway) sample_wire [] with
    | (Ok _, h1) => match UnmarshalNew (g_codec echo_gateway) sample_wire h1 with (Ok _, _) => true | _ => false end
    | _ => false end = true) by (vm_compute; reflexivity).
  destruct (UnmarshalNew (g_codec echo_gateway) sample_wire []) as [[l|e|] h1] eqn:E1; [|discriminate HU..].
  cbn [g_Route echo_gateway] in H.
  destruct (UnmarshalNew (g_codec echo_gateway) sample_wire h1) as [[l2|e|] h3] eqn:E2; [|discriminate HU..].
  exists h3. exact H.
Defined.
