(* ===== verification/Shown.v ===== *)
(** * What a message shows to its readers ([iso8583/message.go])

    The renderers read a message through [Get] and [Fields] and build one by
    [Set] calls.  [shown] is what [Get] answers for a scalar element, whether it
    was set, was read before, or still waits in the wire image to be decoded;
    reading memoises values and changes nothing that is shown. *)

From S2P Require Import Prelude Errors Strconv Bitmap Decimal Path Schema LengthCodec BitmapCodec Value FieldCodec Message BerTlv Engine Layout Wire Recursion Access Invariant Store.

(** ** Reading *)

(** The value of a scalar element that waits in the wire image. *)
Definition span_value (m : Message) (de : Z) (sl : slot) : option Value :=
  match msg_def m de with
  | Ok (Some d) =>
      match fd_Codec d with
      | Some c =>
          if negb (sl_fromSrc sl) || is_composite_codec c then None else
          match src_slice m (sl_bodyOff sl) (sl_bodyEnd sl) with
          | Ok body => match DecodeScalar c body (sl_units sl) d with Ok v => Some (set_v_off (set_v_codec v (Some c)) (sl_bodyOff sl)) | _ => None end
          | _ => None
          end
      | None => None
      end
  | _ => None
  end.

Definition shown (m : Message) (de : Z) : option Value :=
  match slot_at m de with
  | Ok sl => if sl_present sl then if sl_decoded sl then Some (sl_v sl) else span_value m de sl else None
  | _ => None
  end.

Definition present_values (m : Message) : list (Z * Value) :=
  omap (fun de => (fun v => (de, v)) <$> shown m de) (slot_range m).

(** An element that is absent, or shown. *)
Definition legible (m : Message) (de : Z) : Prop := Has m de = true -> is_Some (shown m de).

(** A message none of whose values wait to be decoded. *)
Definition all_decoded (m : Message) : Prop :=
  forall de sl, slot_at m de = Ok sl -> sl_present sl = true -> sl_decoded sl = true.

(** The same message to every reader. *)
Record alike (m m' : Message) : Prop := {
  ak_schema : m_schema m' = m_schema m;
  ak_bm : m_bm m' = m_bm m;
  ak_tags : TagSeq m' = TagSeq m;
  ak_range : slot_range m' = slot_range m;
  ak_has : forall de, Has m' de = Has m de;
  ak_shown : forall de, shown m' de = shown m de;
}.

Lemma alike_refl m : alike m m.
Proof. by split. Qed.

Lemma alike_trans m1 m2 m3 : alike m1 m2 -> alike m2 m3 -> alike m1 m3.
Proof. intros [A1 B1 C1 D1 E1 F1] [A2 B2 C2 D2 E2 F2]. split; [congruence..|intros de; by rewrite E2|intros de; by rewrite F2]. Qed.

Lemma alike_legible m m' de : alike m m' -> legible m de -> legible m' de.
Proof. intros HA HL. unfold legible. rewrite (ak_has _ _ HA), (ak_shown _ _ HA). exact HL. Qed.

Lemma alike_present m m' : alike m m' -> present_values m' = present_values m.
Proof.
  intros HA. unfold present_values. rewrite (ak_range _ _ HA). apply list_omap_ext. apply list.Forall_Forall2_diag, list.Forall_true. intros de. by rewrite (ak_shown _ _ HA).
Qed.

Lemma in_slots_slot m de : in_slots m de = true <-> exists sl, slot_at m de = Ok sl.
Proof.
  unfold in_slots. rewrite negb_true_iff, orb_false_iff, Z.ltb_ge, Z.leb_gt. setoid_rewrite slot_at_lookup. unfold len. split.
  - intros [H0 H1]. destruct (lookup_lt_is_Some_2 (m_slots m) (Z.to_nat de)) as [sl HS]; [lia|]. by exists sl.
  - intros (sl & H0 & HS%lookup_lt_Some). lia.
Qed.

Lemma Has_present m de : Has m de = match slot_at m de with Ok sl => sl_present sl | _ => false end.
Proof.
  unfold Has. destruct (in_slots m de) eqn:EI.
  - apply in_slots_slot in EI as [sl HS]. rewrite HS. by apply slot_at_lookup in HS as [_ ->].
  - destruct (slot_at m de) as [sl| |] eqn:HS; [|done|done].
    assert (in_slots m de = true) by (apply in_slots_slot; by exists sl). congruence.
Qed.

Lemma shown_has m de v : shown m de = Some v -> Has m de = true.
Proof. rewrite Has_present. unfold shown. destruct (slot_at m de) as [sl| |]; [|done|done]. by destruct (sl_present sl). Qed.

Lemma legible_has m de : legible m de -> Has m de = match shown m de with Some _ => true | None => false end.
Proof.
  intros HL. destruct (shown m de) as [v|] eqn:ES; [by eapply shown_has|]. destruct (Has m de) eqn:EH; [|done].
  destruct (HL EH) as [v HV]. congruence.
Qed.

Lemma decoded_legible m de : all_decoded m -> legible m de.
Proof.
  intros HA. unfold legible. rewrite Has_present. unfold shown. destruct (slot_at m de) as [sl| |] eqn:HS; [|done|done].
  intros HP. rewrite HP, (HA _ _ HS HP). by eexists.
Qed.

(** Memoising what is shown changes nothing that is shown. *)
Lemma memo_alike m de sl v : slot_at m de = Ok sl -> shown m de = Some v -> alike m (with_slot m de (memo_slot sl v)).
Proof.
  intros HS HV. pose proof HS as [Hde HL]%slot_at_lookup.
  assert (HP : sl_present sl = true) by (pose proof (shown_has _ _ _ HV) as HH; by rewrite Has_present, HS in HH).
  assert (HE : forall e, slot_at (with_slot m de (memo_slot sl v)) e = if e =? de then Ok (memo_slot sl v) else slot_at m e).
  { intros e. unfold slot_at, idx. cbn. destruct (Z.eqb_spec e de) as [->|Hne].
    - replace (de <? 0) with false by (symmetry; apply Z.ltb_ge; lia). rewrite list_lookup_insert_eq; [done|]. by apply lookup_lt_Some in HL.
    - destruct (Z.ltb_spec e 0); [done|]. by rewrite list_lookup_insert_ne by lia. }
  split; try done.
  - unfold slot_range. cbn. unfold len. by rewrite length_insert.
  - intros e. rewrite !Has_present, HE. destruct (Z.eqb_spec e de) as [->|]; [|done]. by rewrite HS.
  - intros e. unfold shown at 1. rewrite HE. destruct (Z.eqb_spec e de) as [->|].
    + cbn. by rewrite HP, HV.
    + unfold shown. by destruct (slot_at m e) as [sl'| |].
Qed.

Lemma decodeSlot_alike l m de (h : heap) : h !! l = Some m -> legible m de -> Has m de = true ->
  exists m', decodeSlot l de h = (Ok (shown m de), <[l := m']> h) /\ alike m m'.
Proof.
  intros HL HG HH. destruct (HG HH) as [v HV]. rewrite Has_present in HH. destruct (slot_at m de) as [sl| |] eqn:HS; [|done|done].
  unfold decodeSlot, sbind at 1. rewrite (hget_run _ _ _ HL). unfold sbind at 1, slift. rewrite HS, HH. cbn [negb]. pose proof HV as HV0.
  unfold shown in HV. rewrite HS, HH in HV. rewrite HV0. destruct (sl_decoded sl).
  - exists m. injection HV as ->. rewrite list_insert_id by done. split; [done|apply alike_refl].
  - exists (with_slot m de (memo_slot sl v)). split; [|by apply memo_alike]. unfold span_value in HV.
    destruct (msg_def m de) as [[d|]| |] eqn:ED; try done. destruct (fd_Codec d) as [c|] eqn:EC; [|done].
    destruct (sl_fromSrc sl); [|done]. destruct (is_composite_codec c) eqn:ECC; [done|]. cbn [negb orb] in HV.
    destruct (src_slice m (sl_bodyOff sl) (sl_bodyEnd sl)) as [body| |] eqn:EB; try done.
    destruct (DecodeScalar c body (sl_units sl) d) as [v0| |] eqn:EV; try done. injection HV as HV.
    unfold sbind at 1. cbn [negb]. unfold sbind at 1. rewrite ?EB. unfold sbind at 1, decode_body. rewrite EC. unfold sbind at 1, sattempt.
    rewrite DecodeBody_scalar by done. unfold slift. rewrite ?EV. cbn [sret fmap option_fmap option_map]. rewrite HV.
    unfold sbind. by rewrite (memoise_run l de _ h m _ HL HS).
Qed.

Lemma Get_alike l m de (h : heap) : h !! l = Some m -> legible m de ->
  exists m', Get l de h = (Ok (shown m de), <[l := m']> h) /\ alike m m'.
Proof.
  intros HL HG. unfold Get, sbind at 1. rewrite (hget_run _ _ _ HL). destruct (in_slots m de) eqn:EI.
  - destruct (Has m de) eqn:EH; [by apply decodeSlot_alike|]. exists m. split; [|apply alike_refl].
    apply in_slots_slot in EI as [sl HS]. rewrite Has_present, HS in EH. unfold decodeSlot, sbind at 1. rewrite (hget_run _ _ _ HL).
    unfold sbind at 1, slift. rewrite HS, EH. unfold shown. rewrite HS, EH. by rewrite list_insert_id.
  - exists m. split; [|apply alike_refl]. rewrite list_insert_id by done. unfold sret, shown. destruct (slot_at m de) as [sl| |] eqn:HS; [|done|done].
    assert (in_slots m de = true) by (apply in_slots_slot; by exists sl). congruence.
Qed.

Lemma Get_fst l m de (h : heap) : h !! l = Some m -> legible m de -> fst (Get l de h) = Ok (shown m de).
Proof. intros HL HG. by destruct (Get_alike l m de h HL HG) as (m' & -> & _). Qed.


Lemma decodeSlot_shown l m de sl (h : heap) : h !! l = Some m -> all_decoded m -> slot_at m de = Ok sl ->
  decodeSlot l de h = (Ok (shown m de), h).
Proof.
  intros HL HA HS. unfold decodeSlot, sbind, slift. rewrite (hget_run _ _ _ HL), HS. unfold shown. rewrite HS.
  destruct (sl_present sl) eqn:EP; [|done]. by rewrite (HA _ _ HS EP).
Qed.

Lemma Get_shown l m de (h : heap) : h !! l = Some m -> all_decoded m -> Get l de h = (Ok (shown m de), h).
Proof.
  intros HL HA. unfold Get, sbind. rewrite (hget_run _ _ _ HL). destruct (in_slots m de) eqn:EI.
  - apply in_slots_slot in EI as [sl HS]. by eapply decodeSlot_shown.
  - unfold sret, shown. destruct (slot_at m de) as [sl| |] eqn:HS; [|done|done].
    assert (in_slots m de = true) by (apply in_slots_slot; by exists sl). congruence.
Qed.

Lemma fields_loop_alike l des m (h : heap) : h !! l = Some m -> (forall de, legible m de) ->
  exists m', fields_loop l des h = (Ok ((fun p => (DE p.1, p.2)) <$> omap (fun de => (fun v => (de, v)) <$> shown m de) des), <[l := m']> h) /\ alike m m'.
Proof.
  revert m h. induction des as [|de des IH]; intros m h HL HG; cbn [fields_loop omap list_omap fmap list_fmap].
  { exists m. rewrite list_insert_id by done. split; [done|apply alike_refl]. }
  unfold sbind at 1. rewrite (hget_run _ _ _ HL), (legible_has _ _ (HG de)). destruct (shown m de) as [v|] eqn:ES; cbn [negb fmap option_fmap option_map]; [|by apply IH].
  unfold sbind at 1. destruct (decodeSlot_alike l m de h HL (HG de) (shown_has _ _ _ ES)) as (m1 & -> & HA1). rewrite ES.
  assert (HL1 : <[l:=m1]> h !! l = Some m1) by (apply list_lookup_insert_eq; by eapply lookup_lt_Some).
  destruct (IH m1 (<[l:=m1]> h) HL1) as (m2 & HF & HA2); [intros e; by eapply alike_legible|]. unfold sbind at 1. rewrite HF.
  exists m2. rewrite list_insert_insert_eq. split; [|by eapply alike_trans].
  unfold sret. do 2 f_equal. cbn. f_equal. f_equal. apply list_omap_ext. apply list.Forall_Forall2_diag, list.Forall_true. intros e. by rewrite (ak_shown _ _ HA1).
Qed.

Lemma Fields_alike l m (h : heap) : h !! l = Some m -> (forall de, legible m de) ->
  exists m', Fields l h = (Ok ((fun p => (DE p.1, p.2)) <$> present_values m), <[l := m']> h) /\ alike m m'.
Proof. intros HL HG. unfold Fields, sbind at 1. rewrite (hget_run _ _ _ HL). by apply fields_loop_alike. Qed.

(** ** Rebuilding *)

(** A message under construction over [s]. *)
Record building (s : Schema) (m : Message) : Prop := {
  bu_schema : m_schema m = Some s;
  bu_open : m_sealed m = false;
  bu_len : len (m_slots m) = s_maxDE s + 1;
  bu_decoded : all_decoded m;
}.

Lemma New_building s : 0 <= s_maxDE s -> building s (New s).
Proof.
  intros HM. split; [done|done| |].
  - cbn. unfold len. rewrite length_replicate. lia.
  - intros de sl [_ HL]%slot_at_lookup. cbn in HL. apply lookup_replicate_1 in HL as [-> _]. done.
Qed.

Lemma shown_New s de : shown (New s) de = None.
Proof.
  unfold shown. destruct (slot_at (New s) de) as [sl| |] eqn:HS; [|done|done]. apply slot_at_lookup in HS as [_ HL].
  cbn in HL. by apply lookup_replicate_1 in HL as [-> _].
Qed.

Lemma shown_same m m' de : m_slots m = m_slots m' -> m_schema m = m_schema m' -> m_src m = m_src m' -> shown m de = shown m' de.
Proof. intros H1 H2 H3. unfold shown, slot_at, span_value, msg_def, src_slice. by rewrite H1, H2, H3. Qed.

Lemma MSet_building s m de d x v0 : building s m -> Schema_Field s de = Some d -> 0 <= de <= s_maxDE s ->
  makeValue (Some d) x = Ok v0 ->
  exists m', MSet m de x = Ok m' /\ building s m' /\
    forall e, shown m' e = if e =? de then Some (set_v_codec v0 (fd_Codec d)) else shown m e.
Proof.
  intros [B1 B2 B3 B4] HF Hde HV.
  assert (HS : exists s0, slot_at m de = Ok s0).
  { apply in_slots_slot. unfold in_slots. rewrite B3. apply negb_true_iff, orb_false_iff. split; [apply Z.ltb_ge|apply Z.leb_gt]; lia. }
  destruct HS as [s0 HS]. unfold MSet. rewrite B2. unfold msg_def. rewrite B1. cbn [rbind].
  replace (if de =? 0 then s_mti s else Schema_Field s de) with (Some d).
  2:{ rewrite <- HF. unfold Schema_Field. by destruct (de =? 0). }
  rewrite HV. cbn [rbind]. replace (len (m_slots m) <=? de) with false by (symmetry; apply Z.leb_gt; lia). rewrite HS. cbn [rbind].
  set (m1 := with_slot m de (set_slot s0 (set_v_codec v0 (fd_Codec d)))).
  assert (HSl : forall e sl, slot_at m1 e = Ok sl ->
    (e = de /\ sl = set_slot s0 (set_v_codec v0 (fd_Codec d))) \/ (e <> de /\ slot_at m e = Ok sl)).
  { intros e sl. apply slot_at_with_slot. lia. }
  assert (HM : m_slots (mark_set (with_owned m1) de) = m_slots m1) by (unfold mark_set; by case_match).
  eexists. split; [reflexivity|]. split.
  - split.
    + unfold mark_set. by case_match.
    + unfold mark_set. by case_match.
    + rewrite HM. cbn. unfold len in *. by rewrite length_insert.
    + intros e sl HE HP. unfold slot_at in HE. rewrite HM in HE. destruct (HSl e sl HE) as [[_ ->]|[_ HE']]; [done|]. by eapply B4.
  - intros e. rewrite (shown_same _ m1) by (unfold mark_set; by case_match). unfold shown. destruct (Z.eqb_spec e de) as [->|Hne].
    + assert (HX : slot_at m1 de = Ok (set_slot s0 (set_v_codec v0 (fd_Codec d)))).
      { apply slot_at_lookup. split; [lia|]. apply slot_at_lookup in HS as [_ HL%lookup_lt_Some]. by apply list_lookup_insert_eq. }
      by rewrite HX.
    + assert (HX : slot_at m1 e = slot_at m e).
      { unfold slot_at, idx. destruct (Z.ltb_spec e 0); [done|]. cbn. rewrite list_lookup_insert_ne by lia. done. }
      by rewrite HX.
Qed.

Lemma SetDE_building s d v0 de x (h : heap) m : building s m -> Schema_Field s de = Some d -> 0 <= de <= s_maxDE s ->
  makeValue (Some d) x = Ok v0 ->
  exists m', SetDE (length h) de x (h ++ [m]) = (Ok tt, h ++ [m']) /\ building s m' /\
    forall e, shown m' e = if e =? de then Some (set_v_codec v0 (fd_Codec d)) else shown m e.
Proof.
  intros HB HF Hde HX. destruct (MSet_building s m de d x v0 HB HF Hde HX) as (m' & HM & HB' & HS'). exists m'. split; [|done].
  unfold SetDE, sbind, slift, hput. rewrite (hget_run _ _ m) by (rewrite lookup_app_r, Nat.sub_diag; done). rewrite HM.
  by rewrite insert_app_r_alt, Nat.sub_diag.
Qed.

(** All the elements a message shows, the MTI first. *)
Definition all_values (m : Message) : list (Z * Value) :=
  match shown m 0 with Some v => [(0, v)] | None => [] end ++ present_values m.

Lemma elem_present_values m de v : (de, v) ∈ present_values m <-> 1 <= de < len (m_slots m) /\ shown m de = Some v.
Proof.
  unfold present_values, slot_range. rewrite list_elem_of_omap. setoid_rewrite elem_of_seqZ. split.
  - intros (e & He & (w & HS & [= -> ->])%fmap_Some). split; [lia|done].
  - intros [Hde HS]. exists de. split; [lia|]. by rewrite HS.
Qed.

Lemma elem_all_values m de v : (de, v) ∈ all_values m <-> 0 <= de /\ shown m de = Some v.
Proof.
  unfold all_values. rewrite elem_of_app, elem_present_values. split.
  - intros [HI|[? ?]]; [|split; [lia|done]]. destruct (shown m 0) as [w|] eqn:E0; [|by apply elem_of_nil in HI].
    apply list_elem_of_singleton in HI. injection HI as -> ->. done.
  - intros [H0 HS]. destruct (decide (de = 0)) as [->|Hn]; [left; rewrite HS; by apply list_elem_of_singleton|]. right. split; [|done].
    unfold shown in HS. destruct (slot_at m de) as [sl| |] eqn:HL; [|done|done]. apply slot_at_lookup in HL as [_ HL%lookup_lt_Some].
    unfold len. lia.
Qed.

Lemma NoDup_all_values m : NoDup ((all_values m).*1).
Proof.
  assert (HP : NoDup ((present_values m).*1)).
  { unfold present_values. assert (HR : NoDup (slot_range m)) by apply NoDup_seqZ. induction HR as [|de des Hn _ IH]; cbn; [apply NoDup_nil_2|].
    destruct (shown m de) as [v|]; cbn; [|done]. apply list.NoDup_cons. split; [|done].
    intros ([e w] & E1 & HI)%list_elem_of_fmap. cbn in E1. subst e. apply list_elem_of_omap in HI as (x & Hx & HE).
    apply fmap_Some in HE as (? & _ & [= -> ->]). done. }
  unfold all_values. destruct (shown m 0) as [v|]; [|done]. cbn [app fmap list_fmap]. apply list.NoDup_cons. split; [|done].
  intros ([e w] & E1 & HI)%list_elem_of_fmap. cbn in E1. subst e. apply elem_present_values in HI as [? _]. lia.
Qed.


(** ** Equal values *)

(** Values of one kind with the same text or the same amount: every typed getter
    answers alike.  They may differ in where they were read from, and an amount
    in the digits it was read from. *)
Definition same_value (v v' : Value) : Prop :=
  v_kind v' = v_kind v /\ match v_kind v with KindAmount => v_dec v' = v_dec v | _ => v_raw v' = v_raw v end.

Definition same_answer (a b : result (option Value)) : Prop :=
  match a, b with
  | Ok (Some v), Ok (Some v') => same_value v v'
  | Ok None, Ok None => True
  | _, _ => False
  end.

Lemma same_value_getters v v' : same_value v v' ->
  (forall s, Value_String v = Ok s -> Value_String v' = Ok s) /\ (forall n, Value_Int v = Ok n -> Value_Int v' = Ok n) /\
  (forall n, Value_Uint v = Ok n -> Value_Uint v' = Ok n) /\ (forall d, Value_Decimal v = Ok d -> Value_Decimal v' = Ok d).
Proof.
  intros [HK HV]. unfold Value_String, Value_Int, Value_Uint, Value_Decimal. rewrite HK. destruct (v_kind v); rewrite ?HV; split_and!; intros x;
    try done; try (by destruct (parseInt (v_raw v))); by destruct (parseUint (v_raw v)).
Qed.

(** The value a field of this definition holds when the value is set anew. *)
Definition canon (d : FieldDef) (v : Value) : Value :=
  match v_kind v with
  | KindAmount => mkValue (DString (v_dec v)) KindAmount (fd_Codec d) 0 None (v_dec v)
  | k => mkValue (v_raw v) k (fd_Codec d) 0 None zeroDecimal
  end.

Definition canon_at (s : Schema) (de : Z) (v : Value) : Value := match Schema_Field s de with Some d => canon d v | None => v end.

Lemma canon_same d v : same_value v (canon d v).
Proof. unfold same_value, canon. by destruct (v_kind v). Qed.

(** A message rebuilt from what another shows answers as that one does. *)
Lemma rebuilt_answers s l m (h : heap) l' m' (h' : heap) : h !! l = Some m -> (forall de, legible m de) -> h' !! l' = Some m' -> all_decoded m' ->
  (forall e, shown m' e = canon_at s e <$> shown m e) ->
  forall de, same_answer (fst (Get l de h)) (fst (Get l' de h')) /\ Has m' de = Has m de.
Proof.
  intros HL HG HL' HA HS de. rewrite (Get_fst l m de h HL (HG de)), (Get_shown l' m' de h' HL' HA). rewrite (legible_has _ _ (HG de)), (legible_has m' de) by (by apply decoded_legible).
  rewrite HS. destruct (shown m de) as [v|]; [|done]. split; [|done]. cbn. unfold canon_at. destruct (Schema_Field s de); [apply canon_same|]. split; [done|]. by destruct (v_kind v).
Qed.
