(* ===== verification/Protobuf.v ===== *)
(** * The protobuf renderer ([render/protobuf/protobuf.go])

    A message as protobuf wire bytes: field 1 carries the MTI and field [n] data
    element [n], each length-delimited.  The renderer reads a message through
    its getters and rebuilds one by [Set] calls. *)

From S2P Require Import Prelude Errors Strconv Bitmap Decimal Path Schema LengthCodec BitmapCodec Value FieldCodec Message BerTlv Engine Layout Wire Access Invariant Store EndToEnd Shown.

(** ** [encoding/binary]: variable-length integers *)

(** [PutUvarint], as the bytes it writes; ten bytes hold 64 bits. *)
Fixpoint put_uvarint (n : nat) (x : Z) : bytes :=
  match n with
  | O => []
  | S n => if x <? 0x80 then [zb x] else zb (Z.lor (Z.land x 0xff) 0x80) :: put_uvarint n (Z.shiftr x 7)
  end.
Definition PutUvarint (x : Z) : bytes := put_uvarint 10 x.

(** [Uvarint]: the value and the bytes read; none or fewer is an error. *)
Fixpoint uvarint_loop (i s x : Z) (buf : bytes) : Z * Z :=
  match buf with
  | [] => (0, 0)
  | b :: buf =>
      if i =? 10 then (0, - (i + 1)) else
      if bz b <? 0x80 then
        if (i =? 9) && (1 <? bz b) then (0, - (i + 1))
        else (Z.lor x (wrapu64 (Z.shiftl (bz b) s)), i + 1)
      else uvarint_loop (i + 1) (s + 7) (Z.lor x (wrapu64 (Z.shiftl (Z.land (bz b) 0x7f) s))) buf
  end.
Definition Uvarint (buf : bytes) : Z * Z := uvarint_loop 0 0 0 buf.

Lemma lor_shift x y s : 0 <= s -> 0 <= x < 2 ^ s -> 0 <= y -> Z.lor x (y * 2 ^ s) = x + y * 2 ^ s.
Proof.
  intros Hs Hx Hy. rewrite <- Z.shiftl_mul_pow2 by done. assert (HL : Z.land x (Z.shiftl y s) = 0).
  { apply Z.bits_inj'. intros n Hn. rewrite Z.land_spec, Z.bits_0. destruct (Z.ltb_spec n s).
    - by rewrite Z.shiftl_spec_low, andb_false_r.
    - rewrite <- (Z.mod_small x (2 ^ s)) by done. by rewrite Z.mod_pow2_bits_high. }
  pose proof (Z.add_lor_land x (Z.shiftl y s)) as HA. rewrite HL, Z.shiftl_mul_pow2 in HA by done.
  rewrite Z.shiftl_mul_pow2 by done. lia.
Qed.

Lemma low7 x : 0 <= x -> 0x80 <= x ->
  bz (zb (Z.lor (Z.land x 0xff) 0x80)) = 0x80 + x mod 0x80 /\ Z.land (0x80 + x mod 0x80) 0x7f = x mod 0x80.
Proof.
  intros H0 H1. assert (HM : 0 <= x mod 128 < 128) by (apply Z.mod_pos_bound; lia).
  assert (HE : Z.lor (Z.land x 0xff) 0x80 = 0x80 + x mod 0x80).
  { change 0xff with (Z.ones 8). rewrite Z.land_ones by lia. change (2 ^ 8) with 256.
    assert (HB : 0 <= x mod 256 < 256) by (apply Z.mod_pos_bound; lia).
    assert (HQ : x mod 128 = (x mod 256) mod 128).
    { symmetry. rewrite (Z.div_mod x 256) at 2 by lia. replace (256 * (x / 256) + x mod 256) with (x mod 256 + 2 * (x / 256) * 128) by lia.
      by rewrite Z.mod_add by lia. }
    rewrite HQ. generalize (x mod 256) HB. intros r Hr.
    assert (HA : forallb (fun r => Z.lor r 0x80 =? 0x80 + r mod 0x80) (seqZ 0 256) = true) by (vm_compute; reflexivity).
    rewrite forallb_forall in HA. apply Z.eqb_eq, HA. apply list_elem_of_In, elem_of_seqZ. lia. }
  split.
  - rewrite HE. apply bz_zb. lia.
  - change 0x7f with (Z.ones 7). rewrite Z.land_ones by lia. change (2 ^ 7) with 128.
    rewrite Z.add_mod by lia. rewrite Z.mod_same, Z.add_0_l, !Z.mod_mod by lia. done.
Qed.

Lemma put_uvarint_read n x i s acc rest : 0 <= i -> i + Z.of_nat n = 10 -> s = 7 * i -> 0 <= acc < 2 ^ s ->
  0 <= x -> x * 2 ^ s + acc < 2 ^ 64 -> (0 < n)%nat ->
  uvarint_loop i s acc (put_uvarint n x ++ rest) = (acc + x * 2 ^ s, i + len (put_uvarint n x)).
Proof.
  revert x i s acc. induction n as [|n IH]; intros x i s acc Hi Hn -> Hacc Hx Hb Hpos; [lia|]. cbn [put_uvarint].
  assert (HP : 0 < 2 ^ (7 * i)) by (apply Z.pow_pos_nonneg; lia).
  destruct (Z.ltb_spec x 128) as [Hl|Hl].
  - cbn [app uvarint_loop]. rewrite bz_zb by lia. replace (i =? 10) with false by (symmetry; apply Z.eqb_neq; lia).
    replace (x <? 128) with true by (symmetry; apply Z.ltb_lt; lia).
    replace ((i =? 9) && (1 <? x)) with false.
    2:{ symmetry. destruct (Z.eqb_spec i 9) as [->|]; [|done]. cbn. apply Z.ltb_ge.
        change (2 ^ (7 * 9)) with (2 ^ 63) in Hb. lia. }
    unfold wrapu64. rewrite Z.shiftl_mul_pow2 by lia. rewrite Z.mod_small by lia.
    rewrite lor_shift by lia. reflexivity.
  - destruct (low7 x Hx Hl) as [HZ HM]. cbn [app uvarint_loop]. rewrite HZ.
    assert (HD : 0 <= x mod 128 < 128) by (apply Z.mod_pos_bound; lia).
    replace (i =? 10) with false by (symmetry; apply Z.eqb_neq; lia).
    replace (128 + x mod 128 <? 128) with false by (symmetry; apply Z.ltb_ge; lia).
    rewrite HM. pose proof (Z.div_mod x 128 ltac:(lia)) as HX.
    unfold wrapu64. rewrite Z.shiftl_mul_pow2 by lia. rewrite Z.mod_small by nia.
    rewrite lor_shift by lia.
    rewrite Z.shiftr_div_pow2 by lia. change (2 ^ 7) with 128.
    assert (HE : 2 ^ (7 * i + 7) = 2 ^ (7 * i) * 128) by (rewrite Z.pow_add_r by lia; done).
    assert (Hdiv : 0 < x / 128) by (apply Z.div_str_pos; lia).
    assert (Hn1 : (0 < n)%nat).
    { destruct n; [|lia]. assert (i = 9) as -> by lia. change (2 ^ (7 * 9)) with (2 ^ 63) in Hb. nia. }
    rewrite IH; [|lia|lia|lia|rewrite HE; nia|lia|rewrite HE; nia|done].
    rewrite HE. unfold len. cbn [length]. f_equal; [nia|lia].
Qed.

Lemma Uvarint_roundtrip x rest : uint64 x -> Uvarint (PutUvarint x ++ rest) = (x, len (PutUvarint x)).
Proof.
  intros [H0 H1]. unfold Uvarint, PutUvarint. rewrite put_uvarint_read; [|lia|lia|lia|split; [lia|done]|lia|rewrite Z.pow_0_r; lia|lia].
  rewrite Z.pow_0_r. f_equal; lia.
Qed.

Lemma PutUvarint_pos x : 0 < len (PutUvarint x).
Proof. unfold PutUvarint, len. cbn [put_uvarint]. destruct (x <? 128); cbn [length]; lia. Qed.

(** ** The wire *)

Definition fieldMTI : Z := 1.
Definition wireLEN : Z := 2.

Inductive pb_error :=
| PbTruncated
| PbWireType
| PbFieldNum
| PbNoCodec
| PbMessage (e : error).       (* an error of the message or its codecs *)

Definition pb_appendField (dst : bytes) (fieldNum : Z) (payload : bytes) : bytes :=
  dst ++ PutUvarint (Z.lor (wrapu64 (Z.shiftl fieldNum 3)) wireLEN) ++ PutUvarint (len payload) ++ payload.

(** Computations over the store with the renderer's errors. *)
Definition PB (A : Type) : Type := heap -> res pb_error A * heap.
Definition pret {A} (a : A) : PB A := fun h => (Ok a, h).
Definition pfail {A} (e : pb_error) : PB A := fun h => (Err e, h).
Definition pbind {A B} (c : PB A) (k : A -> PB B) : PB B := fun h =>
  match c h with
  | (Ok a, h) => k a h
  | (Err e, h) => (Err e, h)
  | (Panic, h) => (Panic, h)
  end.
Definition pmsg {A} (c : ST A) : PB A := fun h => let '(r, h) := c h in (rmap_err PbMessage r, h).
#[local] Notation "'let%' x := c 'in' k" := (pbind c (fun x => k)) (at level 10, x pattern, c at level 200, k at level 200).

Definition encodeValue (v : Value) (def : option FieldDef) : PB bytes :=
  match v_kind v with
  | KindAmount => let% d := pmsg (slift (Value_Decimal v)) in pret (FormatInt (Unscaled d))
  | KindComposite =>
      match def with
      | Some d =>
          match fd_Codec d with
          | Some c => fun h => pmsg (slift (EncodeBody h c [] v d)) h
          | None => pfail PbNoCodec
          end
      | None => pfail PbNoCodec
      end
  | _ => pret (v_raw v)
  end.

(** The loop over [v.Fields()], which is read as a whole. *)
Fixpoint pb_fields (s : Schema) (fields : list (FieldPath * Value)) (dst : bytes) : PB bytes :=
  match fields with
  | [] => pret dst
  | (path, val) :: fields =>
      let de := match fp_elems path with e :: _ => pe_N e | [] => 0 end in
      let% payload := encodeValue val (Schema_Field s de) in
      pb_fields s fields (pb_appendField dst de payload)
  end.

Definition pb_Marshal (l : loc) : PB bytes :=
  let% m := pmsg (hget l) in
  let% mti := pmsg (Get l 0) in
  let% dst :=
    match mti with
    | Some v => let% s := pmsg (slift (Value_String v)) in pret (pb_appendField [] fieldMTI s)
    | None => pret []
    end in
  let% fields := pmsg (Fields l) in
  match fields, m_schema m with
  | [], _ => pret dst
  | _, Some s => pb_fields s fields dst
  | _, None => fun h => (Panic, h)
  end.

Definition setValue (l : loc) (de : Z) (def : FieldDef) (payload : bytes) : PB unit :=
  match fd_Kind def with
  | KindAmount =>
      let% n := pmsg (slift (ParseInt 64 payload)) in
      pmsg (SetDE l de (anyDecimal (NewDecimal n (fd_Scale def))))
  | KindComposite =>
      match fd_Codec def with
      | None => pfail PbNoCodec
      | Some c => let% v := pmsg (DecodeBody c payload (len payload) def) in pmsg (SetDE l de (anyValue v))
      end
  | KindBytes => pmsg (SetDE l de (anyBytes payload))
  | _ => pmsg (SetDE l de (anyString payload))
  end.

(** One field of [Unmarshal], and what follows it. *)
Definition pb_next (data : bytes) : res pb_error (Z * bytes * bytes) :=
  let '(tag, n) := Uvarint data in
  if n <=? 0 then Err PbTruncated else
  let data := drop (Z.to_nat n) data in
  let fieldNum := Z.shiftr tag 3 in
  if negb (Z.land tag 7 =? wireLEN) then Err PbWireType else
  if fieldNum <? 1 then Err PbFieldNum else
  let '(ln, n) := Uvarint data in
  if n <=? 0 then Err PbTruncated else
  let data := drop (Z.to_nat n) data in
  if len data <? ln then Err PbTruncated else
  Ok (fieldNum, take (Z.to_nat ln) data, drop (Z.to_nat ln) data).

Definition pb_set (s : Schema) (l : loc) (fieldNum : Z) (payload : bytes) : PB unit :=
  if fieldNum =? fieldMTI then pmsg (SetDE l 0 (anyString payload)) else
  match Schema_Field s fieldNum with
  | None => pfail PbFieldNum
  | Some def => setValue l fieldNum def payload
  end.

(** The loop of [Unmarshal]; each round reads two bytes or more. *)
Fixpoint pb_loop (n : nat) (s : Schema) (l : loc) (data : bytes) : PB unit :=
  match data with
  | [] => pret tt
  | _ =>
      match n with
      | O => fun h => (Panic, h)
      | S n =>
          match pb_next data with
          | Ok (fieldNum, payload, rest) => let% _ := pb_set s l fieldNum payload in pb_loop n s l rest
          | Err e => pfail e
          | Panic => fun h => (Panic, h)
          end
      end
  end.

Definition pb_Unmarshal (data : bytes) (s : Schema) : PB loc :=
  let% l := pmsg (halloc (New s)) in
  let% _ := pb_loop (length data) s l data in
  pret l.

(** ** Reading back what was written *)

Fixpoint pb_sets (s : Schema) (l : loc) (fs : list (Z * bytes)) : PB unit :=
  match fs with
  | [] => pret tt
  | (n, p) :: fs => let% _ := pb_set s l n p in pb_sets s l fs
  end.

Definition pb_wire (fs : list (Z * bytes)) : bytes := fold_left (fun dst f => pb_appendField dst f.1 f.2) fs [].

Definition pb_field_ok (f : Z * bytes) : Prop := 1 <= f.1 < 2 ^ 60 /\ len f.2 < 2 ^ 63.

Lemma pb_appendField_app dst n p : pb_appendField dst n p = dst ++ pb_appendField [] n p.
Proof. done. Qed.

Lemma pb_wire_from fs dst : fold_left (fun dst f => pb_appendField dst f.1 f.2) fs dst = dst ++ pb_wire fs.
Proof.
  unfold pb_wire. revert dst. induction fs as [|f fs IH]; intros dst; cbn [fold_left]; [by rewrite app_nil_r|].
  rewrite IH, (IH (pb_appendField [] _ _)), (pb_appendField_app dst), app_assoc. done.
Qed.

Lemma pb_wire_cons f fs : pb_wire (f :: fs) = pb_appendField [] f.1 f.2 ++ pb_wire fs.
Proof. unfold pb_wire at 1. cbn [fold_left]. apply pb_wire_from. Qed.

Lemma drop_len_app (a b : bytes) : drop (Z.to_nat (len a)) (a ++ b) = b.
Proof. unfold len. rewrite Nat2Z.id. apply drop_app_length. Qed.

Lemma take_len_app (a b : bytes) : take (Z.to_nat (len a)) (a ++ b) = a.
Proof. unfold len. rewrite Nat2Z.id. apply take_app_length. Qed.

Lemma tag_value n : 1 <= n < 2 ^ 60 -> let t := Z.lor (wrapu64 (Z.shiftl n 3)) wireLEN in
  uint64 t /\ Z.shiftr t 3 = n /\ Z.land t 7 = wireLEN.
Proof.
  intros Hn. cbv zeta. unfold wrapu64, wireLEN. rewrite Z.shiftl_mul_pow2 by lia. change (2 ^ 3) with 8.
  rewrite Z.mod_small by lia.
  assert (HE : Z.lor (n * 8) 2 = n * 8 + 2).
  { rewrite Z.lor_comm. change 8 with (2 ^ 3). rewrite lor_shift by lia. lia. }
  rewrite HE. split; [unfold uint64; lia|]. split.
  - rewrite Z.shiftr_div_pow2 by lia. change (2 ^ 3) with 8. rewrite Z.div_add_l by lia. change (2 / 8) with 0. lia.
  - change 7 with (Z.ones 3). rewrite Z.land_ones by lia. change (2 ^ 3) with 8. rewrite Z.add_comm, Z.mod_add by lia. done.
Qed.

Lemma pb_next_field n p rest : pb_field_ok (n, p) -> pb_next (pb_appendField [] n p ++ rest) = Ok (n, p, rest).
Proof.
  intros [Hn Hp]. cbn [fst snd] in Hn, Hp. destruct (tag_value n Hn) as (HU & HS & HL).
  unfold pb_next, pb_appendField. set (t := Z.lor (wrapu64 (Z.shiftl n 3)) wireLEN) in *. rewrite app_nil_l, <- !app_assoc.
  rewrite Uvarint_roundtrip by done. pose proof (PutUvarint_pos t).
  replace (len (PutUvarint t) <=? 0) with false by (symmetry; apply Z.leb_gt; lia).
  rewrite drop_len_app, HL, Z.eqb_refl. cbn [negb]. rewrite HS. replace (n <? 1) with false by (symmetry; apply Z.ltb_ge; lia).
  pose proof (Zle_0_nat (length p)). rewrite Uvarint_roundtrip by (unfold uint64, len in *; lia). pose proof (PutUvarint_pos (len p)).
  replace (len (PutUvarint (len p)) <=? 0) with false by (symmetry; apply Z.leb_gt; lia). rewrite drop_len_app.
  replace (len (p ++ rest) <? len p) with false by (symmetry; apply Z.ltb_ge; unfold len; rewrite length_app; lia).
  by rewrite take_len_app, drop_len_app.
Qed.

Lemma pb_appendField_pos n p : (1 <= length (pb_appendField [] n p))%nat.
Proof.
  unfold pb_appendField. rewrite app_nil_l, length_app.
  pose proof (PutUvarint_pos (Z.lor (wrapu64 (Z.shiftl n 3)) wireLEN)). unfold len in *. lia.
Qed.

(** [Unmarshal] of encoded fields makes exactly the [Set] calls of the fields. *)
Lemma pb_loop_wire s l fs n : Forall pb_field_ok fs -> (length (pb_wire fs) <= n)%nat ->
  forall h, pb_loop n s l (pb_wire fs) h = pb_sets s l fs h.
Proof.
  intros HF. revert n. induction HF as [|[num p] fs Hf _ IH]; intros n Hn h; [by destruct n|].
  rewrite pb_wire_cons in Hn |- *. cbn [fst snd] in *. pose proof (pb_appendField_pos num p) as HP. rewrite length_app in Hn.
  destruct n as [|n]; [lia|]. cbn [pb_loop pb_sets].
  destruct (pb_appendField [] num p ++ pb_wire fs) as [|b data] eqn:ED.
  { apply (f_equal length) in ED. rewrite length_app in ED. cbn [length] in ED. lia. }
  rewrite <- ED, pb_next_field by done. unfold pbind. destruct (pb_set s l num p h) as [[u|e|] h1]; [|done|done].
  apply IH. lia.
Qed.

(** ** Values that survive *)

(** The payload of a value, and the values it determines: text, numbers and
    bytes of the field's kind, and amounts at the field's scale. *)
Definition payload_of (v : Value) : bytes :=
  match v_kind v with KindAmount => FormatInt (Unscaled (v_dec v)) | _ => v_raw v end.

Definition plain (d : FieldDef) (v : Value) : Prop :=
  len (payload_of v) < 2 ^ 63 /\ v_kind v = fd_Kind d /\
  match fd_Kind d with
  | KindString | KindNumeric | KindBytes => True
  | KindAmount => int64 (Unscaled (v_dec v)) /\ Scale (v_dec v) = fd_Scale d
  | _ => False
  end.

Lemma plain_encode d v o h : plain d v -> encodeValue v o h = (Ok (payload_of v), h).
Proof.
  unfold plain, encodeValue, payload_of, Value_Decimal. intros (_ & HK & HP). rewrite HK. by destruct (fd_Kind d).
Qed.

(** What [setValue] hands to [Set]. *)
Definition set_arg (d : FieldDef) (payload : bytes) : any :=
  match fd_Kind d with
  | KindAmount => match ParseInt 64 payload with Ok n => anyDecimal (NewDecimal n (fd_Scale d)) | _ => anyOther [] end
  | KindBytes => anyBytes payload
  | _ => anyString payload
  end.

Lemma plain_makeValue d v : plain d v ->
  exists v0, makeValue (Some d) (set_arg d (payload_of v)) = Ok v0 /\ set_v_codec v0 (fd_Codec d) = canon d v.
Proof.
  unfold plain, payload_of, set_arg, makeValue, canon. intros (_ & HK & HP). rewrite HK. destruct (fd_Kind d) eqn:EK; try done; try (by eexists).
  destruct HP as [HI HS]. rewrite ParseInt_FormatInt by done. cbn. eexists. split; [reflexivity|]. unfold NewDecimal. rewrite <- HS. by destruct (v_dec v).
Qed.

(** ** Rebuilding *)

Lemma pb_set_building s d v de num (h : heap) m : building s m -> Schema_Field s de = Some d -> 0 <= de <= s_maxDE s -> plain d v ->
  (num = fieldMTI /\ de = 0 /\ fd_Kind d <> KindAmount) \/ (num = de /\ 2 <= de) ->
  exists m', pb_set s (length h) num (payload_of v) (h ++ [m]) = (Ok tt, h ++ [m']) /\ building s m' /\
    forall e, shown m' e = if e =? de then Some (canon_at s de v) else shown m e.
Proof.
  intros HB HF Hde HP HN. destruct (plain_makeValue d v HP) as (v0 & HV & HE).
  assert (HSet : forall x, makeValue (Some d) x = Ok v0 ->
    exists m', SetDE (length h) de x (h ++ [m]) = (Ok tt, h ++ [m']) /\ building s m' /\
      forall e, shown m' e = if e =? de then Some (canon_at s de v) else shown m e).
  { intros x HX. destruct (SetDE_building s d v0 de x h m HB HF Hde HX) as (m' & HM & HB' & HS'). exists m'. unfold canon_at. rewrite HF. by rewrite HE in HS'. }
  unfold pb_set. destruct HN as [(-> & -> & HK)|(-> & H2)].
  - cbn [Z.eqb fieldMTI Pos.eqb]. unfold pmsg. destruct (HSet (anyString (payload_of v))) as (m' & -> & HB' & HS'); [|by exists m'].
    rewrite <- HV. unfold set_arg. destruct HP as (_ & _ & HP). unfold makeValue. destruct (fd_Kind d) eqn:EK; try done; by rewrite ?EK.
  - replace (de =? fieldMTI) with false by (symmetry; apply Z.eqb_neq; unfold fieldMTI; lia). rewrite HF.
    destruct (HSet _ HV) as (m' & HX & HB' & HS'). exists m'. split; [|done]. unfold setValue. unfold set_arg in HX, HV. destruct HP as (_ & _ & HP).
    destruct (fd_Kind d) eqn:EK; try done; try (unfold pmsg; by rewrite HX).
    destruct (ParseInt 64 (payload_of v)) as [n| |]; [|done|done]. unfold pbind, pmsg, slift. cbn [rmap_err]. by rewrite HX.
Qed.

Definition field_num (de : Z) : Z := if de =? 0 then fieldMTI else de.

(** An element that can be rendered and set again. *)
Definition renderable (s : Schema) (p : Z * Value) : Prop :=
  0 <= p.1 <= s_maxDE s /\ p.1 <> 1 /\
  exists d, Schema_Field s p.1 = Some d /\ plain d p.2 /\ (p.1 = 0 -> fd_Kind d <> KindAmount).

Lemma pb_sets_building s ps (h : heap) m : building s m -> Forall (renderable s) ps -> NoDup (ps.*1) ->
  exists m', pb_sets s (length h) ((fun p => (field_num p.1, payload_of p.2)) <$> ps) (h ++ [m]) = (Ok tt, h ++ [m']) /\ building s m' /\
    (forall e v, (e, v) ∈ ps -> shown m' e = Some (canon_at s e v)) /\ (forall e, e ∉ ps.*1 -> shown m' e = shown m e).
Proof.
  intros HB HF. revert m HB. induction HF as [|[de v] ps (Hde & H1 & d & HD & HP & HK) _ IH]; intros m HB HN; cbn [fmap list_fmap pb_sets].
  { exists m. split; [done|]. split; [done|]. split; [by intros e v ?%elem_of_nil|done]. }
  cbn [fst snd] in *. apply list.NoDup_cons in HN as [Hnot HN].
  destruct (pb_set_building s d v de (field_num de) h m HB HD Hde HP) as (m1 & E1 & HB1 & HS1).
  { unfold field_num. destruct (Z.eqb_spec de 0) as [->|]; [left; split; [done|split; [done|by apply HK]]|right; split; [done|lia]]. }
  unfold pbind at 1. rewrite E1. destruct (IH m1 HB1 HN) as (m2 & E2 & HB2 & HI & HO). exists m2. split; [done|]. split; [done|]. split.
  - intros e w [[= -> ->]|He]%elem_of_cons; [|by apply HI]. by rewrite HO, HS1, Z.eqb_refl.
  - intros e He. rewrite HO by set_solver. rewrite HS1. replace (e =? de) with false; [done|]. symmetry. apply Z.eqb_neq. set_solver.
Qed.

Lemma pb_fields_wire s ps dst h : Forall (renderable s) ps -> Forall (fun p => 2 <= p.1 < 2 ^ 31) ps ->
  pb_fields s ((fun p => (DE p.1, p.2)) <$> ps) dst h =
    (Ok (fold_left (fun dst f => pb_appendField dst f.1 f.2) ((fun p => (field_num p.1, payload_of p.2)) <$> ps) dst), h).
Proof.
  intros HF HR. revert dst. induction HF as [|[de v] ps (Hde & H1 & d & HD & HP & HK) _ IH]; intros dst; cbn [fmap list_fmap pb_fields fold_left]; [done|].
  apply list.Forall_cons in HR as [Hr HR]. cbn [fst snd] in *. assert (HE : match fp_elems (DE de) with e :: _ => pe_N e | [] => 0 end = de).
  { unfold DE. cbn. apply int32_id. lia. }
  rewrite HE. unfold pbind. rewrite (plain_encode d v) by done. replace (field_num de) with de by (unfold field_num; destruct (Z.eqb_spec de 0); lia).
  by apply IH.
Qed.

Lemma renderable_field_ok s ps : s_maxDE s <= 192 -> Forall (renderable s) ps -> Forall pb_field_ok ((fun p => (field_num p.1, payload_of p.2)) <$> ps).
Proof.
  intros HM HV. apply list.Forall_forall. intros f (p & -> & HI)%list_elem_of_fmap. apply list.Forall_forall with (x := p) in HV; [|done].
  destruct HV as (Hde & H1 & d & _ & [HP _] & _). split; cbn; [|done]. unfold field_num, fieldMTI. destruct (Z.eqb_spec p.1 0); lia.
Qed.

(** [Marshal] writes what the message shows, and memoises it. *)
Lemma pb_Marshal_wire s l m (h : heap) : h !! l = Some m -> m_schema m = Some s -> (forall de, legible m de) ->
  (forall de v, shown m de = Some v -> renderable s (de, v)) -> s_maxDE s <= 192 ->
  exists m1, pb_Marshal l h = (Ok (pb_wire ((fun p => (field_num p.1, payload_of p.2)) <$> all_values m)), <[l := m1]> h) /\ alike m m1.
Proof.
  intros HL HS HG HR HM. destruct (Get_alike l m 0 h HL (HG 0)) as (m1 & HG0 & HA1).
  assert (HL1 : <[l:=m1]> h !! l = Some m1) by (apply list_lookup_insert_eq; by eapply lookup_lt_Some).
  destruct (Fields_alike l m1 (<[l:=m1]> h) HL1) as (m2 & HF & HA2); [intros de; by eapply alike_legible|]. rewrite list_insert_insert_eq in HF.
  rewrite (alike_present _ _ HA1) in HF. exists m2. split; [|by eapply alike_trans].
  assert (HPV : Forall (renderable s) (present_values m) /\ Forall (fun p => 2 <= p.1 < 2 ^ 31) (present_values m)).
  { split; apply list.Forall_forall; intros [de v] HI; pose proof HI as [Hde HI']%elem_present_values; [by apply HR|].
    destruct (HR _ _ HI') as (Hr & Hn & _). cbn in *. lia. }
  assert (HT : forall dst h, match ((fun p => (DE p.1, p.2)) <$> present_values m), m_schema m with
                           | [], _ => pret dst | _, Some s => pb_fields s ((fun p => (DE p.1, p.2)) <$> present_values m) dst
                           | _, None => fun h => (Panic, h) end h =
    (Ok (fold_left (fun dst f => pb_appendField dst f.1 f.2) ((fun p => (field_num p.1, payload_of p.2)) <$> present_values m) dst), h)).
  { intros dst h'. rewrite HS. rewrite <- (pb_fields_wire s (present_values m) dst h') by apply HPV. by destruct (present_values m) as [|[]]. }
  unfold pb_Marshal, pbind, pmsg. rewrite (hget_run _ _ _ HL). cbn [rmap_err]. rewrite HG0. cbn [rmap_err].
  unfold all_values. destruct (shown m 0) as [v|] eqn:E0.
  - destruct (HR _ _ E0) as (_ & _ & d & _ & (_ & HKd & HP) & HK). cbn [fst snd] in *.
    assert (HVS : Value_String v = Ok (payload_of v)).
    { unfold Value_String, payload_of. rewrite HKd. specialize (HK eq_refl). by destruct (fd_Kind d). }
    unfold slift. rewrite HVS. cbn [rmap_err]. unfold pret at 1. rewrite HF. cbn [rmap_err]. rewrite HT. done.
  - unfold pret at 1. rewrite HF. cbn [rmap_err]. rewrite HT. done.
Qed.

(** C15: Rendering to protobuf loses nothing.  Take any message over a schema of
    up to 192 elements, parsed from the wire or assembled by [Set], of which
    every present element decodes to text, a number or bytes of its field's kind,
    or to an amount at its field's scale (no composites).  [Marshal] succeeds and
    changes nothing any reader sees: it only memoises what it decodes.
    [Unmarshal] of what it wrote, over the same schema, succeeds and gives a new
    message with the same elements present, and [Get] on every element answers
    with the same kind and the same text or amount, or with nothing, as on the
    original. *)
Theorem protobuf_roundtrip s l m (h : heap) :
  h !! l = Some m -> m_schema m = Some s -> 0 <= s_maxDE s <= 192 -> (forall de, legible m de) ->
  (forall de v, shown m de = Some v -> renderable s (de, v)) ->
  exists wire m1 m',
    pb_Marshal l h = (Ok wire, <[l := m1]> h) /\ alike m m1 /\
    pb_Unmarshal wire s (<[l := m1]> h) = (Ok (length h), <[l := m1]> h ++ [m']) /\
    forall de, same_answer (fst (Get l de h)) (fst (Get (length h) de (<[l := m1]> h ++ [m']))) /\ Has m' de = Has m de.
Proof.
  intros HL HS HM HG HR.
  destruct (pb_Marshal_wire s l m h HL HS HG HR ltac:(lia)) as (m1 & HMar & HA).
  assert (HV : Forall (renderable s) (all_values m)).
  { apply list.Forall_forall. intros [de v] [_ HI]%elem_all_values. by apply HR. }
  pose proof (renderable_field_ok s _ ltac:(lia) HV) as HFS. set (fs := (fun p => (field_num p.1, payload_of p.2)) <$> all_values m) in *.
  set (h1 := <[l := m1]> h) in *. assert (HLen : length h1 = length h) by apply length_insert.
  destruct (pb_sets_building s (all_values m) h1 (New s) (New_building s ltac:(lia)) HV (NoDup_all_values m)) as (m' & HSets & HB & HI & HO).
  assert (HSh : forall de, shown m' de = canon_at s de <$> shown m de).
  { intros de. destruct (shown m de) as [v|] eqn:ED.
    - apply HI. apply elem_all_values. split; [|done]. destruct (HR _ _ ED) as (Hde & _). cbn in Hde. lia.
    - rewrite HO; [apply shown_New|]. intros ([e w] & -> & HE)%list_elem_of_fmap. apply elem_all_values in HE as [_ HE]. cbn in ED. congruence. }
  exists (pb_wire fs), m1, m'. split; [done|]. split; [done|]. split.
  - unfold pb_Unmarshal, pbind, pmsg, halloc. cbn [rmap_err]. rewrite pb_loop_wire by done. fold fs in HSets. fold h1. rewrite HSets. unfold pret. by rewrite HLen.
  - fold h1. eapply rebuilt_answers; [done|done| |apply HB|done]. rewrite <- HLen. by rewrite lookup_app_r, Nat.sub_diag.
Qed.

(** ** A parsed message *)

(** An MTI, a PAN, an amount and a network code, as they come off the wire. *)
Definition rendered_message : Message := match Unmarshal sample_codec edited_wire with Ok m => m | _ => New sample_schema end.

(** What it shows. *)
Definition rendered_values : list (Z * Value) :=
  [(0, mkValue (go "0800") KindNumeric (Some numASCII) 0 None zeroDecimal);
   (2, mkValue (go "4111222233334444") KindNumeric (Some bcdNum) 22 None zeroDecimal);
   (4, mkValue (go "000000001099") KindAmount (Some amountASCII) 30 None (mkDecimal 1099 2));
   (70, mkValue (go "301") KindNumeric (Some numASCII) 42 None zeroDecimal)].

Lemma rendered_shown de v : shown rendered_message de = Some v -> (de, v) ∈ rendered_values.
Proof.
  intros HS. destruct (decide (0 <= de)) as [H0|H0].
  - assert (HI : (de, v) ∈ all_values rendered_message) by (by apply elem_all_values). revert HI.
    replace (all_values rendered_message) with rendered_values by (vm_compute; reflexivity). done.
  - unfold shown, slot_at, idx in HS. by replace (de <? 0) with true in HS by (symmetry; apply Z.ltb_lt; lia).
Qed.

(** A property of all it shows holds when it holds of the four. *)
Lemma rendered_all (P : Z * Value -> Prop) : Forall P rendered_values -> forall de v, shown rendered_message de = Some v -> P (de, v).
Proof. intros HF de v HS%rendered_shown. rewrite list.Forall_forall in HF. by apply HF. Qed.

(** Every element that is present is shown. *)
Definition legibleb (m : Message) : bool :=
  forallb (fun de => implb (Has m de) (match shown m de with Some _ => true | None => false end)) (seqZ 0 (len (m_slots m))).

Lemma legibleb_ok m : legibleb m = true -> forall de, legible m de.
Proof.
  unfold legibleb. rewrite forallb_forall. intros HF de HH. pose proof HH as HI. rewrite Has_present in HI.
  destruct (slot_at m de) as [sl| |] eqn:HS; [|done|done]. apply slot_at_lookup in HS as [Hde HL%lookup_lt_Some].
  specialize (HF de ltac:(apply list_elem_of_In, elem_of_seqZ; unfold len; lia)). rewrite HH in HF. cbn in HF. by destruct (shown m de).
Qed.

Lemma rendered_legible : forall de, legible rendered_message de.
Proof. apply legibleb_ok. vm_compute. reflexivity. Qed.

Lemma protobuf_roundtrip_witness :
  exists wire h1 h2 v, pb_Marshal 0 [rendered_message] = (Ok wire, h1) /\ pb_Unmarshal wire sample_schema h1 = (Ok 1%nat, h2) /\
    fst (Get 1 4 h2) = Ok (Some v) /\ v_kind v = KindAmount /\ v_dec v = mkDecimal 1099 2.
Proof.
  destruct (protobuf_roundtrip sample_schema 0 rendered_message [rendered_message]) as (wire & m1 & m' & HM & _ & HU & HG).
  - reflexivity.
  - vm_compute. reflexivity.
  - vm_compute. split; discriminate.
  - exact rendered_legible.
  - apply rendered_all. unfold rendered_values. do 4 (constructor; [split; [vm_compute; split; discriminate|]; split; [discriminate|];
      eexists; split; [vm_compute; reflexivity|]; split; [|vm_compute; discriminate]; split; [vm_compute; reflexivity|]; split; [vm_compute; reflexivity|];
      vm_compute; first [exact I|split; [split; [discriminate|reflexivity]|reflexivity]]|]). constructor.
  - eexists wire, _, _. destruct (HG 4) as [HA _]. revert HA. replace (fst (Get 0 4 [rendered_message]))
      with (Ok (E := error) (Some (mkValue (go "000000001099") KindAmount (Some amountASCII) 30 None (mkDecimal 1099 2)))) by (vm_compute; reflexivity).
    unfold same_answer. destruct (fst (Get (length [rendered_message]) 4 _)) as [[v|]| |] eqn:EV; intros HA; [|destruct HA..].
    exists v. split; [exact HM|]. split; [exact HU|]. split; [exact EV|]. exact HA.
Defined.
