(* ===== verification/Payshield.v ===== *)
(** * The payShield adapter ([adapters/payshield/])

    The adapter turns vault calls into host commands over a framed connection;
    the simulator answers them with a software vault.  One command is in flight
    at a time, so a connection is the function from the bytes a command writes to
    the bytes that come back, or to nothing when the write fails; the simulator's
    crypto/rand is the argument [r], as in the vault. *)

From S2P Require Import Prelude Errors Strconv Path Framer TlvText Des Cipher PinBlock KeyBlock Vault.

(** ** Codes ([proto.go]) *)

Definition codeOK : bytes := go "00".
Definition codeVerifyFail : bytes := go "01".
Definition codeKeyNotFound : bytes := go "10".
Definition codeFormatError : bytes := go "20".
Definition codeBadCommand : bytes := go "30".

Inductive ps_error :=
| HostError (op code : bytes)
| UnsupportedMACAlgorithm (n : Z)
| errClosed
| CommandTooLarge (n : Z)
| WriteFailed
| ReadResponse (e : link_error)
| ShortResponse (n : Z)
| ResponseCode (got want : bytes)
| TruncatedFieldLength (i : Z)
| BadFieldLength (s : bytes)
| TruncatedField (n i : Z)
| BadHexField.

(** The last character is incremented, as a byte. *)
Fixpoint incrementCmd (cmd : bytes) : bytes :=
  match cmd with
  | [] => []
  | [c] => [zb (bz c + 1)]
  | c :: cmd => c :: incrementCmd cmd
  end.

Definition algCode (alg : MACAlgorithm) : res ps_error bytes :=
  match alg with
  | MACAlg1 => Ok (go "1")
  | MACAlg3 => Ok (go "3")
  | MACOther n => Err (UnsupportedMACAlgorithm n)
  end.

Definition algFromCode (s : bytes) : option MACAlgorithm :=
  if bool_decide (s = go "1") then Some MACAlg1 else if bool_decide (s = go "3") then Some MACAlg3 else None.

Definition padCode (pad : Padding) : bytes := match pad with Pad2 => go "2" | _ => go "1" end.
Definition padFromCode (s : bytes) : Padding := if bool_decide (s = go "2") then Pad2 else Pad1.

Definition defaultFormatCodes (f : PINBlockFormat) : option bytes :=
  match f with ISO0 => Some (go "01") | ISO1 => Some (go "05") | ISO3 => Some (go "47") | ISOOther _ => None end.

(** [fieldWriter]: each field behind its length, four digits or more. *)
Definition w_str (b s : bytes) : bytes := b ++ padInt 4 (len s) ++ s.
Definition w_hexBytes (b p : bytes) : bytes := w_str b (hex_encode p).

(** [fieldReader], with its sticky error. *)
Record fieldReader := mkReader { rd_b : bytes; rd_i : Z; rd_err : option ps_error }.
Definition newFieldReader (b : bytes) : fieldReader := mkReader b 0 None.

Definition sub_bytes (b : bytes) (lo hi : Z) : bytes := take (Z.to_nat (hi - lo)) (drop (Z.to_nat lo) b).

Definition rd_fail (r : fieldReader) (e : ps_error) : fieldReader := mkReader (rd_b r) (rd_i r) (Some e).

Definition r_str (r : fieldReader) : bytes * fieldReader :=
  match rd_err r with
  | Some _ => ([], r)
  | None =>
      if len (rd_b r) <? rd_i r + 4 then ([], rd_fail r (TruncatedFieldLength (rd_i r))) else
      let s := sub_bytes (rd_b r) (rd_i r) (rd_i r + 4) in
      match Atoi s with
      | Ok n =>
          if n <? 0 then ([], rd_fail r (BadFieldLength s)) else
          let i := rd_i r + 4 in
          if len (rd_b r) <? i + n then ([], mkReader (rd_b r) i (Some (TruncatedField n i)))
          else (sub_bytes (rd_b r) i (i + n), mkReader (rd_b r) (i + n) None)
      | _ => ([], rd_fail r (BadFieldLength s))
      end
  end.

Definition r_hexBytes (r : fieldReader) : bytes * fieldReader :=
  let '(s, r) := r_str r in
  match rd_err r with
  | Some _ => ([], r)
  | None => match hex_decode s with Ok p => (p, r) | _ => ([], rd_fail r BadHexField) end
  end.

(** ** Configuration ([payshield.go]) *)

Record ps_Config := mkPsConfig {
  pc_Header : bytes;
  pc_EncryptPINCmd : bytes;
  pc_TranslateCmd : bytes;
  pc_GenerateMACCmd : bytes;
  pc_VerifyMACCmd : bytes;
  pc_FormatCodes : PINBlockFormat -> option bytes;
}.

Definition or_default (s d : bytes) : bytes := match s with [] => d | _ => s end.

Definition withDefaults (c : ps_Config) : ps_Config :=
  mkPsConfig (pc_Header c) (or_default (pc_EncryptPINCmd c) (go "BA")) (or_default (pc_TranslateCmd c) (go "CC"))
    (or_default (pc_GenerateMACCmd c) (go "M6")) (or_default (pc_VerifyMACCmd c) (go "M8")) (pc_FormatCodes c).

Definition formatCode (c : ps_Config) (f : PINBlockFormat) : option bytes :=
  match pc_FormatCodes c f with Some s => Some s | None => defaultFormatCodes f end.

Definition formatFromCode (c : ps_Config) (code : bytes) : option PINBlockFormat :=
  List.find (fun f => bool_decide (formatCode c f = Some code)) [ISO0; ISO1; ISO3].

(** ** Transport ([client.go]) *)

(** The length is written as a 16-bit number. *)
Definition ps_writeFrame (payload : bytes) : bytes := be_put 2 (len payload mod 2 ^ 16) ++ payload.

Definition ps_readFrame : stream_read bytes := fun r =>
  match ReadFull 2 r with
  | (Ok hdr, r) => ReadFull (be_get hdr) r
  | (Err e, r) => (Err e, r)
  | (Panic, r) => (Panic, r)
  end.

Section Client.
Context (cfg : ps_Config).
(** The open connection, or none after [close]. *)
Context (conn : option (bytes -> option bytes)).

Definition ps_do (cmd data : bytes) : res ps_error (bytes * bytes) :=
  match conn with
  | None => Err errClosed
  | Some conn =>
      let payload := pc_Header cfg ++ cmd ++ data in
      if 0xFFFF <? len payload then Err (CommandTooLarge (len payload)) else
      match conn (ps_writeFrame payload) with
      | None => Err WriteFailed
      | Some back =>
      match fst (ps_readFrame back) with
      | Err e => Err (ReadResponse e)
      | Panic => Panic
      | Ok resp =>
          let h := len (pc_Header cfg) in
          if len resp <? h + 4 then Err (ShortResponse (len resp)) else
          let resp := drop (Z.to_nat h) resp in
          let respCode := sub_bytes resp 0 2 in
          let want := incrementCmd cmd in
          if negb (bool_decide (respCode = want)) then Err (ResponseCode respCode want)
          else Ok (sub_bytes resp 2 4, drop 4 resp)
      end
      end
  end.

(** The end of the operations that return bytes. *)
Definition one_hex (op : bytes) (x : bytes * bytes) : res ps_error bytes :=
  let '(ec, data) := x in
  if negb (bool_decide (ec = codeOK)) then Err (HostError op ec) else
  let '(out, rd) := r_hexBytes (newFieldReader data) in
  match rd_err rd with Some e => Err e | None => Ok out end.

Definition ps_EncryptPINBlock (keyRef : bytes) (format : PINBlockFormat) (pin pan : bytes) : res ps_error bytes :=
  match formatCode cfg format with
  | None => Err (HostError (go "EncryptPINBlock") codeFormatError)
  | Some fc =>
      let! x := ps_do (pc_EncryptPINCmd cfg) (w_str (w_str (w_str (w_str [] keyRef) fc) pin) pan) in
      one_hex (go "EncryptPINBlock") x
  end.

Definition ps_TranslatePIN (srcRef dstRef encBlock pan : bytes) (srcFormat dstFormat : PINBlockFormat) : res ps_error bytes :=
  match formatCode cfg srcFormat with
  | None => Err (HostError (go "TranslatePIN") codeFormatError)
  | Some sf =>
      match formatCode cfg dstFormat with
      | None => Err (HostError (go "TranslatePIN") codeFormatError)
      | Some df =>
          let! x := ps_do (pc_TranslateCmd cfg)
            (w_hexBytes (w_str (w_str (w_str (w_str (w_str [] srcRef) dstRef) sf) df) pan) encBlock) in
          one_hex (go "TranslatePIN") x
      end
  end.

Definition macBody (keyRef : bytes) (alg : MACAlgorithm) (pad : Padding) (data : bytes) : res ps_error bytes :=
  let! ac := algCode alg in
  Ok (w_hexBytes (w_str (w_str (w_str [] keyRef) ac) (padCode pad)) data).

Definition ps_GenerateMAC (keyRef : bytes) (alg : MACAlgorithm) (pad : Padding) (data : bytes) : res ps_error bytes :=
  let! body := macBody keyRef alg pad data in
  let! x := ps_do (pc_GenerateMACCmd cfg) body in
  one_hex (go "GenerateMAC") x.

Definition ps_VerifyMAC (keyRef : bytes) (alg : MACAlgorithm) (pad : Padding) (data mac : bytes) : res ps_error bool :=
  let! body := macBody keyRef alg pad data in
  let! (ec, _) := ps_do (pc_VerifyMACCmd cfg) (w_hexBytes body mac) in
  if bool_decide (ec = codeOK) then Ok true
  else if bool_decide (ec = codeVerifyFail) then Ok false
  else Err (HostError (go "VerifyMAC") ec).
End Client.

(** ** The simulator ([simulator.go]) *)

Definition hostCodeFor (e : vault_error) : bytes := match e with ErrUnknownKey _ => codeKeyNotFound | _ => codeFormatError end.

Section Simulator.
Context (cfg : ps_Config) (v : SoftVault) (r : bytes).

(** A vault answer as an error code and response data. *)
Definition sim_hex (x : res vault_error bytes) : res Empty_set (bytes * bytes) :=
  match x with
  | Ok out => Ok (codeOK, w_hexBytes [] out)
  | Err e => Ok (hostCodeFor e, [])
  | Panic => Panic
  end.

Definition sim_encryptPIN (data : bytes) : res Empty_set (bytes * bytes) :=
  let '(keyRef, rd) := r_str (newFieldReader data) in
  let '(code, rd) := r_str rd in
  let '(pin, rd) := r_str rd in
  let '(pan, rd) := r_str rd in
  match rd_err rd with
  | Some _ => Ok (codeFormatError, [])
  | None =>
      match formatFromCode cfg code with
      | None => Ok (codeFormatError, [])
      | Some format => sim_hex (soft_EncryptPINBlock v keyRef format pin pan r)
      end
  end.

Definition sim_translate (data : bytes) : res Empty_set (bytes * bytes) :=
  let '(srcRef, rd) := r_str (newFieldReader data) in
  let '(dstRef, rd) := r_str rd in
  let '(srcCode, rd) := r_str rd in
  let '(dstCode, rd) := r_str rd in
  let '(pan, rd) := r_str rd in
  let '(block, rd) := r_hexBytes rd in
  match rd_err rd with
  | Some _ => Ok (codeFormatError, [])
  | None =>
      match formatFromCode cfg srcCode, formatFromCode cfg dstCode with
      | Some srcFmt, Some dstFmt => sim_hex (soft_TranslatePIN v srcRef dstRef block pan srcFmt dstFmt r)
      | _, _ => Ok (codeFormatError, [])
      end
  end.

Definition readMACBody (data : bytes) : option (bytes * MACAlgorithm * Padding * bytes) :=
  let '(keyRef, rd) := r_str (newFieldReader data) in
  let '(ac, rd) := r_str rd in
  let '(pc, rd) := r_str rd in
  let '(msg, rd) := r_hexBytes rd in
  match rd_err rd with
  | Some _ => None
  | None => match algFromCode ac with Some alg => Some (keyRef, alg, padFromCode pc, msg) | None => None end
  end.

Definition sim_genMAC (data : bytes) : res Empty_set (bytes * bytes) :=
  match readMACBody data with
  | None => Ok (codeFormatError, [])
  | Some (keyRef, alg, pad, msg) => sim_hex (soft_GenerateMAC v keyRef alg pad msg)
  end.

Definition sim_verifyMAC (data : bytes) : res Empty_set (bytes * bytes) :=
  let '(keyRef, rd) := r_str (newFieldReader data) in
  let '(ac, rd) := r_str rd in
  let '(pc, rd) := r_str rd in
  let '(msg, rd) := r_hexBytes rd in
  let '(mac, rd) := r_hexBytes rd in
  match rd_err rd with
  | Some _ => Ok (codeFormatError, [])
  | None =>
      match algFromCode ac with
      | None => Ok (codeFormatError, [])
      | Some alg =>
          match soft_VerifyMAC v keyRef alg (padFromCode pc) msg mac with
          | Ok true => Ok (codeOK, [])
          | Ok false => Ok (codeVerifyFail, [])
          | Err e => Ok (hostCodeFor e, [])
          | Panic => Panic
          end
      end
  end.

Definition dispatch (cmd data : bytes) : res Empty_set (bytes * bytes) :=
  if bool_decide (cmd = pc_EncryptPINCmd cfg) then sim_encryptPIN data
  else if bool_decide (cmd = pc_TranslateCmd cfg) then sim_translate data
  else if bool_decide (cmd = pc_GenerateMACCmd cfg) then sim_genMAC data
  else if bool_decide (cmd = pc_VerifyMACCmd cfg) then sim_verifyMAC data
  else Ok (codeBadCommand, []).

(** One round of [handle]: what is written back, nothing when the connection is
    closed instead, as it is when a command panics. *)
Definition sim_handle (written : bytes) : bytes :=
  match fst (ps_readFrame written) with
  | Ok payload =>
      let h := len (pc_Header cfg) in
      if len payload <? h + 2 then [] else
      let body := drop (Z.to_nat h) payload in
      let cmd := sub_bytes body 0 2 in
      match dispatch cmd (drop 2 body) with
      | Ok (errCode, respData) => ps_writeFrame (pc_Header cfg ++ incrementCmd cmd ++ errCode ++ respData)
      | _ => []
      end
  | _ => []
  end.
End Simulator.

Definition ImportKey (v : SoftVault) (ref key : bytes) : SoftVault := soft_SetKey v ref key.

(** The adapter's connection to a simulator. *)
Definition to_simulator (cfg : ps_Config) (v : SoftVault) (r : bytes) : option (bytes -> option bytes) :=
  Some (fun written => Some (sim_handle cfg v r written)).

(** ** Fields *)

Definition field (s : bytes) : bytes := padInt 4 (len s) ++ s.
Definition hexfield (s : bytes) : bytes := field (hex_encode s).

(** What the writer makes. *)
Lemma w_str_field b s : w_str b s = b ++ field s.
Proof. done. Qed.
Lemma w_hex_field b s : w_hexBytes b s = b ++ hexfield s.
Proof. done. Qed.

(** The lengths four digits can say. *)
Definition short_field (s : bytes) : Prop := len s <= 9999.
Definition short_hex (s : bytes) : Prop := 2 * len s <= 9999.

Lemma short_hex_encode s : short_hex s -> short_field (hex_encode s).
Proof. unfold short_hex, short_field. by rewrite len_hex_encode. Qed.

Lemma len_field s : short_field s -> len (field s) = 4 + len s.
Proof.
  intros HS. pose proof (len_nonneg s). unfold field, short_field in *. rewrite len_app.
  by destruct (padInt_spec 4 (len s)) as [-> _]; [lia|change (10 ^ 4) with 10000; lia|].
Qed.

(** A reader that has [rest] left. *)
Definition left_over (rest : bytes) (rd : fieldReader) : Prop :=
  exists pre, rd_b rd = pre ++ rest /\ rd_i rd = len pre /\ rd_err rd = None.

Lemma left_over_new b : left_over b (newFieldReader b).
Proof. by exists []. Qed.

Lemma sub_bytes_mid pre a rest lo hi : lo = len pre -> hi = len pre + len a -> sub_bytes (pre ++ a ++ rest) lo hi = a.
Proof.
  intros -> ->. unfold sub_bytes, len. rewrite drop_app_length' by lia. by rewrite take_app_length' by lia.
Qed.

Lemma sub_bytes_head a rest n : n = len a -> sub_bytes (a ++ rest) 0 n = a.
Proof. intros ->. by apply (sub_bytes_mid [] a rest). Qed.

Lemma r_str_field s rest rd : short_field s -> left_over (field s ++ rest) rd ->
  exists rd', r_str rd = (s, rd') /\ left_over rest rd'.
Proof.
  intros HS (pre & EB & EI & EE). destruct rd as [b i e]. cbn in EB, EI, EE. subst. unfold short_field in HS. pose proof (len_nonneg s).
  pose proof (len_nonneg rest). pose proof (len_nonneg pre).
  destruct (padInt_spec 4 (len s)) as [HL HA]; [lia|change (10 ^ 4) with 10000; lia|].
  exists (mkReader (pre ++ field s ++ rest) (len pre + 4 + len s) None). unfold r_str. cbn [rd_err rd_b rd_i].
  unfold field. rewrite <- app_assoc. rewrite (sub_bytes_mid pre (padInt 4 (len s))) by lia. rewrite HA.
  destruct (Z.ltb_spec (len (pre ++ padInt 4 (len s) ++ s ++ rest)) (len pre + 4)) as [HX|_]; [rewrite !len_app in HX; lia|].
  destruct (Z.ltb_spec (len s) 0); [lia|].
  destruct (Z.ltb_spec (len (pre ++ padInt 4 (len s) ++ s ++ rest)) (len pre + 4 + len s)) as [HX|_]; [rewrite !len_app in HX; lia|].
  split.
  - f_equal. rewrite app_assoc. apply sub_bytes_mid; rewrite len_app; lia.
  - exists (pre ++ padInt 4 (len s) ++ s). rewrite !len_app, HL. split_and!; [by rewrite <- !app_assoc|cbn; lia|done].
Qed.

Lemma r_hex_field s rest rd : short_hex s -> left_over (hexfield s ++ rest) rd ->
  exists rd', r_hexBytes rd = (s, rd') /\ left_over rest rd'.
Proof.
  intros HS%short_hex_encode HL. destruct (r_str_field _ _ _ HS HL) as (rd' & HR & HL'). exists rd'. split; [|done].
  unfold r_hexBytes. rewrite HR. destruct HL' as (pre & _ & _ & ->). by rewrite hex_decode_encode.
Qed.

(** ** Frames *)

Lemma frame_roundtrip p rest : len p <= 0xFFFF -> ps_readFrame (ps_writeFrame p ++ rest) = (Ok p, rest).
Proof.
  intros HP. pose proof (len_nonneg p). unfold ps_readFrame, ps_writeFrame. rewrite Z.mod_small by (change (2 ^ 16) with 65536; lia).
  rewrite <- app_assoc. rewrite ReadFull_app by (by rewrite len_be_put).
  rewrite be_get_put by (change (256 ^ Z.of_nat 2) with 65536; lia). by rewrite ReadFull_app.
Qed.

Lemma len_incrementCmd cmd : len (incrementCmd cmd) = len cmd.
Proof. induction cmd as [|c [|d cmd] IH]; [done|done|]. cbn [incrementCmd] in *. rewrite !(len_cons c), IH. done. Qed.

(** ** One exchange *)

(** What an adapter and a simulator that share a configuration need of it. *)
Record cfg_ok (cfg : ps_Config) : Prop := mkCfgOk {
  ck_header : len (pc_Header cfg) <= 1000;
  ck_cmds : Forall (fun c => len c = 2) [pc_EncryptPINCmd cfg; pc_TranslateCmd cfg; pc_GenerateMACCmd cfg; pc_VerifyMACCmd cfg];
  ck_distinct : NoDup [pc_EncryptPINCmd cfg; pc_TranslateCmd cfg; pc_GenerateMACCmd cfg; pc_VerifyMACCmd cfg];
  ck_formats : forall f, known f -> exists c, formatCode cfg f = Some c /\ short_field c /\ formatFromCode cfg c = Some f;
}.

Section Exchange.
Context (cfg : ps_Config) (v : SoftVault) (r : bytes) (HC : cfg_ok cfg).

Lemma exchange cmd data ec out : len cmd = 2 -> len data <= 61000 -> dispatch cfg v r cmd data = Ok (ec, out) ->
  len ec = 2 -> len out <= 60000 -> ps_do cfg (to_simulator cfg v r) cmd data = Ok (ec, out).
Proof.
  intros Hcmd HD HX HE HO. pose proof (ck_header _ HC). set (h := pc_Header cfg) in *.
  assert (len (h ++ cmd ++ data) <= 0xFFFF) as HP by (rewrite !len_app; lia).
  assert (len (h ++ incrementCmd cmd ++ ec ++ out) <= 0xFFFF) as HP' by (rewrite !len_app, len_incrementCmd; lia).
  pose proof (len_nonneg data). pose proof (len_nonneg out). pose proof (len_incrementCmd cmd) as HI.
  unfold ps_do, to_simulator, sim_handle. fold h. destruct (Z.ltb_spec 0xFFFF (len (h ++ cmd ++ data))); [lia|].
  pose proof (frame_roundtrip (h ++ cmd ++ data) [] HP) as HF. rewrite app_nil_r in HF. rewrite HF. cbn [fst].
  destruct (Z.ltb_spec (len (h ++ cmd ++ data)) (len h + 2)) as [HX'|_]; [rewrite !len_app in HX'; lia|].
  assert (forall b, drop (Z.to_nat (len h)) (h ++ b) = b) as HDH by (intros; unfold len; by rewrite drop_app_length' by lia).
  rewrite HDH. rewrite (sub_bytes_head cmd) by lia.
  rewrite drop_app_length' by (unfold len in Hcmd; lia). rewrite HX.
  pose proof (frame_roundtrip _ [] HP') as HF'. rewrite app_nil_r in HF'. rewrite HF'. cbn [fst].
  destruct (Z.ltb_spec (len (h ++ incrementCmd cmd ++ ec ++ out)) (len h + 4)) as [HX'|_]; [rewrite !len_app in HX'; lia|].
  rewrite HDH. rewrite (sub_bytes_head (incrementCmd cmd)) by lia.
  rewrite bool_decide_true by done. cbn [negb]. do 2 f_equal.
  - apply sub_bytes_mid; lia.
  - rewrite app_assoc. apply drop_app_length'. rewrite length_app. unfold len in *. lia.
Qed.

(** The answer of the vault, as the adapter reports it. *)
Definition host_res {A} (op : bytes) (x : res vault_error A) : res ps_error A :=
  match x with Ok a => Ok a | Err e => Err (HostError op (hostCodeFor e)) | Panic => Panic end.

Lemma hostCodeFor_spec e : len (hostCodeFor e) = 2 /\ hostCodeFor e <> codeOK /\ hostCodeFor e <> codeVerifyFail.
Proof. by destruct e. Qed.

Definition eight (x : res vault_error bytes) : Prop := safe_res x /\ forall out, x = Ok out -> len out = 8.

Lemma exchange_hex op cmd data x : len cmd = 2 -> len data <= 61000 -> eight x -> dispatch cfg v r cmd data = sim_hex x ->
  (let! y := ps_do cfg (to_simulator cfg v r) cmd data in one_hex op y) = host_res op x.
Proof.
  intros Hcmd HD [HS H8] HX. destruct x as [out|e|]; [| |done]; cbn [sim_hex] in HX.
  - assert (short_hex out) as Hout by (unfold short_hex; rewrite (H8 out) by done; lia).
    rewrite w_hex_field in HX. cbn [app] in HX.
    rewrite (exchange _ _ _ _ Hcmd HD HX) by
      (first [done|unfold hexfield; rewrite len_field by (by apply short_hex_encode); rewrite len_hex_encode, (H8 out) by done; lia]).
    cbn [rbind one_hex]. rewrite bool_decide_true by done. cbn [negb].
    destruct (r_hex_field out [] (newFieldReader (hexfield out)) Hout) as (rd & -> & pre & _ & _ & ->); [|done].
    rewrite app_nil_r. apply left_over_new.
  - destruct (hostCodeFor_spec e) as (H2 & HN & _). rewrite (exchange _ _ _ _ Hcmd HD HX) by done. cbn [rbind one_hex].
    by rewrite bool_decide_false.
Qed.
End Exchange.

(** ** The vault's answers *)

Lemma eight_bind {A} (x : res vault_error A) f : safe_res x -> (forall a, x = Ok a -> eight (f a)) -> eight (rbind x f).
Proof. unfold eight, safe_res. intros Hx Hf. destruct x as [a|e|]; cbn [rbind]; [by apply Hf|done|done]. Qed.

Lemma eight_ecb k clear : len clear = 8 -> eight (let! b := tripleDESBlock k in ecbEncrypt b clear).
Proof.
  intros H8. apply eight_bind; [apply tripleDES_safe|]. intros b HB. split; [apply ecb_safe|].
  assert (kbpk_ok k = true) as HK.
  { unfold tripleDESBlock in HB. unfold kbpk_ok. destruct (Z.eqb_spec (len k) 24); [by rewrite orb_true_r|]. by destruct (len k =? 16). }
  destruct (tripleDES_Ok k HK) as (b' & HB' & LB & SB). assert (b = b') as -> by congruence.
  destruct (ecb_roundtrip b' clear) as (ct & -> & HL & _); [by rewrite SB, H8|]. intros out [= <-]. lia.
Qed.

Lemma eight_encode f pin pan r k : eight (let! clear := EncodePINBlockRand f pin pan r in let! b := tripleDESBlock k in ecbEncrypt b clear).
Proof.
  apply eight_bind; [apply Encode_safe|]. intros clear HE. apply eight_ecb.
  assert (DecodePINBlock f clear pan = Ok pin) as HD by (apply Decode_iff_Encode; by exists r).
  unfold DecodePINBlock in HD. by destruct (Z.eqb_spec (len clear) 8).
Qed.

Lemma eight_EncryptPIN v ref f pin pan r : eight (soft_EncryptPINBlock v ref f pin pan r).
Proof. apply eight_bind; [apply soft_key_safe|]. intros k _. apply eight_encode. Qed.

Lemma eight_TranslatePIN v src dst enc pan f g r : eight (soft_TranslatePIN v src dst enc pan f g r).
Proof.
  unfold soft_TranslatePIN. do 2 (apply eight_bind; [apply soft_key_safe|]; intros ? _).
  apply eight_bind; [apply tripleDES_safe|]. intros bs _. apply eight_bind; [apply ecb_safe|]. intros clear _.
  apply eight_bind; [apply Decode_safe|]. intros pin _. apply eight_encode.
Qed.

Lemma eight_MAC v ref alg pad data : eight (soft_GenerateMAC v ref alg pad data).
Proof.
  apply eight_bind; [apply soft_key_safe|]. intros k _. split; [apply GenerateMAC_safe|]. intros mac HM. cbv beta in HM.
  destruct alg as [| |n]; [| |done].
  - destruct (decide (len k = 8)) as [HK|HK].
    + destruct (GenerateMAC_Ok MACAlg1 pad k data ltac:(done) HK) as (m & HM' & HL). rewrite HM' in HM. by injection HM as <-.
    + exfalso. revert HM. cbn [GenerateMAC]. unfold desBlock. by rewrite (proj2 (Z.eqb_neq _ _) HK).
  - destruct (decide (len k = 16)) as [HK|HK].
    + destruct (GenerateMAC_Ok MACAlg3 pad k data ltac:(done) HK) as (m & HM' & HL). rewrite HM' in HM. by injection HM as <-.
    + exfalso. revert HM. cbn [GenerateMAC]. by rewrite (proj2 (Z.eqb_neq _ _) HK).
Qed.

Lemma padFromCode_mac alg pad k data : GenerateMAC alg (padFromCode (padCode pad)) k data = GenerateMAC alg pad k data.
Proof. by destruct pad. Qed.

(** ** The adapter implements the vault *)

(** Reads one field after another. *)
Ltac read_fields :=
  lazymatch goal with
  | HL : left_over (hexfield ?s ++ ?rest) ?rd, HS : short_hex ?s |- _ =>
      let rd' := fresh "rd" in let HR := fresh "HR" in let HL' := fresh "HL" in
      destruct (r_hex_field s rest rd HS HL) as (rd' & HR & HL'); rewrite HR; clear HR HL; try read_fields
  | HL : left_over (field ?s ++ ?rest) ?rd, HS : short_field ?s |- _ =>
      let rd' := fresh "rd" in let HR := fresh "HR" in let HL' := fresh "HL" in
      destruct (r_str_field s rest rd HS HL) as (rd' & HR & HL'); rewrite HR; clear HR HL; try read_fields
  end.

(** Reads all of what a fresh reader was given: at the end no error is set. *)
Ltac read_all :=
  match goal with |- context [newFieldReader ?b] =>
    let HL := fresh "HL" in let rd := fresh "rd" in
    assert (left_over (b ++ []) (newFieldReader b)) as HL by (rewrite app_nil_r; apply left_over_new);
    set (rd := newFieldReader b) in *; clearbody rd; rewrite <- ?app_assoc in HL; read_fields
  end;
  match goal with H : left_over [] ?rd |- _ => let E := fresh "E" in destruct H as (? & _ & _ & E); rewrite E; clear E end.

Section Refines.
Context (cfg : ps_Config) (v : SoftVault) (r : bytes) (HC : cfg_ok cfg).

Lemma cmd_len c : c ∈ [pc_EncryptPINCmd cfg; pc_TranslateCmd cfg; pc_GenerateMACCmd cfg; pc_VerifyMACCmd cfg] -> len c = 2.
Proof. intros H. exact (proj1 (list.Forall_forall _ _) (ck_cmds _ HC) c H). Qed.

Lemma dispatch_cmds data :
  dispatch cfg v r (pc_EncryptPINCmd cfg) data = sim_encryptPIN cfg v r data /\
  dispatch cfg v r (pc_TranslateCmd cfg) data = sim_translate cfg v r data /\
  dispatch cfg v r (pc_GenerateMACCmd cfg) data = sim_genMAC v data /\
  dispatch cfg v r (pc_VerifyMACCmd cfg) data = sim_verifyMAC v data.
Proof.
  pose proof (ck_distinct _ HC) as HN. rewrite !list.NoDup_cons, !not_elem_of_cons in HN. destruct HN as ((?&?&?&_)&(?&?&_)&(?&_)&_).
  unfold dispatch. split_and!; repeat (first [rewrite bool_decide_true by done|rewrite bool_decide_false by done]); done.
Qed.

Lemma EncryptPIN_refines keyRef f pin pan : short_field keyRef -> short_field pin -> short_field pan -> known f ->
  ps_EncryptPINBlock cfg (to_simulator cfg v r) keyRef f pin pan =
  host_res (go "EncryptPINBlock") (soft_EncryptPINBlock v keyRef f pin pan r).
Proof.
  intros H1 H2 H3 HF. destruct (ck_formats _ HC f HF) as (c & Hc & H4 & HB). unfold ps_EncryptPINBlock. rewrite Hc.
  rewrite !w_str_field. cbn [app]. apply exchange_hex; [done|apply cmd_len; set_solver| |apply eight_EncryptPIN|].
  - rewrite !len_app, !len_field by done. unfold short_field in *. lia.
  - destruct (dispatch_cmds (((field keyRef ++ field c) ++ field pin) ++ field pan)) as (-> & _). unfold sim_encryptPIN.
    read_all. by rewrite HB.
Qed.

Lemma TranslatePIN_refines src dst enc pan f g : short_field src -> short_field dst -> short_hex enc -> short_field pan -> known f -> known g ->
  ps_TranslatePIN cfg (to_simulator cfg v r) src dst enc pan f g =
  host_res (go "TranslatePIN") (soft_TranslatePIN v src dst enc pan f g r).
Proof.
  intros H1 H2 H3 H4 HF HG. destruct (ck_formats _ HC f HF) as (c & Hc & H5 & HB), (ck_formats _ HC g HG) as (d & Hd & H6 & HB').
  unfold ps_TranslatePIN. rewrite Hc, Hd, w_hex_field, !w_str_field. cbn [app].
  apply exchange_hex; [done|apply cmd_len; set_solver| |apply eight_TranslatePIN|].
  - unfold hexfield. pose proof (short_hex_encode _ H3). rewrite !len_app, !len_field by done. unfold short_field in *. lia.
  - rewrite (proj1 (proj2 (dispatch_cmds _))). unfold sim_translate. read_all. by rewrite HB, HB'.
Qed.

(** The algorithms the adapter has a code for. *)
Definition coded (alg : MACAlgorithm) : Prop := forall n, alg <> MACOther n.

Lemma coded_code alg : coded alg -> exists c, algCode alg = Ok c /\ algFromCode c = Some alg /\ short_field c.
Proof. intros H. destruct alg as [| |n]; [by eexists|by eexists|by destruct (H n)]. Qed.

Lemma short_pad pad : short_field (padCode pad).
Proof. by destruct pad. Qed.

Lemma GenerateMAC_refines keyRef alg pad data : short_field keyRef -> short_hex data -> coded alg ->
  ps_GenerateMAC cfg (to_simulator cfg v r) keyRef alg pad data =
  host_res (go "GenerateMAC") (soft_GenerateMAC v keyRef alg pad data).
Proof.
  intros H1 H2 HA. destruct (coded_code alg HA) as (c & Hc & HB & H3). pose proof (short_pad pad) as H4.
  unfold ps_GenerateMAC, macBody. rewrite Hc. cbn [rbind]. rewrite w_hex_field, !w_str_field. cbn [app].
  apply exchange_hex; [done|apply cmd_len; set_solver| |apply eight_MAC|].
  - unfold hexfield. pose proof (short_hex_encode _ H2). rewrite !len_app, !len_field by done. unfold short_field in *. lia.
  - rewrite (proj1 (proj2 (proj2 (dispatch_cmds _)))). unfold sim_genMAC, readMACBody. read_all. rewrite HB. by destruct pad.
Qed.

Lemma VerifyMAC_refines keyRef alg pad data mac : short_field keyRef -> short_hex data -> short_hex mac -> coded alg ->
  ps_VerifyMAC cfg (to_simulator cfg v r) keyRef alg pad data mac =
  host_res (go "VerifyMAC") (soft_VerifyMAC v keyRef alg pad data mac).
Proof.
  intros H1 H2 H5 HA. destruct (coded_code alg HA) as (c & Hc & HB & H3). pose proof (short_pad pad) as H4.
  unfold ps_VerifyMAC, macBody. rewrite Hc. cbn [rbind]. rewrite !w_hex_field, !w_str_field. cbn [app].
  set (body := (((field keyRef ++ field c) ++ field (padCode pad)) ++ hexfield data) ++ hexfield mac).
  assert (len body <= 61000) as HLB.
  { unfold body, hexfield. pose proof (short_hex_encode _ H2). pose proof (short_hex_encode _ H5).
    rewrite !len_app, !len_field by done. unfold short_field in *. lia. }
  assert (sim_verifyMAC v body = match soft_VerifyMAC v keyRef alg pad data mac with
    | Ok true => Ok (codeOK, []) | Ok false => Ok (codeVerifyFail, []) | Err e => Ok (hostCodeFor e, []) | Panic => Panic end) as HS.
  { unfold sim_verifyMAC, body. read_all. rewrite HB. by destruct pad. }
  pose proof (proj2 (proj2 (proj2 (dispatch_cmds body)))) as HD. rewrite HS in HD. clear HS.
  assert (safe_res (soft_VerifyMAC v keyRef alg pad data mac)) as HV.
  { apply safe_res_bind; [apply soft_key_safe|]. intros. apply VerifyMAC_safe. }
  assert (len (pc_VerifyMACCmd cfg) = 2) as H2c by (apply cmd_len; set_solver).
  destruct (soft_VerifyMAC v keyRef alg pad data mac) as [[]|e|]; [| | |done].
  - by rewrite (exchange cfg v r HC _ _ _ _ H2c HLB HD).
  - by rewrite (exchange cfg v r HC _ _ _ _ H2c HLB HD).
  - destruct (hostCodeFor_spec e) as (HE & HN & HN'). rewrite (exchange cfg v r HC _ _ _ _ H2c HLB HD) by done. cbn [rbind].
    by rewrite !bool_decide_false.
Qed.
End Refines.

(** C14: the payShield adapter.  Connected to a simulator of the same
    configuration (two-character command codes, all different; a format code for
    each format; a header of at most 1000 bytes), each operation whose fields
    four digits can measure gives what the software vault behind the simulator
    gives: the same bytes, the same verdict on a MAC and, for an error, the host
    code of that error. *)
Theorem payshield_refines cfg v r (HC : cfg_ok cfg) :
  (forall keyRef f pin pan, short_field keyRef -> short_field pin -> short_field pan -> known f ->
    ps_EncryptPINBlock cfg (to_simulator cfg v r) keyRef f pin pan =
    host_res (go "EncryptPINBlock") (soft_EncryptPINBlock v keyRef f pin pan r)) /\
  (forall src dst enc pan f g, short_field src -> short_field dst -> short_hex enc -> short_field pan -> known f -> known g ->
    ps_TranslatePIN cfg (to_simulator cfg v r) src dst enc pan f g =
    host_res (go "TranslatePIN") (soft_TranslatePIN v src dst enc pan f g r)) /\
  (forall keyRef alg pad data, short_field keyRef -> short_hex data -> coded alg ->
    ps_GenerateMAC cfg (to_simulator cfg v r) keyRef alg pad data =
    host_res (go "GenerateMAC") (soft_GenerateMAC v keyRef alg pad data)) /\
  (forall keyRef alg pad data mac, short_field keyRef -> short_hex data -> short_hex mac -> coded alg ->
    ps_VerifyMAC cfg (to_simulator cfg v r) keyRef alg pad data mac =
    host_res (go "VerifyMAC") (soft_VerifyMAC v keyRef alg pad data mac)).
Proof.
  split_and!; [apply EncryptPIN_refines|apply TranslatePIN_refines|apply GenerateMAC_refines|apply VerifyMAC_refines]; done.
Qed.

Definition default_cfg : ps_Config := withDefaults (mkPsConfig (go "0000") [] [] [] [] (fun _ => None)).

Lemma default_cfg_ok : cfg_ok default_cfg.
Proof.
  split; [done|repeat constructor|by apply (bool_decide_unpack _)|].
  intros f [c Hf]. destruct f; [by eexists|by eexists|by eexists|done].
Qed.

Lemma payshield_refines_witness :
  ps_TranslatePIN default_cfg (to_simulator default_cfg sample_vault (zeros 10)) (go "zpk1") (go "zpk2") sample_pin_block
    (go "4012345678909") ISO0 ISO3 =
  host_res (go "TranslatePIN") (soft_TranslatePIN sample_vault (go "zpk1") (go "zpk2") sample_pin_block (go "4012345678909") ISO0 ISO3 (zeros 10)).
Proof.
  apply (proj1 (proj2 (payshield_refines default_cfg sample_vault (zeros 10) default_cfg_ok))).
  all: first [by eexists|unfold short_field, short_hex; vm_compute; discriminate].
Defined.

(** ** Long messages *)

Lemma hex_nibbles b : hex_encode b = (fun n => hex_digit (bz n)) <$> unpackNibbles b.
Proof.
  induction b as [|c b IH]; [done|]. cbn [hex_encode unpackNibbles]. rewrite !fmap_cons, IH. do 2 f_equal; [|f_equal]; by destruct c.
Qed.

(** What is read back of a message of 5000 bytes: the last digit of its length,
    and 999 of the digits. *)
Definition misread (data : bytes) : bytes := packNibbles (x00 :: take 999 (unpackNibbles data)).

Lemma misread_unpack data : len data = 5000 -> unpackNibbles (misread data) = x00 :: take 999 (unpackNibbles data) /\ len (misread data) = 500.
Proof.
  intros HL. assert (length (x00 :: take 999 (unpackNibbles data)) = (2 * 500)%nat) as HN.
  { cbn [length]. rewrite length_take, length_unpack. unfold len in HL. lia. }
  split.
  - apply (unpack_pack 500); [done|]. constructor; [done|]. apply Forall_take, unpack_is_nibble.
  - unfold misread. pose proof (length_pack 500 _ HN) as HP. unfold len. rewrite HP. done.
Qed.

Lemma unpack_take n b : take (2 * n) (unpackNibbles b) = unpackNibbles (take n b).
Proof.
  revert n. induction b as [|x b IH]; intros [|n]; try done. replace (2 * S n)%nat with (S (S (2 * n))) by lia.
  cbn [unpackNibbles take]. by rewrite IH.
Qed.

Lemma misread_prefix data data' : take 500 data' = take 500 data -> misread data' = misread data.
Proof.
  intros HT. unfold misread. do 2 f_equal. change 999%nat with (Nat.min 999 (2 * 500)). rewrite <- !take_take, !unpack_take. by rewrite HT.
Qed.

Lemma long_field data : len data = 5000 ->
  hexfield data = hexfield (misread data) ++ drop 999 (hex_encode data).
Proof.
  intros HL. destruct (misread_unpack data HL) as [HU H5]. unfold hexfield, field. rewrite !len_hex_encode, HL, H5.
  change (padInt 4 (2 * 5000)) with (padInt 4 (2 * 500) ++ [hex_digit 0]). rewrite (hex_nibbles (misread data)), HU.
  rewrite fmap_cons, fmap_take, <- hex_nibbles, <- !app_assoc. cbn [app]. by rewrite take_drop.
Qed.

Lemma long_MAC cfg v r keyRef alg pad data : cfg_ok cfg -> short_field keyRef -> coded alg -> len data = 5000 ->
  ps_GenerateMAC cfg (to_simulator cfg v r) keyRef alg pad data =
  host_res (go "GenerateMAC") (soft_GenerateMAC v keyRef alg pad (misread data)).
Proof.
  intros HC H1 HA HL. destruct (coded_code alg HA) as (c & Hc & HB & H3). pose proof (short_pad pad) as H4.
  destruct (misread_unpack data HL) as [_ H5]. assert (short_hex (misread data)) as H2 by (unfold short_hex; lia).
  unfold ps_GenerateMAC, macBody. rewrite Hc. cbn [rbind]. rewrite w_hex_field, !w_str_field, long_field by done. cbn [app].
  apply exchange_hex; [done|apply (cmd_len cfg HC); set_solver| |apply eight_MAC|].
  - unfold hexfield. pose proof (short_hex_encode _ H2). rewrite !len_app, !len_field by done. unfold short_field in *.
    assert (len (drop 999 (hex_encode data)) <= 10000); [|lia].
    pose proof (len_hex_encode data). unfold len in *. rewrite length_drop. lia.
  - rewrite (proj1 (proj2 (proj2 (dispatch_cmds cfg v r HC _)))). unfold sim_genMAC, readMACBody.
    set (rest := drop 999 (hex_encode data)). clearbody rest.
    match goal with |- context [newFieldReader ?b] =>
      pose proof (left_over_new b) as HLO; set (rd := newFieldReader b) in *; clearbody rd; rewrite <- ?app_assoc in HLO end.
    read_fields. match goal with H : left_over rest ?rd |- _ => destruct H as (? & _ & _ & ->) end.
    rewrite HB. by destruct pad.
Qed.

(** The four digits of a field.  The length of a message of 5000 bytes, in
    hexadecimal digits, takes five digits, of which the device reads four: the
    adapter reports, as the MAC of the message, the MAC of another message, of
    500 bytes, and two messages that agree on their first 500 bytes get the same
    MAC whatever follows. *)
Theorem payshield_mac_misframed cfg v r keyRef alg pad data data'
    (HC : cfg_ok cfg) (HK : short_field keyRef) (HA : coded alg) (HL : len data = 5000) :
  (len (misread data) = 500 /\
   ps_GenerateMAC cfg (to_simulator cfg v r) keyRef alg pad data =
   host_res (go "GenerateMAC") (soft_GenerateMAC v keyRef alg pad (misread data))) /\
  (len data' = 5000 -> take 500 data' = take 500 data ->
   ps_GenerateMAC cfg (to_simulator cfg v r) keyRef alg pad data' = ps_GenerateMAC cfg (to_simulator cfg v r) keyRef alg pad data).
Proof.
  split; [split; [by apply misread_unpack|by apply long_MAC]|]. intros HL' HT. rewrite !long_MAC by done. by rewrite (misread_prefix data data').
Qed.

Lemma payshield_mac_misframed_witness :
  (len (misread (zeros 5000)) = 500 /\
   ps_GenerateMAC default_cfg (to_simulator default_cfg sample_vault []) (go "zpk1") MACAlg3 Pad1 (zeros 5000) =
   host_res (go "GenerateMAC") (soft_GenerateMAC sample_vault (go "zpk1") MACAlg3 Pad1 (misread (zeros 5000)))) /\
  ps_GenerateMAC default_cfg (to_simulator default_cfg sample_vault []) (go "zpk1") MACAlg3 Pad1 (zeros 4999 ++ [x01]) =
  ps_GenerateMAC default_cfg (to_simulator default_cfg sample_vault []) (go "zpk1") MACAlg3 Pad1 (zeros 5000).
Proof.
  destruct (payshield_mac_misframed default_cfg sample_vault [] (go "zpk1") MACAlg3 Pad1 (zeros 5000) (zeros 4999 ++ [x01]) default_cfg_ok)
    as [H1 H2].
  - unfold short_field. vm_compute. discriminate.
  - done.
  - reflexivity.
  - split; [exact H1|]. apply H2; reflexivity.
Defined.
