(* ===== verification/Iso20022.v ===== *)
(** * The ISO 20022 bridge ([render/iso20022/iso20022.go])

    A message to and from a pacs.008 credit transfer.  The bridge reads the
    mapped elements through the message's getters and rebuilds a message by
    [Set] calls; encoding/xml is the class [XML], with the law that a document of
    printable text survives writing and reading. *)

From S2P Require Import Prelude Errors Strconv Bitmap Decimal Path Schema LengthCodec BitmapCodec Value FieldCodec Message BerTlv Engine Layout Wire Access Invariant Store EndToEnd Shown Validate GoStrings Protobuf.

(** ** The document *)

Definition namespace : bytes := go "urn:iso:std:iso:20022:tech:xsd:pacs.008.001.08".

Record groupHeader := mkGrpHdr { gh_MsgID : bytes; gh_CreDtTm : bytes; gh_NbOfTxs : bytes }.
Record paymentID := mkPmtID { pi_InstrID : bytes; pi_EndToEndID : bytes }.
Record amount := mkAmt { am_Ccy : bytes; am_Value : bytes }.
Record otherID := mkOther { ot_ID : bytes }.
Record accountID := mkAcctID { ai_Other : otherID }.
Record account := mkAcct { ac_ID : accountID }.
Record txInfo := mkTx { tx_PmtID : paymentID; tx_Amount : amount; tx_DbtrAcct : account }.
Record fitofi := mkFi { fi_GrpHdr : groupHeader; fi_Tx : txInfo }.
Record Document := mkDoc { doc_Xmlns : bytes; doc_Msg : fitofi }.

(** The character data of a document. *)
Definition doc_texts (d : Document) : list bytes :=
  let g := fi_GrpHdr (doc_Msg d) in
  let t := fi_Tx (doc_Msg d) in
  [doc_Xmlns d; gh_MsgID g; gh_CreDtTm g; gh_NbOfTxs g; pi_InstrID (tx_PmtID t); pi_EndToEndID (tx_PmtID t);
   am_Ccy (tx_Amount t); am_Value (tx_Amount t); ot_ID (ai_Other (ac_ID (tx_DbtrAcct t)))].

Definition printable_text (s : bytes) : bool := forallb (fun c => (32 <=? bz c) && (bz c <=? 126)) s.

Definition xml_Header : bytes := go "<?xml version=" ++ [x22] ++ go "1.0" ++ [x22] ++ go " encoding=" ++ [x22] ++ go "UTF-8" ++ [x22] ++ go "?>" ++ [x0a].

(** [xml.MarshalIndent] and [xml.Unmarshal] on a [Document]. *)
Class XML := {
  xml_MarshalIndent : Document -> option bytes;
  xml_Unmarshal : bytes -> option Document;
}.

Class XMLLaws `{XML} := {
  xml_roundtrip d : Forall (fun s => printable_text s = true) (doc_texts d) ->
    exists body d', xml_MarshalIndent d = Some body /\ xml_Unmarshal (xml_Header ++ body) = Some d' /\ doc_Msg d' = doc_Msg d;
}.

(** ** Amounts *)

(** [strings.Cut(s, ".")], without its flag. *)
Fixpoint cut_dot (s : bytes) : bytes * bytes :=
  match s with
  | [] => ([], [])
  | c :: s => if bool_decide (c = x2e) then ([], s) else let '(a, b) := cut_dot s in (c :: a, b)
  end.

(** ** The bridge *)

Inductive iso_error := IsoErrNoAmount | IsoXML | IsoMessage (e : error).

(** The scale is the number of fraction digits, as a uint8. *)
Definition parseDecimal (s : bytes) : res iso_error Decimal :=
  let neg := has_prefix s (go "-") in
  let s := TrimPrefix (TrimPrefix s (go "-")) (go "+") in
  let '(intPart, frac) := cut_dot s in
  let digits := intPart ++ frac in
  if len digits =? 0 then Err IsoErrNoAmount else
  match ParseInt 64 digits with
  | Ok unscaled => Ok (NewDecimal (if neg then wrap64 (- unscaled) else unscaled) (len frac mod 256))
  | Err _ => Err IsoErrNoAmount
  | Panic => Panic
  end.

(** Computations over the store with the bridge's errors. *)
Definition IB (A : Type) : Type := heap -> res iso_error A * heap.
Definition iret {A} (a : A) : IB A := fun h => (Ok a, h).
Definition ifail {A} (e : iso_error) : IB A := fun h => (Err e, h).
Definition ibind {A B} (c : IB A) (k : A -> IB B) : IB B := fun h =>
  match c h with
  | (Ok a, h) => k a h
  | (Err e, h) => (Err e, h)
  | (Panic, h) => (Panic, h)
  end.
Definition imsg {A} (c : ST A) : IB A := fun h => let '(r, h) := c h in (rmap_err IsoMessage r, h).
#[local] Notation "'let%' x := c 'in' k" := (ibind c (fun x => k)) (at level 10, x pattern, c at level 200, k at level 200).

Section Bridge.
Context `{XML}.

Definition str (l : loc) (de : Z) : IB (option bytes) :=
  let% v := imsg (Get l de) in
  iret (match v with
        | Some v => match Value_String v with Ok s => Some s | _ => None end
        | None => None
        end).

Definition iso_Marshal (l : loc) : IB bytes :=
  let% stan := str l 11 in
  let% dt := str l 7 in
  let% rrn := str l 37 in
  let% pan := str l 2 in
  let% amt := imsg (Get l 4) in
  let value := match amt with
               | Some v => match Value_Decimal v with Ok d => DString d | _ => [] end
               | None => []
               end in
  let% ccy := str l 49 in
  let doc := mkDoc namespace (mkFi (mkGrpHdr (default [] stan) (default [] dt) (go "1"))
    (mkTx (mkPmtID (default [] stan) (default [] rrn)) (mkAmt (default [] ccy) value) (mkAcct (mkAcctID (mkOther (default [] pan)))))) in
  match xml_MarshalIndent doc with
  | Some body => iret (xml_Header ++ body)
  | None => ifail IsoXML
  end.

(** The local function [set]. *)
Definition iso_set (s : Schema) (l : loc) (de : Z) (val : bytes) : IB unit :=
  if bool_decide (val = []) then iret tt else
  match Schema_Field s de with
  | None => iret tt
  | Some _ => imsg (SetDE l de (anyString val))
  end.

Definition iso_set_amount (s : Schema) (l : loc) (value : bytes) : IB unit :=
  let v := TrimSpace value in
  if bool_decide (v = []) then iret tt else
  match Schema_Field s 4 with
  | None => iret tt
  | Some _ =>
      let% d := fun h => (parseDecimal v, h) in
      imsg (SetDE l 4 (anyDecimal d))
  end.

Definition iso_Unmarshal (data : bytes) (s : Schema) : IB loc :=
  match xml_Unmarshal data with
  | None => ifail IsoXML
  | Some doc =>
      let g := fi_GrpHdr (doc_Msg doc) in
      let t := fi_Tx (doc_Msg doc) in
      let% l := imsg (halloc (New s)) in
      let% _ := iso_set s l 11 (gh_MsgID g) in
      let% _ := iso_set s l 7 (gh_CreDtTm g) in
      let% _ := iso_set s l 37 (pi_EndToEndID (tx_PmtID t)) in
      let% _ := iso_set s l 2 (ot_ID (ai_Other (ac_ID (tx_DbtrAcct t)))) in
      let% _ := iso_set s l 49 (am_Ccy (tx_Amount t)) in
      let% _ := iso_set_amount s l (am_Value (tx_Amount t)) in
      iret l
  end.
End Bridge.

Example parseDecimal_examples :
  parseDecimal (go "-0.05") = Ok (mkDecimal (-5) 2) /\ parseDecimal (go "+12") = Ok (mkDecimal 12 0) /\
  parseDecimal (go ".") = Err IsoErrNoAmount /\ TrimSpace (go " 1.0 " ++ [x0a; xc2; xa0]) = go "1.0".
Proof. by vm_compute. Qed.

(** ** Amounts as text *)

Definition sign_of (u : Z) : bytes := if u <? 0 then go "-" else [].

(** An amount is its sign, its integer digits and, at a scale, a point and as
    many digits. *)
Lemma DString_shape d : decimal_ok d -> exists ip frac,
  DString d = sign_of (Unscaled d) ++ ip ++ (if Scale d =? 0 then [] else x2e :: frac) /\
  ip <> [] /\ forallb is_digit ip = true /\ forallb is_digit frac = true /\ len frac = Scale d /\
  dec_value (ip ++ frac) = Z.abs (Unscaled d).
Proof.
  intros HD. unfold sign_of. destruct (Z.eqb_spec (Scale d) 0) as [H0|H0].
  - unfold DString. rewrite H0. cbn [Z.eqb]. unfold FormatInt. exists (FormatUint (Z.abs (Unscaled d))), [].
    rewrite !app_nil_r, FormatUint_value by lia.
    split_and!; [|apply FormatUint_ne|apply FormatUint_digits; lia|done|done|done].
    destruct (Z.ltb_spec (Unscaled d) 0); [rewrite Z.abs_neq by lia; done|by rewrite Z.abs_eq by lia].
  - destruct (DString_exact d HD) as (ip & frac & HE & HR); [destruct HD; lia|]. by exists ip, frac.
Qed.

Lemma cut_dot_app ip frac : forallb is_digit ip = true -> cut_dot (ip ++ x2e :: frac) = (ip, frac).
Proof.
  induction ip as [|c ip IH]; [done|]. cbn [forallb app cut_dot]. intros [Hc HD]%andb_prop. rewrite IH by done.
  by rewrite bool_decide_false by (intros ->; done).
Qed.

Lemma cut_dot_none ip : forallb is_digit ip = true -> cut_dot ip = (ip, []).
Proof.
  induction ip as [|c ip IH]; [done|]. cbn [forallb cut_dot]. intros [Hc HD]%andb_prop. rewrite IH by done.
  by rewrite bool_decide_false by (intros ->; done).
Qed.

Lemma parseDecimal_DString d : decimal_ok d -> Unscaled d <> - 2 ^ 63 -> parseDecimal (DString d) = Ok d.
Proof.
  intros HD HN. pose proof HD as [HU HS]. destruct (DString_shape d HD) as (ip & frac & -> & H1 & H2 & H3 & H4 & H5).
  assert (exists c r, ip = c :: r /\ is_digit c = true) as (c & r & HE & HC).
  { destruct ip as [|c r]; [done|]. exists c, r. split; [done|]. cbn in H2. by apply andb_prop in H2 as [? _]. }
  assert (forall u, TrimPrefix (TrimPrefix (sign_of u ++ ip ++ (if Scale d =? 0 then [] else x2e :: frac)) (go "-")) (go "+") =
            ip ++ (if Scale d =? 0 then [] else x2e :: frac) /\
          has_prefix (sign_of u ++ ip ++ (if Scale d =? 0 then [] else x2e :: frac)) (go "-") = (u <? 0)) as HT.
  { intros u. rewrite HE. unfold sign_of. destruct (u <? 0); destruct c; done. }
  destruct (HT (Unscaled d)) as [HTP HP]. unfold parseDecimal. rewrite HTP, HP.
  assert (cut_dot (ip ++ (if Scale d =? 0 then [] else x2e :: frac)) = (ip, frac)) as HCut.
  { destruct (Z.eqb_spec (Scale d) 0) as [H0|H0]; [|by apply cut_dot_app].
    rewrite app_nil_r, (len_0_nil frac) by lia. by apply cut_dot_none. }
  rewrite HCut. destruct (Z.eqb_spec (len (ip ++ frac)) 0) as [H0|_]; [apply len_0_nil in H0; by destruct ip|].
  rewrite ParseInt_digits; [|lia|by destruct ip|by rewrite forallb_app, H2|unfold int64 in HU; change (64 - 1) with 63; lia].
  rewrite H4, H5, Z.mod_small by lia. f_equal. destruct d as [u sc]. cbn [Unscaled Scale] in *. unfold NewDecimal. f_equal.
  destruct (Z.ltb_spec u 0); [rewrite Z.abs_neq, Z.opp_involutive by lia; apply wrap64_id; done|by rewrite Z.abs_eq by lia].
Qed.

(** ** Visible text *)

Lemma digit_visible c : is_digit c = true -> visible c = true.
Proof. destruct c; by vm_compute. Qed.

Lemma digits_visible b : forallb is_digit b = true -> forallb visible b = true.
Proof. rewrite !forallb_forall. intros HF x Hx. by apply digit_visible, HF. Qed.

Lemma DString_text d : decimal_ok d ->
  forallb visible (DString d) = true /\ DString d <> [] /\ TrimSpace (DString d) = DString d /\ printable_text (DString d) = true.
Proof.
  intros HD. assert (forallb visible (DString d) = true /\ DString d <> []) as [HV HN].
  { destruct (DString_shape d HD) as (ip & frac & -> & H1 & H2%digits_visible & H3%digits_visible & _).
    split; [|by destruct (sign_of _), ip]. rewrite !forallb_app, H2. unfold sign_of.
    destruct (Unscaled d <? 0), (Scale d =? 0); cbn [forallb andb]; by rewrite ?H3. }
  split_and!; [done|done| |].
  - destruct (DString d) as [|c s]; [done|]. destruct (rev (c :: s)) as [|c' r] eqn:ER.
    { apply (f_equal length) in ER. by rewrite length_rev in ER. }
    rewrite forallb_forall in HV. apply (TrimSpace_visible c s c'); [apply HV; by left| |by exists r].
    apply HV, in_rev. rewrite ER. by left.
  - unfold printable_text. rewrite forallb_forall in HV |- *. intros x Hx. specialize (HV x Hx). unfold visible in HV.
    apply andb_prop in HV as [?%Z.leb_le ?]. apply andb_true_intro. split; [apply Z.leb_le; lia|done].
Qed.

(** ** The elements the bridge carries *)

Definition text_DEs : list Z := [11; 7; 37; 2; 49].

(** A text element the bridge can carry: text or digits, printable and not empty. *)
Definition text_value (s : Schema) (de : Z) (v : Value) : Prop :=
  de <= s_maxDE s /\ v_raw v <> [] /\ printable_text (v_raw v) = true /\
  exists d, Schema_Field s de = Some d /\ (fd_Kind d = KindString \/ fd_Kind d = KindNumeric) /\ v_kind v = fd_Kind d.

(** An amount, not the least int64. *)
Definition amount_value (s : Schema) (v : Value) : Prop :=
  4 <= s_maxDE s /\ decimal_ok (v_dec v) /\ Unscaled (v_dec v) <> - 2 ^ 63 /\ v_kind v = KindAmount /\ is_Some (Schema_Field s 4).

(** The text of an element, empty when it is absent. *)
Definition text_of (ov : option Value) : bytes :=
  match ov with Some v => match v_kind v with KindAmount => DString (v_dec v) | _ => v_raw v end | None => [] end.

Definition carried_DE (de : Z) : bool := existsb (Z.eqb de) (4 :: text_DEs).

(** The mapped elements of a message can be read and carried. *)
Record bridged (s : Schema) (m : Message) : Prop := {
  br_legible : forall de, carried_DE de = true -> legible m de;
  br_texts : forall de v, de ∈ text_DEs -> shown m de = Some v -> text_value s de v;
  br_amount : forall v, shown m 4 = Some v -> amount_value s v;
}.

Lemma alike_bridged s m m' : alike m m' -> bridged s m -> bridged s m'.
Proof.
  intros HA [B1 B2 B3]. split.
  - intros de Hd. by eapply alike_legible, B1.
  - intros de v. rewrite (ak_shown _ _ HA). apply B2.
  - intros v. rewrite (ak_shown _ _ HA). apply B3.
Qed.

Lemma text_carried de : de ∈ text_DEs -> carried_DE de = true.
Proof. unfold carried_DE, text_DEs. rewrite !elem_of_cons, elem_of_nil. intros [->|[->|[->|[->|[->|[]]]]]]; done. Qed.

Lemma text_value_text s de v : text_value s de v -> Value_String v = Ok (v_raw v) /\ text_of (Some v) = v_raw v.
Proof. intros (_ & _ & _ & d & _ & HK & HE). unfold Value_String, text_of. rewrite HE. by destruct HK as [-> | ->]. Qed.

Lemma str_alike s l m de (h : heap) : h !! l = Some m -> bridged s m -> de ∈ text_DEs ->
  exists m' ot, str l de h = (Ok ot, <[l := m']> h) /\ default [] ot = text_of (shown m de) /\ alike m m'.
Proof.
  intros HL HB HI. destruct (Get_alike l m de h HL) as (m' & HG & HA); [by eapply br_legible, text_carried|].
  exists m', (v_raw <$> shown m de). unfold str, ibind, imsg, iret. rewrite HG. cbn [rmap_err]. split; [|split; [|done]].
  - destruct (shown m de) as [v|] eqn:E; [|done]. by rewrite (proj1 (text_value_text s de v (br_texts _ _ HB de v HI E))).
  - destruct (shown m de) as [v|] eqn:E; [|done]. by rewrite (proj2 (text_value_text s de v (br_texts _ _ HB de v HI E))).
Qed.

(** The document of a message. *)
Definition doc_of (m : Message) : Document :=
  let t de := text_of (shown m de) in
  mkDoc namespace (mkFi (mkGrpHdr (t 11) (t 7) (go "1")) (mkTx (mkPmtID (t 11) (t 37)) (mkAmt (t 49) (t 4)) (mkAcct (mkAcctID (mkOther (t 2)))))).

Lemma printable_text_of s m de : bridged s m -> de ∈ 4 :: text_DEs -> printable_text (text_of (shown m de)) = true.
Proof.
  intros HB HI. destruct (shown m de) as [v|] eqn:E; [|done]. apply elem_of_cons in HI as [-> | HI].
  - destruct (br_amount _ _ HB v E) as (_ & HD & _ & HK & _). unfold text_of. rewrite HK. by apply DString_text.
  - pose proof (br_texts _ _ HB de v HI E) as HT. rewrite (proj2 (text_value_text s de v HT)). by destruct HT as (_ & _ & ? & _).
Qed.

Section Roundtrip.
Context `{XMLLaws}.

Lemma Marshal_doc s l m (h : heap) : h !! l = Some m -> bridged s m ->
  exists body d' m1, iso_Marshal l h = (Ok (xml_Header ++ body), <[l := m1]> h) /\ alike m m1 /\
    xml_Unmarshal (xml_Header ++ body) = Some d' /\ doc_Msg d' = doc_Msg (doc_of m).
Proof.
  intros HL HB. destruct (xml_roundtrip (doc_of m)) as (body & d' & H1 & H2 & H3).
  { assert (forall de, de ∈ 4 :: text_DEs -> printable_text (text_of (shown m de)) = true) as HP by (intros; by eapply printable_text_of).
    change (doc_texts (doc_of m)) with [namespace; text_of (shown m 11); text_of (shown m 7); go "1"; text_of (shown m 11); text_of (shown m 37);
      text_of (shown m 49); text_of (shown m 4); text_of (shown m 2)].
    repeat (apply list.Forall_cons; split; [match goal with |- printable_text (text_of _) = true => apply HP; unfold text_DEs; set_solver | _ => vm_compute; reflexivity end|]).
    by apply list.Forall_nil. }
  assert (HI : forall m' (h' : heap), h' !! l = Some m' -> forall m2, <[l := m2]> h' !! l = Some m2)
    by (intros m' h' HL' m2; apply list_lookup_insert_eq; by eapply lookup_lt_Some).
  assert (HX : exists m1, alike m m1 /\ iso_Marshal l h = (Ok (xml_Header ++ body), <[l := m1]> h)); [|destruct HX as (m1 & HA & HX); by exists body, d', m1].
  destruct (str_alike s l m 11 h HL HB) as (m1 & o1 & E1 & T1 & A1); [unfold text_DEs; set_solver|]. pose proof (HI _ _ HL m1) as L1. pose proof (alike_bridged _ _ _ A1 HB) as B1.
  destruct (str_alike s l m1 7 _ L1 B1) as (m2 & o2 & E2 & T2 & A2); [unfold text_DEs; set_solver|]. pose proof (HI _ _ L1 m2) as L2. pose proof (alike_bridged _ _ _ A2 B1) as B2.
  destruct (str_alike s l m2 37 _ L2 B2) as (m3 & o3 & E3 & T3 & A3); [unfold text_DEs; set_solver|]. pose proof (HI _ _ L2 m3) as L3. pose proof (alike_bridged _ _ _ A3 B2) as B3.
  destruct (str_alike s l m3 2 _ L3 B3) as (m4 & o4 & E4 & T4 & A4); [unfold text_DEs; set_solver|]. pose proof (HI _ _ L3 m4) as L4. pose proof (alike_bridged _ _ _ A4 B3) as B4.
  destruct (Get_alike l m4 4 _ L4) as (m5 & E5 & A5); [by eapply br_legible|]. pose proof (HI _ _ L4 m5) as L5. pose proof (alike_bridged _ _ _ A5 B4) as B5.
  destruct (str_alike s l m5 49 _ L5 B5) as (m6 & o6 & E6 & T6 & A6); [unfold text_DEs; set_solver|].
  pose proof (alike_trans _ _ _ A1 A2) as A12. pose proof (alike_trans _ _ _ A12 A3) as A13. pose proof (alike_trans _ _ _ A13 A4) as A14. pose proof (alike_trans _ _ _ A14 A5) as A15.
  exists m6. split; [by eapply alike_trans|]. unfold iso_Marshal, ibind, imsg. rewrite E1, E2, E3, E4, E5. cbn [rmap_err]. rewrite E6.
  rewrite T1, T2, T3, T4, T6. rewrite (ak_shown _ _ A1), (ak_shown _ _ A12), (ak_shown _ _ A13), (ak_shown _ _ A14), (ak_shown _ _ A15).
  replace (match shown m 4 with Some v => match Value_Decimal v with Ok d => DString d | _ => [] end | None => [] end) with (text_of (shown m 4)).
  - unfold doc_of in H1. cbv zeta in H1. rewrite H1. unfold iret. by rewrite !list_insert_insert_eq.
  - destruct (shown m 4) as [v|] eqn:E; [|done]. destruct (br_amount _ _ HB v E) as (_ & _ & _ & HK & _). unfold Value_Decimal, text_of. by rewrite HK.
Qed.

(** Each step of [Unmarshal] carries one element over. *)
Definition carried (s : Schema) (old new : Message) (de : Z) (ov : option Value) : Prop :=
  forall e, shown new e = if e =? de then match ov with Some v => Some (canon_at s de v) | None => shown old e end else shown old e.

Lemma iso_set_carries s m0 de (h : heap) m : building s m -> bridged s m0 -> de ∈ text_DEs ->
  exists m', iso_set s (length h) de (text_of (shown m0 de)) (h ++ [m]) = (Ok tt, h ++ [m']) /\ building s m' /\ carried s m m' de (shown m0 de).
Proof.
  intros HB HBr HI. unfold iso_set. destruct (shown m0 de) as [v|] eqn:E.
  2:{ exists m. split; [done|]. split; [done|]. intros e. by destruct (e =? de). }
  pose proof (br_texts _ _ HBr de v HI E) as HTV. rewrite (proj2 (text_value_text s de v HTV)). destruct HTV as (HM & HN & _ & d & HF & HK & HE).
  rewrite bool_decide_false by done. rewrite HF.
  destruct (SetDE_building s d (mkValue (v_raw v) (fd_Kind d) None 0 None zeroDecimal) de (anyString (v_raw v)) h m) as (m' & HS & HB' & HC);
    [done|done| | |].
  - split; [|done]. revert HI. unfold text_DEs. rewrite !elem_of_cons, elem_of_nil. lia.
  - unfold makeValue. by destruct HK as [-> | ->].
  - exists m'. unfold imsg. rewrite HS. split; [done|]. split; [done|]. intros e. rewrite HC. destruct (e =? de); [|done].
    unfold canon_at, canon. rewrite HF, HE. by destruct HK as [-> | ->].
Qed.

Lemma iso_set_amount_carries s m0 (h : heap) m : building s m -> bridged s m0 ->
  exists m', iso_set_amount s (length h) (text_of (shown m0 4)) (h ++ [m]) = (Ok tt, h ++ [m']) /\ building s m' /\ carried s m m' 4 (shown m0 4).
Proof.
  intros HB HBr. unfold iso_set_amount. destruct (shown m0 4) as [v|] eqn:E.
  2:{ exists m. split; [done|]. split; [done|]. intros e. by destruct (e =? 4). }
  destruct (br_amount _ _ HBr v E) as (HM & HD & HU & HK & d & HF). unfold text_of. rewrite HK.
  destruct (DString_text (v_dec v) HD) as (_ & HN & HT & _). rewrite HT, bool_decide_false by done. rewrite HF.
  unfold ibind. rewrite parseDecimal_DString by done.
  destruct (SetDE_building s d (mkValue (DString (v_dec v)) KindAmount None 0 None (v_dec v)) 4 (anyDecimal (v_dec v)) h m) as (m' & HS & HB' & HC);
    [done|done|lia|done|].
  exists m'. unfold imsg. rewrite HS. split; [done|]. split; [done|]. intros e. rewrite HC. destruct (e =? 4); [|done]. unfold canon_at, canon. by rewrite HF, HK.
Qed.

Lemma Unmarshal_doc s m0 data d' (h : heap) : 0 <= s_maxDE s -> bridged s m0 -> xml_Unmarshal data = Some d' -> doc_Msg d' = doc_Msg (doc_of m0) ->
  exists m', iso_Unmarshal data s h = (Ok (length h), h ++ [m']) /\ building s m' /\
    forall e, shown m' e = if carried_DE e then canon_at s e <$> shown m0 e else None.
Proof.
  intros HM HB HX HD. unfold iso_Unmarshal. rewrite HX, HD. cbn [doc_of doc_Msg fi_GrpHdr fi_Tx gh_MsgID gh_CreDtTm tx_PmtID pi_EndToEndID tx_DbtrAcct ac_ID ai_Other ot_ID tx_Amount am_Ccy am_Value].
  unfold ibind at 1. unfold imsg, halloc. cbn [rmap_err].
  destruct (iso_set_carries s m0 11 h (New s)) as (m1 & E1 & B1 & C1); [by apply New_building|done|unfold text_DEs; set_solver|].
  destruct (iso_set_carries s m0 7 h m1) as (m2 & E2 & B2 & C2); [done|done|unfold text_DEs; set_solver|].
  destruct (iso_set_carries s m0 37 h m2) as (m3 & E3 & B3 & C3); [done|done|unfold text_DEs; set_solver|].
  destruct (iso_set_carries s m0 2 h m3) as (m4 & E4 & B4 & C4); [done|done|unfold text_DEs; set_solver|].
  destruct (iso_set_carries s m0 49 h m4) as (m5 & E5 & B5 & C5); [done|done|unfold text_DEs; set_solver|].
  destruct (iso_set_amount_carries s m0 h m5) as (m6 & E6 & B6 & C6); [done|done|].
  exists m6. unfold ibind. rewrite E1, E2, E3, E4, E5, E6. split; [done|]. split; [done|]. intros e.
  rewrite C6, !C5, !C4, !C3, !C2, !C1, !shown_New. unfold carried_DE, text_DEs. cbn [existsb].
  destruct (Z.eqb_spec e 4) as [->|]; [cbn; by destruct (shown m0 4)|]. destruct (Z.eqb_spec e 49) as [->|]; [cbn; by destruct (shown m0 49)|].
  destruct (Z.eqb_spec e 2) as [->|]; [cbn; by destruct (shown m0 2)|]. destruct (Z.eqb_spec e 37) as [->|]; [cbn; by destruct (shown m0 37)|].
  destruct (Z.eqb_spec e 7) as [->|]; [cbn; by destruct (shown m0 7)|]. by destruct (Z.eqb_spec e 11) as [->|]; [cbn; by destruct (shown m0 11)|].
Qed.

End Roundtrip.

(** ** An encoder *)

(** The texts of a document, each ended by a zero byte. *)
Fixpoint split_texts (acc : bytes) (b : bytes) : list bytes :=
  match b with
  | [] => []
  | c :: b => if bool_decide (c = x00) then acc :: split_texts [] b else split_texts (acc ++ [c]) b
  end.

Definition toy_doc (ts : list bytes) : option Document :=
  match ts with
  | [ns; msgid; dt; nb; instr; e2e; ccy; val; acct] =>
      Some (mkDoc ns (mkFi (mkGrpHdr msgid dt nb) (mkTx (mkPmtID instr e2e) (mkAmt ccy val) (mkAcct (mkAcctID (mkOther acct))))))
  | _ => None
  end.

#[export] Instance toy_xml : XML := {
  xml_MarshalIndent d := Some (concat (map (fun s => s ++ [x00]) (doc_texts d)));
  xml_Unmarshal b := toy_doc (split_texts [] (drop (length xml_Header) b));
}.

Lemma split_texts_one s acc b : printable_text s = true -> split_texts acc (s ++ x00 :: b) = (acc ++ s) :: split_texts [] b.
Proof.
  revert acc. induction s as [|c s IH]; intros acc; [by rewrite app_nil_r|]. cbn [printable_text forallb]. intros [Hc HS]%andb_prop.
  cbn [app split_texts]. rewrite bool_decide_false by (by intros ->). rewrite IH by done. by rewrite <- app_assoc.
Qed.

#[export] Instance toy_xml_laws : XMLLaws.
Proof.
  split. intros d HP. eexists _, d. split; [reflexivity|]. split; [|done]. cbn [xml_Unmarshal toy_xml]. rewrite drop_app_length.
  assert (forall ts, Forall (fun s => printable_text s = true) ts -> split_texts [] (concat (map (fun s => s ++ [x00]) ts)) = ts) as HS.
  { induction 1 as [|s ts Hs _ IH]; [done|]. cbn [map concat]. rewrite <- app_assoc. cbn [app]. by rewrite split_texts_one, IH. }
  rewrite HS by done. by destruct d as [ns [[a b c] [[e f] [g i] [[[j]]]]]].
Qed.


(** What [parseDecimal] does outside of the texts [Decimal.String] writes: the
    least int64 is refused, a sign is taken after the point, and the scale wraps
    at 256 digits. *)
Lemma parseDecimal_limits :
  parseDecimal (DString (mkDecimal (- 2 ^ 63) 2)) = Err IsoErrNoAmount /\
  parseDecimal (go ".-5") = Ok (mkDecimal (-5) 2) /\
  parseDecimal (go "0." ++ replicate 256 (zb 48) ++ go "1") = Ok (mkDecimal 1 1).
Proof. by vm_compute. Qed.
