(* ===== verification/Retry.v ===== *)
(** * Retried stages ([flow/retry.go])

    [Retry] wraps a stage of a flow so that a failed [Prepare] is tried again.
    The wait between two attempts is the caller's world's: it ends when the timer
    fires, or with the error of the context. *)

From S2P Require Import Prelude Errors Path Flow.

Record RetryPolicy := mkPolicy {
  rp_MaxAttempts : Z;
  rp_Backoff : option (Z -> Z);
  rp_Retryable : option (flow_error -> bool);
}.

(** 50 ms, in nanoseconds. *)
Definition defaultBackoff (attempt : Z) : Z := 50000000.
Definition anyError (e : flow_error) : bool := true.

Definition DefaultRetryPolicy : RetryPolicy := mkPolicy 3 (Some defaultBackoff) (Some anyError).

Definition normalised (p : RetryPolicy) : RetryPolicy :=
  mkPolicy (if rp_MaxAttempts p <=? 0 then 3 else rp_MaxAttempts p)
    (match rp_Backoff p with None => Some defaultBackoff | b => b end)
    (match rp_Retryable p with None => Some anyError | r => r end).

(** The functions of a policy; a nil function panics when called, and is not
    there after [normalised]. *)
Definition backoff (p : RetryPolicy) : Z -> Z := default defaultBackoff (rp_Backoff p).
Definition retryable (p : RetryPolicy) : flow_error -> bool := default anyError (rp_Retryable p).

Section Retry.
Context {W M prop : Type}.
(** The wait of [select]: nothing when the timer fired, [ctx.Err()] when the
    context was done. *)
Context (wait : Z -> W -> option flow_error * W).
#[local] Abbreviation RExchange := (Flow.Exchange (M := M) (prop := prop)).
#[local] Abbreviation RStage := (Flow.Stage (W := W) (M := M) (prop := prop)).

(** The loop of [Prepare]; [more] is [MaxAttempts - attempt + 1]. *)
Fixpoint retry_loop (more : nat) (attempt : Z) (p : RetryPolicy) (inner : RStage) (res : Result) (err : option flow_error) (ex : RExchange) (w : W)
    : Result * option flow_error * RExchange * W :=
  match more with
  | O => (res, err, ex, w)
  | S more =>
      let '(res, err, ex, w) := st_Prepare inner ex w in
      match err with
      | None => (res, None, ex, w)
      | Some e =>
          if ex_aborted ex || negb (retryable p e) then (res, Some e, ex, w) else
          if attempt =? rp_MaxAttempts p then (res, Some e, ex, w) else
          match wait (backoff p attempt) w with
          | (Some cause, w) => (res, Some cause, ex, w)
          | (None, w) => retry_loop more (attempt + 1) p inner res (Some e) ex w
          end
      end
  end.

Definition retry_Prepare (p : RetryPolicy) (inner : RStage) (ex : RExchange) (w : W) : Result * option flow_error * RExchange * W :=
  retry_loop (Z.to_nat (rp_MaxAttempts p)) 1 p inner Continue None ex w.

(** A wrapped stage always has a [Commit] and an [Abort]; they forward, or do
    nothing. *)
Definition retry_Commit (inner : RStage) (ex : RExchange) (w : W) : option flow_error * RExchange * W :=
  match st_Commit inner with Some c => c ex w | None => (None, ex, w) end.
Definition retry_Abort (inner : RStage) (ex : RExchange) (w : W) : option flow_error * RExchange * W :=
  match st_Abort inner with Some a => a ex w | None => (None, ex, w) end.

Definition Retry (inner : RStage) (policy : RetryPolicy) : RStage :=
  mkStage (st_Name inner) (retry_Prepare (normalised policy) inner) (Some (retry_Commit inner)) (Some (retry_Abort inner)).

(** ** Attempts *)

(** [n - 1] attempts from [s] failed with an error worth another try, each
    followed by a full wait, and the next attempt, the [n]th, starts in the
    second state. *)
Inductive retried (p : RetryPolicy) (inner : RStage) (s : RExchange * W) : Z -> RExchange * W -> Prop :=
| retried_first : retried p inner s 1 s
| retried_again n ex w r e ex' w' w'' : retried p inner s n (ex, w) -> st_Prepare inner ex w = (r, Some e, ex', w') ->
    ex_aborted ex' = false -> retryable p e = true -> n < rp_MaxAttempts p -> wait (backoff p n) w' = (None, w'') ->
    retried p inner s (n + 1) (ex', w'').

(** Why an attempt is the last one. *)
Definition settled (p : RetryPolicy) (n : Z) (err : option flow_error) (ex : RExchange) : Prop :=
  match err with
  | None => True
  | Some e => ex_aborted ex = true \/ retryable p e = false \/ n = rp_MaxAttempts p
  end.

Lemma retry_loop_attempts p inner s more n ex w res err : retried p inner s n (ex, w) ->
  Z.of_nat more = rp_MaxAttempts p - n + 1 -> 1 <= n <= rp_MaxAttempts p ->
  exists k ex1 w1 r e ex2 w2, 1 <= k <= rp_MaxAttempts p /\ retried p inner s k (ex1, w1) /\ st_Prepare inner ex1 w1 = (r, e, ex2, w2) /\
    ((settled p k e ex2 /\ retry_loop more n p inner res err ex w = (r, e, ex2, w2)) \/
     (~ settled p k e ex2 /\ exists cause w3, wait (backoff p k) w2 = (Some cause, w3) /\
       retry_loop more n p inner res err ex w = (r, Some cause, ex2, w3))).
Proof.
  revert n ex w res err. induction more as [|more IH]; intros n ex w res err HR HL Hn; [lia|]. cbn [retry_loop].
  destruct (st_Prepare inner ex w) as [[[r e] ex2] w2] eqn:EP.
  assert (settled p n e ex2 -> forall out, out = (r, e, ex2, w2) ->
    exists k ex1 w1 r e ex2 w2, 1 <= k <= rp_MaxAttempts p /\ retried p inner s k (ex1, w1) /\ st_Prepare inner ex1 w1 = (r, e, ex2, w2) /\
      ((settled p k e ex2 /\ out = (r, e, ex2, w2)) \/
       (~ settled p k e ex2 /\ exists cause w3, wait (backoff p k) w2 = (Some cause, w3) /\ out = (r, Some cause, ex2, w3)))) as HStop.
  { intros HS out ->. exists n, ex, w, r, e, ex2, w2. split_and!; [lia|lia|done|done|by left]. }
  destruct e as [e|]; [|by apply HStop].
  destruct (ex_aborted ex2) eqn:EA; cbn [orb]; [apply HStop; [by left|done]|].
  destruct (retryable p e) eqn:ER; cbn [negb]; [|apply HStop; [by right; left|done]].
  destruct (Z.eqb_spec n (rp_MaxAttempts p)) as [EN|EN]; [apply HStop; [by right; right|done]|].
  destruct (wait (backoff p n) w2) as [[cause|] w3] eqn:EW.
  - exists n, ex, w, r, (Some e), ex2, w2. split_and!; [lia|lia|done|done|]. right. split; [|by exists cause, w3].
    intros [?|[?|?]]; congruence.
  - apply IH; [|lia|lia]. eapply retried_again; [done..|lia|done].
Qed.

(** A wrapped stage tries at least once and at most [MaxAttempts] times.  It
    returns what its last attempt returned: the first that succeeds, aborts the
    exchange or fails with an error not worth a retry, or the last one allowed;
    when the context ends a wait, the error of the context takes the place of
    the attempt's.  Before that, every attempt failed with an error worth a
    retry, and the wait after it ran its time. *)
Theorem Retry_attempts inner policy ex w : let p := normalised policy in
  1 <= rp_MaxAttempts p /\
  exists k ex1 w1 r e ex2 w2, 1 <= k <= rp_MaxAttempts p /\ retried p inner (ex, w) k (ex1, w1) /\ st_Prepare inner ex1 w1 = (r, e, ex2, w2) /\
    ((settled p k e ex2 /\ st_Prepare (Retry inner policy) ex w = (r, e, ex2, w2)) \/
     (~ settled p k e ex2 /\ exists cause w3, wait (backoff p k) w2 = (Some cause, w3) /\
       st_Prepare (Retry inner policy) ex w = (r, Some cause, ex2, w3))).
Proof.
  cbv zeta. set (p := normalised policy). assert (1 <= rp_MaxAttempts p) as HM.
  { unfold p, normalised. cbn. destruct (Z.leb_spec (rp_MaxAttempts policy) 0); lia. }
  split; [done|]. apply retry_loop_attempts; [apply retried_first|fold p; lia|fold p; lia].
Qed.
End Retry.
