(* ===== verification/Persist.v ===== *)
(** * Persistence ([store/store.go])

    A store of collections of keys: the interface [Store] as a class, with the
    map it stands for as its specification; the in-memory store implements it,
    and the JSON helpers are its clients.  encoding/json is a parameter of the
    helpers. *)

From stdpp Require Import sorting.
From S2P Require Import Prelude Errors Strconv Path.

Inductive kv_error :=
| StoreNotFound (collection key : bytes)
| MarshalJSON (collection key : bytes)
| UnmarshalJSON (collection key : bytes)
| BackendError (why : bytes).

(** ** The interface *)

Class KVStore (S : Type) := {
  kv_Get : S -> bytes -> bytes -> res kv_error bytes;
  kv_Put : S -> bytes -> bytes -> bytes -> res kv_error unit * S;
  kv_Delete : S -> bytes -> bytes -> res kv_error unit * S;
  kv_List : S -> bytes -> res kv_error (list bytes);
  kv_Close : S -> res kv_error unit * S;
}.

Abbreviation contents := (gmap (bytes * bytes) bytes).

(** What [Get] answers, by the map the store stands for. *)
Definition kv_answer (m : contents) (c k : bytes) : res kv_error bytes :=
  match m !! (c, k) with Some v => Ok v | None => Err (StoreNotFound c k) end.

(** What a store promises: it stands for a map of its collections and keys.  A
    backend may also fail. *)
Class KVLaws (S : Type) `{KVStore S} := {
  kv_inv : S -> Prop;
  kv_view : S -> contents;
  kv_get_law s c k : kv_inv s -> kv_Get s c k = kv_answer (kv_view s) c k \/ exists why, kv_Get s c k = Err (BackendError why);
  kv_put_law s c k v s' : kv_inv s -> kv_Put s c k v = (Ok tt, s') -> kv_inv s' /\ kv_view s' = <[(c, k) := v]> (kv_view s);
  kv_delete_law s c k s' : kv_inv s -> kv_Delete s c k = (Ok tt, s') -> kv_inv s' /\ kv_view s' = delete (c, k) (kv_view s);
  kv_list_law s c ks : kv_inv s -> kv_List s c = Ok ks ->
    Sorted bytes_le ks /\ NoDup ks /\ forall k, k ∈ ks <-> is_Some (kv_view s !! (c, k));
}.

(** ** [MemStore] *)

Record MemStore := mkMem { ms_data : gmap bytes (gmap bytes bytes) }.

Definition NewMemStore : MemStore := mkMem ∅.

(** Values are copied in and out: they are values here. *)
Definition mem_Get (m : MemStore) (collection key : bytes) : res kv_error bytes :=
  match ms_data m !! collection with
  | None => Err (StoreNotFound collection key)
  | Some c => match c !! key with None => Err (StoreNotFound collection key) | Some v => Ok v end
  end.

Definition mem_Put (m : MemStore) (collection key value : bytes) : res kv_error unit * MemStore :=
  let c := match ms_data m !! collection with Some c => c | None => ∅ end in
  (Ok tt, mkMem (<[collection := <[key := value]> c]> (ms_data m))).

Definition mem_Delete (m : MemStore) (collection key : bytes) : res kv_error unit * MemStore :=
  match ms_data m !! collection with
  | Some c =>
      let c := delete key c in
      (Ok tt, mkMem (if (size c =? 0)%nat then delete collection (ms_data m) else <[collection := c]> (ms_data m)))
  | None => (Ok tt, m)
  end.

Definition mem_List (m : MemStore) (collection : bytes) : res kv_error (list bytes) :=
  let c := match ms_data m !! collection with Some c => c | None => ∅ end in
  Ok (merge_sort bytes_le (map fst (map_to_list c))).

Definition mem_Close (m : MemStore) : res kv_error unit * MemStore := (Ok tt, m).

#[export] Instance MemStore_KVStore : KVStore MemStore := {
  kv_Get := mem_Get; kv_Put := mem_Put; kv_Delete := mem_Delete; kv_List := mem_List; kv_Close := mem_Close;
}.

(** ** JSON values *)

Section JSON.
Context {S T : Type} `{KVStore S}.
(** [json.Marshal] and [json.Unmarshal] at [T]. *)
Context (json_Marshal : T -> option bytes) (json_Unmarshal : bytes -> option T).

Definition PutJSON (s : S) (collection key : bytes) (v : T) : res kv_error unit * S :=
  match json_Marshal v with
  | None => (Err (MarshalJSON collection key), s)
  | Some data => kv_Put s collection key data
  end.

Definition GetJSON (s : S) (collection key : bytes) : res kv_error T :=
  let! data := kv_Get s collection key in
  match json_Unmarshal data with Some v => Ok v | None => Err (UnmarshalJSON collection key) end.
End JSON.

(** ** The memory store is the map *)

(** No collection is kept empty. *)
Definition mem_inv (m : MemStore) : Prop := forall c, ms_data m !! c <> Some ∅.

Definition mem_view (m : MemStore) : contents :=
  map_uncurry (M1 := gmap bytes) (M2 := gmap bytes) (M12 := gmap (bytes * bytes)) (ms_data m).

Lemma mem_view_lookup m c k : mem_view m !! (c, k) = ms_data m !! c ≫= lookup k.
Proof. unfold mem_view. rewrite lookup_map_uncurry. by destruct (ms_data m !! c). Qed.

Lemma mem_get_law (s : MemStore) c k : mem_Get s c k = kv_answer (mem_view s) c k.
Proof.
  unfold mem_Get, kv_answer. rewrite mem_view_lookup. destruct (ms_data s !! c) as [col|]; [|done]. cbn. by destruct (col !! k).
Qed.

Lemma mem_put_law (s : MemStore) c k v s' : mem_inv s -> mem_Put s c k v = (Ok tt, s') -> mem_inv s' /\ mem_view s' = <[(c, k) := v]> (mem_view s).
Proof.
  intros HI. unfold mem_Put. intros [= <-]. split.
  + intros c'. cbn [ms_data]. destruct (decide (c' = c)) as [->|]; [|rewrite lookup_insert_ne by done; apply HI].
    rewrite lookup_insert_eq. intros [= HE]. by apply insert_non_empty in HE.
  + apply map_eq. intros [c' k']. rewrite mem_view_lookup. cbn [ms_data].
    destruct (decide (c' = c)) as [->|Hc]; [|rewrite !lookup_insert_ne by congruence; by rewrite mem_view_lookup].
    rewrite lookup_insert_eq. cbn. destruct (decide (k' = k)) as [->|Hk]; [by rewrite !lookup_insert_eq|].
    rewrite !lookup_insert_ne by congruence. rewrite mem_view_lookup. by destruct (ms_data s !! c).
Qed.

Lemma mem_delete_law (s : MemStore) c k s' : mem_inv s -> mem_Delete s c k = (Ok tt, s') -> mem_inv s' /\ mem_view s' = delete (c, k) (mem_view s).
Proof.
  intros HI. unfold mem_Delete. destruct (ms_data s !! c) as [col|] eqn:EC; intros [= <-].
  2:{ split; [done|]. symmetry. apply delete_id. by rewrite mem_view_lookup, EC. }
  assert (forall c' k', (if (size (delete k col) =? 0)%nat then delete c (ms_data s) else <[c:=delete k col]> (ms_data s)) !! c' ≫= lookup k' =
            (if decide (c' = c) then delete k col !! k' else ms_data s !! c' ≫= lookup k')) as HL.
  { intros c' k'. destruct (Nat.eqb_spec (size (delete k col)) 0) as [H0|H0]; destruct (decide (c' = c)) as [->|Hc].
    - rewrite lookup_delete_eq. apply map_size_empty_iff in H0. by rewrite H0.
    - by rewrite lookup_delete_ne.
    - by rewrite lookup_insert_eq.
    - by rewrite lookup_insert_ne. }
  split.
  + intros c'. cbn [ms_data]. destruct (Nat.eqb_spec (size (delete k col)) 0) as [H0|H0]; destruct (decide (c' = c)) as [->|Hc].
    * by rewrite lookup_delete_eq.
    * rewrite lookup_delete_ne by done. apply HI.
    * rewrite lookup_insert_eq. intros [= HE]. apply H0. by rewrite HE, map_size_empty.
    * rewrite lookup_insert_ne by done. apply HI.
  + apply map_eq. intros [c' k']. rewrite mem_view_lookup. cbn [ms_data]. rewrite HL. destruct (decide (c' = c)) as [->|Hc].
    * destruct (decide (k' = k)) as [->|Hk]; [by rewrite !lookup_delete_eq|]. rewrite !lookup_delete_ne by congruence.
      by rewrite mem_view_lookup, EC.
    * rewrite lookup_delete_ne by congruence. by rewrite mem_view_lookup.
Qed.

Lemma mem_list_law (s : MemStore) c ks : mem_inv s -> mem_List s c = Ok ks ->
  Sorted bytes_le ks /\ NoDup ks /\ forall k, k ∈ ks <-> is_Some (mem_view s !! (c, k)).
Proof.
  intros HI. unfold mem_List. intros [= <-]. set (col := match ms_data s !! c with Some c => c | None => ∅ end).
  split_and!; [apply Sorted_merge_sort; apply _|rewrite merge_sort_Permutation; apply NoDup_fst_map_to_list|].
  intros k. rewrite merge_sort_Permutation, mem_view_lookup. change (map fst) with (fmap (M := list) (@fst bytes bytes)).
  rewrite list_elem_of_fmap. split.
  + intros ([k' v] & -> & HE%elem_of_map_to_list). unfold col in HE. destruct (ms_data s !! c); cbn; [by eexists|by rewrite lookup_empty in HE].
  + intros [v HV]. exists (k, v). split; [done|]. apply elem_of_map_to_list. unfold col. by destruct (ms_data s !! c).
Qed.

#[export] Instance MemStore_laws : KVLaws MemStore := {
  kv_inv := mem_inv; kv_view := mem_view;
  kv_get_law s c k _ := or_introl (mem_get_law s c k); kv_put_law := mem_put_law; kv_delete_law := mem_delete_law; kv_list_law := mem_list_law;
}.

(** ** Histories *)

Inductive kv_op := KPut (c k v : bytes) | KDelete (c k : bytes).

Definition kv_step {S} `{KVStore S} (s : S) (o : kv_op) : res kv_error unit * S :=
  match o with KPut c k v => kv_Put s c k v | KDelete c k => kv_Delete s c k end.

Definition map_step (m : contents) (o : kv_op) : contents :=
  match o with KPut c k v => <[(c, k) := v]> m | KDelete c k => delete (c, k) m end.

(** Every call of the history succeeds, and ends in [s']. *)
Inductive kv_runs {S} `{KVStore S} : S -> list kv_op -> S -> Prop :=
| runs_nil s : kv_runs s [] s
| runs_cons s o s1 os s' : kv_step s o = (Ok tt, s1) -> kv_runs s1 os s' -> kv_runs s (o :: os) s'.

Lemma kv_runs_view {S} `{KVLaws S} (s s' : S) os : kv_inv s -> kv_runs s os s' ->
  kv_inv s' /\ kv_view s' = fold_left map_step os (kv_view s).
Proof.
  intros HI HR. induction HR as [s|s o s1 os s' HS _ IH]; [done|]. cbn [fold_left].
  assert (kv_inv s1 /\ kv_view s1 = map_step (kv_view s) o) as [HI1 <-]; [|by apply IH].
  destruct o; [by eapply kv_put_law|by eapply kv_delete_law].
Qed.

(** What was put last, and not deleted since. *)
Lemma kv_history {S} `{KVLaws S} (s s' : S) os c k : kv_inv s -> kv_view s = ∅ -> kv_runs s os s' ->
  kv_Get s' c k = kv_answer (fold_left map_step os ∅) c k \/ exists why, kv_Get s' c k = Err (BackendError why).
Proof. intros HI HE HR. destruct (kv_runs_view s s' os HI HR) as [HI' HV]. rewrite HE in HV. rewrite <- HV. by apply kv_get_law. Qed.

(** A JSON value that was put is read back, whatever is then done to other keys,
    unless the backend fails. *)
Lemma json_roundtrip {S T} `{KVLaws S} jm ju (s s1 s' : S) os c k (v : T) data : kv_inv s -> jm v = Some data -> ju data = Some v ->
  PutJSON jm s c k v = (Ok tt, s1) -> kv_runs s1 os s' ->
  Forall (fun o => match o with KPut c' k' _ | KDelete c' k' => (c', k') <> (c, k) end) os ->
  GetJSON ju s' c k = Ok v \/ exists why, GetJSON ju s' c k = Err (BackendError why).
Proof.
  intros HI HM HU HP HR HO. unfold PutJSON in HP. rewrite HM in HP. apply kv_put_law in HP as [HI1 HV1]; [|done].
  destruct (kv_runs_view s1 s' os HI1 HR) as [HI' HV]. rewrite HV1 in HV. unfold GetJSON.
  destruct (kv_get_law s' c k HI') as [->|[why ->]]; [left|right; by exists why]. unfold kv_answer. rewrite HV. clear HV HV1 HR.
  assert (forall m : contents, m !! (c, k) = Some data -> fold_left map_step os m !! (c, k) = Some data) as HF.
  { induction HO as [|o os Ho _ IH]; intros m HMk; [done|]. cbn [fold_left]. apply IH. destruct o; cbn [map_step].
    - by rewrite lookup_insert_ne.
    - by rewrite lookup_delete_ne. }
  rewrite HF by (by rewrite lookup_insert_eq). cbn [rbind]. by rewrite HU.
Qed.

Lemma NewMemStore_empty : kv_inv NewMemStore /\ kv_view NewMemStore = ∅.
Proof. split; [done|]. apply map_eq. intros [c k]. cbn. by rewrite mem_view_lookup. Qed.

Lemma mem_runs os : forall m, exists s', kv_runs m os s'.
Proof.
  induction os as [|o os IH]; intros m; [eexists; constructor|].
  assert (exists s1, kv_step m o = (Ok tt, s1)) as [s1 E].
  { destruct o as [c k v|c k]; [by eexists|]. cbn. unfold mem_Delete. destruct (ms_data m !! c); by eexists. }
  destruct (IH s1) as [s' HR]. exists s'. by econstructor.
Qed.

(** The memory store after any history: no call fails, a key holds what was put
    last unless it was deleted since, and a collection lists its keys, sorted
    and once each. *)
Theorem mem_store_exact os : exists s', kv_runs NewMemStore os s' /\ let m := fold_left map_step os ∅ in
  (forall c k, mem_Get s' c k = kv_answer m c k) /\
  (forall c, exists ks, mem_List s' c = Ok ks /\ Sorted bytes_le ks /\ NoDup ks /\ forall k, k ∈ ks <-> is_Some (m !! (c, k))).
Proof.
  destruct (mem_runs os NewMemStore) as [s' HR]. destruct NewMemStore_empty as [HI HE]. exists s'. split; [done|]. cbv zeta. split.
  - intros c k. rewrite mem_get_law. destruct (kv_runs_view _ _ _ HI HR) as [_ HV]. rewrite HE in HV. by rewrite <- HV.
  - intros c. destruct (kv_runs_view _ _ _ HI HR) as [HI' HV]. rewrite HE in HV. eexists. split; [reflexivity|]. rewrite <- HV. by apply kv_list_law.
Qed.
