(* ===== verification/SqlStore.v ===== *)
(** * The SQL store ([adapters/sql/sql.go])

    The second implementation of the store interface: one table of collections,
    keys and values.  The database is the class [SqlDB], one operation per
    statement the adapter sends, with the laws of such a table.  Two things the
    statements leave to the database are parameters of the laws: how it counts the
    rows of an update, those matched or those changed, and the collation of the
    text columns, which decides which texts are equal and how they are ordered. *)

From stdpp Require Import sorting.
From S2P Require Import Prelude Errors Strconv Path Persist.

(** ** The database *)

Class SqlDB (D : Type) := {
  db_begin : D -> option kv_error;
  q_select : D -> bytes -> bytes -> res kv_error (option bytes);        (* SELECT v WHERE collection AND k *)
  q_update : D -> bytes -> bytes -> bytes -> res kv_error Z * D;        (* UPDATE SET v; rows affected *)
  q_insert : D -> bytes -> bytes -> bytes -> res kv_error unit * D;     (* INSERT collection, k, v *)
  q_delete : D -> bytes -> bytes -> res kv_error unit * D;              (* DELETE *)
  q_keys : D -> bytes -> res kv_error (list bytes);                     (* SELECT k ORDER BY k *)
  db_commit : D -> option kv_error;
  db_close : D -> res kv_error unit * D;
}.

(** The rows an update touches: those it matched, or only those it changed. *)
Inductive row_count := Matched | Changed.

Definition affected (rc : row_count) (old : option bytes) (new : bytes) : Z :=
  match old with
  | None => 0
  | Some v => match rc with Matched => 1 | Changed => if bool_decide (v = new) then 0 else 1 end
  end.

(** A collation, by the sort key it gives a text: texts with the same sort key are
    equal, and texts are ordered as their sort keys are.  The bytewise collation
    gives a text itself. *)
Class Collation := sort_key : bytes -> bytes.

Definition coll_le `{Collation} (x y : bytes) : Prop := bytes_le (sort_key x) (sort_key y).

(** A row as it was inserted, and updated since. *)
Record row := mkRow { row_collection : bytes; row_k : bytes; row_v : bytes }.

Abbreviation table := (gmap (bytes * bytes) row).

(** A table with the primary key (collection, k), equality and order of the
    columns being those of the collation. *)
Class SqlLaws (D : Type) `{SqlDB D} `{Collation} (rc : row_count) := {
  rows : D -> table;
  rows_key d p r : rows d !! p = Some r -> p = (sort_key (row_collection r), sort_key (row_k r));
  select_law d c k ov : q_select d c k = Ok ov -> ov = row_v <$> rows d !! (sort_key c, sort_key k);
  select_error d c k e : q_select d c k = Err e -> exists why, e = BackendError why;
  select_total d c k : q_select d c k <> Panic;
  update_law d v c k n d' : q_update d v c k = (Ok n, d') ->
    n = affected rc (row_v <$> rows d !! (sort_key c, sort_key k)) v /\
    rows d' = alter (fun r => mkRow (row_collection r) (row_k r) v) (sort_key c, sort_key k) (rows d);
  insert_law d c k v d' : q_insert d c k v = (Ok tt, d') ->
    rows d !! (sort_key c, sort_key k) = None /\ rows d' = <[(sort_key c, sort_key k) := mkRow c k v]> (rows d);
  delete_law d c k d' : q_delete d c k = (Ok tt, d') -> rows d' = delete (sort_key c, sort_key k) (rows d);
  keys_law d c ks : q_keys d c = Ok ks -> Sorted coll_le ks /\
    ks ≡ₚ (fun p => row_k p.2) <$> filter (fun p => sort_key (row_collection p.2) = sort_key c) (map_to_list (rows d));
}.

(** ** The adapter *)

Definition is_alpha_ (c : byte) : bool := ((65 <=? bz c) && (bz c <=? 90)) || ((97 <=? bz c) && (bz c <=? 122)) || (bz c =? 95).

(** The expression [^[A-Za-z_][A-Za-z0-9_]*$]. *)
Definition validIdent (s : bytes) : bool :=
  match s with [] => false | c :: s => is_alpha_ c && forallb (fun c => is_alpha_ c || is_digit c) s end.

Section SqlStore.
Context {D : Type} `{SqlDB D}.

Record SqlStore := mkSql { sq_db : D; sq_table : bytes }.

Definition WithTable (name : bytes) (s : SqlStore) : SqlStore := mkSql (sq_db s) name.

(** [ok] tells that the dialect has a placeholder function. *)
Definition sql_New (db : D) (ok : bool) (opts : list (SqlStore -> SqlStore)) : option SqlStore :=
  let s := fold_left (fun s o => o s) opts (mkSql db (go "isopace_kv")) in
  if negb ok then None else if negb (validIdent (sq_table s)) then None else Some s.

(** A missing row is [store.ErrNotFound]. *)
Definition sql_Get (s : SqlStore) (collection key : bytes) : res kv_error bytes :=
  let! ov := q_select (sq_db s) collection key in
  match ov with Some v => Ok v | None => Err (StoreNotFound collection key) end.

(** What the transaction of [Put] leaves: all of it, or, after the deferred
    rollback, nothing. *)
Definition sql_Put (s : SqlStore) (collection key value : bytes) : res kv_error unit * SqlStore :=
  match db_begin (sq_db s) with
  | Some e => (Err e, s)
  | None =>
      match q_update (sq_db s) value collection key with
      | (Ok n, d1) =>
          match (if n =? 0 then q_insert d1 collection key value else (Ok tt, d1)) with
          | (Ok _, d2) => match db_commit d2 with None => (Ok tt, mkSql d2 (sq_table s)) | Some e => (Err e, s) end
          | (Err e, _) => (Err e, s)
          | (Panic, _) => (Panic, s)
          end
      | (Err e, _) => (Err e, s)
      | (Panic, _) => (Panic, s)
      end
  end.

Definition sql_Delete (s : SqlStore) (collection key : bytes) : res kv_error unit * SqlStore :=
  let '(r, d) := q_delete (sq_db s) collection key in (r, mkSql d (sq_table s)).

Definition sql_List (s : SqlStore) (collection : bytes) : res kv_error (list bytes) := q_keys (sq_db s) collection.

Definition sql_Close (s : SqlStore) : res kv_error unit * SqlStore :=
  let '(r, d) := db_close (sq_db s) in (r, mkSql d (sq_table s)).

#[export] Instance SqlStore_KVStore : KVStore SqlStore := {
  kv_Get := sql_Get; kv_Put := sql_Put; kv_Delete := sql_Delete; kv_List := sql_List; kv_Close := sql_Close;
}.

(** ** The table is a map *)

Section Laws.
Context `{!Collation} `{!SqlLaws D Matched}.

Abbreviation table_of s := (rows (rc := Matched) (sq_db s)).

(** What a put leaves in the table: an update keeps the texts of the row. *)
Definition put_row (t : table) (c k v : bytes) : table :=
  <[(sort_key c, sort_key k) := match t !! (sort_key c, sort_key k) with
    | Some r => mkRow (row_collection r) (row_k r) v
    | None => mkRow c k v
    end]> t.

Lemma sql_get_row s c k : sql_Get s c k = match table_of s !! (sort_key c, sort_key k) with Some r => Ok (row_v r) | None => Err (StoreNotFound c k) end \/
  exists why, sql_Get s c k = Err (BackendError why).
Proof.
  unfold sql_Get. destruct (q_select (sq_db s) c k) as [ov|e|] eqn:E; cbn [rbind].
  - left. apply (select_law (rc := Matched)) in E. rewrite E. by destruct (rows (sq_db s) !! _).
  - right. by destruct (select_error (rc := Matched) _ _ _ _ E) as [why ->]; exists why.
  - by apply (select_total (rc := Matched)) in E.
Qed.

(** An update that matched no row is followed by an insert. *)
Lemma sql_put_row s c k v s' : sql_Put s c k v = (Ok tt, s') -> table_of s' = put_row (table_of s) c k v.
Proof.
  unfold sql_Put, put_row. destruct (db_begin (sq_db s)); [done|].
  destruct (q_update (sq_db s) v c k) as [[n|e|] d1] eqn:EU; [|done|done]. apply (update_law (rc := Matched)) in EU as [-> HU].
  destruct (rows (sq_db s) !! (sort_key c, sort_key k)) as [r|] eqn:ER; cbn [affected fmap option_fmap option_map Z.eqb].
  - destruct (db_commit d1); [done|]. intros [= <-]. cbn [sq_db]. rewrite HU. by apply map_eq; intros q; destruct (decide (q = (sort_key c, sort_key k))) as [->|];
      [rewrite lookup_alter_eq, lookup_insert_eq, ER|rewrite lookup_alter_ne, lookup_insert_ne by done].
  - destruct (q_insert d1 c k v) as [[[]|e|] d2] eqn:EI; [|done|done]. destruct (db_commit d2); [done|]. intros [= <-].
    apply (insert_law (rc := Matched)) in EI as [_ HI]. cbn [sq_db]. rewrite HI, HU. f_equal. apply map_eq. intros q.
    destruct (decide (q = (sort_key c, sort_key k))) as [->|]; [by rewrite lookup_alter_eq, ER|by rewrite lookup_alter_ne].
Qed.

Lemma sql_delete_row s c k s' : sql_Delete s c k = (Ok tt, s') -> table_of s' = delete (sort_key c, sort_key k) (table_of s).
Proof.
  unfold sql_Delete. destruct (q_delete (sq_db s) c k) as [r d] eqn:E. intros [= -> <-]. by apply (delete_law (rc := Matched)) in E.
Qed.

(** The texts in use, [U], which the collation tells apart: the table holds for
    them what the map does, and nothing else. *)
Section Apart.
Context (U : bytes -> Prop) (HU : forall x y, U x -> U y -> sort_key x = sort_key y -> x = y).

Record holds_map (t : table) (m : contents) : Prop := {
  hm_value : forall c k, U c -> U k -> row_v <$> t !! (sort_key c, sort_key k) = m !! (c, k);
  hm_rows : forall p r, t !! p = Some r -> U (row_collection r) /\ U (row_k r);
  hm_map : forall c k, is_Some (m !! (c, k)) -> U c /\ U k;
}.

Lemma holds_put t m c k v : holds_map t m -> U c -> U k -> holds_map (put_row t c k v) (<[(c, k) := v]> m).
Proof.
  intros [H1 H2 H3] Hc Hk. unfold put_row. split.
  - intros c' k' Hc' Hk'. destruct (decide ((c', k') = (c, k))) as [[= -> ->]|Hne].
    + rewrite !lookup_insert_eq. by destruct (t !! _).
    + rewrite !lookup_insert_ne; [by apply H1|congruence|]. intros [= E1 E2]. apply Hne. f_equal; by apply HU.
  - intros p r [[_ <-]|[_ Hr]]%lookup_insert_Some; [|by eapply H2]. destruct (t !! (sort_key c, sort_key k)) as [r|] eqn:E; [|done]. by apply (H2 _ _ E).
  - intros c' k'. destruct (decide ((c', k') = (c, k))) as [[= -> ->]|Hne]; [done|]. rewrite lookup_insert_ne by congruence. apply H3.
Qed.

Lemma holds_delete t m c k : holds_map t m -> U c -> U k -> holds_map (delete (sort_key c, sort_key k) t) (delete (c, k) m).
Proof.
  intros [H1 H2 H3] Hc Hk. split.
  - intros c' k' Hc' Hk'. destruct (decide ((c', k') = (c, k))) as [[= -> ->]|Hne]; [by rewrite !lookup_delete_eq|].
    rewrite !lookup_delete_ne; [by apply H1|congruence|]. intros [= E1 E2]. apply Hne. f_equal; by apply HU.
  - intros p r [_ Hr]%lookup_delete_Some. by eapply H2.
  - intros c' k' [v [_ Hv]%lookup_delete_Some]. apply H3. by exists v.
Qed.

(** The texts of a call. *)
Definition op_texts (o : kv_op) : Prop := match o with KPut c k _ | KDelete c k => U c /\ U k end.

Lemma sql_runs_map s os s' m : kv_runs s os s' -> Forall op_texts os -> holds_map (table_of s) m -> holds_map (table_of s') (fold_left map_step os m).
Proof.
  intros HR. revert m. induction HR as [s|s o s1 os s' HS _ IH]; intros m HF HM; [done|]. apply list.Forall_cons in HF as [Ho HF]. cbn [fold_left].
  apply IH; [done|]. destruct o as [c k v|c k]; cbn in HS; destruct Ho.
  - rewrite (sql_put_row _ _ _ _ _ HS). by apply holds_put.
  - rewrite (sql_delete_row _ _ _ _ HS). by apply holds_delete.
Qed.

(** The keys of a collection, each once, in the order of the collation. *)
Lemma sql_list_keys s m c ks : holds_map (table_of s) m -> U c -> sql_List s c = Ok ks ->
  Sorted coll_le ks /\ NoDup ks /\ forall k, k ∈ ks <-> is_Some (m !! (c, k)).
Proof.
  intros [H1 H2 H3] Hc HL. apply (keys_law (rc := Matched)) in HL as [HS HP]. split; [done|].
  assert (HX : forall p r, table_of s !! p = Some r -> sort_key (row_collection r) = sort_key c -> p = (sort_key c, sort_key (row_k r)) /\ row_collection r = c).
  { intros p r Hr HE. rewrite (rows_key (rc := Matched) _ _ _ Hr), HE. split; [done|]. apply HU; [by apply (H2 _ _ Hr)|done|done]. }
  split.
  - rewrite HP. apply NoDup_fmap_2_strong; [|apply list.NoDup_filter, NoDup_map_to_list].
    intros [p r] [p' r'] [F1 I1%elem_of_map_to_list]%list_elem_of_filter [F2 I2%elem_of_map_to_list]%list_elem_of_filter E. cbn in *.
    destruct (HX _ _ I1 F1) as [-> _], (HX _ _ I2 F2) as [-> _]. rewrite E in I1 |- *. congruence.
  - intros k. rewrite HP, list_elem_of_fmap. split.
    + intros ([p r] & -> & [F I%elem_of_map_to_list]%list_elem_of_filter). cbn in *. destruct (HX _ _ I F) as [-> HCo].
      rewrite <- H1, I; [by eexists|done|]. by apply (H2 _ _ I).
    + intros HM. destruct (H3 c k HM) as [_ Hk]. destruct HM as [v HM]. rewrite <- H1 in HM by done.
      destruct (table_of s !! (sort_key c, sort_key k)) as [r|] eqn:E; [|done]. exists ((sort_key c, sort_key k), r). cbn.
      pose proof (rows_key (rc := Matched) _ _ _ E) as [= EC EK]. split; [apply HU; [done|by apply (H2 _ _ E)|done]|].
      apply list_elem_of_filter. split; [done|]. by apply elem_of_map_to_list.
Qed.
End Apart.

(** Two keys the collation takes for one: the second put replaces the first value,
    under the first key. *)
Lemma sql_conflates_keys s c k k' v v' s1 s2 : sort_key k = sort_key k' ->
  sql_Put s c k v = (Ok tt, s1) -> sql_Put s1 c k' v' = (Ok tt, s2) ->
  sql_Get s2 c k = Ok v' \/ exists why, sql_Get s2 c k = Err (BackendError why).
Proof.
  intros HE H1%sql_put_row H2%sql_put_row. destruct (sql_get_row s2 c k) as [->|?]; [left|by right]. rewrite H2. unfold put_row. rewrite HE, lookup_insert_eq.
  by destruct (table_of s1 !! _).
Qed.
End Laws.

(** Over a database that counts the rows it changed, the value a key already has
    cannot be put again. *)
Theorem sql_same_value_fails `{!Collation} `{!SqlLaws D Changed} s c k v :
  row_v <$> rows (rc := Changed) (sq_db s) !! (sort_key c, sort_key k) = Some v -> forall s', sql_Put s c k v <> (Ok tt, s').
Proof.
  intros ER s'. unfold sql_Put. destruct (db_begin (sq_db s)); [done|].
  destruct (q_update (sq_db s) v c k) as [[n|e|] d1] eqn:EU; [|done|done]. apply (update_law (rc := Changed)) in EU as [-> HU].
  rewrite ER. cbn [affected]. rewrite bool_decide_true by done. cbn [Z.eqb].
  destruct (q_insert d1 c k v) as [[[]|e|] d2] eqn:EI; [|done|done]. apply (insert_law (rc := Changed)) in EI as [HN _].
  rewrite HU, lookup_alter_eq in HN. by destruct (rows (sq_db s) !! (sort_key c, sort_key k)).
Qed.
End SqlStore.

(** ** A table *)

(** A table held in memory, which never fails but for its primary key. *)
Section Table.
Context `{Collation}.

#[local] Instance coll_le_dec : RelDecision coll_le.
Proof. intros x y. unfold coll_le. apply _. Defined.

#[local] Instance coll_le_total : Total coll_le.
Proof. intros x y. unfold coll_le. apply (total bytes_le). Qed.

Definition table_keys (d : table) (c : bytes) : list bytes :=
  merge_sort coll_le ((fun p => row_k p.2) <$> filter (fun p => sort_key (row_collection p.2) = sort_key c) (map_to_list d)).

(** Tables whose rows are where they belong. *)
Record kept_table := mkStored { st_rows : table; st_ok : bool_decide (map_Forall (fun p r => p = (sort_key (row_collection r), sort_key (row_k r))) st_rows) }.

Definition store_rows (d : table) (H : map_Forall (fun p r => p = (sort_key (row_collection r), sort_key (row_k r))) d) : kept_table :=
  mkStored d (bool_decide_pack _ H).

Lemma stored_key (d : kept_table) p r : st_rows d !! p = Some r -> p = (sort_key (row_collection r), sort_key (row_k r)).
Proof. destruct d as [t Ht]. cbn. apply bool_decide_unpack in Ht. apply Ht. Qed.

Lemma stored_alter (d : kept_table) p v : map_Forall (fun p r => p = (sort_key (row_collection r), sort_key (row_k r)))
  (alter (fun r => mkRow (row_collection r) (row_k r) v) p (st_rows d)).
Proof. intros q r [(-> & r0 & E & ->)|[_ E]]%lookup_alter_Some; by apply stored_key in E. Qed.

Lemma stored_insert (d : kept_table) c k v : map_Forall (fun p r => p = (sort_key (row_collection r), sort_key (row_k r)))
  (<[(sort_key c, sort_key k) := mkRow c k v]> (st_rows d)).
Proof. intros q r [[<- <-]|[_ E]]%lookup_insert_Some; [done|]. by apply stored_key in E. Qed.

Lemma stored_delete (d : kept_table) p : map_Forall (fun p r => p = (sort_key (row_collection r), sort_key (row_k r))) (delete p (st_rows d)).
Proof. intros q r [_ E]%lookup_delete_Some. by apply stored_key in E. Qed.

Lemma stored_empty : map_Forall (fun p r => p = (sort_key (row_collection r), sort_key (row_k r))) (∅ : table).
Proof. apply map_Forall_empty. Qed.

Definition table_db (rc : row_count) : SqlDB kept_table := {|
  db_begin _ := None;
  q_select d c k := Ok (row_v <$> st_rows d !! (sort_key c, sort_key k));
  q_update d v c k := (Ok (affected rc (row_v <$> st_rows d !! (sort_key c, sort_key k)) v), store_rows _ (stored_alter d (sort_key c, sort_key k) v));
  q_insert d c k v := match st_rows d !! (sort_key c, sort_key k) with
    | None => (Ok tt, store_rows _ (stored_insert d c k v))
    | Some _ => (Err (BackendError (go "duplicate key")), d)
    end;
  q_delete d c k := (Ok tt, store_rows _ (stored_delete d (sort_key c, sort_key k)));
  q_keys d c := Ok (table_keys (st_rows d) c);
  db_commit _ := None;
  db_close d := (Ok tt, d);
|}.

Definition table_laws (rc : row_count) : @SqlLaws kept_table (table_db rc) _ rc.
Proof.
  refine (@Build_SqlLaws kept_table (table_db rc) _ rc st_rows _ _ _ _ _ _ _ _); cbn.
  - apply stored_key.
  - by intros d c k ov [= <-].
  - done.
  - done.
  - by intros d v c k n d' [= <- <-].
  - intros d c k v d'. destruct (st_rows d !! _); [done|]. by intros [= <-].
  - by intros d c k d' [= <-].
  - intros d c ks [= <-]. unfold table_keys. split; [apply Sorted_merge_sort; apply _|apply merge_sort_Permutation].
Defined.

Definition empty_table : SqlStore (D := kept_table) := mkSql (store_rows ∅ stored_empty) (go "isopace_kv").

Lemma table_runs os : forall s, exists s', @kv_runs _ (@SqlStore_KVStore _ (table_db Matched)) s os s'.
Proof.
  induction os as [|o os IH]; intros s; [eexists; constructor|].
  assert (exists s1, @kv_step _ (@SqlStore_KVStore _ (table_db Matched)) s o = (Ok tt, s1)) as [s1 E].
  { destruct o as [c k v|c k]; [|by eexists]. cbn. unfold sql_Put. cbn. destruct (st_rows (sq_db s) !! (sort_key c, sort_key k)) as [v0|] eqn:ER; cbn; [by eexists|].
    rewrite lookup_alter_eq, ER. by eexists. }
  destruct (IH s1) as [s' HR]. exists s'. by econstructor.
Qed.
End Table.

(** ** Two stores *)

Lemma sorted_keys_unique ks ks' : Sorted bytes_le ks -> Sorted bytes_le ks' -> ks ≡ₚ ks' -> ks = ks'.
Proof. intros H1 H2 HE. by apply (Sorted_unique bytes_le). Qed.

Lemma Sorted_weaken {A} (R R' : A -> A -> Prop) (P : A -> Prop) l : (forall x y, P x -> P y -> R x y -> R' x y) -> Forall P l -> Sorted R l -> Sorted R' l.
Proof.
  intros HR HP HS. induction HS as [|x l HS IH HH]; [constructor|]. apply list.Forall_cons in HP as [Hx HP]. constructor; [by apply IH|].
  destruct HH as [|y l Hy]; constructor. apply list.Forall_cons in HP as [? _]. by apply HR.
Qed.

(** C19: the stores are interchangeable, as far as the database's collation
    tells the texts apart.  Take an SQL store over an empty table, in a database
    that counts the rows its updates match and whose collation takes no two of
    the collections and keys in use for equal (true of any texts when it is
    bytewise), and any history of puts and deletes on them that the database
    lets through.  The in-memory store runs the same history, and afterwards
    both answer [Get] alike, except that the database may fail, and [List] the
    same keys, each once, the SQL store in the order of the collation; the lists
    are the same when the collation orders the texts in use as bytes do. *)
Theorem stores_agree {D} `{SqlDB D} `{Collation} `{!SqlLaws D Matched} (U : bytes -> Prop) (s s' : SqlStore (D := D)) os :
  (forall x y, U x -> U y -> sort_key x = sort_key y -> x = y) ->
  rows (rc := Matched) (sq_db s) = ∅ -> Forall (op_texts U) os -> kv_runs s os s' ->
  exists m', kv_runs NewMemStore os m' /\
    (forall c k, U c -> U k -> sql_Get s' c k = mem_Get m' c k \/ exists why, sql_Get s' c k = Err (BackendError why)) /\
    (forall c ks, U c -> sql_List s' c = Ok ks -> exists ms, mem_List m' c = Ok ms /\ ks ≡ₚ ms /\ NoDup ks /\ Sorted coll_le ks /\
       ((forall x y, U x -> U y -> coll_le x y -> bytes_le x y) -> ks = ms)).
Proof.
  intros HU HE HF HR. destruct (mem_runs os NewMemStore) as [m' HM]. destruct NewMemStore_empty as [HI0 HE0].
  destruct (kv_runs_view _ _ _ HI0 HM) as [HIm HVm]. rewrite HE0 in HVm. change (kv_view m') with (mem_view m') in HVm.
  assert (HH : holds_map U (rows (rc := Matched) (sq_db s')) (mem_view m')).
  { rewrite HVm. eapply sql_runs_map; [done|done|done|]. rewrite HE. split; [intros; by rewrite !lookup_empty|by intros p r ?%lookup_empty_Some|].
    intros c k [v Hv]. by rewrite lookup_empty in Hv. }
  exists m'. split; [done|]. split.
  - intros c k Hc Hk. destruct (sql_get_row s' c k) as [->|?]; [left|by right]. rewrite mem_get_law. unfold kv_answer.
    rewrite <- (hm_value _ _ _ HH c k Hc Hk). by destruct (rows (sq_db s') !! _).
  - intros c ks Hc HL. destruct (sql_list_keys U HU s' _ c ks HH Hc HL) as (S1 & N1 & K1). destruct (kv_list_law m' c _ HIm eq_refl) as (S2 & N2 & K2).
    change (kv_view m') with (mem_view m') in K2. eexists. split; [reflexivity|]. set (ms := merge_sort _ _) in *.
    assert (HP : ks ≡ₚ ms) by (apply NoDup_Permutation; [done|done|]; intros k; by rewrite K1, K2). split_and!; [done..|]. intros HO.
    apply sorted_keys_unique; [|done|done]. eapply Sorted_weaken; [exact HO| |exact S1]. apply list.Forall_forall. intros k Hk.
    by apply K1, (hm_map _ _ _ HH) in Hk as [_ ?].
Qed.

(** The bytewise collation, and one that takes capitals for small letters. *)
Definition bytewise : Collation := fun x => x.
Definition caseless : Collation := fun x => map (fun c => if (65 <=? bz c) && (bz c <=? 90) then zb (bz c + 32) else c) x.

Definition sample_puts : list kv_op := [KPut (go "card") (go "1") (go "a"); KPut (go "card") (go "1") (go "a"); KPut (go "card") (go "0") (go "b")].

Lemma stores_agree_witness : exists s' m', @kv_runs _ (@SqlStore_KVStore _ (@table_db bytewise Matched)) (@empty_table bytewise) sample_puts s' /\
  kv_runs NewMemStore sample_puts m' /\ @sql_Get _ (@table_db bytewise Matched) s' (go "card") (go "1") = mem_Get m' (go "card") (go "1") /\
  @sql_List _ (@table_db bytewise Matched) s' (go "card") = mem_List m' (go "card").
Proof.
  destruct (@table_runs bytewise sample_puts (@empty_table bytewise)) as [s' HS].
  destruct (@stores_agree kept_table (@table_db bytewise Matched) bytewise (@table_laws bytewise Matched) (fun _ => True) (@empty_table bytewise) s' sample_puts)
    as (m' & HR & HG & HL).
  - intros x y _ _ HE. exact HE.
  - reflexivity.
  - repeat constructor.
  - exact HS.
  - exists s', m'. split; [exact HS|]. split; [exact HR|]. split.
    + destruct (HG (go "card") (go "1") Logic.I Logic.I) as [HE|[why HE]]; [exact HE|]. unfold sql_Get in HE. cbn in HE.
      destruct (row_v <$> st_rows (sq_db s') !! _); discriminate HE.
    + destruct (HL (go "card") _ Logic.I eq_refl) as (ms & EM & _ & _ & _ & HX). rewrite EM. unfold sql_List. cbn. f_equal. apply HX. intros x y _ _ HXY. exact HXY.
Defined.

(** A database that compares texts without regard to case keeps one value for two
    keys. *)
Lemma caseless_conflates : exists s', @kv_runs _ (@SqlStore_KVStore _ (@table_db caseless Matched)) (@empty_table caseless)
    [KPut (go "card") (go "a1") (go "x"); KPut (go "card") (go "A1") (go "y")] s' /\
  @sql_Get _ (@table_db caseless Matched) s' (go "card") (go "a1") = Ok (go "y") /\
  @sql_List _ (@table_db caseless Matched) s' (go "card") = Ok [go "a1"].
Proof.
  eexists. split; [econstructor; [reflexivity|]; econstructor; [reflexivity|constructor]|]. split; vm_compute; reflexivity.
Qed.
