(* ===== verification/Bind.v ===== *)
(** * Typed getters and struct binding ([iso8583/get.go], [iso8583/bind.go])

    The reflection of the code is a description of the Go types it looks at:
    [GoType], the values of those types and the struct tags.  A plan is built
    from a struct type and a schema, reads a message into a struct value and
    writes one from it.  [time.Parse] and [Time.Format] are parameters.  The path
    cache of [ParsePath] does not change what is parsed ([Path]), and the cache
    of plans returns what it would build again. *)

From S2P Require Import Prelude Errors Strconv Bitmap Decimal Path Schema LengthCodec BitmapCodec Value FieldCodec Message BerTlv Engine Layout Wire Access Invariant Store EndToEnd Validate GoStrings Shown Protobuf.

(** ** Go types and values *)

Inductive int_width := Wint | W8 | W16 | W32 | W64.
Definition width_bits (w : int_width) : Z := match w with Wint => 64 | W8 => 8 | W16 => 16 | W32 => 32 | W64 => 64 end.

(** What reflection says of a struct field, besides its type. *)
Record sf_info := mkSF { sf_Name : bytes; sf_Tag : option bytes; sf_Exported : bool }.

(** [named] tells a defined type (say, [type PAN string]) from its underlying one. *)
Inductive GoType :=
| TString (named : bool)
| TInt (w : int_width) (named : bool)
| TUint (w : int_width) (named : bool)
| TBytes (named : bool)
| TSlice
| TDecimal
| TAmount
| TTime
| TBitmap
| TMessage
| TStruct (fields : list (sf_info * GoType))
| TOther.

Section Bind.
Context {Time : Type} (time_Parse : bytes -> bytes -> option Time) (time_Format : Time -> bytes -> bytes).

Inductive GoValue :=
| VString (b : bytes)
| VInt (n : Z)
| VUint (n : Z)
| VBytes (b : bytes)
| VDecimal (d : Decimal)
| VAmount (a : Amount)
| VTime (t : Time)
| VMessage (l : loc)
| VStruct (fields : list GoValue)
| VOther.

(** [reflect.Value.SetInt] and [SetUint]: the value is cut to the width of the
    field. *)
Definition wrap_int (w : int_width) (n : Z) : Z :=
  let b := width_bits w in (n + 2 ^ (b - 1)) mod 2 ^ b - 2 ^ (b - 1).
Definition wrap_uint (w : int_width) (n : Z) : Z := n mod 2 ^ width_bits w.

(** ** Typed getters ([get.go]) *)

Definition withPath (err : error) (p : FieldPath) : error :=
  match err with
  | FieldError q off name cause => if path_IsZero q then FieldError p off name cause else err
  | _ => FieldError p (-1) [] err
  end.

Definition timeLayout (n : Z) : option bytes :=
  if n =? 14 then Some (go "20060102150405") else if n =? 12 then Some (go "060102150405")
  else if n =? 10 then Some (go "0102150405") else if n =? 6 then Some (go "150405")
  else if n =? 4 then Some (go "0102") else None.

Definition parse_time (v : Value) (layout : bytes) : result Time :=
  match time_Parse layout (v_raw v) with
  | Some t => Ok t
  | None => Err (FieldError empty_path (v_off v) [] (errorText (go "parsing time")))
  end.

Definition decodeTime (v : Value) : result Time :=
  match timeLayout (len (v_raw v)) with
  | Some layout => parse_time v layout
  | None => Err (FieldError empty_path (v_off v) [] errWrongKind)
  end.

Definition convert (t : GoType) (ov : option Value) (p : FieldPath) : result GoValue :=
  match ov with
  | None => Err (FieldError p (-1) [] errNotPresent)
  | Some v =>
      let wrong : result GoValue := Err (FieldError p (v_off v) [] errWrongKind) in
      match t with
      | TDecimal => let! d := rmap_err (fun e => withPath e p) (Value_Decimal v) in Ok (VDecimal d)
      | TAmount => let! d := rmap_err (fun e => withPath e p) (Value_Decimal v) in Ok (VAmount (mkAmount d []))
      | TTime => let! x := rmap_err (fun e => withPath e p) (decodeTime v) in Ok (VTime x)
      | TBitmap => wrong
      | TMessage => match Value_Composite v with Some sub => Ok (VMessage sub) | None => Err (FieldError p (v_off v) [] errNoComposite) end
      | TString _ => let! s := rmap_err (fun e => withPath e p) (Value_String v) in Ok (VString s)
      | TInt W64 _ => let! n := rmap_err (fun e => withPath e p) (Value_Int v) in Ok (VInt n)
      | TUint W64 _ => let! u := rmap_err (fun e => withPath e p) (Value_Uint v) in Ok (VUint u)
      | TBytes _ => Ok (VBytes (v_raw v))
      | _ => wrong
      end
  end.

Definition typed_Get (t : GoType) (l : loc) (de : Z) : ST GoValue :=
  let* v := Get l de in slift (convert t v (DE de)).
Definition typed_GetP (t : GoType) (l : loc) (p : FieldPath) : ST GoValue :=
  let* v := GetP l p in slift (convert t v p).

(** A path as text. *)
Definition parse_text (s : bytes) : result FieldPath := if bool_decide (s = []) then Err ErrEmptyPath else parsePathUncached s.

Definition typed_GetS (t : GoType) (l : loc) (s : bytes) : ST GoValue :=
  let* p := slift (parse_text s) in typed_GetP t l p.

(** ** Plans ([bind.go]) *)

Record bf_info := mkBF { bf_index : nat; bf_exported : bool; bf_path : FieldPath; bf_typ : GoType; bf_format : bytes }.

Inductive bindPlan := Plan (fields : list (bf_info * option bindPlan)).

Inductive bind_error :=
| BindNotStruct
| BindPath (field : bytes) (e : error)
| BindNoField (field path : bytes)
| BindNotComposite (field path : bytes)
| BindNeedsStruct (field : bytes).

(** The struct types that are values of a field. *)
Definition isScalarStruct (t : GoType) : bool := match t with TDecimal | TAmount | TTime => true | _ => false end.

(** The fields of a type of kind struct that is none of those. *)
Definition struct_fields (t : GoType) : option (list (sf_info * GoType)) :=
  match t with TStruct fs => Some fs | TBitmap => Some [] | _ => None end.

Definition splitTag (tag : bytes) : bytes * bytes :=
  match Split tag x2c with
  | [] => ([], [])
  | path :: opts =>
      (path, fold_left (fun format opt => if has_prefix opt (go "format=") then TrimPrefix opt (go "format=") else format) opts [])
  end.

(** The loop over the fields of a struct type; [build] is [buildPlan]. *)
Section PlanLoop.
Context (build : Schema -> GoType -> res bind_error bindPlan) (s : Schema).
Fixpoint plan_loop (i : nat) (fs : list (sf_info * GoType)) (acc : list (bf_info * option bindPlan)) : res bind_error bindPlan :=
  match fs with
  | [] => Ok (Plan acc)
  | (sf, typ) :: fs =>
      match sf_Tag sf with
      | None | Some [] => plan_loop (S i) fs acc
      | Some tag =>
          let '(pathStr, format) := splitTag tag in
          match parse_text pathStr with
          | Err e => Err (BindPath (sf_Name sf) e)
          | Panic => Panic
          | Ok path =>
              match Schema_Lookup s path with
              | None => Err (BindNoField (sf_Name sf) pathStr)
              | Some def =>
                  let bf := mkBF i (sf_Exported sf) path typ format in
                  match typ with
                  | TStruct _ | TBitmap =>
                      match fd_Sub def with
                      | None => Err (BindNotComposite (sf_Name sf) pathStr)
                      | Some sub =>
                          match build sub typ with
                          | Ok nested => plan_loop (S i) fs (acc ++ [(bf, Some nested)])
                          | Err e => Err e
                          | Panic => Panic
                          end
                      end
                  | _ =>
                      if bool_decide (fd_Kind def = KindComposite) then Err (BindNeedsStruct (sf_Name sf))
                      else plan_loop (S i) fs (acc ++ [(bf, None)])
                  end
              end
          end
      end
  end.
End PlanLoop.

Fixpoint buildPlan (s : Schema) (t : GoType) : res bind_error bindPlan :=
  match t with
  | TStruct fields => plan_loop buildPlan s O fields []
  | TBitmap => Ok (Plan [])
  | _ => Err BindNotStruct
  end.

(** [planFor], without its cache. *)
Definition planFor (s : Schema) (t : GoType) : res bind_error bindPlan :=
  match t with TStruct _ | TBitmap => buildPlan s t | TDecimal | TAmount | TTime => Ok (Plan []) | _ => Err BindNotStruct end.

Definition layoutFor (format : bytes) : bytes :=
  if bool_decide (format = go "hhmmss") then go "150405"
  else if bool_decide (format = go "hhmm") then go "1504"
  else if bool_decide (format = go "MMDD") then go "0102"
  else if bool_decide (format = go "MMDDhhmmss") then go "0102150405"
  else if bool_decide (format = go "YYMMDDhhmmss") then go "060102150405"
  else if bool_decide (format = go "YYYYMMDDhhmmss") then go "20060102150405"
  else [].

Definition decodeTimeLayout (v : Value) (format : bytes) : result Time :=
  if bool_decide (format = []) then decodeTime v else
  match layoutFor format with
  | [] => Err (FieldError empty_path (v_off v) [] (errorText (go "unknown time format")))
  | layout => parse_time v layout
  end.

(** ** Reading into a struct *)

(** The value a field is set to; setting a field that is not exported panics. *)
Definition setField (bf : bf_info) (v : Value) : result GoValue :=
  let p := bf_path bf in
  let wrong : result GoValue := Err (FieldError p (-1) [] errWrongKind) in
  let! x :=
    match bf_typ bf with
    | TDecimal => let! d := rmap_err (fun e => withPath e p) (Value_Decimal v) in Ok (VDecimal d)
    | TAmount => let! d := rmap_err (fun e => withPath e p) (Value_Decimal v) in Ok (VAmount (mkAmount d []))
    | TTime => let! x := rmap_err (fun e => withPath e p) (decodeTimeLayout v (bf_format bf)) in Ok (VTime x)
    | TString _ => let! s := rmap_err (fun e => withPath e p) (Value_String v) in Ok (VString s)
    | TInt w _ => let! n := rmap_err (fun e => withPath e p) (Value_Int v) in Ok (VInt (wrap_int w n))
    | TUint w _ => let! u := rmap_err (fun e => withPath e p) (Value_Uint v) in Ok (VUint (wrap_uint w u))
    | TBytes _ => Ok (VBytes (v_raw v))
    | _ => wrong
    end in
  if bf_exported bf then Ok x else Panic.

(** [FieldByIndex] and the update of a field. *)
Definition field_at (dst : GoValue) (i : nat) : result GoValue :=
  match dst with VStruct fs => match fs !! i with Some x => Ok x | None => Panic end | _ => Panic end.
Definition store_field (dst : GoValue) (i : nat) (x : GoValue) : GoValue :=
  match dst with VStruct fs => VStruct (<[i := x]> fs) | _ => dst end.

(** Reading stops at the first error; what was read before stays in the struct.
    [nest] is the reading of a nested plan. *)
Section ReadLoop.
Context (nest : bindPlan -> loc -> GoValue -> heap -> result unit * GoValue * heap) (l : loc).
Fixpoint unmarshal_loop (fs : list (bf_info * option bindPlan)) (dst : GoValue) (h : heap) : result unit * GoValue * heap :=
  match fs with
  | [] => (Ok tt, dst, h)
  | (bf, nested) :: fs =>
      match field_at dst (bf_index bf) with
      | Ok fv =>
          match GetP l (bf_path bf) h with
          | (Err e, h) => (Err e, dst, h)
          | (Panic, h) => (Panic, dst, h)
          | (Ok None, h) => unmarshal_loop fs dst h
          | (Ok (Some v), h) =>
              match nested with
              | Some nested =>
                  match Value_Composite v with
                  | None => unmarshal_loop fs dst h
                  | Some sub =>
                      match nest nested sub fv h with
                      | (Ok _, fv, h) => unmarshal_loop fs (store_field dst (bf_index bf) fv) h
                      | (r, fv, h) => (r, store_field dst (bf_index bf) fv, h)
                      end
                  end
              | None =>
                  match setField bf v with
                  | Ok x => unmarshal_loop fs (store_field dst (bf_index bf) x) h
                  | Err e => (Err e, dst, h)
                  | Panic => (Panic, dst, h)
                  end
              end
          end
      | Err e => (Err e, dst, h)
      | Panic => (Panic, dst, h)
      end
  end.
End ReadLoop.

Fixpoint plan_unmarshal (p : bindPlan) (l : loc) (dst : GoValue) (h : heap) : result unit * GoValue * heap :=
  match p with
  | Plan fields => unmarshal_loop plan_unmarshal l fields dst h
  end.

(** ** Writing from a struct *)

(** [fv.Interface()] as [Set] sees it: only some types are known there. *)
Definition any_of (t : GoType) (x : GoValue) : any :=
  match t, x with
  | TString false, VString b => anyString b
  | TInt Wint false, VInt n => anyInt n
  | TInt W64 false, VInt n => anyInt64 n
  | TUint W64 false, VUint n => anyUint64 n
  | TBytes false, VBytes b => anyBytes b
  | TDecimal, VDecimal d => anyDecimal d
  | TAmount, VAmount a => anyAmount a
  | _, _ => anyOther []
  end.

Definition fieldToSet (bf : bf_info) (fv : GoValue) : result any :=
  if negb (bf_exported bf) then Panic else
  match bf_typ bf, fv with
  | TTime, VTime t =>
      match layoutFor (bf_format bf) with
      | [] => Err (FieldError (bf_path bf) (-1) [] (errorText (go "time field needs a format= tag to marshal")))
      | layout => Ok (anyString (time_Format t layout))
      end
  | t, _ => Ok (any_of t fv)
  end.

Fixpoint plan_fill (fields : list (bf_info * option bindPlan)) (l : loc) (src : GoValue) : ST unit :=
  match fields with
  | [] => sret tt
  | (bf, nested) :: fields =>
      let* fv := slift (field_at src (bf_index bf)) in
      match nested with
      | Some _ => sfail (FieldError (bf_path bf) (-1) []
                    (errorText (go "nested composite write " ++ quote (path_String (bf_path bf)) ++ go " not yet supported")))
      | None =>
          let* x := slift (fieldToSet bf fv) in
          let* _ := SetP l (bf_path bf) x in
          plan_fill fields l src
      end
  end.

Definition plan_marshal (p : bindPlan) (s : Schema) (src : GoValue) : ST loc :=
  match p with
  | Plan fields =>
      let* l := halloc (New s) in
      let* _ := plan_fill fields l src in
      sret l
  end.

(** ** The binder and the codec's entry points *)

(** A tag that cannot be bound panics. *)
Definition NewBinder (s : Schema) (t : GoType) : option bindPlan :=
  match planFor s t with Ok plan => Some plan | _ => None end.

Inductive codec_bind_error := PlanError (e : bind_error) | MessageError (e : error).

Definition Bind (c : Codec) (wire : bytes) (t : GoType) (dst : GoValue) (h : heap) : res codec_bind_error unit * GoValue * heap :=
  match UnmarshalNew c wire h with
  | (Err e, h) => (Err (MessageError e), dst, h)
  | (Panic, h) => (Panic, dst, h)
  | (Ok l, h) =>
      match planFor (c_schema c) t with
      | Err e => (Err (PlanError e), dst, h)
      | Panic => (Panic, dst, h)
      | Ok plan => let '(r, dst, h) := plan_unmarshal plan l dst h in (rmap_err MessageError r, dst, h)
      end
  end.

Definition codec_Pack (c : Codec) (t : GoType) (src : GoValue) (h : heap) : res codec_bind_error bytes * heap :=
  match planFor (c_schema c) t with
  | Err e => (Err (PlanError e), h)
  | Panic => (Panic, h)
  | Ok plan =>
      let '(r, h) := (let* l := plan_marshal plan (c_schema c) src in MarshalAt c l []) h in (rmap_err MessageError r, h)
  end.

(** ** What a plan binds *)

Definition plan_fields (p : bindPlan) : list (bf_info * option bindPlan) := match p with Plan fs => fs end.
Definition plan_indexes (p : bindPlan) : list nat := (fun f => bf_index f.1) <$> plan_fields p.

(** The entries of a plan have the positions of their fields, in order. *)
Lemma plan_loop_indexes build s fs : forall i acc p, plan_loop build s i fs acc = Ok p ->
  NoDup (plan_indexes (Plan acc)) -> Forall (fun j => (j < i)%nat) (plan_indexes (Plan acc)) -> NoDup (plan_indexes p).
Proof.
  induction fs as [|[sf typ] fs IH]; intros i acc p HP HN HF; cbn [plan_loop] in HP; [by injection HP as <-|].
  assert (HSkip : plan_loop build s (S i) fs acc = Ok p -> NoDup (plan_indexes p)).
  { intros HS. eapply IH; [exact HS|done|]. eapply list.Forall_impl; [exact HF|]. cbn. intros; lia. }
  assert (HAdd : forall bf n, bf_index bf = i -> plan_loop build s (S i) fs (acc ++ [(bf, n)]) = Ok p -> NoDup (plan_indexes p)).
  { intros bf n HI HS. eapply IH; [exact HS|..]; unfold plan_indexes in *; cbn [plan_fields] in *; rewrite fmap_app; cbn; rewrite HI.
    - apply list.NoDup_app. split; [done|]. split; [|apply NoDup_singleton]. intros j Hj ->%list_elem_of_singleton.
      rewrite list.Forall_forall in HF. specialize (HF _ Hj). lia.
    - apply list.Forall_app. split; [eapply list.Forall_impl; [exact HF|]; cbn; intros; lia|]. apply list.Forall_cons. split; [lia|done]. }
  repeat case_match; try discriminate; first [by apply HSkip|eapply HAdd; [|exact HP]; reflexivity].
Qed.

Lemma buildPlan_indexes s t p : buildPlan s t = Ok p -> NoDup (plan_indexes p).
Proof.
  destruct t; cbn [buildPlan]; try discriminate.
  - intros [= <-]. apply NoDup_nil_2.
  - intros HP. eapply plan_loop_indexes; [exact HP|apply NoDup_nil_2|done].
Qed.

(** A struct value that a field of this definition carries: the kinds that keep
    the text, the number or the amount, and the times their layout keeps. *)
Definition carried (d : FieldDef) (bf : bf_info) (x : GoValue) : Prop :=
  let textual := fd_Kind d = KindString \/ fd_Kind d = KindNumeric \/ fd_Kind d = KindBytes in
  match bf_typ bf, x with
  | TString false, VString b => textual
  | TInt (Wint | W64) false, VInt n => int64 n /\ (fd_Kind d = KindString \/ fd_Kind d = KindNumeric \/ fd_Kind d = KindAmount)
  | TUint W64 false, VUint n => uint64 n /\ (fd_Kind d = KindString \/ fd_Kind d = KindNumeric)
  | TBytes false, VBytes b => True
  | TDecimal, VDecimal _ => True
  | TAmount, VAmount a => amt_Currency a = []
  | TTime, VTime t => textual /\ layoutFor (bf_format bf) <> [] /\
      time_Parse (layoutFor (bf_format bf)) (time_Format t (layoutFor (bf_format bf))) = Some t
  | _, _ => False
  end.

(** A bound scalar field: an exported field of the struct, a data element of the
    schema, and a value it carries. *)
Definition bound (s : Schema) (xs : list GoValue) (f : bf_info * option bindPlan) (de : Z) : Prop :=
  f.2 = None /\ bf_exported f.1 = true /\ bf_path f.1 = mkFieldPath [mkPathElem de []] /\ 0 <= de <= s_maxDE s /\
  exists d x, Schema_Field s de = Some d /\ xs !! bf_index f.1 = Some x /\ carried d f.1 x.

Lemma wrap_int_64 w n : w = Wint \/ w = W64 -> int64 n -> wrap_int w n = n.
Proof.
  intros Hw Hn. unfold wrap_int. assert (width_bits w = 64) as -> by (by destruct Hw; subst). unfold int64 in Hn.
  change (64 - 1) with 63. rewrite Z.mod_small; lia.
Qed.

Lemma FormatInt_ne n : FormatInt n <> [].
Proof. unfold FormatInt. destruct (n <? 0); [done|apply FormatUint_ne]. Qed.

Lemma parseInt_FormatInt n : int64 n -> parseInt (FormatInt n) = Ok n.
Proof.
  intros Hn. unfold parseInt. pose proof (FormatInt_ne n). destruct (FormatInt n) eqn:E; [done|]. rewrite <- E.
  replace (len (FormatInt n) =? 0) with false by (rewrite E; symmetry; apply Z.eqb_neq; unfold len; cbn [length]; lia).
  by apply ParseInt_FormatInt.
Qed.

Lemma parseUint_FormatUint n : uint64 n -> parseUint (FormatUint n) = Ok n.
Proof.
  intros Hn. unfold parseUint. pose proof (FormatUint_ne n). destruct (FormatUint n) eqn:E; [done|]. rewrite <- E.
  replace (len (FormatUint n) =? 0) with false by (rewrite E; symmetry; apply Z.eqb_neq; unfold len; cbn [length]; lia).
  apply ParseUint_FormatUint. unfold uint64 in Hn. lia.
Qed.

(** What is set for a carried value, and what reading it gives back. *)
Lemma carried_stored d bf x : carried d bf x -> bf_exported bf = true ->
  exists a v, fieldToSet bf x = Ok a /\ makeValue (Some d) a = Ok v /\ setField bf (set_v_codec v (fd_Codec d)) = Ok x.
Proof.
  unfold carried, fieldToSet, setField. intros HC ->. cbn [negb].
  destruct (bf_typ bf) as [[]|w []|w []|[]| | | | | | |fs|]; try done; destruct x as [b|n|n|b|dc|am|t|l|fs'|]; try done; try (by destruct w); cbn [any_of].
  - exists (anyString b). unfold makeValue, scalarFromBytes.
    destruct HC as [->|[->| ->]]; cbn; eexists; (split; [reflexivity|]); split; reflexivity.
  - assert (HA : exists a, any_of (TInt w false) (VInt n) = a /\ forall o, makeValue o a = scalarFromInt (match o with
        | Some d => if bool_decide (fd_Kind d = KindInvalid) then KindString else fd_Kind d | None => KindString end) n)
      by (destruct w; try done; eexists; split; reflexivity).
    assert (Hw : w = Wint \/ w = W64) by (destruct w; try done; tauto).
    destruct HA as (a & HE & HM). exists a. cbn [any_of] in HE. rewrite HM.
    assert (HI : int64 n) by (destruct w; try done; tauto).
    assert (HK : fd_Kind d = KindString \/ fd_Kind d = KindNumeric \/ fd_Kind d = KindAmount) by (destruct w; try done; tauto).
    destruct HK as [->|[->| ->]]; cbn; eexists; (split; [by rewrite HE|]); (split; [reflexivity|]); unfold Value_Int; cbn -[wrap_int];
      rewrite ?parseInt_FormatInt by done; cbn -[wrap_int]; rewrite ?bool_decide_false by done; cbn -[wrap_int]; by rewrite wrap_int_64.
  - destruct w; try done. destruct HC as [HU HK]. exists (anyUint64 n). unfold makeValue.
    destruct HK as [->| ->]; cbn -[FormatUint]; eexists; (split; [reflexivity|]); (split; [reflexivity|]); unfold Value_Uint; cbn -[wrap_uint parseUint FormatUint];
      rewrite ?bool_decide_false by done; cbn -[wrap_uint parseUint FormatUint]; rewrite parseUint_FormatUint by done; rewrite ?bool_decide_false by done; cbn -[wrap_uint parseUint FormatUint]; unfold wrap_uint; rewrite Z.mod_small by done; done.
  - exists (anyBytes b). cbn [makeValue]. eexists. split; [done|]. split; reflexivity.
  - exists (anyDecimal dc). cbn [makeValue]. eexists. split; [done|]. split; reflexivity.
  - exists (anyAmount am). cbn [makeValue]. eexists. split; [done|]. split; [reflexivity|]. cbn. destruct am as [dc c]. cbn in HC. by subst c.
  - destruct HC as (HK & HL & HT). exists (anyString (time_Format t (layoutFor (bf_format bf)))).
    assert (HF : bf_format bf <> []) by (intros E; rewrite E in HL; by apply HL).
    unfold makeValue, scalarFromBytes, decodeTimeLayout. rewrite (bool_decide_false (bf_format bf = [])) by done.
    destruct (layoutFor (bf_format bf)) as [|c lay] eqn:EL; [done|].
    destruct HK as [->|[->| ->]]; cbn; eexists; (split; [reflexivity|]); (split; [reflexivity|]); unfold parse_time; cbn; by rewrite HT.
Qed.

Lemma GetP_de s m l de (h : heap) : h !! l = Some m -> building s m -> s_isTLV s = false ->
  GetP l (mkFieldPath [mkPathElem de []]) h = (Ok (shown m de), h).
Proof.
  intros HL [B1 _ _ B4] HT. unfold GetP. cbn [fp_elems get_elems]. unfold sbind at 1. rewrite (hget_run _ _ _ HL). unfold msg_isTLV. rewrite B1, HT.
  unfold IsTag. cbn [pe_Tag pe_N]. rewrite bool_decide_true by done. cbn [negb]. unfold sbind. rewrite (Get_shown l m de h HL B4). by destruct (shown m de).
Qed.

Lemma SetP_de s m de a (h : heap) : building s m -> s_isTLV s = false ->
  SetP (length h) (mkFieldPath [mkPathElem de []]) a (h ++ [m]) = SetDE (length h) de a (h ++ [m]).
Proof.
  intros [B1 B2 _ _] HT. unfold SetP. cbn [fp_elems set_elems]. unfold sbind at 1.
  rewrite (hget_run _ _ m) by (rewrite lookup_app_r, Nat.sub_diag; done). rewrite B2, B1, HT. unfold IsTag. cbn [pe_Tag pe_N].
  by rewrite bool_decide_true.
Qed.

(** Filling sets every bound element to a value that reads back as the field. *)
Lemma plan_fill_bound s xs fs des (h : heap) m : building s m -> s_isTLV s = false -> Forall2 (bound s xs) fs des -> NoDup des ->
  exists m', plan_fill fs (length h) (VStruct xs) (h ++ [m]) = (Ok tt, h ++ [m']) /\ building s m' /\
    (forall de, de ∉ des -> shown m' de = shown m de) /\
    Forall2 (fun f de => exists v x, shown m' de = Some v /\ xs !! bf_index f.1 = Some x /\ setField f.1 v = Ok x) fs des.
Proof.
  intros HB HT HF. revert m HB. induction HF as [|[bf n] de fs des Hb _ IH]; intros m HB HN; cbn [plan_fill].
  { exists m. split; [done|]. split; [done|]. split; [done|constructor]. }
  destruct Hb as (HN0 & HE & HP & Hde & d & x & HD & HX & HC). cbn [fst snd] in *. subst n. apply list.NoDup_cons in HN as [Hnot HN].
  destruct (carried_stored d bf x HC HE) as (a & v & HA & HV & HR).
  destruct (SetDE_building s d v de a h m HB HD Hde HV) as (m1 & E1 & HB1 & HS1).
  destruct (IH m1 HB1 HN) as (m2 & E2 & HB2 & HO & HI). exists m2.
  unfold sbind at 1, slift at 1. cbn [field_at]. rewrite HX. unfold sbind at 1, slift. rewrite HA. unfold sbind. rewrite HP, (SetP_de s) by done. rewrite E1.
  split; [exact E2|]. split; [done|]. split.
  - intros e He. rewrite HO by set_solver. rewrite HS1. replace (e =? de) with false; [done|]. symmetry. apply Z.eqb_neq. set_solver.
  - constructor; [|done]. exists (set_v_codec v (fd_Codec d)), x. cbn [fst]. rewrite HO by done. by rewrite HS1, Z.eqb_refl.
Qed.

(** Reading such a message back. *)
Lemma unmarshal_loop_bound s xs fs des l m (h : heap) : h !! l = Some m -> building s m -> s_isTLV s = false ->
  Forall2 (bound s xs) fs des ->
  Forall2 (fun f de => exists v x, shown m de = Some v /\ xs !! bf_index f.1 = Some x /\ setField f.1 v = Ok x) fs des ->
  forall ys, length ys = length xs -> NoDup (plan_indexes (Plan fs)) ->
  exists zs, unmarshal_loop plan_unmarshal l fs (VStruct ys) h = (Ok tt, VStruct zs, h) /\ length zs = length xs /\
    (forall i, i ∈ plan_indexes (Plan fs) -> zs !! i = xs !! i) /\ (forall i, i ∉ plan_indexes (Plan fs) -> zs !! i = ys !! i).
Proof.
  intros HL HB HT HF. induction HF as [|[bf n] de fs des Hb _ IH]; intros HS ys Hlen HN; cbn [unmarshal_loop].
  { exists ys. split; [done|]. split; [done|]. split; [by intros i ?%elem_of_nil|done]. }
  inversion HS as [|? ? ? ? (v & x & HV & HX & HR) HS']; subst. unfold plan_indexes in HN, IH |- *. cbn [plan_fields fmap list_fmap] in *.
  apply list.NoDup_cons in HN as [Hnot HN]. destruct Hb as (HN0 & HE & HP & Hde & _). cbn [fst snd] in *. subst n.
  assert (HY : is_Some (ys !! bf_index bf)) by (apply lookup_lt_is_Some_2; rewrite Hlen; by eapply lookup_lt_Some).
  destruct HY as [y HY]. cbn [field_at]. rewrite HY, HP, (GetP_de s m) by done. rewrite HV, HR. cbn [store_field].
  destruct (IH HS' (<[bf_index bf := x]> ys)) as (zs & EZ & LZ & HI & HO); [by rewrite length_insert|done|].
  exists zs. split; [exact EZ|]. split; [done|]. split.
  - intros i [-> |Hi]%elem_of_cons; [|by apply HI]. rewrite HO by done. rewrite HX. apply list_lookup_insert_eq. by eapply lookup_lt_Some.
  - intros i Hi. rewrite HO by set_solver. apply list_lookup_insert_ne. set_solver.
Qed.

(** C20: Packing a struct and reading it back is the identity on what is bound.
    For a binder over a positional schema whose tags name different data
    elements, with exported fields whose values their element can carry (texts
    in text, numeric and byte elements; 64-bit integers in numeric elements;
    bytes, decimals and amounts without currency in any; times that survive
    their layout), [Marshal] succeeds and allocates one message, and [Unmarshal]
    of it succeeds into any struct of the type, gives every bound field its old
    value and leaves every other field of the destination alone. *)
Theorem bind_roundtrip s t fs des xs ys (h : heap) :
  NewBinder s t = Some (Plan fs) -> 0 <= s_maxDE s -> s_isTLV s = false ->
  Forall2 (bound s xs) fs des -> NoDup des -> length ys = length xs ->
  exists m zs,
    plan_marshal (Plan fs) s (VStruct xs) h = (Ok (length h), h ++ [m]) /\
    plan_unmarshal (Plan fs) (length h) (VStruct ys) (h ++ [m]) = (Ok tt, VStruct zs, h ++ [m]) /\
    length zs = length xs /\
    forall i, zs !! i = if decide (i ∈ plan_indexes (Plan fs)) then xs !! i else ys !! i.
Proof.
  intros HP HM HT HF HN Hlen.
  assert (HI : NoDup (plan_indexes (Plan fs))).
  { unfold NewBinder in HP. destruct (planFor s t) as [p| |] eqn:EP; try discriminate. injection HP as ->.
    unfold planFor in EP. destruct t; try discriminate; try (injection EP as <-; apply NoDup_nil_2); by eapply buildPlan_indexes. }
  destruct (plan_fill_bound s xs fs des h (New s) (New_building s HM) HT HF HN) as (m & EF & HB & _ & HR).
  destruct (unmarshal_loop_bound s xs fs des (length h) m (h ++ [m])) with (ys := ys) as (zs & EU & LZ & HZ & HO); try done.
  { by rewrite lookup_app_r, Nat.sub_diag. }
  exists m, zs. split; [|split; [exact EU|split; [done|]]].
  - unfold plan_marshal, sbind, halloc. by rewrite EF.
  - intros i. destruct (decide (i ∈ plan_indexes (Plan fs))); auto.
Qed.

(** A narrow integer field takes what is left of a larger number. *)
Lemma setField_cuts bf v w named n : bf_typ bf = TInt w named -> bf_exported bf = true -> Value_Int v = Ok n ->
  setField bf v = Ok (VInt (wrap_int w n)).
Proof. intros HT HE HV. unfold setField. by rewrite HT, HE, HV. Qed.

(** Fields of narrow integer types and of defined types can be read and never be
    packed. *)
Lemma fill_refuses bf x l src fs (h : heap) m s d de :
  (exists w, bf_typ bf = TInt w false /\ (w = W8 \/ w = W16 \/ w = W32)) \/ bf_typ bf = TString true ->
  bf_exported bf = true -> bf_path bf = mkFieldPath [mkPathElem de []] -> field_at src (bf_index bf) = Ok x ->
  h !! l = Some m -> building s m -> s_isTLV s = false -> Schema_Field s de = Some d ->
  exists e, plan_fill ((bf, None) :: fs) l src h = (Err e, h).
Proof.
  intros HT HE HP HX HL [B1 B2 B3 B4] HTLV HD.
  assert (HA : fieldToSet bf x = Ok (anyOther [])).
  { unfold fieldToSet. rewrite HE. cbn [negb]. destruct HT as [(w & -> & Hw)| ->]; destruct x; destruct_or?; subst; done. }
  cbn [plan_fill]. unfold sbind at 1, slift at 1. rewrite HX. unfold sbind at 1, slift at 1. rewrite HA. unfold sbind at 1.
  rewrite HP. unfold SetP. cbn [fp_elems set_elems]. unfold sbind at 1. rewrite (hget_run _ _ _ HL), B2, B1, HTLV.
  unfold IsTag. cbn [pe_Tag pe_N]. rewrite bool_decide_true by done. cbn [negb].
  unfold SetDE, sbind at 1. rewrite (hget_run _ _ _ HL). unfold sbind, slift, MSet, msg_def. rewrite B2, B1. cbn [rbind].
  replace (if de =? 0 then s_mti s else Schema_Field s de) with (Some d).
  2:{ rewrite <- HD. unfold Schema_Field. by destruct (de =? 0). }
  cbn [makeValue rbind]. by eexists.
Qed.
End Bind.

(** ** A concrete struct *)

(** [struct { MTI string `iso:"0"`; PAN string `iso:"2"`; Note string; Amount Decimal `iso:"4"` }]. *)
Definition sample_struct : GoType := TStruct
  [(mkSF (go "MTI") (Some (go "0")) true, TString false); (mkSF (go "PAN") (Some (go "2")) true, TString false);
   (mkSF (go "Note") None true, TString false); (mkSF (go "Amount") (Some (go "4")) true, TDecimal)].

Definition sample_fields : list (bf_info * option bindPlan) :=
  [(mkBF 0 true (mkFieldPath [mkPathElem 0 []]) (TString false) [], None); (mkBF 1 true (mkFieldPath [mkPathElem 2 []]) (TString false) [], None);
   (mkBF 3 true (mkFieldPath [mkPathElem 4 []]) TDecimal [], None)].

(** Times as the text they were parsed from. *)
Definition text_Parse (layout s : bytes) : option bytes := if len s =? len layout then Some s else None.
Definition text_Format (t layout : bytes) : bytes := t.

Definition sample_src : list (GoValue (Time := bytes)) :=
  [VString (go "0200"); VString (go "4111111111111111"); VString (go "lost"); VDecimal (mkDecimal 1099 2)].
Definition sample_dst : list (GoValue (Time := bytes)) := [VString []; VString []; VString (go "kept"); VDecimal zeroDecimal].

Lemma bind_roundtrip_witness : exists m,
  plan_marshal text_Format (Plan sample_fields) sample_schema (VStruct sample_src) [] = (Ok 0%nat, [m]) /\
  exists zs, plan_unmarshal text_Parse (Plan sample_fields) 0 (VStruct sample_dst) [m] = (Ok tt, VStruct zs, [m]) /\
    zs !! 0%nat = Some (VString (go "0200")) /\ zs !! 2%nat = Some (VString (go "kept")) /\ zs !! 3%nat = Some (VDecimal (mkDecimal 1099 2)).
Proof.
  destruct (bind_roundtrip text_Parse text_Format sample_schema sample_struct sample_fields [0; 2; 4] sample_src sample_dst [])
    as (m & zs & HM & HU & _ & HZ).
  - vm_compute. reflexivity.
  - vm_compute. discriminate.
  - vm_compute. reflexivity.
  - repeat constructor; try (vm_compute; discriminate); eexists _, _; (split; [vm_compute; reflexivity|]); (split; [reflexivity|]); vm_compute; tauto.
  - repeat constructor; set_solver.
  - reflexivity.
  - exists m. split; [exact HM|]. exists zs. split; [exact HU|]. rewrite !HZ. repeat split; vm_compute; reflexivity.
Defined.
