(* ===== verification/Pkcs11.v ===== *)
(** * The PKCS#11 adapter ([adapters/pkcs11/pkcs11.go])

    Message authentication on a token that offers triple DES only: the MAC of
    the vault is composed of the token's CBC and ECB encryptions, under keys that
    never leave it.  The module is the class [Token], its calls over a state of
    the device, with the laws of a token that answers; opening a session is
    modelled by the resources it takes and gives back. *)

From S2P Require Import Prelude Errors Strconv Path Framer Validate GoStrings Des Cipher KeyBlock.

(** ** The device *)

Inductive mechanism := CKM_DES3_CBC (iv : bytes) | CKM_DES3_ECB.

Definition CKO_SECRET_KEY : Z := 4.

(** The calls of the module within a session; handles are numbers. *)
Class Token (T : Type) := {
  FindObjectsInit : T -> Z -> bytes -> option bytes * T;    (* class, label *)
  FindObjects : T -> Z -> res bytes (list Z) * T;
  FindObjectsFinal : T -> option bytes * T;
  EncryptInit : T -> mechanism -> Z -> option bytes * T;
  p11_Encrypt : T -> bytes -> res bytes bytes * T;
}.

Inductive p11_error :=
| FindInitFailed (why : bytes)
| FindFailed (why : bytes)
| FindFinalFailed (why : bytes)
| P11UnknownKey (ref : bytes)
| RetailKeyError (e : p11_error)
| ErrUnsupportedAlgorithm (n : Z)
| EncryptInitFailed (why : bytes)
| EncryptFailed (why : bytes)
| ShortOutput (n : Z)
| P11MACLength (n : Z).

Definition desBlockSize : Z := 8.

Record p11_Config := mkP11Config {
  p1_ModulePath : bytes;
  p1_TokenLabel : bytes;
  p1_PIN : bytes;
  p1_KeyClass : Z;
  p1_RetailCBCLabelSuffix : bytes;
}.

(** ** Padding *)

(** [for len(out)%desBlockSize != 0 { out = append(out, 0) }]; eight rounds are
    enough. *)
Fixpoint pad_loop (n : nat) (out : bytes) : bytes :=
  match n with
  | O => out
  | S n => if len out mod desBlockSize =? 0 then out else pad_loop n (out ++ [x00])
  end.

Definition iso9797Pad (pad : Padding) (data : bytes) : bytes :=
  match pad with
  | Pad2 => pad_loop 8 (data ++ [x80])
  | _ => if len data =? 0 then zeros desBlockSize else pad_loop 8 data
  end.

(** ** MACs *)

Definition xorBlock (a b : bytes) : res p11_error bytes :=
  if (len a <? desBlockSize) || (len b <? desBlockSize) then Panic else Ok (xor_bytes (take 8 a) (take 8 b)).

Definition retailCBCSuffix (cfg : p11_Config) : bytes :=
  match p1_RetailCBCLabelSuffix cfg with [] => go "-cbc" | s => s end.

Section Token.
Context {T : Type} `{Token T} (cfg : p11_Config).

(** State passing over the device. *)
Definition TK (A : Type) : Type := T -> res p11_error A * T.
Definition tret {A} (a : A) : TK A := fun t => (Ok a, t).
Definition tfail {A} (e : p11_error) : TK A := fun t => (Err e, t).
Definition tbind {A B} (c : TK A) (k : A -> TK B) : TK B := fun t =>
  match c t with
  | (Ok a, t) => k a t
  | (Err e, t) => (Err e, t)
  | (Panic, t) => (Panic, t)
  end.
Definition tlift {A} (r : res p11_error A) : TK A := fun t => (r, t).
#[local] Notation "'let%' x := c 'in' k" := (tbind c (fun x => k)) (at level 10, x pattern, c at level 200, k at level 200).

Definition findKey (ref : bytes) : TK Z := fun t =>
  let class := if p1_KeyClass cfg =? 0 then CKO_SECRET_KEY else p1_KeyClass cfg in
  match FindObjectsInit t class ref with
  | (Some why, t) => (Err (FindInitFailed why), t)
  | (None, t) =>
      let '(r, t) := FindObjects t 1 in
      let '(finalErr, t) := FindObjectsFinal t in
      match r with
      | Err why => (Err (FindFailed why), t)
      | Panic => (Panic, t)
      | Ok objs =>
          match finalErr with
          | Some why => (Err (FindFinalFailed why), t)
          | None => match objs with [] => (Err (P11UnknownKey ref), t) | o :: _ => (Ok o, t) end
          end
      end
  end.

(** [EncryptInit] and [Encrypt]. *)
Definition token_encrypt (m : mechanism) (key : Z) (src : bytes) : TK bytes := fun t =>
  match EncryptInit t m key with
  | (Some why, t) => (Err (EncryptInitFailed why), t)
  | (None, t) =>
      match p11_Encrypt t src with
      | (Ok ct, t) => (Ok ct, t)
      | (Err why, t) => (Err (EncryptFailed why), t)
      | (Panic, t) => (Panic, t)
      end
  end.

Definition cbcMACLastBlock (key : Z) (padded : bytes) : TK bytes :=
  let% ct := token_encrypt (CKM_DES3_CBC (zeros desBlockSize)) key padded in
  if len ct <? desBlockSize then tfail (ShortOutput (len ct))
  else tlift (slice ct (len ct - desBlockSize) (len ct)).

Definition p11_ecbEncrypt (key : Z) (block : bytes) : TK bytes := token_encrypt CKM_DES3_ECB key block.

(** Errors of the second key are wrapped. *)
Definition wrap_retail {A} (c : TK A) : TK A := fun t =>
  match c t with (Err e, t) => (Err (RetailKeyError e), t) | r => r end.

Definition p11_GenerateMAC (keyRef : bytes) (alg : MACAlgorithm) (pad : Padding) (data : bytes) : TK bytes :=
  let padded := iso9797Pad pad data in
  match alg with
  | MACAlg1 =>
      let% k := findKey keyRef in
      cbcMACLastBlock k padded
  | MACAlg3 =>
      let% final := findKey keyRef in
      let% prefixKey := wrap_retail (findKey (keyRef ++ retailCBCSuffix cfg)) in
      let n := len padded / desBlockSize in
      let% prefixMAC :=
        if 1 <? n
        then let% head := tlift (slice padded 0 (desBlockSize * (n - 1))) in cbcMACLastBlock prefixKey head
        else tret (zeros desBlockSize) in
      let% tail := tlift (slice padded (desBlockSize * (n - 1)) (len padded)) in
      let% x := tlift (xorBlock tail prefixMAC) in
      p11_ecbEncrypt final x
  | MACOther n => tfail (ErrUnsupportedAlgorithm n)
  end.

Definition p11_VerifyMAC (keyRef : bytes) (alg : MACAlgorithm) (pad : Padding) (data mac : bytes) : TK bool :=
  let% full := p11_GenerateMAC keyRef alg pad data in
  if (len mac =? 0) || (len full <? len mac) then tfail (P11MACLength (len mac))
  else let% head := tlift (slice full 0 (len mac)) in tret (bool_decide (head = mac)).
End Token.

(** ** Sessions *)

(** What the process holds of the module. *)
Record module_state := mkModule { mo_loaded : bool; mo_init : bool; mo_session : bool; mo_login : bool }.

(** What the module answers while it is opened: whether it loads, whether it
    initialises, its slots with the labels of their tokens (or no label, when
    the token cannot be read), whether a session and a login succeed. *)
Record p11_answers := mkAnswers {
  an_New : bool;
  an_Initialize : bool;
  an_Slots : option (list (Z * option bytes));
  an_OpenSession : bool;
  an_Login : bool;
}.

Inductive open_error := NoModulePath | NotLoaded | InitializeFailed | SlotListFailed | NoToken | SessionFailed | LoginFailed.

Record p11_Vault := mkP11 { pv_cfg : p11_Config; pv_loggedIn : bool }.

Definition findSlot (cfg : p11_Config) (slots : option (list (Z * option bytes))) : res open_error Z :=
  match slots with
  | None => Err SlotListFailed
  | Some slots =>
      match List.find (fun s => match s.2 with
        | Some label => bool_decide (p1_TokenLabel cfg = []) || bool_decide (TrimSpace label = p1_TokenLabel cfg)
        | None => false
        end) slots with
      | Some s => Ok s.1
      | None => Err NoToken
      end
  end.

(** [Finalize] and [Destroy]. *)
Definition p11_teardown (m : module_state) : module_state := mkModule false false (mo_session m) (mo_login m).
Definition CloseSession (m : module_state) : module_state := mkModule (mo_loaded m) (mo_init m) false (mo_login m).

Definition p11_Open (cfg : p11_Config) (a : p11_answers) : res open_error p11_Vault * module_state :=
  let none := mkModule false false false false in
  if bool_decide (p1_ModulePath cfg = []) then (Err NoModulePath, none) else
  if negb (an_New a) then (Err NotLoaded, none) else
  let m := mkModule true false false false in
  if negb (an_Initialize a) then (Err InitializeFailed, mkModule false false false false) else
  let m := mkModule true true false false in
  match findSlot cfg (an_Slots a) with
  | Err e => (Err e, p11_teardown m)
  | Panic => (Panic, m)
  | Ok slot =>
      if negb (an_OpenSession a) then (Err SessionFailed, p11_teardown m) else
      let m := mkModule true true true false in
      if bool_decide (p1_PIN cfg = []) then (Ok (mkP11 cfg false), m) else
      if an_Login a then (Ok (mkP11 cfg true), mkModule true true true true)
      else (Err LoginFailed, p11_teardown (CloseSession m))
  end.

Definition p11_Close (v : p11_Vault) (m : module_state) : p11_Vault * module_state :=
  let m := if pv_loggedIn v then mkModule (mo_loaded m) (mo_init m) (mo_session m) false else m in
  (mkP11 (pv_cfg v) false, p11_teardown (CloseSession m)).

(** Opening takes everything or nothing, and closing gives it all back. *)
Lemma Open_Close cfg a : let '(r, m) := p11_Open cfg a in
  match r with
  | Ok v => m = mkModule true true true (pv_loggedIn v) /\ pv_loggedIn v = negb (bool_decide (p1_PIN cfg = [])) /\
      (p11_Close v m).2 = mkModule false false false false
  | Err _ => m = mkModule false false false false
  | Panic => False
  end.
Proof.
  unfold p11_Open. destruct (bool_decide (p1_ModulePath cfg = [])); [done|]. destruct (an_New a); [|done]. cbn [negb].
  destruct (an_Initialize a); [|done]. cbn [negb]. destruct (findSlot cfg (an_Slots a)) eqn:E; [|done|].
  2:{ unfold findSlot in E. destruct (an_Slots a); [|done]. by destruct (List.find _ _). }
  destruct (an_OpenSession a); [|done]. cbn [negb]. destruct (bool_decide (p1_PIN cfg = [])); [done|]. by destruct (an_Login a).
Qed.

(** ** The padding is the vault's *)

Lemma pad_loop_fill n out : - len out mod 8 <= Z.of_nat n -> pad_loop n out = out ++ fill (len out) 8.
Proof.
  revert out. induction n as [|n IH]; intros out Hn; cbn [pad_loop]; unfold fill; pose proof (Z.mod_pos_bound (- len out) 8 ltac:(lia)).
  - replace (- len out mod 8) with 0 by lia. by rewrite app_nil_r.
  - unfold desBlockSize. destruct (Z.eqb_spec (len out mod 8) 0) as [E|E].
    + rewrite Z_mod_zero_opp_full by done. by rewrite app_nil_r.
    + assert (- len (out ++ [x00]) mod 8 = - len out mod 8 - 1) as HS.
      { rewrite len_app. change (len [x00]) with 1. rewrite (Z_mod_nz_opp_full (len out) 8) by done. pose proof (Z.mod_pos_bound (len out) 8 ltac:(lia)).
        replace (- (len out + 1)) with ((8 - len out mod 8 - 1) + (- (len out / 8) - 1) * 8) by (pose proof (Z.div_mod (len out) 8 ltac:(lia)); lia).
        rewrite Z.mod_add by lia. apply Z.mod_small. lia. }
      rewrite Nat2Z.inj_succ in Hn. rewrite IH by lia. unfold fill. rewrite HS, <- app_assoc. f_equal.
      assert (0 < - len out mod 8) by (rewrite (Z_mod_nz_opp_full (len out) 8) by done; pose proof (Z.mod_pos_bound (len out) 8 ltac:(lia)); lia).
      unfold zeros. replace (Z.to_nat (- len out mod 8)) with (S (Z.to_nat (- len out mod 8 - 1))) by lia. done.
Qed.

Lemma iso9797Pad_vault pad data : iso9797Pad pad data = applyPadding pad data 8.
Proof.
  pose proof (Z.mod_pos_bound (- len data) 8 ltac:(lia)).
  assert ((if len data =? 0 then zeros desBlockSize else pad_loop 8 data) =
          (if len data =? 0 then zeros 8 else if len data mod 8 =? 0 then data else data ++ fill (len data) 8)) as HP.
  { destruct (len data =? 0); [done|]. rewrite pad_loop_fill by lia. unfold fill. destruct (Z.eqb_spec (len data mod 8) 0) as [E|E]; [|done].
    rewrite Z_mod_zero_opp_full by done. by rewrite app_nil_r. }
  destruct pad; cbn [iso9797Pad applyPadding]; [done| |done].
  pose proof (Z.mod_pos_bound (- len (data ++ [x80])) 8 ltac:(lia)). rewrite pad_loop_fill by lia. rewrite <- app_assoc, len_app. done.
Qed.

(** ** Triple DES as single DES *)

Abbreviation eights := (Forall (fun p => len p = 8)).

Lemma take_drop_keys (a b c : bytes) : len a = 8 -> len b = 8 -> len c = 8 ->
  take 8 (a ++ b ++ c) = a /\ take 8 (drop 8 (a ++ b ++ c)) = b /\ drop 16 (a ++ b ++ c) = c.
Proof.
  intros Ha%len_8 Hb%len_8 Hc%len_8. split; [by rewrite take_app_length'|]. split.
  - rewrite drop_app_length' by done. by rewrite take_app_length'.
  - rewrite app_assoc, drop_app_length' by (rewrite length_app; lia). done.
Qed.

(** Under [K||K||K] triple DES is DES. *)
Lemma triple_single k x : len k = 8 -> len x = 8 -> Encrypt (NewTripleDESCipher (k ++ k ++ k)) x = Encrypt (NewCipher k) x.
Proof.
  intros Hk Hx%len_8. destruct (take_drop_keys k k k Hk Hk Hk) as (E1 & E2 & E3). cbn. rewrite E1, E2, E3.
  by rewrite des_decrypt_encrypt.
Qed.

(** Under [K1||K2||K1] it is the last step of the retail MAC, after a step of the
    CBC-MAC under [K1]. *)
Lemma triple_retail k1 k2 x : len k1 = 8 -> len k2 = 8 -> len x = 8 ->
  Encrypt (NewTripleDESCipher (k1 ++ k2 ++ k1)) x = Encrypt (NewCipher k1) (Decrypt (NewCipher k2) (Encrypt (NewCipher k1) x)).
Proof. intros H1 H2 Hx. destruct (take_drop_keys k1 k2 k1 H1 H2 H1) as (E1 & E2 & E3). cbn. by rewrite E1, E2, E3. Qed.

(** ** CBC and CBC-MAC *)

Lemma byte_xor_comm a b : byte_xor a b = byte_xor b a.
Proof. unfold byte_xor. by rewrite Z.lxor_comm. Qed.

Lemma xor_bytes_comm a b : xor_bytes a b = xor_bytes b a.
Proof.
  unfold xor_bytes. revert b. induction a as [|x a IH]; intros [|y b]; try done. cbn. by rewrite byte_xor_comm, IH.
Qed.

(** The chaining value of a CBC-MAC is the last block of the CBC encryption. *)
Lemma mac_last b `{!BlockLaws b} x ps p : BlockSize b = 8 -> len x = 8 -> eights (ps ++ [p]) ->
  exists y pre, mac_loop b x ps = Ok y /\ len y = 8 /\ mac_loop b x (ps ++ [p]) = Ok (Encrypt b (xor_bytes y p)) /\
    cbc_encrypt_blocks b x (ps ++ [p]) = pre ++ Encrypt b (xor_bytes y p).
Proof.
  intros HB Hx HF. revert x Hx. induction ps as [|q ps IH]; intros x Hx; cbn [app] in HF |- *.
  - apply list.Forall_cons in HF as [Hp _]. exists x, []. cbn [mac_loop]. rewrite xored_Ok by lia. cbn [rbind].
    rewrite blockEnc_Ok by (rewrite len_xor_bytes; lia). cbn [rbind]. split_and!; [done|done|done|].
    cbn [cbc_encrypt_blocks]. by rewrite app_nil_r, xor_bytes_comm.
  - apply list.Forall_cons in HF as [Hq HF]. cbn [mac_loop cbc_encrypt_blocks]. rewrite xored_Ok by lia. cbn [rbind].
    assert (len (xor_bytes x q) = BlockSize b) as HX by (rewrite len_xor_bytes; lia).
    rewrite blockEnc_Ok by lia. cbn [rbind]. pose proof (Encrypt_len _ HX) as HE. rewrite HB in HE.
    destruct (IH HF (Encrypt b (xor_bytes x q)) HE) as (y & pre & H1 & H2 & H3 & H4).
    exists y, (Encrypt b (xor_bytes x q) ++ pre). split_and!; [done|done|done|]. rewrite (xor_bytes_comm q x), H4. by rewrite app_assoc.
Qed.

(** Two ciphers that agree on blocks encrypt alike. *)
Lemma cbc_encrypt_ext b b' iv ps : (forall x, len x = 8 -> len (Encrypt b x) = 8 /\ Encrypt b x = Encrypt b' x) -> len iv = 8 -> eights ps ->
  cbc_encrypt_blocks b iv ps = cbc_encrypt_blocks b' iv ps.
Proof.
  intros HE Hiv HF. revert iv Hiv. induction HF as [|p ps Hp _ IH]; intros iv Hiv; [done|]. cbn [cbc_encrypt_blocks].
  destruct (HE (xor_bytes p iv)) as [HL <-]; [rewrite len_xor_bytes; lia|]. by rewrite IH.
Qed.

(** ** Tokens that answer *)

Class TokenLaws (T : Type) `{Token T} := {
  (** The object a label names in a class, and the value of a key object. *)
  tk_object : T -> Z -> bytes -> option Z;
  tk_value : T -> Z -> option bytes;
  find_law t class ref : exists t1 t2 t3, FindObjectsInit t class ref = (None, t1) /\
    FindObjects t1 1 = (Ok (match tk_object t class ref with Some h => [h] | None => [] end), t2) /\
    FindObjectsFinal t2 = (None, t3) /\ tk_object t3 = tk_object t /\ tk_value t3 = tk_value t;
  cbc_law t h key iv src : tk_value t h = Some key -> len key = 24 -> len iv = 8 -> len src mod 8 = 0 ->
    exists t1 t2, EncryptInit t (CKM_DES3_CBC iv) h = (None, t1) /\
      p11_Encrypt t1 src = (Ok (cbc_encrypt_blocks (NewTripleDESCipher key) iv (blocks 8 src)), t2) /\
      tk_object t2 = tk_object t /\ tk_value t2 = tk_value t;
  ecb_law t h key src : tk_value t h = Some key -> len key = 24 -> len src = 8 ->
    exists t1 t2, EncryptInit t CKM_DES3_ECB h = (None, t1) /\
      p11_Encrypt t1 src = (Ok (Encrypt (NewTripleDESCipher key) src), t2) /\ tk_object t2 = tk_object t /\ tk_value t2 = tk_value t;
}.

(** The algorithms of the vault. *)
Definition coded_alg (alg : MACAlgorithm) : bool := match alg with MACOther _ => false | _ => true end.

Section Macs.
Context {T : Type} `{TokenLaws T} (cfg : p11_Config).
#[local] Abbreviation class := (if p1_KeyClass cfg =? 0 then CKO_SECRET_KEY else p1_KeyClass cfg).

Definition same_keys (t t' : T) : Prop := tk_object t' = tk_object t /\ tk_value t' = tk_value t.

#[local] Instance same_keys_trans : Transitive same_keys.
Proof. intros a b c [H1 H2] [H3 H4]. split; congruence. Qed.

(** The token has the key [value] under a label. *)
Definition holds (t : T) (ref value : bytes) : Prop := exists h, tk_object t class ref = Some h /\ tk_value t h = Some value.

Lemma holds_same t t' ref value : same_keys t t' -> holds t ref value -> holds t' ref value.
Proof. unfold holds. by intros [-> ->]. Qed.

Lemma findKey_law ref t : exists t', same_keys t t' /\
  findKey cfg ref t = (match tk_object t class ref with Some h => Ok h | None => Err (P11UnknownKey ref) end, t').
Proof.
  destruct (find_law t class ref) as (t1 & t2 & t3 & E1 & E2 & E3 & HS). exists t3. split; [done|]. unfold findKey. rewrite E1, E2, E3.
  by destruct (tk_object t class ref).
Qed.

Lemma findKey_holds ref value t : holds t ref value -> exists h t', same_keys t t' /\ findKey cfg ref t = (Ok h, t') /\ tk_value t' h = Some value.
Proof.
  intros (h & HO & HV). destruct (findKey_law ref t) as (t' & HS & HF). rewrite HO in HF. exists h, t'. split; [done|]. split; [done|].
  by rewrite (proj2 HS).
Qed.

(** The last block the token gives is the CBC-MAC of single DES. *)
Lemma lastBlock_law t h k src : tk_value t h = Some (k ++ k ++ k) -> len k = 8 -> len src mod 8 = 0 -> 8 <= len src ->
  exists t' y, same_keys t t' /\ cbcMACLastBlock h src t = (Ok y, t') /\ cbcMAC (NewCipher k) src = Ok y /\ len y = 8.
Proof.
  intros HV Hk HM HL. assert (len (k ++ k ++ k) = 24) as H24 by (rewrite !len_app; lia).
  destruct (cbc_law t h _ (zeros desBlockSize) src HV H24 ltac:(done) HM) as (t1 & t2 & E1 & E2 & HS).
  destruct (whole_blocks 8 src ltac:(lia) HM) as (ps & -> & HF & HN). rewrite blocks_concat in E2 by (lia || done).
  destruct (exists_last (l := ps)) as (ps' & p & ->). { intros ->. change (len (concat [])) with 0 in HL. lia. }
  destruct (mac_last (NewCipher k) (zeros 8) ps' p) as (y & pre & M1 & M2 & M3 & M4); [done|done|done|].
  assert (cbc_encrypt_blocks (NewTripleDESCipher (k ++ k ++ k)) (zeros desBlockSize) (ps' ++ [p]) = pre ++ Encrypt (NewCipher k) (xor_bytes y p)) as HC.
  { rewrite <- M4. apply cbc_encrypt_ext; [|done|done]. intros x Hx. split; [by apply (Encrypt_len (b := NewTripleDESCipher _))|by apply triple_single]. }
  assert (len p = 8) as Hp by (apply list.Forall_app in HF as [_ HF]; by apply list.Forall_cons in HF as [? _]).
  assert (len (Encrypt (NewCipher k) (xor_bytes y p)) = 8) as HE by (apply (Encrypt_len (b := NewCipher k)); rewrite len_xor_bytes; [done|lia]).
  exists t2, (Encrypt (NewCipher k) (xor_bytes y p)). split; [done|]. split; [|split; [|done]].
  - unfold cbcMACLastBlock, tbind, token_encrypt. rewrite E1, E2, HC. rewrite !len_app, HE. pose proof (len_nonneg pre).
    destruct (Z.ltb_spec (len pre + 8) desBlockSize); [unfold desBlockSize in *; lia|]. unfold tlift. f_equal.
    pose proof (slice_mid (E := p11_error) pre (Encrypt (NewCipher k) (xor_bytes y p)) [] (len pre) (len pre + 8) eq_refl) as HSl.
    rewrite app_nil_r in HSl. replace (len pre + 8 - desBlockSize) with (len pre) by (unfold desBlockSize; lia). apply HSl. lia.
  - unfold cbcMAC. cbn [BlockSize NewCipher]. rewrite HM. cbn [negb Z.eqb]. by rewrite blocks_concat.
Qed.

(** How the documentation provisions a key of the vault. *)
Definition provisioned (t : T) (ref : bytes) (alg : MACAlgorithm) (key : bytes) : Prop :=
  match alg with
  | MACAlg1 => len key = 8 /\ holds t ref (key ++ key ++ key)
  | MACAlg3 => exists k1 k2, key = k1 ++ k2 /\ len k1 = 8 /\ len k2 = 8 /\ holds t ref (k1 ++ k2 ++ k1) /\
      holds t (ref ++ retailCBCSuffix cfg) (k1 ++ k1 ++ k1)
  | MACOther _ => False
  end.

Lemma padded_whole pad data : exists ps p, iso9797Pad pad data = concat (ps ++ [p]) /\ eights (ps ++ [p]).
Proof.
  rewrite iso9797Pad_vault. destruct (whole_blocks 8 (applyPadding pad data 8) ltac:(lia) (applyPadding_whole pad data 8 ltac:(lia))) as (ps & E & HF & HN).
  destruct (exists_last (l := ps)) as (ps' & p & ->); [|by exists ps', p]. intros ->. cbn [length Z.of_nat] in HN. revert HN.
  assert (0 < len (applyPadding pad data 8)); [|lia]. pose proof (len_nonneg data). pose proof (len_nonneg (fill (len data) 8)).
  pose proof (len_nonneg (fill (len data + 1) 8)).
  destruct pad; cbn [applyPadding]; try (destruct (Z.eqb_spec (len data) 0); [by rewrite len_zeros by lia|]; destruct (_ =? 0); rewrite ?len_app; lia).
  rewrite !len_app. change (len [x80]) with 1. lia.
Qed.

Lemma alg1_law t ref pad data k : provisioned t ref MACAlg1 k ->
  exists t' mac, same_keys t t' /\ p11_GenerateMAC cfg ref MACAlg1 pad data t = (Ok mac, t') /\ GenerateMAC MACAlg1 pad k data = Ok mac.
Proof.
  intros [Hk HH]. destruct (findKey_holds ref _ t HH) as (h & t1 & HS1 & HF & HV).
  destruct (padded_whole pad data) as (ps & p & HP & HE). pose proof (len_concat 8 _ HE) as HL. rewrite length_app in HL. cbn [length] in HL.
  destruct (lastBlock_law t1 h k (iso9797Pad pad data) HV Hk) as (t2 & y & HS2 & HB & HM & Hy).
  { rewrite HP. apply mod_whole; [lia|done]. }
  { rewrite HP. lia. }
  exists t2, y. split; [by transitivity t1|]. split.
  - unfold p11_GenerateMAC, tbind. by rewrite HF.
  - cbn [GenerateMAC]. rewrite desBlock_Ok by done. cbn [rbind]. by rewrite <- iso9797Pad_vault.
Qed.

(** The head of a whole number of blocks, and its last block. *)
Lemma split_last (ps : list bytes) (p : bytes) : eights (ps ++ [p]) ->
  let padded := concat (ps ++ [p]) in let n := len padded / desBlockSize in
  n = Z.of_nat (length ps) + 1 /\ slice (E := p11_error) padded 0 (desBlockSize * (n - 1)) = Ok (concat ps) /\
  slice (E := p11_error) padded (desBlockSize * (n - 1)) (len padded) = Ok p.
Proof.
  intros HE. cbv zeta. pose proof (len_concat 8 _ HE) as HL. rewrite length_app in HL. cbn [length] in HL.
  apply list.Forall_app in HE as [HE Hp]. apply list.Forall_cons in Hp as [Hp _]. pose proof (len_concat 8 _ HE) as HL'.
  assert (len (concat (ps ++ [p])) / desBlockSize = Z.of_nat (length ps) + 1) as ->.
  { rewrite HL. unfold desBlockSize. rewrite Z.div_mul by lia. lia. }
  split; [done|]. replace (desBlockSize * (Z.of_nat (length ps) + 1 - 1)) with (len (concat ps)) by (unfold desBlockSize; lia).
  rewrite concat_app. cbn [concat]. rewrite app_nil_r. split.
  - exact (slice_mid [] (concat ps) p 0 (len (concat ps)) eq_refl ltac:(lia)).
  - rewrite len_app. pose proof (slice_mid (E := p11_error) (concat ps) p [] (len (concat ps)) (len (concat ps) + len p) eq_refl) as HS.
    rewrite app_nil_r in HS. apply HS. lia.
Qed.

Lemma alg3_law t ref pad data key : provisioned t ref MACAlg3 key ->
  exists t' mac, same_keys t t' /\ p11_GenerateMAC cfg ref MACAlg3 pad data t = (Ok mac, t') /\ GenerateMAC MACAlg3 pad key data = Ok mac.
Proof.
  intros (k1 & k2 & -> & H1 & H2 & HF & HP). destruct (findKey_holds ref _ t HF) as (h & t1 & HS1 & E1 & _).
  destruct HF as (h0 & HO & HV0). assert (h0 = h) as ->.
  { destruct (findKey_law ref t) as (t' & _ & E1'). rewrite HO in E1'. congruence. }
  destruct (findKey_holds _ _ t1 (holds_same _ _ _ _ HS1 HP)) as (hp & t2 & HS2 & E2 & HVp).
  destruct (padded_whole pad data) as (ps & p & EP & HE). destruct (split_last ps p HE) as (HN & HHead & HTail).
  assert (len p = 8) as Hp by (apply list.Forall_app in HE as [_ HE']; by apply list.Forall_cons in HE' as [? _]).
  assert (exists t3 y, same_keys t2 t3 /\ mac_loop (NewCipher k1) (zeros 8) ps = Ok y /\ len y = 8 /\
    (if 1 <? len (concat (ps ++ [p])) / desBlockSize then tbind (tlift (slice (concat (ps ++ [p])) 0 (desBlockSize * (len (concat (ps ++ [p])) / desBlockSize - 1))))
       (fun head => cbcMACLastBlock hp head) else tret (zeros desBlockSize)) t2 = (Ok y, t3)) as (t3 & y & HS3 & HY & Hy & E3).
  { rewrite HHead. rewrite HN. destruct (Z.ltb_spec 1 (Z.of_nat (length ps) + 1)) as [Hl|Hl].
    - apply list.Forall_app in HE as [HE _]. pose proof (len_concat 8 _ HE) as HL.
      destruct (lastBlock_law t2 hp k1 (concat ps) HVp H1) as (t3 & y & HS3 & HB & HM & Hy); [apply mod_whole; [lia|done]|lia|].
      exists t3, y. split_and!; [done..| |done|]; [|unfold tbind, tlift; exact HB].
      revert HM. unfold cbcMAC. cbn [BlockSize NewCipher]. rewrite mod_whole by (lia || done). cbn [negb Z.eqb]. by rewrite blocks_concat by (lia || done).
    - destruct ps; [|cbn [length] in Hl; lia]. exists t2, (zeros 8). by split_and!. }
  assert (len (xor_bytes p y) = 8) as HX by (rewrite len_xor_bytes; lia).
  assert (tk_value t3 h = Some (k1 ++ k2 ++ k1)) as HV3.
  { rewrite (proj2 HS3), (proj2 HS2), (proj2 HS1). done. }
  destruct (ecb_law t3 h (k1 ++ k2 ++ k1) (xor_bytes p y) HV3) as (t4 & t5 & E4 & E5 & HS5); [rewrite !len_app; lia|done|].
  exists t5, (Encrypt (NewTripleDESCipher (k1 ++ k2 ++ k1)) (xor_bytes p y)).
  split; [transitivity t1; [done|]; transitivity t2; [done|]; by transitivity t3|]. split.
  - unfold p11_GenerateMAC. rewrite EP. unfold tbind at 1. rewrite E1. unfold tbind at 1, wrap_retail. rewrite E2. unfold tbind at 1.
    rewrite E3. unfold tbind at 1, tlift at 1. rewrite HTail. unfold tbind, tlift, xorBlock. rewrite Hp, Hy. cbn [Z.ltb Z.compare Pos.compare orb].
    rewrite !take_ge by (unfold len in *; lia). unfold p11_ecbEncrypt, token_encrypt. change (8 <? desBlockSize) with false. cbn [orb]. by rewrite E4, E5.
  - cbn [GenerateMAC]. rewrite <- iso9797Pad_vault, EP. assert (len (k1 ++ k2) = 16) as -> by (rewrite len_app; lia). cbn [Z.eqb Pos.eqb negb].
    rewrite (slice_mid [] k1 k2 0 8 eq_refl) by (change (len []) with 0; lia). cbn [rbind]. rewrite desBlock_Ok by done. cbn [rbind].
    pose proof (slice_mid (E := vault_error) k1 k2 [] 8 16 ltac:(done) ltac:(lia)) as HK2. rewrite app_nil_r in HK2. rewrite HK2. cbn [rbind].
    rewrite desBlock_Ok by done. cbn [rbind]. unfold cbcMAC. cbn [BlockSize NewCipher]. rewrite mod_whole by (lia || done). cbn [negb Z.eqb].
    rewrite blocks_concat by (lia || done). destruct (mac_last (NewCipher k1) (zeros 8) ps p) as (y' & _ & M1 & _ & M3 & _); [done|done|done|].
    assert (y' = y) as -> by congruence. fold (NewCipher k1). rewrite M3. cbn [rbind].
    rewrite triple_retail by done. rewrite (xor_bytes_comm p y).
    assert (len (Encrypt (NewCipher k1) (xor_bytes y p)) = 8) as HE1.
    { apply (Encrypt_len (b := NewCipher k1)). rewrite xor_bytes_comm. done. }
    rewrite blockDec_Ok by done. cbn [rbind]. rewrite blockEnc_Ok; [done|]. by apply (Decrypt_len (b := NewCipher k2)).
Qed.

Lemma verify_law t ref alg pad data key mac : provisioned t ref alg key ->
  exists t', same_keys t t' /\ p11_VerifyMAC cfg ref alg pad data mac t =
    (match VerifyMAC alg pad key data mac with Ok b => Ok b | Err _ => Err (P11MACLength (len mac)) | Panic => Panic end, t').
Proof.
  intros HP. assert (exists t' full, same_keys t t' /\ p11_GenerateMAC cfg ref alg pad data t = (Ok full, t') /\ GenerateMAC alg pad key data = Ok full)
    as (t' & full & HS & E1 & E2) by (destruct alg; [by apply alg1_law|by apply alg3_law|done]).
  exists t'. split; [done|]. unfold p11_VerifyMAC, VerifyMAC, tbind, tlift. rewrite E1, E2. cbn [rbind]. pose proof (len_nonneg mac).
  destruct (len mac =? 0); [done|]. destruct (Z.ltb_spec (len full) (len mac)); [done|]. cbn [orb]. by rewrite !slice_ok by lia.
Qed.

(** C21: the MAC of the token is the MAC of the vault.  On a token that answers,
    with the keys provisioned as documented ([K||K||K] for algorithm 1;
    [K1||K2||K1], and [K1||K1||K1] under the suffixed label, for algorithm 3),
    every message gets the code that the vault's [GenerateMAC] computes under the
    key, a code is verified as the vault verifies it, and a label without a key
    is an unknown key.  The keys on the token stay as they are. *)
Theorem pkcs11_mac_exact t ref alg pad data mac key :
  (provisioned t ref alg key ->
    (exists t' full, same_keys t t' /\ p11_GenerateMAC cfg ref alg pad data t = (Ok full, t') /\ GenerateMAC alg pad key data = Ok full) /\
    (exists t', same_keys t t' /\ p11_VerifyMAC cfg ref alg pad data mac t =
      (match VerifyMAC alg pad key data mac with Ok b => Ok b | Err _ => Err (P11MACLength (len mac)) | Panic => Panic end, t'))) /\
  (coded_alg alg = true -> tk_object t class ref = None ->
    exists t', same_keys t t' /\ p11_GenerateMAC cfg ref alg pad data t = (Err (P11UnknownKey ref), t')).
Proof.
  split.
  - intros HP. split; [destruct alg; [by apply alg1_law|by apply alg3_law|done]|by apply verify_law].
  - intros HA HN. destruct (findKey_law ref t) as (t' & HS & HF). rewrite HN in HF. exists t'. split; [done|].
    destruct alg; [| |done]; unfold p11_GenerateMAC, tbind; by rewrite HF.
Qed.
End Macs.

(** ** A token *)

(** Keys under labels; a handle is a position. *)
Record toy_token := mkToy { tt_keys : list (bytes * bytes); tt_find : option bytes; tt_op : option (mechanism * Z) }.

Definition toy_object (t : toy_token) (ref : bytes) : option Z := Z.of_nat ∘ fst <$> list_find (fun kv => kv.1 = ref) (tt_keys t).
Definition toy_value (t : toy_token) (h : Z) : option bytes := snd <$> tt_keys t !! Z.to_nat h.

#[export] Instance toy_Token : Token toy_token := {
  FindObjectsInit t class ref := (None, mkToy (tt_keys t) (Some ref) (tt_op t));
  FindObjects t max := (Ok (match tt_find t with
    | Some ref => match toy_object t ref with Some h => [h] | None => [] end
    | None => []
    end), t);
  FindObjectsFinal t := (None, mkToy (tt_keys t) None (tt_op t));
  EncryptInit t m h := (None, mkToy (tt_keys t) (tt_find t) (Some (m, h)));
  p11_Encrypt t src := (match tt_op t with
    | Some (m, h) =>
        match toy_value t h with
        | Some key =>
            match m with
            | CKM_DES3_CBC iv => Ok (cbc_encrypt_blocks (NewTripleDESCipher key) iv (blocks 8 src))
            | CKM_DES3_ECB => Ok (Encrypt (NewTripleDESCipher key) src)
            end
        | None => Err (go "CKR_KEY_HANDLE_INVALID")
        end
    | None => Err (go "CKR_OPERATION_NOT_INITIALIZED")
    end, mkToy (tt_keys t) (tt_find t) None);
}.

#[export] Instance toy_laws : TokenLaws toy_token.
Proof.
  refine {| tk_object := fun t _ ref => toy_object t ref; tk_value := toy_value |}.
  - intros t class ref. eexists _, _, _. split; [reflexivity|]. split; [reflexivity|]. by split.
  - intros t h key iv src HV _ _ _. exists (mkToy (tt_keys t) (tt_find t) (Some (CKM_DES3_CBC iv, h))), (mkToy (tt_keys t) (tt_find t) None). split; [reflexivity|]. split; [|by split]. unfold p11_Encrypt. cbn.
    unfold toy_value in *. cbn. rewrite HV. reflexivity.
  - intros t h key src HV _ _. exists (mkToy (tt_keys t) (tt_find t) (Some (CKM_DES3_ECB, h))), (mkToy (tt_keys t) (tt_find t) None). split; [reflexivity|]. split; [|by split]. unfold p11_Encrypt. cbn.
    unfold toy_value in *. cbn. rewrite HV. reflexivity.
Defined.

Definition sample_token : toy_token :=
  mkToy [(go "mak", replicate 8 x11 ++ replicate 8 x22 ++ replicate 8 x11); (go "mak-cbc", replicate 8 x11 ++ replicate 8 x11 ++ replicate 8 x11)] None None.
Definition sample_p11 : p11_Config := mkP11Config (go "softhsm") [] [] 0 [].

Lemma pkcs11_mac_exact_witness : exists t' full,
  p11_GenerateMAC sample_p11 (go "mak") MACAlg3 Pad2 (go "0200") sample_token = (Ok full, t') /\
  GenerateMAC MACAlg3 Pad2 (replicate 8 x11 ++ replicate 8 x22) (go "0200") = Ok full.
Proof.
  destruct (proj1 (pkcs11_mac_exact sample_p11 sample_token (go "mak") MACAlg3 Pad2 (go "0200") [] (replicate 8 x11 ++ replicate 8 x22)))
    as [(t' & full & _ & H1 & H2) _].
  - exists (replicate 8 x11), (replicate 8 x22). split; [reflexivity|]. split; [reflexivity|]. split; [reflexivity|].
    split; [exists 0|exists 1]; split; reflexivity.
  - exists t', full. split; [exact H1|exact H2].
Defined.
