(* ===== verification/Config.v ===== *)
(** * Configuration and its hot reload ([runtime/config.go], [runtime/watch.go])

    A tree of JSON values read from a file, overlaid with variables of the
    environment, read by dotted paths and replaced as a whole when the file
    changes.  Numbers are binary64 floating-point values ([SpecFloat]); the JSON
    decoder, [time.ParseDuration] and the file system are parameters. *)

From Stdlib Require Import SpecFloat.
From S2P Require Import Prelude Errors Strconv Path Validate GoStrings.

(** ** JSON trees *)

(** What [encoding/json] stores in an [any]. *)
Inductive json :=
| JNull
| JBool (b : bool)
| JNum (f : spec_float)
| JStr (s : bytes)
| JArr (l : list json)
| JObj (m : gmap bytes json).

Abbreviation object := (gmap bytes json).

(** ** Floating point *)

Definition float_mul : spec_float -> spec_float -> spec_float := SFmul 53 1024.

(** The integer part of a finite value, rounded toward zero. *)
Definition float_truncate (f : spec_float) : option Z :=
  match f with
  | S754_zero _ => Some 0
  | S754_finite s m e => let n := if 0 <=? e then Z.pos m * 2 ^ e else Z.pos m / 2 ^ (- e) in Some (if s then - n else n)
  | _ => None
  end.

(** An integer that binary64 holds. *)
Definition float_of (n : Z) : spec_float := SpecFloat.binary_normalize 53 1024 n 0 false.

Section Config.
Context (json_Unmarshal : bytes -> option json) (unicode_lower : bytes -> bytes).

(** ** The tree *)

(** A tree is nil when the document is [null]. *)
Definition tree : Type := option object.

Record Config := mkConfig { cf_tree : tree; cf_path : bytes; cf_prefix : bytes; cf_environ : list bytes }.

Record loadCfg := mkLoadCfg { lc_prefix : bytes; lc_environ : list bytes }.

Inductive tree_error := ReadFailed | ParseFailed | EncodeFailed | DecodeFailed | KeyNotFound (path : bytes).

(** [m[s] = val] in a map of the tree; the maps above it see the change. *)
Fixpoint set_in (m : object) (segs : list bytes) (val : json) : object :=
  match segs with
  | [] => m
  | [s] => <[s := val]> m
  | s :: segs =>
      match m !! s with
      | None => <[s := JObj (set_in ∅ segs val)]> m
      | Some (JObj child) => <[s := JObj (set_in child segs val)]> m
      | Some _ => m
      end
  end.

(** Writing to a nil map panics, and every path writes to the root or below it. *)
Definition setPath (t : tree) (segs : list bytes) (val : json) : res tree_error tree :=
  match segs, t with
  | [], _ => Ok t
  | _, None => Panic
  | _, Some m => Ok (Some (set_in m segs val))
  end.

Definition coerce (s : bytes) : json :=
  match json_Unmarshal s with
  | Some (JNum f) => JNum f
  | Some (JBool b) => JBool b
  | Some JNull => JNull
  | _ => JStr s
  end.

(** The path and the value of a variable that overrides. *)
Definition override (prefix kv : bytes) : option (list bytes * json) :=
  let pfx := if HasSuffix prefix [x5f] then prefix else prefix ++ [x5f] in
  match cut_byte x3d kv with
  | None => None
  | Some (key, val) =>
      if has_prefix key pfx
      then Some (Split (ToLower unicode_lower (replace_byte x5f x2e (drop (length pfx) key))) x2e, coerce val)
      else None
  end.

Fixpoint applyEnvOverrides (t : tree) (prefix : bytes) (environ : list bytes) : res tree_error tree :=
  match environ with
  | [] => Ok t
  | kv :: environ =>
      match override prefix kv with
      | None => applyEnvOverrides t prefix environ
      | Some (segs, val) =>
          match setPath t segs val with
          | Ok t => applyEnvOverrides t prefix environ
          | Err e => Err e
          | Panic => Panic
          end
      end
  end.

(** [json.Unmarshal] into the map. *)
Definition decode_tree (data : bytes) : res tree_error tree :=
  match json_Unmarshal data with
  | Some (JObj m) => Ok (Some m)
  | Some JNull => Ok None
  | _ => Err ParseFailed
  end.

Definition buildTree (data : bytes) (lc : loadCfg) : res tree_error tree :=
  match (if 0 <? len (TrimSpace data) then decode_tree data else Ok (Some ∅)) with
  | Ok t => if bool_decide (lc_prefix lc = []) then Ok t else applyEnvOverrides t (lc_prefix lc) (lc_environ lc)
  | r => r
  end.

Definition config_Parse (data : bytes) (lc : loadCfg) : res tree_error Config :=
  match buildTree data lc with
  | Ok t => Ok (mkConfig t [] (lc_prefix lc) (lc_environ lc))
  | Err e => Err e
  | Panic => Panic
  end.

(** [file] is what [os.ReadFile] returns. *)
Definition config_Load (path : bytes) (file : option bytes) (lc : loadCfg) : res tree_error Config :=
  match file with
  | None => Err ReadFailed
  | Some data =>
      match config_Parse data lc with
      | Ok c => Ok (mkConfig (cf_tree c) path (cf_prefix c) (cf_environ c))
      | r => r
      end
  end.

Definition Reload (c : Config) (file : option bytes) : res tree_error unit * Config :=
  if bool_decide (cf_path c = []) then (Ok tt, c) else
  match file with
  | None => (Err ReadFailed, c)
  | Some data =>
      match buildTree data (mkLoadCfg (cf_prefix c) (cf_environ c)) with
      | Ok t => (Ok tt, mkConfig t (cf_path c) (cf_prefix c) (cf_environ c))
      | Err e => (Err e, c)
      | Panic => (Panic, c)
      end
  end.

(** ** Reading *)

Fixpoint look (v : json) (segs : list bytes) : option json :=
  match segs with
  | [] => Some v
  | s :: segs => match v with JObj m => m !! s ≫= fun w => look w segs | _ => None end
  end.

Definition lookup_path (t : tree) (segs : list bytes) : option json := look (JObj (default ∅ t)) segs.

Definition config_Get (c : Config) (path : bytes) : option json := lookup_path (cf_tree c) (Split path x2e).

Definition config_String (c : Config) (path def : bytes) : bytes :=
  match config_Get c path with Some (JStr s) => s | _ => def end.

(** [strconv.ParseBool]. *)
Definition ParseBool (s : bytes) : option bool :=
  if bool_decide (s ∈ [go "1"; go "t"; go "T"; go "TRUE"; go "true"; go "True"]) then Some true
  else if bool_decide (s ∈ [go "0"; go "f"; go "F"; go "FALSE"; go "false"; go "False"]) then Some false
  else None.

Definition config_Bool (c : Config) (path : bytes) (def : bool) : bool :=
  match config_Get c path with
  | Some (JBool b) => b
  | Some (JStr s) => default def (ParseBool s)
  | _ => def
  end.

(** Numbers: [out_of_range] is a conversion to an integer type that does not
    hold the value. *)
Section Numbers.
Context (ParseDuration : bytes -> option Z) (out_of_range : spec_float -> Z).

Definition float_int64 (f : spec_float) : Z :=
  match float_truncate f with
  | Some n => if (- 2 ^ 63 <=? n) && (n <? 2 ^ 63) then n else out_of_range f
  | None => out_of_range f
  end.

Definition config_Int (c : Config) (path : bytes) (def : Z) : Z :=
  match config_Get c path with
  | Some (JNum f) => float_int64 f
  | Some (JStr s) => match Atoi s with Ok i => i | _ => def end
  | _ => def
  end.

(** A number is seconds. *)
Definition config_Duration (c : Config) (path : bytes) (def : Z) : Z :=
  match config_Get c path with
  | Some (JStr s) => default def (ParseDuration s)
  | Some (JNum d) =>
      let ns := float_mul d (float_of 1000000000) in
      if match ns with S754_nan | S754_infinity _ => true | _ => false end || SFltb (float_of (2 ^ 63 - 1)) ns || SFltb ns (float_of (- 2 ^ 63))
      then def
      else float_int64 ns
  | _ => def
  end.

End Numbers.

(** The encoder and the decoding into a type [A] are parameters. *)
Section Decode.
Context (json_Marshal : json -> option bytes).

Definition config_remarshal {A} (decode : bytes -> option A) (node : json) : res tree_error A :=
  match json_Marshal node with
  | None => Err EncodeFailed
  | Some data => match decode data with Some v => Ok v | None => Err DecodeFailed end
  end.

Definition json_of_tree (t : tree) : json := match t with Some m => JObj m | None => JNull end.

Definition config_Unmarshal {A} (decode : bytes -> option A) (c : Config) : res tree_error A := config_remarshal decode (json_of_tree (cf_tree c)).

Definition config_UnmarshalKey {A} (decode : bytes -> option A) (c : Config) (path : bytes) : res tree_error A :=
  match config_Get c path with None => Err (KeyNotFound path) | Some sub => config_remarshal decode sub end.

End Decode.

(** ** The watcher ([watch.go]) *)

(** What the file system says of the file: its stamp, when it can be examined,
    and its contents, when it can be read. *)
Record file_state := mkFile { fi_stat : option (Z * Z); fi_data : option bytes }.

Record fileStamp := mkStamp { st_mod : Z; st_size : Z; st_ok : bool }.
Definition zeroStamp : fileStamp := mkStamp 0 0 false.

Record ConfigWatcher := mkWatcher { w_cfg : Config; w_last : fileStamp; w_running : bool; w_reloads : list Config }.

Definition stamp (c : Config) (f : file_state) : fileStamp :=
  if bool_decide (cf_path c = []) then zeroStamp else
  match fi_stat f with None => zeroStamp | Some (mod_, size) => mkStamp mod_ size true end.

Definition NewConfigWatcher (c : Config) : ConfigWatcher := mkWatcher c zeroStamp false [].

Definition watcher_Start (w : ConfigWatcher) (f : file_state) : ConfigWatcher :=
  mkWatcher (w_cfg w) (stamp (w_cfg w) f) true (w_reloads w).

Definition watcher_Stop (w : ConfigWatcher) : ConfigWatcher := mkWatcher (w_cfg w) (w_last w) false (w_reloads w).

(** One tick of the loop; [w_reloads] are the calls of [onReload].  The file is
    examined in one state, and then read, perhaps in another. *)
Definition check (w : ConfigWatcher) (examined found : file_state) : option ConfigWatcher :=
  let s := stamp (w_cfg w) examined in
  if negb (st_ok s) || ((st_mod s =? st_mod (w_last w)) && (st_size s =? st_size (w_last w))) then Some w else
  match Reload (w_cfg w) (fi_data found) with
  | (Ok _, c) => Some (mkWatcher c s (w_running w) (w_reloads w ++ [c]))
  | (Err _, c) => Some (mkWatcher c s (w_running w) (w_reloads w))
  | (Panic, _) => None
  end.

(** The ticks of the loop, by the two states of the file each of them sees. *)
Fixpoint ticks (w : ConfigWatcher) (fs : list (file_state * file_state)) : option ConfigWatcher :=
  match fs with
  | [] => Some w
  | f :: fs => match check w f.1 f.2 with Some w => ticks w fs | None => None end
  end.

(** ** Reading what was set *)

Definition is_object (v : json) : bool := match v with JObj _ => true | _ => false end.

(** Every strict prefix of the path that is there is a map. *)
Fixpoint open_for (m : object) (segs : list bytes) : bool :=
  match segs with
  | [] => false
  | [_] => true
  | s :: segs => match m !! s with None => true | Some (JObj child) => open_for child segs | Some _ => false end
  end.

Lemma set_in_cons m s s' segs val : set_in m (s :: s' :: segs) val =
  match m !! s with
  | None => <[s := JObj (set_in ∅ (s' :: segs) val)]> m
  | Some (JObj child) => <[s := JObj (set_in child (s' :: segs) val)]> m
  | Some _ => m
  end.
Proof. done. Qed.

Lemma open_for_empty segs : segs <> [] -> open_for ∅ segs = true.
Proof. destruct segs as [|s [|s' segs]]; done. Qed.

Lemma set_in_blocked m segs val : open_for m segs = false -> set_in m segs val = m.
Proof.
  revert m. induction segs as [|s [|s' segs] IH]; intros m HO; [done|done|]. rewrite set_in_cons. cbn [open_for] in HO.
  destruct (m !! s) as [[]|] eqn:E; try done. rewrite IH by done. by apply insert_id.
Qed.

Lemma set_in_below m segs val q : open_for m segs = true -> look (JObj (set_in m segs val)) (segs ++ q) = look val q.
Proof.
  revert m. induction segs as [|s [|s' segs] IH]; intros m HO; [done| |].
  - cbn [set_in look app]. by rewrite lookup_insert_eq.
  - rewrite set_in_cons. cbn [open_for] in HO. cbn [app look]. destruct (m !! s) as [[]|] eqn:E; try done; rewrite lookup_insert_eq; cbn [mbind option_bind].
    + by apply IH.
    + apply IH. by apply open_for_empty.
Qed.

(** Paths that neither extend nor begin the path set read as before. *)
Lemma set_in_aside m segs val p : ~ segs `prefix_of` p -> ~ p `prefix_of` segs -> look (JObj (set_in m segs val)) p = look (JObj m) p.
Proof.
  revert m p. induction segs as [|s [|s' segs] IH]; intros m p H1 H2.
  - by destruct H1; apply prefix_nil.
  - destruct p as [|x p]; [by destruct H2; apply prefix_nil|]. cbn [set_in look]. rewrite lookup_insert_ne; [done|]. intros ->. destruct H1. by exists p.
  - destruct p as [|x p]; [by destruct H2; apply prefix_nil|]. rewrite set_in_cons. destruct (decide (x = s)) as [->|Hne].
    + assert (H1' : ~ (s' :: segs) `prefix_of` p) by (intros HP; by apply H1, prefix_cons).
      assert (H2' : ~ p `prefix_of` s' :: segs) by (intros HP; by apply H2, prefix_cons).
      cbn [look]. destruct (m !! s) as [[]|] eqn:E; try (by rewrite ?E); rewrite lookup_insert_eq; cbn [mbind option_bind].
      * by apply IH.
      * rewrite IH by done. destruct p as [|y p]; [by destruct H2'; apply prefix_nil|]. cbn [look]. by rewrite lookup_empty.
    + cbn [look]. destruct (m !! s) as [[]|] eqn:E; try done; by rewrite lookup_insert_ne.
Qed.

(** A map stands at every strict prefix of a path that was set. *)
Lemma set_in_above m p x q val : open_for m (p ++ x :: q) = true -> exists m', look (JObj (set_in m (p ++ x :: q) val)) p = Some (JObj m').
Proof.
  revert m. induction p as [|s p IH]; intros m HO; [by eexists|]. cbn [app] in *. destruct (p ++ x :: q) as [|s' segs] eqn:ES; [by destruct p|].
  rewrite set_in_cons. cbn [open_for] in HO. cbn [look]. destruct (m !! s) as [[]|] eqn:E; try done; rewrite lookup_insert_eq; cbn [mbind option_bind].
  - by apply IH.
  - apply IH. by apply open_for_empty.
Qed.

Lemma open_for_above m p x q : open_for m (p ++ x :: q) = true -> forall v, look (JObj m) p = Some v -> is_object v = true.
Proof.
  revert m. induction p as [|s p IH]; intros m HO v; [by intros [= <-]|]. cbn [app look] in *. destruct (p ++ x :: q) as [|s' segs] eqn:ES; [by destruct p|].
  cbn [open_for] in HO. destruct (m !! s) as [[]|] eqn:E; try done. cbn [mbind option_bind]. by apply IH.
Qed.

Lemma open_for_intro m segs : segs <> [] ->
  (forall p x q v, segs = p ++ x :: q -> p <> [] -> look (JObj m) p = Some v -> is_object v = true) -> open_for m segs = true.
Proof.
  revert m. induction segs as [|s [|s' segs] IH]; intros m Hne HP; [done|done|]. cbn [open_for].
  destruct (m !! s) as [v|] eqn:E; [|done].
  assert (HV : is_object v = true) by (apply (HP [s] s' segs v); [done|done|cbn; by rewrite E]).
  destruct v; try done. apply IH; [done|]. intros p x q v HS Hp HL. apply (HP (s :: p) x q v); [cbn; by rewrite HS|done|]. cbn [look]. by rewrite E.
Qed.

(** A value that is not a map stays, unless it or something above it is set. *)
Lemma set_in_scalar m segs val p x : look (JObj m) p = Some x -> is_object x = false -> ~ segs `prefix_of` p ->
  look (JObj (set_in m segs val)) p = Some x.
Proof.
  intros HL HX HP. destruct (open_for m segs) eqn:HO; [|by rewrite set_in_blocked].
  destruct (decide (p `prefix_of` segs)) as [[q ->]|HN]; [|by rewrite set_in_aside].
  destruct q as [|y q]; [by destruct HP; rewrite app_nil_r|]. pose proof (open_for_above _ _ _ _ HO _ HL). congruence.
Qed.

(** ** The environment over the file *)

(** The overrides of an environment, in order. *)
Definition overrides (prefix : bytes) (environ : list bytes) : list (list bytes * json) := omap (override prefix) environ.
Definition apply_sets (m : object) (sets : list (list bytes * json)) : object := fold_left (fun m s => set_in m s.1 s.2) sets m.

Lemma apply_sets_cons m s sets : apply_sets m (s :: sets) = apply_sets (set_in m s.1 s.2) sets.
Proof. done. Qed.

Lemma Split_ne s sep : Split s sep <> [].
Proof. apply split_on_ne. Qed.

Lemma override_path prefix kv segs val : override prefix kv = Some (segs, val) -> segs <> [] /\ is_object val = false.
Proof.
  unfold override. destruct (cut_byte x3d kv) as [[key v]|]; [|done]. destruct (has_prefix key _); [|done]. intros [= <- <-].
  split; [apply Split_ne|]. unfold coerce. by destruct (json_Unmarshal v) as [[]|].
Qed.

Lemma applyEnvOverrides_sets m prefix environ : applyEnvOverrides (Some m) prefix environ = Ok (Some (apply_sets m (overrides prefix environ))).
Proof.
  revert m. induction environ as [|kv environ IH]; intros m; [done|]. cbn [applyEnvOverrides]. unfold overrides. cbn [omap list_omap].
  destruct (override prefix kv) as [[segs val]|] eqn:E; [|apply IH]. destruct (override_path _ _ _ _ E) as [Hne _].
  unfold setPath. destruct segs; [done|]. rewrite apply_sets_cons. apply IH.
Qed.

Lemma apply_sets_scalar m sets p x : look (JObj m) p = Some x -> is_object x = false ->
  (forall s, s ∈ sets -> ~ s.1 `prefix_of` p) -> look (JObj (apply_sets m sets)) p = Some x.
Proof.
  revert m. induction sets as [|s sets IH]; intros m HL HX HS; [done|]. rewrite apply_sets_cons. apply IH; [|done|set_solver].
  apply set_in_scalar; [done|done|]. apply HS. constructor.
Qed.

Lemma apply_sets_aside m sets p : (forall s, s ∈ sets -> ~ s.1 `prefix_of` p /\ ~ p `prefix_of` s.1) ->
  look (JObj (apply_sets m sets)) p = look (JObj m) p.
Proof.
  revert m. induction sets as [|s sets IH]; intros m HS; [done|]. rewrite apply_sets_cons. rewrite IH by set_solver.
  destruct (HS s) as [H1 H2]; [constructor|]. by apply set_in_aside.
Qed.

(** What must hold for a path to be set: nothing above it is a scalar. *)
Definition clear_above (m : object) (segs : list bytes) : Prop :=
  forall p x q v, segs = p ++ x :: q -> p <> [] -> look (JObj m) p = Some v -> is_object v = true.

Lemma set_in_clear m segs val p : is_object val = false -> clear_above m p -> ~ (segs `prefix_of` p /\ segs <> p) -> segs <> [] ->
  clear_above (set_in m segs val) p.
Proof.
  intros HV HC HN Hne q x r v -> Hq HL. destruct (open_for m segs) eqn:HO.
  2:{ rewrite set_in_blocked in HL by done. by eapply HC. }
  destruct (decide (segs `prefix_of` q)) as [[t ->]|H1].
  { exfalso. apply HN. split; [exists (t ++ x :: r); by rewrite <- app_assoc|]. intros HE. apply (f_equal length) in HE.
    rewrite !length_app in HE. cbn [length] in HE. lia. }
  destruct (decide (q `prefix_of` segs)) as [[[|y t] ->]|H2].
  - destruct H1. by rewrite app_nil_r.
  - destruct (set_in_above m q y t val HO) as [m' E]. rewrite E in HL. by injection HL as <-.
  - rewrite set_in_aside in HL by done. by eapply HC.
Qed.

Lemma apply_sets_clear m sets p : Forall (fun s => s.1 <> [] /\ is_object s.2 = false /\ ~ (s.1 `prefix_of` p /\ s.1 <> p)) sets ->
  clear_above m p -> clear_above (apply_sets m sets) p.
Proof.
  intros HF. revert m. induction HF as [|s sets (Hne & HV & HN) _ IH]; intros m HC; [done|]. rewrite apply_sets_cons.
  apply IH. by apply set_in_clear.
Qed.

(** The tree of a document: blank, or an object. *)
Definition declares (data : bytes) (m : object) : Prop :=
  if 0 <? len (TrimSpace data) then json_Unmarshal data = Some (JObj m) else m = ∅.

(** C22: A configuration is its file under its environment, and nothing else.
    For a file that is blank or holds an object and an environment with a
    prefix, [Parse] succeeds, and: a value the file declares, that is not a map,
    is read back unless a variable names it or something above it, whatever
    deeper variables say; a variable is read back unless a later one names it
    or something above it, provided that nothing above it is a scalar of the
    file or named by an earlier one; a path that no variable names, is above or
    below of, reads as in the file. *)
Theorem overrides_exact data lc m : declares data m -> lc_prefix lc <> [] ->
  exists c, config_Parse data lc = Ok c /\ forall path, let p := Split path x2e in
    (forall x, look (JObj m) p = Some x -> is_object x = false ->
       (forall s, s ∈ overrides (lc_prefix lc) (lc_environ lc) -> ~ s.1 `prefix_of` p) -> config_Get c path = Some x) /\
    (forall before kv after v, lc_environ lc = before ++ kv :: after -> override (lc_prefix lc) kv = Some (p, v) ->
       (forall s, s ∈ overrides (lc_prefix lc) after -> ~ s.1 `prefix_of` p) ->
       clear_above m p -> (forall s, s ∈ overrides (lc_prefix lc) before -> ~ (s.1 `prefix_of` p /\ s.1 <> p)) ->
       config_Get c path = Some v) /\
    ((forall s, s ∈ overrides (lc_prefix lc) (lc_environ lc) -> ~ s.1 `prefix_of` p /\ ~ p `prefix_of` s.1) ->
       config_Get c path = look (JObj m) p).
Proof.
  intros HD HP. unfold declares in HD.
  assert (HB : buildTree data lc = Ok (Some (apply_sets m (overrides (lc_prefix lc) (lc_environ lc))))).
  { unfold buildTree, decode_tree. destruct (0 <? len (TrimSpace data)); [rewrite HD|subst m]; rewrite bool_decide_false by done; apply applyEnvOverrides_sets. }
  unfold config_Parse. rewrite HB. eexists. split; [reflexivity|]. cbv zeta. intros path. unfold config_Get, lookup_path. cbn [cf_tree default from_option id]. set (p := Split path x2e).
  split; [|split].
  - intros x HL HX HS. by apply apply_sets_scalar.
  - intros before kv after v HE HO HA HC HBf. rewrite HE. unfold overrides, apply_sets. rewrite omap_app, fold_left_app. cbn [omap list_omap]. rewrite HO. cbn [fold_left fst snd].
    destruct (override_path _ _ _ _ HO) as [Hne HV]. apply apply_sets_scalar; [|done|done].
    rewrite <- (app_nil_r p) at 2. rewrite set_in_below; [done|]. apply open_for_intro; [done|].
    apply (apply_sets_clear m (overrides (lc_prefix lc) before)); [|done]. apply list.Forall_forall. intros s Hs. split; [|split; [|by apply HBf]].
    + unfold overrides in Hs. apply list_elem_of_omap in Hs as (kv' & _ & HO'). destruct s. by apply (override_path _ _ _ _ HO').
    + unfold overrides in Hs. apply list_elem_of_omap in Hs as (kv' & _ & HO'). destruct s. by apply (override_path _ _ _ _ HO').
  - intros HS. by apply apply_sets_aside.
Qed.

(** A document that is [null] leaves a nil map, and the first override panics. *)
Lemma null_document data lc kv after segs v : 0 < len (TrimSpace data) -> json_Unmarshal data = Some JNull -> lc_prefix lc <> [] ->
  lc_environ lc = kv :: after -> override (lc_prefix lc) kv = Some (segs, v) -> config_Parse data lc = Panic.
Proof.
  intros HL HN HP HE HO. unfold config_Parse, buildTree, decode_tree. replace (0 <? len (TrimSpace data)) with true by (symmetry; by apply Z.ltb_lt).
  rewrite HN, bool_decide_false, HE by done. cbn [applyEnvOverrides]. rewrite HO. destruct (override_path _ _ _ _ HO) as [Hne _]. by destruct segs.
Qed.

(** ** Hot reload *)

Definition cfg_load (c : Config) : loadCfg := mkLoadCfg (cf_prefix c) (cf_environ c).

(** The states of the file at the moments it is looked at, in order: a stamp that
    was left does not come back, and stands for the same contents throughout. *)
Definition moves_on (hist : list file_state) : Prop := forall i j k a b c, (i <= j <= k)%nat ->
  hist !! i = Some a -> hist !! j = Some b -> hist !! k = Some c -> fi_stat a <> None -> fi_stat a = fi_stat c ->
  fi_stat b = fi_stat a /\ fi_data b = fi_data a.

(** No state of the file makes the loader panic. *)
Definition benign (lc : loadCfg) (fs : list file_state) : Prop := forall f d, f ∈ fs -> fi_data f = Some d -> buildTree d lc <> Panic.

Definition builds (lc : loadCfg) (f : file_state) (t : tree) : Prop := exists d, fi_data f = Some d /\ buildTree d lc = Ok t.

(** After [n] of the looks, the first to load and the second to start: the watcher
    knows the stamp of one of the states, and holds the tree of a state found then
    or since, unless the file changed between the first two. *)
Record watching (lc : loadCfg) (path : bytes) (f0 s0 : file_state) (hist : list file_state) (n : nat) (w : ConfigWatcher) : Prop := {
  wt_load : cfg_load (w_cfg w) = lc;
  wt_path : cf_path (w_cfg w) = path;
  wt_last : exists i a m sz, (i < n)%nat /\ hist !! i = Some a /\ fi_stat a = Some (m, sz) /\ w_last w = mkStamp m sz true /\
    ((exists j r, (i <= j < n)%nat /\ hist !! j = Some r /\ forall t, builds lc r t -> cf_tree (w_cfg w) = t) \/
     (fi_stat a = fi_stat s0 /\ fi_stat f0 <> fi_stat s0));
  wt_some : exists g, g ∈ hist /\ builds lc g (cf_tree (w_cfg w));
}.

Lemma Reload_ok c d : cf_path c <> [] -> buildTree d (cfg_load c) <> Panic ->
  Reload c (Some d) = match buildTree d (cfg_load c) with
    | Ok t => (Ok tt, mkConfig t (cf_path c) (cf_prefix c) (cf_environ c)) | Err e => (Err e, c) | Panic => (Panic, c) end.
Proof. intros HP HN. unfold Reload. by rewrite bool_decide_false. Qed.

Lemma watching_later lc path f0 s0 hist n n' w : (n <= n')%nat -> watching lc path f0 s0 hist n w -> watching lc path f0 s0 hist n' w.
Proof.
  intros Hn [H1 H2 (i & a & m & sz & Hi & Ha & HS & HL & HX) H4]. split; try done. exists i, a, m, sz. split_and!; try done; [lia|].
  destruct HX as [(j & r & Hj & ?)|?]; [left; exists j, r|by right]. split; [lia|done].
Qed.

Lemma check_watching lc path f0 s0 hist n w x y : path <> [] -> moves_on hist -> benign lc hist ->
  hist !! n = Some x -> hist !! S n = Some y -> watching lc path f0 s0 hist n w ->
  exists w', check w x y = Some w' /\ watching lc path f0 s0 hist (S (S n)) w' /\
    (forall t, fi_stat x <> None -> fi_stat x = fi_stat y -> builds lc y t -> fi_stat f0 = fi_stat s0 \/ fi_stat x <> fi_stat s0 -> cf_tree (w_cfg w') = t) /\
    ((forall t, ~ builds lc y t) -> cf_tree (w_cfg w') = cf_tree (w_cfg w)).
Proof.
  intros Hp HM HB Hx Hy HW. pose proof HW as [Hl Hpa (i & a & m & sz & Hi & Ha & HS & HL & HX) HT].
  assert (HK : watching lc path f0 s0 hist (S (S n)) w) by (eapply watching_later; [|exact HW]; lia).
  unfold check, stamp. rewrite Hpa, bool_decide_false by done. destruct (fi_stat x) as [[m' sz']|] eqn:ES; [|by exists w].
  cbn [st_ok st_mod st_size negb orb]. rewrite HL. cbn [st_mod st_size]. destruct ((m' =? m) && (sz' =? sz)) eqn:EQ.
  { apply andb_prop in EQ as [->%Z.eqb_eq ->%Z.eqb_eq]. exists w. split; [done|]. split; [done|]. split; [|done].
    intros t _ EY (d & Hd & Ht) HR. destruct HX as [(j & r & Hj & Hr & HG)|[E1 E2]]; [|exfalso; rewrite HS in E1; by destruct HR].
    apply HG. exists d. split; [|done]. rewrite <- Hd.
    destruct (HM i j n a r x ltac:(lia) Ha Hr Hx) as [_ ->]; [by rewrite HS|by rewrite HS, ES|].
    destruct (HM i (S n) (S n) a y y ltac:(lia) Ha Hy Hy) as [_ ->]; [by rewrite HS|by rewrite HS, EY|done]. }
  assert (HN : forall c l, cfg_load c = lc -> cf_path c = path -> (forall t, builds lc y t -> cf_tree c = t) -> (exists g, g ∈ hist /\ builds lc g (cf_tree c)) ->
    watching lc path f0 s0 hist (S (S n)) (mkWatcher c (mkStamp m' sz' true) (w_running w) l)).
  { intros c l H1 H2 H3 H4. split; try done. exists n, x, m', sz'. split_and!; try done; [lia|]. left. exists (S n), y. split; [lia|done]. }
  destruct (fi_data y) as [d|] eqn:Ed.
  2:{ unfold Reload. rewrite Hpa, bool_decide_false by done. eexists. split; [reflexivity|].
      assert (HE : forall t, ~ builds lc y t) by (intros t (d & Hd & _); congruence). split; [apply HN; try done; by intros t ?%HE|]. split; [by intros t _ _ ?%HE|done]. }
  pose proof (HB y d ltac:(by eapply list_elem_of_lookup_2) Ed) as HNP. rewrite Reload_ok by (rewrite ?Hpa, ?Hl; done). rewrite Hl.
  destruct (buildTree d lc) as [t|e|] eqn:Et; [| |done]; eexists; (split; [reflexivity|]).
  - assert (HE : forall t', builds lc y t' -> t = t') by (intros t' (d' & Hd' & Ht'); congruence).
    assert (HY : builds lc y t) by (by exists d). split; [|split; [intros t' _ _ Hb _; by apply HE|intros HZ; by destruct (HZ t)]].
    apply HN; cbn; try done. exists y. split; [by eapply list_elem_of_lookup_2|done].
  - assert (HE : forall t', ~ builds lc y t') by (intros t' (d' & Hd' & Ht'); congruence).
    split; [apply HN; try done; by intros t ?%HE|]. split; [by intros t _ _ ?%HE|done].
Qed.

(** The looks of the ticks, in order. *)
Definition looks (ts : list (file_state * file_state)) : list file_state := concat ((fun t => [t.1; t.2]) <$> ts).

Lemma ticks_watching lc path f0 s0 hist ts : forall n w past, path <> [] -> moves_on hist -> benign lc hist -> length past = n ->
  (exists rest, hist = past ++ looks ts ++ rest) -> watching lc path f0 s0 hist n w ->
  exists w', ticks w ts = Some w' /\ watching lc path f0 s0 hist (n + 2 * length ts) w'.
Proof.
  induction ts as [|[x y] ts IH]; intros n w past Hp HM HB HP [rest HR] HW; cbn [ticks fst snd].
  { exists w. split; [done|]. by rewrite Nat.add_0_r. }
  assert (Hx : hist !! n = Some x) by (rewrite HR, lookup_app_r, <- HP, Nat.sub_diag by lia; done).
  assert (Hy : hist !! S n = Some y) by (rewrite HR, lookup_app_r by lia; by replace (S n - length past)%nat with 1%nat by lia).
  destruct (check_watching lc path f0 s0 hist n w x y Hp HM HB Hx Hy HW) as (w1 & -> & HW1 & _).
  destruct (IH (S (S n)) w1 (past ++ [x; y]) Hp HM HB) as (w' & E & HW'); [rewrite length_app; cbn; lia|exists rest; by rewrite HR, <- app_assoc|done|].
  exists w'. split; [done|]. cbn [length]. by replace (n + 2 * S (length ts))%nat with (S (S n) + 2 * length ts)%nat by lia.
Qed.

Lemma ticks_app w ts w1 x : ticks w ts = Some w1 -> ticks w (ts ++ [x]) = check w1 x.1 x.2.
Proof.
  revert w. induction ts as [|t ts IH]; intros w; cbn [app ticks]; [|destruct (check w t.1 t.2); [apply IH|done]].
  intros [= ->]. by destruct (check w1 x.1 x.2).
Qed.

(** The watcher as it was started. *)
Lemma start_watching path lc f0 s0 c rest : path <> [] -> moves_on (f0 :: s0 :: rest) -> fi_stat s0 <> None ->
  config_Load path (fi_data f0) lc = Ok c -> watching lc path f0 s0 (f0 :: s0 :: rest) 2 (watcher_Start (NewConfigWatcher c) s0).
Proof.
  intros Hp HM HS HL. unfold config_Load, config_Parse in HL. destruct (fi_data f0) as [d|] eqn:Ed; [|done].
  destruct (buildTree d lc) as [t|e|] eqn:Et; [|done|done]. injection HL as <-. destruct (fi_stat s0) as [[m sz]|] eqn:ES; [|done].
  assert (HF : builds lc f0 t) by (by exists d).
  split; cbn [watcher_Start NewConfigWatcher w_cfg w_last cf_path cf_tree cfg_load cf_prefix cf_environ]; [by destruct lc|done| |].
  - exists 1%nat, s0, m, sz. split; [lia|]. split; [done|]. split; [done|]. split; [unfold stamp; cbn [cf_path]; by rewrite bool_decide_false, ES|].
    destruct (decide (fi_stat f0 = fi_stat s0)) as [E|E]; [left|by right]. exists 1%nat, s0. split; [lia|]. split; [done|].
    intros t' (d' & Hd' & Ht'). destruct (HM 0%nat 1%nat 1%nat f0 s0 s0 ltac:(lia) eq_refl eq_refl eq_refl) as [_ E2]; [by rewrite E, ES|done|]. congruence.
  - exists f0. split; [constructor|done].
Qed.


(** A change between [Load] and [Start] is missed: the stamp that [Start] records is
    that of the new file, and no tick reloads it while it stays. *)
Lemma change_before_start_missed c s0 ts : cf_path c <> [] -> fi_stat s0 <> None -> Forall (fun t => fi_stat t.1 = fi_stat s0) ts ->
  ticks (watcher_Start (NewConfigWatcher c) s0) ts = Some (watcher_Start (NewConfigWatcher c) s0).
Proof.
  intros HP HS HF. induction HF as [|[x y] ts Hx _ IH]; [done|]. cbn [ticks fst snd] in *. unfold check. cbn [w_cfg w_last watcher_Start NewConfigWatcher].
  assert (HE : stamp c x = stamp c s0) by (unfold stamp; by rewrite Hx). rewrite HE, !Z.eqb_refl, orb_true_r. exact IH.
Qed.

(** A reload that fails is not tried again while the stamp stays: what was
    unreadable for a moment is missed. *)
Lemma check_not_retried w m sz d : cf_path (w_cfg w) <> [] -> st_mod (w_last w) <> m ->
  exists w', check w (mkFile (Some (m, sz)) None) (mkFile (Some (m, sz)) None) = Some w' /\ cf_tree (w_cfg w') = cf_tree (w_cfg w) /\
    check w' (mkFile (Some (m, sz)) (Some d)) (mkFile (Some (m, sz)) (Some d)) = Some w'.
Proof.
  intros HP HM. unfold check, stamp. rewrite bool_decide_false by done. cbn [fi_stat fi_data st_ok st_mod st_size negb orb].
  replace (m =? st_mod (w_last w)) with false by (symmetry; apply Z.eqb_neq; congruence). cbn [andb]. unfold Reload. rewrite bool_decide_false by done.
  eexists. split; [reflexivity|]. cbn [w_cfg w_last]. rewrite bool_decide_false by done. cbn. by rewrite !Z.eqb_refl.
Qed.
End Config.

(** The largest duration admitted is one more than the largest that can be held:
    9223372036.854776 seconds are 2^63 nanoseconds, which pass the check. *)
Definition just_too_long : spec_float := S754_finite false 4835703278458517 (-19).

Lemma duration_edge pd out prefix environ :
  let c := mkConfig (Some {[go "t" := JNum just_too_long]}) [] prefix environ in
  float_truncate (float_mul just_too_long (float_of 1000000000)) = Some (2 ^ 63) /\
  config_Duration pd out c (go "t") 7 = out (float_mul just_too_long (float_of 1000000000)).
Proof. cbv zeta. split; vm_compute; reflexivity. Qed.

(** ** A concrete file *)

Definition panics {E A} (r : res E A) : bool := match r with Panic => true | _ => false end.

Lemma not_panic {E A} (r : res E A) : panics r = false -> r <> Panic.
Proof. by destruct r. Qed.

Definition toy_decode (s : bytes) : option json :=
  if bool_decide (s = go "{link:{timeout:5},level:info}")
  then Some (JObj {[go "link" := JObj {[go "timeout" := JNum (float_of 5)]}; go "level" := JStr (go "info")]})
  else if bool_decide (s = go "true") then Some (JBool true) else None.

Definition toy_env : loadCfg := mkLoadCfg (go "APP") [go "HOME=/root"; go "APP_LINK_TLS=true"; go "APP_LEVEL_DEEP=x"].

Lemma overrides_exact_witness : exists c, config_Parse toy_decode id (go "{link:{timeout:5},level:info}") toy_env = Ok c /\
  config_Get c (go "level") = Some (JStr (go "info")) /\ config_Get c (go "link.tls") = Some (JBool true) /\
  config_Get c (go "link.timeout") = Some (JNum (float_of 5)).
Proof.
  destruct (overrides_exact toy_decode id (go "{link:{timeout:5},level:info}") toy_env
    {[go "link" := JObj {[go "timeout" := JNum (float_of 5)]}; go "level" := JStr (go "info")]}) as (c & HP & HG).
  - vm_compute. reflexivity.
  - discriminate.
  - exists c. split; [exact HP|].
    assert (HO : overrides toy_decode id (lc_prefix toy_env) (lc_environ toy_env) =
      [([go "link"; go "tls"], JBool true); ([go "level"; go "deep"], JStr (go "x"))]) by (vm_compute; reflexivity).
    assert (Hno : forall p, Forall (fun s : list bytes => bool_decide (s `prefix_of` p) = false) [[go "link"; go "tls"]; [go "level"; go "deep"]] ->
      forall s, s ∈ overrides toy_decode id (lc_prefix toy_env) (lc_environ toy_env) -> ~ s.1 `prefix_of` p).
    { intros p HF s. rewrite HO. intros [-> |[-> |H]%elem_of_cons]%elem_of_cons; [..|by apply elem_of_nil in H];
        cbn [fst]; apply (bool_decide_eq_false_1 _); [by apply list.Forall_cons in HF as [? _]|apply list.Forall_cons in HF as [_ HF]; by apply list.Forall_cons in HF as [? _]]. }
    split; [|split].
    + apply (proj1 (HG (go "level"))); [vm_compute; reflexivity|reflexivity|]. apply Hno. repeat constructor.
    + apply (proj1 (proj2 (HG (go "link.tls"))) [go "HOME=/root"] (go "APP_LINK_TLS=true") [go "APP_LEVEL_DEEP=x"]).
      * reflexivity.
      * vm_compute. reflexivity.
      * intros s. replace (overrides toy_decode id (lc_prefix toy_env) [go "APP_LEVEL_DEEP=x"]) with [([go "level"; go "deep"], JStr (go "x"))] by (vm_compute; reflexivity).
        intros ->%list_elem_of_singleton. apply (bool_decide_eq_false_1 _). vm_compute. reflexivity.
      * intros p x q v HE Hne HL. destruct p as [|a [|b [|]]]; [done| | |]; cbn in HE; try discriminate HE; injection HE as <- ?; vm_compute in HL; by injection HL as <-.
      * intros s HS. by apply elem_of_nil in HS.
    + apply (proj1 (HG (go "link.timeout"))); [vm_compute; reflexivity|reflexivity|]. apply Hno. repeat constructor.
Defined.

