(* ===== verification/XmlText.v ===== *)
(** * XML text and documents ([encoding/xml])

    What the renderer of [XmlIo] uses of encoding/xml: the escaping of
    [xml.EscapeText], the meaning XML 1.0 gives to the text of an attribute, and
    what is asked of a decoder, namely that it reads a well-formed document as
    the elements it holds, with the texts of their attributes unescaped.  A
    decoder of such documents shows that this can be had. *)

From S2P Require Import Prelude Errors Strconv Path Framer Validate GoStrings Describe.

(** ** Escaping *)

(** The characters of XML 1.0. *)
Definition isInCharacterRange (r : Z) : bool :=
  (r =? 0x09) || (r =? 0x0A) || (r =? 0x0D) || ((0x20 <=? r) && (r <=? 0xD7FF)) || ((0xE000 <=? r) && (r <=? 0xFFFD)) ||
  ((0x10000 <=? r) && (r <=? 0x10FFFF)).

(** What one character is written as; [raw] are its bytes. *)
Definition xml_escape_rune (r : Z) (width : nat) (raw : bytes) : bytes :=
  if r =? 0x22 then go "&#34;" else if r =? 0x27 then go "&#39;" else if r =? 0x26 then go "&amp;"
  else if r =? 0x3C then go "&lt;" else if r =? 0x3E then go "&gt;"
  else if r =? 0x09 then go "&#x9;" else if r =? 0x0A then go "&#xA;" else if r =? 0x0D then go "&#xD;"
  else if negb (isInCharacterRange r) || ((r =? 0xFFFD) && (width =? 1)%nat) then [xef; xbf; xbd]
  else raw.

Fixpoint escape_n (n : nat) (s : bytes) : bytes :=
  match n, s with
  | S n, b :: rest => let '(r, w) := decode_rune b rest in xml_escape_rune r w (take w s) ++ escape_n n (drop w s)
  | _, _ => []
  end.
Definition EscapeText (s : bytes) : bytes := escape_n (length s) s.

(** ** The text of an attribute *)

(** A digit of a character reference. *)
Definition ref_digit (c : byte) : option Z :=
  let x := bz c in
  if (48 <=? x) && (x <=? 57) then Some (x - 48) else if (65 <=? x) && (x <=? 70) then Some (x - 55)
  else if (97 <=? x) && (x <=? 102) then Some (x - 87) else None.

Fixpoint hex_number (acc : Z) (s : bytes) : option Z :=
  match s with
  | [] => Some acc
  | c :: s => match ref_digit c with Some d => hex_number (acc * 16 + d) s | None => None end
  end.

(** What a reference names: an entity every XML document has, or a character by
    its number. *)
Definition reference (name : bytes) : option Z :=
  if bool_decide (name = go "amp") then Some 0x26 else if bool_decide (name = go "lt") then Some 0x3C
  else if bool_decide (name = go "gt") then Some 0x3E else if bool_decide (name = go "quot") then Some 0x22
  else if bool_decide (name = go "apos") then Some 0x27 else
  match name with
  | x23 :: x78 :: digits => match digits with [] => None | _ => hex_number 0 digits end
  | x23 :: digits => match ParseUint 64 digits with Ok n => Some n | _ => None end
  | _ => None
  end.

(** A character that stands for itself inside an attribute: a character of XML
    that is no markup and no white space but the blank. *)
Definition literal (r : Z) (w : nat) : bool :=
  isInCharacterRange r && negb ((r =? 0xFFFD) && (w =? 1)%nat) && (0x20 <=? r) && negb (r =? 0x22) && negb (r =? 0x26) && negb (r =? 0x3C).

Fixpoint unescape_n (n : nat) (s : bytes) : option bytes :=
  match s with
  | [] => Some []
  | b :: rest =>
      match n with
      | O => None
      | S n =>
          if bool_decide (b = x26) then
            match cut_byte x3b rest with
            | Some (name, rest) =>
                match reference name with
                | Some r => if isInCharacterRange r then (fun t => encode_rune r ++ t) <$> unescape_n n rest else None
                | None => None
                end
            | None => None
            end
          else
            let '(r, w) := decode_rune b rest in
            if literal r w then (fun t => take w s ++ t) <$> unescape_n n (drop w s) else None
      end
  end.

(** The value of an attribute written as [s]; none when it is not well formed. *)
Definition unescape (s : bytes) : option bytes := unescape_n (length s) s.

(** Text made of XML characters, in valid UTF-8. *)
Fixpoint xml_chars_n (n : nat) (s : bytes) : bool :=
  match n, s with
  | S n, b :: rest =>
      let '(r, w) := decode_rune b rest in isInCharacterRange r && negb ((r =? 0xFFFD) && (w =? 1)%nat) && xml_chars_n n (drop w s)
  | _, _ => true
  end.
Definition xml_chars (s : bytes) : bool := xml_chars_n (length s) s.

Example unescape_examples : unescape (go "a &lt; b &#38;&#x26; &quot;") = Some (go "a < b && " ++ [x22]) /\
  unescape (go "a < b") = None /\ unescape (go "a & b") = None /\ unescape [x22] = None.
Proof. by vm_compute. Qed.

(** ** Markup *)

(** The characters that end an attribute or begin a tag. *)
Definition markup (c : byte) : bool := bool_decide (c = x22) || bool_decide (c = x3c) || bool_decide (c = x3e).

Lemma decode_rune_ascii b rest : bz b < 128 -> decode_rune b rest = (bz b, 1%nat).
Proof. intros H. unfold decode_rune. by replace (bz b <? 0x80) with true by (symmetry; apply Z.ltb_lt; lia). Qed.

(** The bytes of a character that is not ASCII are none of ASCII's. *)
Lemma decode_rune_high b rest r w : decode_rune b rest = (r, w) -> 128 <= bz b ->
  r = runeError /\ w = 1%nat \/ Forall (fun c => 128 <= bz c) (take w (b :: rest)).
Proof.
  intros HD HB. unfold decode_rune in HD. replace (bz b <? 0x80) with false in HD by (symmetry; apply Z.ltb_ge; lia).
  assert (HI : forall lo hi c, 128 <= lo -> in_bytes lo hi c = true -> 128 <= bz c) by (unfold in_bytes; intros lo hi c Hl [?%Z.leb_le _]%andb_prop; lia).
  destruct rest as [|b1 rest1]; [injection HD as <- <-; by left|].
  destruct ((0xC2 <=? bz b) && (bz b <=? 0xDF)).
  { destruct (in_bytes 128 191 b1) eqn:E1; injection HD as <- <-; [right|by left]. apply HI in E1; [|lia].
    cbn [take]. rewrite !list.Forall_cons. split_and!; done. }
  destruct rest1 as [|b2 rest2]; [injection HD as <- <-; by left|].
  destruct ((0xE0 <=? bz b) && (bz b <=? 0xEF)).
  { destruct (in_bytes _ _ b1 && in_bytes _ _ b2) eqn:E; injection HD as <- <-; [right|by left]. apply andb_prop in E as [E1 E2].
    apply HI in E1; [|case_match; lia]. apply HI in E2; [|lia]. cbn [take]. rewrite !list.Forall_cons. split_and!; done. }
  destruct rest2 as [|b3 rest3]; [injection HD as <- <-; by left|].
  destruct ((0xF0 <=? bz b) && (bz b <=? 0xF4)); [|injection HD as <- <-; by left].
  destruct (in_bytes _ _ b1 && in_bytes _ _ b2 && in_bytes _ _ b3) eqn:E; injection HD as <- <-; [right|by left].
  apply andb_prop in E as [[E1 E2]%andb_prop E3]. apply HI in E1; [|case_match; lia]. apply HI in E2; [|lia]. apply HI in E3; [|lia].
  cbn [take]. rewrite !list.Forall_cons. split_and!; done.
Qed.

Lemma high_not_markup l : Forall (fun c => 128 <= bz c) l -> forallb (fun c => negb (markup c)) l = true.
Proof.
  induction 1 as [|c l Hc _ IH]; [done|]. cbn [forallb]. rewrite IH, andb_true_r. unfold markup.
  rewrite !bool_decide_false; [done|..]; intros ->; vm_compute in Hc; congruence.
Qed.

Lemma ascii_inert b : forallb (fun c => negb (markup c)) (xml_escape_rune (bz b) 1 [b]) = true.
Proof. destruct b; vm_compute; reflexivity. Qed.

(** Escaped text holds no markup, whatever the text. *)
Lemma EscapeText_inert s : forallb (fun c => negb (markup c)) (EscapeText s) = true.
Proof.
  unfold EscapeText. generalize (length s). intros n. revert s. induction n as [|n IH]; intros [|b rest]; try done. cbn [escape_n].
  destruct (decode_rune b rest) as [r w] eqn:ED. rewrite forallb_app, IH, andb_true_r.
  destruct (Z.lt_ge_cases (bz b) 128) as [Hb|Hb].
  - rewrite decode_rune_ascii in ED by done. injection ED as <- <-. apply ascii_inert.
  - destruct (decode_rune_high b rest r w ED Hb) as [[-> ->]|HF]; [by vm_compute|]. unfold xml_escape_rune.
    repeat (case_match; [by vm_compute|]). by apply high_not_markup.
Qed.


(** ** Escaping and unescaping *)

Lemma decode_rune_width b rest r w : decode_rune b rest = (r, w) -> (1 <= w <= length (b :: rest))%nat.
Proof.
  unfold decode_rune. intros HD. repeat (case_match; try (injection HD as <- <-; cbn; lia)).
Qed.

(** A rune is decided by its own bytes. *)
Lemma decode_rune_local b rest r w t : decode_rune b rest = (r, w) -> (r =? 0xFFFD) && (w =? 1)%nat = false ->
  decode_rune b (take (w - 1) rest ++ t) = (r, w).
Proof.
  unfold decode_rune. intros HD HN. destruct (bz b <? 0x80); [by injection HD as <- <-|].
  destruct rest as [|b1 rest1]; [injection HD as <- <-; done|].
  destruct ((0xC2 <=? bz b) && (bz b <=? 0xDF)).
  { destruct (in_bytes _ _ b1) eqn:E; injection HD as <- <-; [|done]. cbn. by rewrite E. }
  destruct rest1 as [|b2 rest2]; [injection HD as <- <-; done|].
  destruct ((0xE0 <=? bz b) && (bz b <=? 0xEF)).
  { destruct (in_bytes _ _ b1 && in_bytes _ _ b2) eqn:E; injection HD as <- <-; [|done]. cbn. by rewrite E. }
  destruct rest2 as [|b3 rest3]; [injection HD as <- <-; done|].
  destruct ((0xF0 <=? bz b) && (bz b <=? 0xF4)); [|injection HD as <- <-; done].
  destruct (in_bytes _ _ b1 && in_bytes _ _ b2 && in_bytes _ _ b3) eqn:E; injection HD as <- <-; [|done]. cbn. by rewrite E.
Qed.

(** The ASCII runes are their bytes. *)
Lemma decode_rune_low b rest r w : decode_rune b rest = (r, w) -> r < 0x80 -> bz b = r /\ w = 1%nat.
Proof.
  intros HD HR. destruct (Z.lt_ge_cases (bz b) 128) as [Hb|Hb]; [rewrite decode_rune_ascii in HD by done; by injection HD as <- <-|].
  exfalso. unfold decode_rune in HD. replace (bz b <? 0x80) with false in HD by (symmetry; apply Z.ltb_ge; lia).
  assert (HI : forall lo hi c, in_bytes lo hi c = true -> lo <= bz c) by (unfold in_bytes; intros lo hi c [?%Z.leb_le _]%andb_prop; lia).
  unfold runeError in HD. destruct rest as [|b1 rest1]; [injection HD as <- <-; lia|].
  destruct ((0xC2 <=? bz b) && (bz b <=? 0xDF)) eqn:E2.
  { apply andb_prop in E2 as [?%Z.leb_le _]. destruct (in_bytes _ _ b1) eqn:E; injection HD as <- <-; [|lia]. apply HI in E. unfold cont_bits in HR. lia. }
  destruct rest1 as [|b2 rest2]; [injection HD as <- <-; lia|].
  destruct ((0xE0 <=? bz b) && (bz b <=? 0xEF)) eqn:E3.
  { apply andb_prop in E3 as [?%Z.leb_le _]. destruct (in_bytes _ _ b1 && in_bytes _ _ b2) eqn:E; injection HD as <- <-; [|lia].
    apply andb_prop in E as [E1%HI E4%HI]. unfold cont_bits in HR. destruct (Z.eqb_spec (bz b) 0xE0); lia. }
  destruct rest2 as [|b3 rest3]; [injection HD as <- <-; lia|].
  destruct ((0xF0 <=? bz b) && (bz b <=? 0xF4)) eqn:E4; [|injection HD as <- <-; lia]. apply andb_prop in E4 as [?%Z.leb_le _].
  destruct (in_bytes _ _ b1 && in_bytes _ _ b2 && in_bytes _ _ b3) eqn:E; injection HD as <- <-; [|lia].
  apply andb_prop in E as [[E5%HI E6%HI]%andb_prop E7%HI]. unfold cont_bits in HR. destruct (Z.eqb_spec (bz b) 0xF0); lia.
Qed.

(** The characters that are written as references. *)
Definition escapes : list (Z * bytes) :=
  [(0x22, go "#34"); (0x27, go "#39"); (0x26, go "amp"); (0x3C, go "lt"); (0x3E, go "gt"); (0x09, go "#x9"); (0x0A, go "#xA"); (0x0D, go "#xD")].

(** An escaped character is a reference to it, or stands for itself. *)
Lemma escape_rune_cases r w raw : isInCharacterRange r = true -> (r =? 0xFFFD) && (w =? 1)%nat = false ->
  (exists name, (r, name) ∈ escapes /\ xml_escape_rune r w raw = x26 :: name ++ [x3b]) \/ (literal r w = true /\ xml_escape_rune r w raw = raw).
Proof.
  intros HR HW. unfold xml_escape_rune, literal. rewrite HR, HW. unfold escapes.
  destruct (Z.eqb_spec r 0x22) as [->|]; [left; exists (go "#34"); split; [set_solver|reflexivity]|].
  destruct (Z.eqb_spec r 0x27) as [->|]; [left; exists (go "#39"); split; [set_solver|reflexivity]|].
  destruct (Z.eqb_spec r 0x26) as [->|]; [left; exists (go "amp"); split; [set_solver|reflexivity]|].
  destruct (Z.eqb_spec r 0x3C) as [->|]; [left; exists (go "lt"); split; [set_solver|reflexivity]|].
  destruct (Z.eqb_spec r 0x3E) as [->|]; [left; exists (go "gt"); split; [set_solver|reflexivity]|].
  destruct (Z.eqb_spec r 0x09) as [->|]; [left; exists (go "#x9"); split; [set_solver|reflexivity]|].
  destruct (Z.eqb_spec r 0x0A) as [->|]; [left; exists (go "#xA"); split; [set_solver|reflexivity]|].
  destruct (Z.eqb_spec r 0x0D) as [->|]; [left; exists (go "#xD"); split; [set_solver|reflexivity]|].
  right. split; [|done]. cbn. apply andb_true_intro. split; [|done]. rewrite !andb_true_r. apply Z.leb_le.
  unfold isInCharacterRange in HR. rewrite !orb_true_iff, !andb_true_iff, !Z.eqb_eq, !Z.leb_le in HR. lia.
Qed.

Lemma escapes_unescape r name n t : (r, name) ∈ escapes -> unescape_n (S n) (x26 :: name ++ [x3b] ++ t) = (fun u => zb r :: u) <$> unescape_n n t.
Proof.
  unfold escapes. rewrite !elem_of_cons, elem_of_nil. intros HE. destruct_or! HE; try done; injection HE as -> ->; reflexivity.
Qed.

Lemma escapes_ascii r name : (r, name) ∈ escapes -> r < 0x80.
Proof. unfold escapes. rewrite !elem_of_cons, elem_of_nil. intros HE. destruct_or! HE; try done; injection HE as -> ->; lia. Qed.

Lemma unescape_escape_n n s k : (length s <= n)%nat -> xml_chars_n n s = true -> (length (escape_n n s) <= k)%nat -> unescape_n k (escape_n n s) = Some s.
Proof.
  revert s k. induction n as [|n IH]; intros [|b rest] k Hn HX HK; try (cbn in *; lia); try (by destruct k).
  cbn [escape_n xml_chars_n] in *. destruct (decode_rune b rest) as [r w] eqn:ED. apply andb_prop in HX as [[HR HW]%andb_prop HX]. apply negb_true_iff in HW.
  pose proof (decode_rune_width _ _ _ _ ED) as Hw. set (s := b :: rest) in *. rewrite length_app in HK.
  assert (HT : forall k', (length (escape_n n (drop w s)) <= k')%nat -> unescape_n k' (escape_n n (drop w s)) = Some (drop w s)).
  { intros k' HK'. apply IH; [rewrite length_drop; lia|done|done]. }
  destruct (escape_rune_cases r w (take w s) HR HW) as [(name & HE & Heq)|[HL Heq]]; rewrite Heq in HK |- *.
  - destruct k as [|k]; [cbn in HK; lia|]. rewrite <- app_comm_cons, <- app_assoc, (escapes_unescape r) by done.
    rewrite HT by (cbn [length] in HK; rewrite length_app in HK; cbn in HK; lia). cbn.
    destruct (decode_rune_low _ _ _ _ ED (escapes_ascii _ _ HE)) as [<- ->]. by rewrite zb_bz.
  - assert (HLen : length (take w s) = w) by (rewrite length_take; lia). destruct k as [|k]; [lia|].
    assert (HS : take w s ++ escape_n n (drop w s) = b :: (take (w - 1) rest ++ escape_n n (drop w s))).
    { unfold s. destruct w as [|w]; [lia|]. cbn. by rewrite Nat.sub_0_r. }
    rewrite HS. cbn [unescape_n]. rewrite bool_decide_false.
    2:{ intros ->. rewrite decode_rune_ascii in ED by (vm_compute; done). injection ED as <- <-. by vm_compute in HL. }
    rewrite (decode_rune_local b rest r w _ ED HW), HL, <- HS.
    rewrite drop_app_length', take_app_length' by done. rewrite HT by lia. cbn. by rewrite take_drop.
Qed.

(** Text of XML characters survives as the value of an attribute. *)
Lemma unescape_EscapeText s : xml_chars s = true -> unescape (EscapeText s) = Some s.
Proof. intros HX. unfold unescape, EscapeText. by apply unescape_escape_n. Qed.

(** ** Documents *)

Record xmlField := mkXmlField { xf_ID : bytes; xf_Value : bytes; xf_Type : bytes }.
Inductive xmlMsg := mkXmlMsg { xm_ID : bytes; xm_Fields : list xmlField; xm_Subs : list xmlMsg }.

(** A document of field elements without content: the names and the texts of
    their attributes, as they are written. *)
Definition attr_text (a : bytes * bytes) : bytes := go " " ++ a.1 ++ go "=" ++ [x22] ++ a.2 ++ [x22].
Definition element_text (attrs : list (bytes * bytes)) : bytes := go "  " ++ go "<field" ++ concat (attr_text <$> attrs) ++ go "/>" ++ [x0a].
Definition document_text (els : list (list (bytes * bytes))) : bytes :=
  go "<isomsg>" ++ [x0a] ++ concat (element_text <$> els) ++ go "</isomsg>" ++ [x0a].

(** Well-formed attributes: names of the struct's tags, each once, and texts that
    hold no markup and unescape. *)
Definition attr_names : list bytes := [go "id"; go "value"; go "type"; go "name"].
Definition attr_ok (a : bytes * bytes) : Prop := a.1 ∈ attr_names /\ forallb (fun c => negb (markup c)) a.2 = true /\ is_Some (unescape a.2).
Definition element_ok (attrs : list (bytes * bytes)) : Prop := NoDup (attrs.*1) /\ Forall attr_ok attrs.

(** The field of an element: an attribute that is not there is the empty text. *)
Fixpoint attr_value (name : bytes) (attrs : list (bytes * bytes)) : bytes :=
  match attrs with
  | [] => []
  | (k, raw) :: attrs => if bool_decide (k = name) then default [] (unescape raw) else attr_value name attrs
  end.
Definition field_of (attrs : list (bytes * bytes)) : xmlField := mkXmlField (attr_value (go "id") attrs) (attr_value (go "value") attrs) (attr_value (go "type") attrs).

(** What [xml.Unmarshal] into the message struct is documented to do with them. *)
Definition decodes_documents (xml_decode : bytes -> option xmlMsg) : Prop :=
  forall els, Forall element_ok els -> xml_decode (document_text els) = Some (mkXmlMsg [] (field_of <$> els) []).

(** ** A decoder *)

Fixpoint strip (p s : bytes) : option bytes :=
  match p, s with
  | [], _ => Some s
  | c :: p, d :: s => if bool_decide (c = d) then strip p s else None
  | _, [] => None
  end.

Definition scan_attr (s : bytes) : option (bytes * bytes * bytes) :=
  s ← strip (go " ") s; '(key, s) ← cut_byte x3d s; s ← strip [x22] s; '(raw, s) ← cut_byte x22 s; Some (key, raw, s).

Fixpoint scan_attrs (n : nat) (s : bytes) : option (list (bytes * bytes) * bytes) :=
  match strip (go "/>" ++ [x0a]) s with
  | Some s => Some ([], s)
  | None =>
      match n with
      | O => None
      | S n => '(key, raw, s) ← scan_attr s; '(attrs, s) ← scan_attrs n s; Some ((key, raw) :: attrs, s)
      end
  end.

Fixpoint scan_elements (n : nat) (s : bytes) : option (list (list (bytes * bytes))) :=
  match strip (go "</isomsg>" ++ [x0a]) s with
  | Some [] => Some []
  | Some _ => None
  | None =>
      match n with
      | O => None
      | S n => s ← strip (go "  <field") s; '(attrs, s) ← scan_attrs (length s) s; els ← scan_elements n s; Some (attrs :: els)
      end
  end.

Definition scan_document (s : bytes) : option xmlMsg :=
  s ← strip (go "<isomsg>" ++ [x0a]) s; els ← scan_elements (length s) s; Some (mkXmlMsg [] (field_of <$> els) []).

Lemma strip_app p s : strip p (p ++ s) = Some s.
Proof. induction p as [|c p IH]; [done|]. cbn. by rewrite bool_decide_true. Qed.

Lemma cut_byte_app c a r : c ∉ a -> cut_byte c (a ++ c :: r) = Some (a, r).
Proof.
  induction a as [|x a IH]; intros HN; cbn; [by rewrite bool_decide_true|]. rewrite bool_decide_false by set_solver. by rewrite IH by set_solver.
Qed.

Lemma attr_ok_names a : attr_ok a -> (x3d ∉ a.1) /\ x22 ∉ a.2.
Proof.
  intros (HN & HM & _). split.
  - revert HN. unfold attr_names. rewrite !elem_of_cons, elem_of_nil. intros [->|[->|[->|[->|[]]]]]; by apply (bool_decide_unpack _); vm_compute.
  - intros HI. rewrite forallb_forall in HM. specialize (HM x22 (proj1 (list_elem_of_In _ _) HI)). by vm_compute in HM.
Qed.

Lemma scan_attr_text a t : attr_ok a -> scan_attr (attr_text a ++ t) = Some (a.1, a.2, t).
Proof.
  intros [H1 H2]%attr_ok_names. unfold scan_attr, attr_text. rewrite <- !app_assoc, strip_app. cbn [mbind option_bind].
  change (go "=" ++ [x22] ++ a.2 ++ [x22] ++ t) with (x3d :: [x22] ++ a.2 ++ [x22] ++ t). rewrite cut_byte_app by done. cbn [mbind option_bind].
  rewrite strip_app. cbn [mbind option_bind]. change ([x22] ++ t) with (x22 :: t). by rewrite cut_byte_app.
Qed.

Lemma scan_attrs_text attrs n t : Forall attr_ok attrs -> (length attrs <= n)%nat ->
  scan_attrs n (concat (attr_text <$> attrs) ++ (go "/>" ++ [x0a]) ++ t) = Some (attrs, t).
Proof.
  intros HF. revert n. induction HF as [|a attrs Ha _ IH]; intros n Hn; cbn [fmap list_fmap concat].
  - rewrite app_nil_l. by destruct n; cbn [scan_attrs]; rewrite strip_app.
  - destruct n as [|n]; [cbn in Hn; lia|]. cbn [scan_attrs]. rewrite <- app_assoc. replace (strip (go "/>" ++ [x0a]) (attr_text a ++ _)) with (@None bytes) by done.
    rewrite scan_attr_text by done. cbn [mbind option_bind]. rewrite IH by (cbn in Hn; lia). cbn. by destruct a.
Qed.

Lemma element_text_split attrs t : element_text attrs ++ t = go "  <field" ++ concat (attr_text <$> attrs) ++ (go "/>" ++ [x0a]) ++ t.
Proof. unfold element_text. by rewrite <- !app_assoc. Qed.

Lemma length_attrs attrs t : (length attrs <= length (concat (attr_text <$> attrs) ++ t))%nat.
Proof. induction attrs as [|a attrs IH]; cbn; [lia|]. rewrite <- app_assoc, length_app. cbn. rewrite length_app in IH. rewrite !length_app in *. lia. Qed.

Lemma scan_elements_text els n : Forall element_ok els -> (length els <= n)%nat ->
  scan_elements n (concat (element_text <$> els) ++ go "</isomsg>" ++ [x0a]) = Some els.
Proof.
  intros HF. revert n. induction HF as [|attrs els [_ Ha] _ IH]; intros n Hn; cbn [fmap list_fmap concat].
  - by destruct n.
  - destruct n as [|n]; [cbn in Hn; lia|]. cbn [scan_elements]. rewrite <- app_assoc, element_text_split.
    replace (strip (go "</isomsg>" ++ [x0a]) (go "  <field" ++ _)) with (@None bytes) by done. rewrite strip_app. cbn [mbind option_bind].
    rewrite scan_attrs_text; [|done|apply length_attrs]. cbn [mbind option_bind]. by rewrite IH by (cbn in Hn; lia).
Qed.

Lemma scan_document_decodes : decodes_documents scan_document.
Proof.
  intros els HF. unfold scan_document, document_text. rewrite app_assoc, strip_app. cbn [mbind option_bind]. rewrite scan_elements_text; [done|done|].
  clear HF. induction els as [|a els IH]; cbn [fmap list_fmap concat length]; [lia|]. rewrite <- app_assoc, length_app.
  assert (1 <= length (element_text a))%nat by (unfold element_text; rewrite !length_app; cbn; lia). lia.
Qed.
