(* ===== verification/XmlIo.v ===== *)
(** * The XML renderer ([render/xmlio/xmlio.go])

    A message as an [<isomsg>] document.  The writer walks a view ([Describe])
    and escapes with [xml.EscapeText] ([XmlText]).  The reader rebuilds a message
    by [Set] calls from the elements that [xml.Unmarshal], a parameter, finds in
    a document. *)

From S2P Require Import Prelude Errors Strconv Bitmap Decimal Path Schema LengthCodec BitmapCodec Value FieldCodec Message BerTlv Engine Layout Wire Access Invariant Store EndToEnd Shown Validate GoStrings Describe Protobuf Iso20022 Bind XmlText.

(** ** Writing *)

Record xml_options := mkXmlOptions { xo_useNames : bool; xo_maskPAN : bool }.

Inductive xml_error :=
| XmlParse
| XmlAmount (id : bytes) (e : error)     (* amount of a field, written *)
| XmlValue (id : bytes) (e : error)
| XmlNoId
| XmlNoSubId
| XmlBadHex (id : bytes)
| XmlBadAmount (id : bytes)              (* amount of a field, read *)
| XmlSet (path : bytes) (e : error).

Definition indentStep : bytes := go "  ".
Definition quot : bytes := [x22].

Definition xml_repeat (c : byte) (n : Z) : bytes := if n <=? 0 then [] else replicate (Z.to_nat n) c.

Definition xml_maskPAN (pan : bytes) : result bytes :=
  let n := len pan in
  if n <=? 10 then
    if n <=? 4 then Ok pan
    else let! tail := slice pan (n - 4) n in Ok (xml_repeat x2a (n - 4) ++ tail)
  else
    let! head := slice pan 0 6 in
    let! tail := slice pan (n - 4) n in
    Ok (head ++ xml_repeat x2a (n - 10) ++ tail).

Definition writeAttr (key val : bytes) : bytes := go " " ++ key ++ go "=" ++ quot ++ EscapeText val ++ quot.

(** Results of the writer carry the text written. *)
Definition xlift {A} (f : error -> xml_error) (r : result A) : res xml_error A := rmap_err f r.

Definition writeScalar (o : xml_options) (indent id : bytes) (de : Z) (name : bytes) (val : Value) : res xml_error bytes :=
  let! value :=
    match v_kind val with
    | KindBytes => Ok (writeAttr (go "value") (hexUpper (v_raw val)) ++ go " type=" ++ quot ++ go "binary" ++ quot)
    | KindAmount => let! d := xlift (XmlAmount id) (Value_Decimal val) in Ok (writeAttr (go "value") (DString d))
    | _ =>
        let! s := xlift (XmlValue id) (Value_String val) in
        let! s := if xo_maskPAN o && (de =? 2) then xlift (XmlValue id) (xml_maskPAN s) else Ok s in
        Ok (writeAttr (go "value") s)
    end in
  let named := if xo_useNames o && negb (bool_decide (name = [])) then writeAttr (go "name") name else [] in
  Ok (indent ++ go "<field" ++ writeAttr (go "id") id ++ value ++ named ++ go "/>" ++ [x0a]).

(** The loop over the children of a composite. *)
Section Children.
Context {A : Type} (write : A -> res xml_error bytes).
Fixpoint write_each (l : list A) : res xml_error bytes :=
  match l with
  | [] => Ok []
  | a :: l => let! b := write a in let! rest := write_each l in Ok (b ++ rest)
  end.
End Children.

Definition open_composite (o : xml_options) (indent id : bytes) (name : bytes) : bytes :=
  indent ++ go "<isomsg" ++ writeAttr (go "id") id ++
  (if xo_useNames o && negb (bool_decide (name = [])) then writeAttr (go "name") name else []) ++ go ">" ++ [x0a].

(** [writeField] and [writeComposite]; the tags of a TLV composite are scalars. *)
Fixpoint writeField (o : xml_options) (indent id : bytes) (de : Z) (schema : option Schema) (n : Node) {struct n} : res xml_error bytes :=
  match n with
  | mkNode val (Some child) => writeComposite o indent id de schema child
  | mkNode val None => writeScalar o indent id de (fieldName schema de) val
  end
with writeComposite (o : xml_options) (indent id : bytes) (de : Z) (schema : option Schema) (child : View) {struct child} : res xml_error bytes :=
  match child with
  | mkView sub _ _ fields tags =>
      let inner := indent ++ indentStep in
      let! body :=
        match sub with
        | Some s =>
            if s_isTLV s
            then write_each (fun p => writeScalar o inner p.1 (-1) (defName (LookupTag s p.1)) (nd_value p.2)) tags
            else write_each (fun p => writeField o inner (FormatInt (head_DE p.1)) (head_DE p.1) sub p.2) fields
        | None => write_each (fun p => writeField o inner (FormatInt (head_DE p.1)) (head_DE p.1) sub p.2) fields
        end in
      Ok (open_composite o indent id (fieldName schema de) ++ body ++ indent ++ go "</isomsg>" ++ [x0a])
  end.

Definition xml_Marshal (v : View) (o : xml_options) : res xml_error bytes :=
  let! mti :=
    match vw_MTI v with
    | Some mti => writeScalar o indentStep (go "0") 0 (defName (vw_Schema v ≫= s_mti)) mti
    | None => Ok []
    end in
  let! fields := write_each (fun p => writeField o indentStep (FormatInt (head_DE p.1)) (head_DE p.1) (vw_Schema v) p.2) (vw_Fields v) in
  Ok (go "<isomsg>" ++ [x0a] ++ mti ++ fields ++ go "</isomsg>" ++ [x0a]).

(** ** Reading *)

Definition join (prefix id : bytes) : bytes := if bool_decide (prefix = []) then id else prefix ++ go "." ++ id.

Definition kindAt (s : Schema) (path : bytes) : Kind :=
  match parse_text path with
  | Ok p => match Schema_Lookup s p with Some def => fd_Kind def | None => KindString end
  | _ => KindString
  end.

Definition xml_parseDecimal (s : bytes) : res iso_error Decimal := parseDecimal (TrimSpace s).

Definition argFor (f : xmlField) (kind : Kind) : res xml_error any :=
  if bool_decide (xf_Type f = go "binary") then
    match hex_decode (xf_Value f) with Ok b => Ok (anyBytes b) | Err _ => Err (XmlBadHex (xf_ID f)) | Panic => Panic end
  else if bool_decide (kind = KindAmount) then
    match xml_parseDecimal (xf_Value f) with Ok d => Ok (anyDecimal d) | Err _ => Err (XmlBadAmount (xf_ID f)) | Panic => Panic end
  else Ok (anyString (xf_Value f)).

(** State passing with the renderer's errors. *)
Definition XS (A : Type) : Type := heap -> res xml_error A * heap.
Definition xret {A} (a : A) : XS A := fun h => (Ok a, h).
Definition xfail {A} (e : xml_error) : XS A := fun h => (Err e, h).
Definition xbind {A B} (c : XS A) (k : A -> XS B) : XS B := fun h =>
  match c h with
  | (Ok a, h) => k a h
  | (Err e, h) => (Err e, h)
  | (Panic, h) => (Panic, h)
  end.
Definition xpure {A} (r : res xml_error A) : XS A := fun h => (r, h).
#[local] Notation "'let%' x := c 'in' k" := (xbind c (fun x => k)) (at level 10, x pattern, c at level 200, k at level 200).

(** [m.SetS]. *)
Definition set_text (l : loc) (path : bytes) (x : any) : ST unit := let* p := slift (parse_text path) in SetP l p x.
Definition xml_set (l : loc) (path : bytes) (x : any) : XS unit := fun h =>
  let '(r, h) := set_text l path x h in (rmap_err (XmlSet path) r, h).

Fixpoint apply_fields (l : loc) (s : Schema) (prefix : bytes) (fields : list xmlField) : XS unit :=
  match fields with
  | [] => xret tt
  | f :: fields =>
      if bool_decide (xf_ID f = []) then xfail XmlNoId else
      let path := join prefix (xf_ID f) in
      let% arg := xpure (argFor f (kindAt s path)) in
      let% _ := xml_set l path arg in
      apply_fields l s prefix fields
  end.

Section Subs.
Context (one : xmlMsg -> XS unit).
Fixpoint apply_subs (subs : list xmlMsg) : XS unit :=
  match subs with
  | [] => xret tt
  | sub :: subs =>
      if bool_decide (xm_ID sub = []) then xfail XmlNoSubId else
      let% _ := one sub in apply_subs subs
  end.
End Subs.

Fixpoint xml_apply (l : loc) (s : Schema) (prefix : bytes) (msg : xmlMsg) : XS unit :=
  match msg with
  | mkXmlMsg _ fields subs =>
      let% _ := apply_fields l s prefix fields in
      apply_subs (fun sub => xml_apply l s (join prefix (xm_ID sub)) sub) subs
  end.

Section Reader.
Context (xml_decode : bytes -> option xmlMsg).

Definition xml_Unmarshal (data : bytes) (s : Schema) : XS loc :=
  match xml_decode data with
  | None => xfail XmlParse
  | Some root => fun h => (let% _ := xml_apply (length h) s [] root in xret (length h)) (h ++ [New s])
  end.
End Reader.

(** ** Reading back what was written *)

(** A scalar of the kind of its field. *)
Definition scalar_value (d : FieldDef) (v : Value) : Prop :=
  v_kind v = fd_Kind d /\
  match fd_Kind d with
  | KindString | KindNumeric | KindBytes => True
  | KindAmount => decimal_ok (v_dec v) /\ Unscaled (v_dec v) <> - 2 ^ 63
  | _ => False
  end.

Definition scalar_field (s : Schema) (p : Z * Value) : Prop :=
  0 <= p.1 <= s_maxDE s /\ p.1 < 2 ^ 31 /\ exists d, Schema_Field s p.1 = Some d /\ scalar_value d p.2.

(** Texts that XML can hold. *)
Definition xml_value (v : Value) : Prop := v_kind v = KindString \/ v_kind v = KindNumeric -> xml_chars (v_raw v) = true.

(** The element of a field, and the document of a list of them. *)
Definition xml_field (p : Z * Value) : xmlField :=
  match v_kind p.2 with
  | KindBytes => mkXmlField (FormatInt p.1) (hexUpper (v_raw p.2)) (go "binary")
  | KindAmount => mkXmlField (FormatInt p.1) (DString (v_dec p.2)) []
  | _ => mkXmlField (FormatInt p.1) (v_raw p.2) []
  end.

Definition field_attrs (f : xmlField) : list (bytes * bytes) :=
  [(go "id", EscapeText (xf_ID f)); (go "value", EscapeText (xf_Value f))] ++
  (if bool_decide (xf_Type f = []) then [] else [(go "type", EscapeText (xf_Type f))]).

Definition field_text (f : xmlField) : bytes := element_text (field_attrs f).
Definition doc_text (fs : list xmlField) : bytes := document_text (field_attrs <$> fs).

Lemma writeAttr_text key val : writeAttr key val = attr_text (key, EscapeText val).
Proof. done. Qed.

Definition no_options : xml_options := mkXmlOptions false false.

(** What [argFor] hands to [Set]. *)
Definition xml_arg (v : Value) : any :=
  match v_kind v with KindBytes => anyBytes (v_raw v) | KindAmount => anyDecimal (v_dec v) | _ => anyString (v_raw v) end.

Lemma writeScalar_text s p name : scalar_field s p ->
  writeScalar no_options indentStep (FormatInt p.1) p.1 name p.2 = Ok (field_text (xml_field p)).
Proof.
  intros (_ & _ & d & _ & HK & HV). destruct p as [de v]. cbn [fst snd] in *.
  unfold writeScalar, xml_field, field_text, element_text, field_attrs, Value_String, Value_Decimal. cbn [fst snd]. rewrite !writeAttr_text, HK.
  destruct (fd_Kind d); try done; cbn [xlift rmap_err rbind no_options xo_maskPAN xo_useNames andb xf_ID xf_Value xf_Type];
    first [rewrite bool_decide_true by done|rewrite bool_decide_false by done]; rewrite ?writeAttr_text; cbn [fmap list_fmap concat app]; by rewrite ?app_nil_r, <- ?app_assoc.
Qed.

Lemma scalar_arg s p d : Schema_Field s p.1 = Some d -> scalar_value d p.2 ->
  argFor (xml_field p) (fd_Kind d) = Ok (xml_arg p.2) /\
  exists v0, makeValue (Some d) (xml_arg p.2) = Ok v0 /\ set_v_codec v0 (fd_Codec d) = canon d p.2.
Proof.
  intros _ [HK HV]. destruct p as [de v]. unfold xml_field, argFor, xml_arg, makeValue, canon. cbn [fst snd] in *. rewrite HK.
  destruct (fd_Kind d) eqn:EK; try done.
  - cbn. split; [done|]. by eexists.
  - cbn. split; [done|]. by eexists.
  - cbn [xf_Type xf_Value]. rewrite bool_decide_true by done. unfold hexUpper. rewrite hex_decode_upper. split; [done|]. by eexists.
  - destruct HV as (HD & HN). cbn [xf_Type xf_Value]. rewrite bool_decide_false, bool_decide_true by done.
    unfold xml_parseDecimal. destruct (DString_text _ HD) as (_ & _ & -> & _). rewrite parseDecimal_DString by done. split; [done|]. by eexists.
Qed.

(** Printable text is XML text. *)
Lemma printable_xml_chars t : printable_text t = true -> xml_chars t = true.
Proof.
  unfold xml_chars. induction t as [|c t IH]; [done|]. cbn [printable_text forallb]. intros [[H1%Z.leb_le H2%Z.leb_le]%andb_prop HP]%andb_prop.
  cbn [length xml_chars_n]. rewrite decode_rune_ascii by lia. cbn [drop skipn]. change (skipn 0 t) with t. rewrite IH by done. rewrite andb_true_r.
  unfold isInCharacterRange. replace (bz c =? 0xFFFD) with false by (symmetry; apply Z.eqb_neq; lia).
  replace (0x20 <=? bz c) with true by (symmetry; apply Z.leb_le; lia). replace (bz c <=? 0xD7FF) with true by (symmetry; apply Z.leb_le; lia).
  by rewrite !orb_true_r.
Qed.

Lemma hexUpper_printable b : printable_text (hexUpper b) = true.
Proof.
  unfold hexUpper, printable_text, ToUpper. apply forallb_forall. intros c (x & <- & HX)%in_map_iff. unfold hex_encode in HX.
  revert HX. induction b as [|y b IH]; [done|]. cbn. intros [<-|[<-|HX]]; [..|by apply IH]; destruct y; vm_compute; reflexivity.
Qed.

Lemma FormatInt_printable n : 0 <= n -> printable_text (FormatInt n) = true.
Proof.
  intros Hn. unfold printable_text. apply forallb_forall. intros c Hc. unfold FormatInt in Hc. replace (n <? 0) with false in Hc by (symmetry; apply Z.ltb_ge; lia).
  pose proof (FormatUint_digits n Hn) as HDg. rewrite forallb_forall in HDg. specialize (HDg c Hc). apply is_digit_range in HDg.
  apply andb_true_intro. split; apply Z.leb_le; lia.
Qed.

(** The attributes of a field are well formed and mean the field. *)
Lemma attrs_of_field f : xml_chars (xf_ID f) = true -> xml_chars (xf_Value f) = true -> xml_chars (xf_Type f) = true ->
  element_ok (field_attrs f) /\ field_of (field_attrs f) = f.
Proof.
  intros H1 H2 H3. unfold field_attrs, field_of, element_ok. destruct f as [id val ty]. cbn [xf_ID xf_Value xf_Type] in *.
  assert (HA : forall k t, k ∈ attr_names -> xml_chars t = true -> attr_ok (k, EscapeText t)).
  { intros k t Hk Ht. split; [done|]. split; [apply EscapeText_inert|]. cbn [snd]. rewrite unescape_EscapeText by done. by eexists. }
  assert (HN : go "id" ∈ attr_names /\ go "value" ∈ attr_names /\ go "type" ∈ attr_names) by (unfold attr_names; set_solver). destruct HN as (N1 & N2 & N3).
  case_bool_decide as HT; cbn [app fmap list_fmap fst]; (split; [split; [by apply (bool_decide_unpack _); vm_compute|repeat (apply list.Forall_cons; split; [by apply HA|]); by apply list.Forall_nil]|]);
    cbn [attr_value]; rewrite !unescape_EscapeText by done; repeat first [rewrite bool_decide_true by done|rewrite bool_decide_false by done]; cbn; by rewrite ?HT.
Qed.

Definition de_path (de : Z) : FieldPath := mkFieldPath [mkPathElem de []].

Lemma parse_text_de de : 0 <= de < 2 ^ 31 -> parse_text (FormatInt de) = Ok (de_path de).
Proof.
  intros H. unfold parse_text. rewrite bool_decide_false by apply FormatInt_ne.
  replace (FormatInt de) with (path_String (de_path de)); [|done]. apply parse_print_path. split; [done|].
  cbn. apply andb_true_intro. split; [|done]. apply andb_true_intro. split; [apply Z.leb_le|apply Z.ltb_lt]; lia.
Qed.

Lemma kindAt_de s de d : s_isTLV s = false -> 0 <= de < 2 ^ 31 -> Schema_Field s de = Some d -> kindAt s (FormatInt de) = fd_Kind d.
Proof.
  intros HT Hde HD. unfold kindAt. rewrite parse_text_de by done. unfold Schema_Lookup, de_path. cbn [fp_elems lookup_elems]. rewrite HT. cbn [orb].
  unfold IsTag. cbn [pe_Tag pe_N]. rewrite bool_decide_true by done. cbn [negb]. by rewrite HD.
Qed.

(** The elements of a document rebuild their fields, and only those. *)
Lemma apply_fields_building s ps (h : heap) m : building s m -> s_isTLV s = false -> Forall (scalar_field s) ps -> NoDup (ps.*1) ->
  exists m', apply_fields (length h) s [] (xml_field <$> ps) (h ++ [m]) = (Ok tt, h ++ [m']) /\ building s m' /\
    (forall e v, (e, v) ∈ ps -> shown m' e = Some (canon_at s e v)) /\ (forall e, e ∉ ps.*1 -> shown m' e = shown m e).
Proof.
  intros HB HT HF. revert m HB. induction HF as [|[de v] ps (Hde & Hb & d & HD & HV) _ IH]; intros m HB HN; cbn [fmap list_fmap apply_fields].
  { exists m. split; [done|]. split; [done|]. split; [by intros e v ?%elem_of_nil|done]. }
  cbn [fst snd] in *. apply list.NoDup_cons in HN as [Hnot HN].
  destruct (scalar_arg s (de, v) d HD HV) as (HA & v0 & HM & HC). cbn [fst snd] in *.
  assert (HI : xf_ID (xml_field (de, v)) = FormatInt de) by (unfold xml_field; by destruct (v_kind _)). rewrite HI.
  rewrite bool_decide_false by apply FormatInt_ne. unfold join. rewrite bool_decide_true by done. rewrite (kindAt_de s de d HT ltac:(lia) HD).
  unfold xbind at 1, xpure. rewrite HA. destruct (SetDE_building s d v0 de (xml_arg v) h m HB HD Hde HM) as (m1 & E1 & HB1 & HS1).
  unfold xbind at 1, xml_set, set_text. unfold sbind at 1, slift. rewrite parse_text_de by lia. unfold de_path. rewrite (SetP_de s m) by done.
  rewrite E1. cbn [rmap_err]. rewrite HC in HS1. destruct (IH m1 HB1 HN) as (m2 & E2 & HB2 & HIn & HO).
  exists m2. split; [exact E2|]. split; [done|]. split.
  - intros e w [[= -> ->]|He]%elem_of_cons; [|by apply HIn]. rewrite HO, HS1, Z.eqb_refl by done. unfold canon_at. by rewrite HD.
  - intros e He. rewrite HO by set_solver. rewrite HS1. replace (e =? de) with false; [done|]. symmetry. apply Z.eqb_neq. set_solver.
Qed.

(** The view of a message without composites. *)
Definition scalar_view (m : Message) : View :=
  mkView (m_schema m) (m_bm m) (shown m 0) ((fun p => (DE p.1, mkNode p.2 None)) <$> present_values m) [].

Lemma view_of_scalars depth l m (h : heap) : h !! l = Some m -> (forall de, legible m de) -> TagSeq m = [] ->
  (forall de v, shown m de = Some v -> Value_Composite v = None) ->
  exists m1, view_of depth l h = (Ok (scalar_view m), <[l := m1]> h) /\ alike m m1.
Proof.
  intros HL HG HTag HC. destruct (Get_alike l m 0 h HL (HG 0)) as (m1 & HG0 & HA1).
  assert (HL1 : <[l:=m1]> h !! l = Some m1) by (apply list_lookup_insert_eq; by eapply lookup_lt_Some).
  destruct (Fields_alike l m1 (<[l:=m1]> h) HL1) as (m2 & HF & HA2); [intros de; by eapply alike_legible|]. rewrite list_insert_insert_eq in HF.
  rewrite (alike_present _ _ HA1) in HF. pose proof (alike_trans _ _ _ HA1 HA2) as HA. exists m2. split; [|done].
  assert (HL2 : <[l:=m2]> h !! l = Some m2) by (apply list_lookup_insert_eq; by eapply lookup_lt_Some).
  assert (HP : Forall (fun p => Value_Composite p.2 = None) ((fun p => (DE p.1, p.2)) <$> present_values m)).
  { apply list.Forall_forall. intros ? ([de v] & -> & HI)%list_elem_of_fmap. apply elem_present_values in HI as [_ HI]. by eapply HC. }
  assert (HM : (fun p : FieldPath * Value => (p.1, mkNode p.2 None)) <$> ((fun p => (DE p.1, p.2)) <$> present_values m) =
    (fun p => (DE p.1, mkNode p.2 None)) <$> present_values m) by by rewrite <- list_fmap_compose.
  unfold scalar_view. rewrite <- HM. clear HM.
  destruct depth; cbn [view_of]; unfold sbind at 1; rewrite HG0; unfold sbind at 1; rewrite HF;
    unfold sbind at 1; rewrite (hget_run _ _ _ HL2), (ak_tags _ _ HA), HTag;
    match goal with |- context [sbind (?f ((fun p => (DE p.1, p.2)) <$> present_values m))] =>
      assert (HE : forall vs h', Forall (fun p => Value_Composite p.2 = None) vs -> f vs h' = (Ok ((fun p => (p.1, mkNode p.2 None)) <$> vs), h')) end.
  1,3: intros vs h'; induction 1 as [|[k v] vs Hv _ IH]; [done|]; cbn [snd] in Hv; cbn [fmap list_fmap]; unfold sbind at 1; rewrite ?Hv;
    unfold sbind at 1, sret at 1; rewrite IH; done.
  all: unfold sbind at 1; rewrite HE by done; unfold sbind, sret; by rewrite (ak_schema _ _ HA), (ak_bm _ _ HA).
Qed.

Lemma write_each_scalars s sch ps : Forall (scalar_field s) ps ->
  write_each (fun p => writeField no_options indentStep (FormatInt (head_DE p.1)) (head_DE p.1) sch p.2) ((fun p => (DE p.1, mkNode p.2 None)) <$> ps) =
    Ok (concat (field_text <$> (xml_field <$> ps))).
Proof.
  induction 1 as [|[de v] ps Hp _ IH]; [done|]. cbn [fmap list_fmap write_each fst snd].
  assert (HE : head_DE (DE de) = de) by (unfold head_DE, DE; cbn; apply int32_id; destruct Hp as (? & ? & _); cbn in *; lia).
  rewrite HE. cbn [writeField]. rewrite (writeScalar_text s (de, v)) by done. cbn [rbind]. by rewrite IH.
Qed.

(** The document of a message. *)
Lemma xml_Marshal_doc s m : m_schema m = Some s -> (forall de v, shown m de = Some v -> scalar_field s (de, v)) ->
  xml_Marshal (scalar_view m) no_options = Ok (doc_text (xml_field <$> all_values m)).
Proof.
  intros HS HR. assert (HV : Forall (scalar_field s) (present_values m)).
  { apply list.Forall_forall. intros [de v] [_ HI]%elem_present_values. by apply HR. }
  unfold xml_Marshal, doc_text, document_text, scalar_view. cbn [vw_MTI vw_Fields vw_Schema]. rewrite (write_each_scalars s) by done.
  unfold all_values. destruct (shown m 0) as [v|] eqn:E0; cbn [rbind app]; rewrite <- ?list_fmap_compose; [|done].
  replace (go "0") with (FormatInt 0) by reflexivity. rewrite (writeScalar_text s (0, v)) by by apply HR. cbn [rbind fmap list_fmap concat].
  rewrite <- !app_assoc. done.
Qed.

Lemma xml_field_chars s p : scalar_field s p -> xml_value p.2 ->
  xml_chars (xf_ID (xml_field p)) = true /\ xml_chars (xf_Value (xml_field p)) = true /\ xml_chars (xf_Type (xml_field p)) = true.
Proof.
  intros (Hde & _ & d & _ & HK & HV) HX. unfold xml_field, xml_value in *. rewrite HK in *.
  pose proof (printable_xml_chars _ (FormatInt_printable p.1 ltac:(lia))) as HI.
  destruct (fd_Kind d); try done; cbn [xf_ID xf_Value xf_Type]; (split; [exact HI|]); split; try done.
  - apply HX. by left.
  - apply HX. by right.
  - apply printable_xml_chars, hexUpper_printable.
  - apply printable_xml_chars. by destruct (DString_text _ (proj1 HV)) as (_ & _ & _ & ?).
Qed.

(** The decoder finds in the document the fields it was written from. *)
Lemma doc_decoded xml_decode s ps : decodes_documents xml_decode -> Forall (fun p => scalar_field s p /\ xml_value p.2) ps ->
  xml_decode (doc_text (xml_field <$> ps)) = Some (mkXmlMsg [] (xml_field <$> ps) []).
Proof.
  intros HX HP. assert (HF : Forall (fun f => element_ok (field_attrs f) /\ field_of (field_attrs f) = f) (xml_field <$> ps)).
  { apply list.Forall_fmap. eapply list.Forall_impl; [exact HP|]. intros p [H1 H2]. destruct (xml_field_chars s p H1 H2) as (? & ? & ?). by apply attrs_of_field. }
  unfold doc_text. rewrite HX.
  - f_equal. f_equal. induction HF as [|f fs [_ Hf] _ IH]; [done|]. cbn [fmap list_fmap]. by rewrite Hf, IH.
  - apply list.Forall_fmap. eapply list.Forall_impl; [exact HF|]. by intros f [? _].
Qed.



(** The option masks by number at every level: subfield 2 of a composite is
    masked as if it were a PAN. *)
Definition nested_two : View := mkView None empty_bitmap None
  [(DE 48, mkNode (CompositeValue [] None) (Some (mkView None empty_bitmap None [(DE 2, mkNode (StringValue (go "REFERENCE")) None)] [])))] [].

Lemma nested_masked : xml_Marshal nested_two (mkXmlOptions false true) = Ok
  (go "<isomsg>" ++ [x0a] ++ go "  <isomsg" ++ writeAttr (go "id") (go "48") ++ go ">" ++ [x0a] ++
   go "    <field" ++ writeAttr (go "id") (go "2") ++ writeAttr (go "value") (go "*****ENCE") ++ go "/>" ++ [x0a] ++
   go "  </isomsg>" ++ [x0a] ++ go "</isomsg>" ++ [x0a]).
Proof. vm_compute. reflexivity. Qed.
