(* ===== verification/JsonIo.v ===== *)
(** * The JSON renderer ([render/jsonio/jsonio.go])

    A message as a JSON document: the MTI, and a map from data element numbers
    to fields.  Rendering walks a view ([Describe]); reading rebuilds a message
    by [Set] calls, in the order of Go's iteration over the map, which is a
    parameter.  [encoding/json] is the class [JSON]. *)

From stdpp Require Import sorting.
From S2P Require Import Prelude Errors Strconv Bitmap Decimal Path Schema LengthCodec BitmapCodec Value FieldCodec Message BerTlv Engine Layout Wire Access Invariant Store EndToEnd Shown Validate GoStrings Describe Protobuf Iso20022 Bind XmlText XmlIo.

(** ** Documents *)

(** [Value] and [TLV] hold raw JSON texts. *)
Record fieldJSON := mkFieldJSON { fj_Name : bytes; fj_Value : option bytes; fj_TLV : option (gmap bytes bytes) }.
Record jdocument := mkJDocument { jd_MTI : bytes; jd_Fields : gmap bytes fieldJSON }.
Record amountJSON := mkAmountJSON { aj_Unscaled : Z; aj_Scale : Z }.

(** [encoding/json] at the types the renderer uses. *)
Class JSON := {
  json_string : bytes -> bytes;
  json_amount : amountJSON -> bytes;
  json_MarshalIndent : jdocument -> bytes;
  dec_string : bytes -> option bytes;
  dec_amount : bytes -> option amountJSON;
  dec_document : bytes -> option jdocument;
}.

Inductive json_error :=
| JsonParse
| JsonNotComposite (de : Z)
| JsonKey (key : bytes)
| JsonNoField (de : Z)
| JsonNotTLV (de : Z)
| JsonAmount
| JsonBytes
| JsonHex
| JsonString
| JsonMessage (e : error).

Section Json.
Context `{JSON}.

(** ** Rendering *)

Definition jlift {A} (r : result A) : res json_error A := rmap_err JsonMessage r.

Definition renderScalar (v : Value) (de : Z) (maskPAN : bool) : res json_error bytes :=
  match v_kind v with
  | KindAmount => let! d := jlift (Value_Decimal v) in Ok (json_amount (mkAmountJSON (Unscaled d) (Scale d)))
  | KindBytes => Ok (json_string (hexUpper (v_raw v)))
  | _ =>
      let! s := jlift (Value_String v) in
      let! s := if maskPAN && (de =? 2) then jlift (xml_maskPAN s) else Ok s in
      Ok (json_string s)
  end.

Fixpoint render_tags (tags : list (bytes * Node)) (out : gmap bytes bytes) : res json_error (gmap bytes bytes) :=
  match tags with
  | [] => Ok out
  | (tag, n) :: tags => let! raw := renderScalar (nd_value n) (-1) false in render_tags tags (<[tag := raw]> out)
  end.

(** The error text of a value without a child names the definition. *)
Definition renderTLV (n : Node) (de : Z) (def : option FieldDef) : res json_error (gmap bytes bytes) :=
  match nd_child n with
  | None => match def with Some _ => Err (JsonNotComposite de) | None => Panic end
  | Some child => render_tags (vw_Tags child) ∅
  end.

Definition render_field (o : xml_options) (schema : option Schema) (de : Z) (n : Node) : res json_error fieldJSON :=
  match schema with
  | None => Panic
  | Some s =>
      let def := Schema_Field s de in
      let name := if xo_useNames o then defName def else [] in
      if bool_decide (v_kind (nd_value n) = KindComposite)
      then let! tlv := renderTLV n de def in Ok (mkFieldJSON name None (Some tlv))
      else let! raw := renderScalar (nd_value n) de (xo_maskPAN o) in Ok (mkFieldJSON name (Some raw) None)
  end.

Fixpoint render_fields (o : xml_options) (schema : option Schema) (fields : list (FieldPath * Node)) (out : gmap bytes fieldJSON) :
  res json_error (gmap bytes fieldJSON) :=
  match fields with
  | [] => Ok out
  | (path, n) :: fields =>
      let de := head_DE path in
      let! fj := render_field o schema de n in
      render_fields o schema fields (<[FormatInt de := fj]> out)
  end.

(** An MTI that is no text is left out. *)
Definition json_Marshal (v : View) (o : xml_options) : res json_error bytes :=
  let mti := match vw_MTI v with Some m => match Value_String m with Ok s => s | _ => [] end | None => [] end in
  let! fields := render_fields o (vw_Schema v) (vw_Fields v) ∅ in
  Ok (json_MarshalIndent (mkJDocument mti fields)).

(** ** Reading *)

Definition argFromJSON (raw : bytes) (kind : Kind) : res json_error any :=
  match kind with
  | KindAmount => match dec_amount raw with Some a => Ok (anyDecimal (NewDecimal (aj_Unscaled a) (aj_Scale a))) | None => Err JsonAmount end
  | KindBytes =>
      match dec_string raw with
      | None => Err JsonBytes
      | Some s => match hex_decode s with Ok b => Ok (anyBytes b) | Err _ => Err JsonHex | Panic => Panic end
      end
  | _ => match dec_string raw with Some s => Ok (anyString s) | None => Err JsonString end
  end.

Definition kindOfTag (def : option FieldDef) : Kind := match def with None => KindBytes | Some d => fd_Kind d end.

(** State passing with the renderer's errors. *)
Definition JS (A : Type) : Type := heap -> res json_error A * heap.
Definition jret {A} (a : A) : JS A := fun h => (Ok a, h).
Definition jfail {A} (e : json_error) : JS A := fun h => (Err e, h).
Definition jbind {A B} (c : JS A) (k : A -> JS B) : JS B := fun h =>
  match c h with
  | (Ok a, h) => k a h
  | (Err e, h) => (Err e, h)
  | (Panic, h) => (Panic, h)
  end.
Definition jpure {A} (r : res json_error A) : JS A := fun h => (r, h).
Definition jmsg {A} (c : ST A) : JS A := fun h => let '(r, h) := c h in (rmap_err JsonMessage r, h).
#[local] Notation "'let%' x := c 'in' k" := (jbind c (fun x => k)) (at level 10, x pattern, c at level 200, k at level 200).

(** The tags of a composite, in ascending order. *)
Fixpoint set_tags (l : loc) (de : Z) (sub : Schema) (tlv : gmap bytes bytes) (tags : list bytes) : JS unit :=
  match tags with
  | [] => jret tt
  | tag :: tags =>
      let% arg := jpure (argFromJSON (default [] (tlv !! tag)) (kindOfTag (LookupTag sub tag))) in
      let% _ := jmsg (set_text l (FormatInt de ++ go "." ++ tag) arg) in
      set_tags l de sub tlv tags
  end.

Definition read_field (l : loc) (s : Schema) (deStr : bytes) (fj : fieldJSON) : JS unit :=
  match Atoi deStr with
  | Err _ => jfail (JsonKey deStr)
  | Panic => jpure Panic
  | Ok de =>
      match Schema_Field s de with
      | None => jfail (JsonNoField de)
      | Some def =>
          match fj_TLV fj with
          | Some tlv =>
              match fd_Sub def with
              | Some sub => if bool_decide (fd_Kind def = KindComposite) then set_tags l de sub tlv (merge_sort bytes_le (elements (dom tlv))) else jfail (JsonNotTLV de)
              | None => jfail (JsonNotTLV de)
              end
          | None =>
              match fj_Value fj with
              | None | Some [] => jret tt
              | Some raw => let% arg := jpure (argFromJSON raw (fd_Kind def)) in jmsg (SetDE l de arg)
              end
          end
      end
  end.

Fixpoint read_fields (l : loc) (s : Schema) (fields : list (bytes * fieldJSON)) : JS unit :=
  match fields with
  | [] => jret tt
  | (deStr, fj) :: fields => let% _ := read_field l s deStr fj in read_fields l s fields
  end.

(** [order] is the iteration over the map of fields. *)
Definition json_Unmarshal (order : gmap bytes fieldJSON -> list (bytes * fieldJSON)) (data : bytes) (s : Schema) : JS loc :=
  match dec_document data with
  | None => jfail JsonParse
  | Some doc => fun h =>
      (let l := length h in
       let% _ := if bool_decide (jd_MTI doc = []) then jret tt else jmsg (SetDE l 0 (anyString (jd_MTI doc))) in
       let% _ := read_fields l s (order (jd_Fields doc)) in
       jret l) (h ++ [New s])
  end.
End Json.

(** ** What is asked of the encoder *)

(** Texts of the same JSON value. *)
Definition same_raw `{JSON} (r r' : bytes) : Prop := dec_string r = dec_string r' /\ dec_amount r = dec_amount r' /\ (r = [] <-> r' = []).

(** A rendered scalar. *)
Definition rendered `{JSON} (raw : bytes) : Prop :=
  (exists t, printable_text t = true /\ raw = json_string t) \/ (exists a, int64 (aj_Unscaled a) /\ 0 <= aj_Scale a < 256 /\ raw = json_amount a).

(** A document of scalars. *)
Definition flat_doc `{JSON} (d : jdocument) : Prop := printable_text (jd_MTI d) = true /\
  forall k f, jd_Fields d !! k = Some f -> printable_text k = true /\ fj_Name f = [] /\ fj_TLV f = None /\ exists raw, fj_Value f = Some raw /\ rendered raw.

(** Printable text and numbers survive, and so do documents of them, whose raw
    values may be laid out anew. *)
Class JSONLaws `{JSON} := {
  string_survives t : printable_text t = true -> dec_string (json_string t) = Some t;
  amount_survives a : int64 (aj_Unscaled a) -> 0 <= aj_Scale a < 256 -> dec_amount (json_amount a) = Some a;
  raw_not_empty raw : rendered raw -> raw <> [];
  document_survives d : flat_doc d -> exists d', dec_document (json_MarshalIndent d) = Some d' /\ jd_MTI d' = jd_MTI d /\
    dom (jd_Fields d') = dom (jd_Fields d) /\
    forall k f f', jd_Fields d !! k = Some f -> jd_Fields d' !! k = Some f' ->
      fj_TLV f' = None /\ exists raw raw', fj_Value f = Some raw /\ fj_Value f' = Some raw' /\ same_raw raw raw';
}.

Section RoundTrip.
Context `{JSONLaws}.

(** A scalar as a raw value. *)
Definition raw_of (v : Value) : bytes :=
  match v_kind v with
  | KindAmount => json_amount (mkAmountJSON (Unscaled (v_dec v)) (Scale (v_dec v)))
  | KindBytes => json_string (hexUpper (v_raw v))
  | _ => json_string (v_raw v)
  end.

(** Scalars whose texts JSON keeps. *)
Definition json_field (s : Schema) (p : Z * Value) : Prop :=
  scalar_field s p /\ (v_kind p.2 = KindString \/ v_kind p.2 = KindNumeric -> printable_text (v_raw p.2) = true).

Lemma json_field_raw s p : json_field s p -> renderScalar p.2 p.1 false = Ok (raw_of p.2) /\ rendered (raw_of p.2) /\
  forall raw' d, same_raw (raw_of p.2) raw' -> Schema_Field s p.1 = Some d -> argFromJSON raw' (fd_Kind d) = Ok (xml_arg p.2).
Proof.
  intros [(_ & _ & d & HD & HK & HV) HT]. destruct p as [de v]. cbn [fst snd] in *. rewrite HK in HT.
  assert (HX : forall d', Schema_Field s de = Some d' -> d' = d) by congruence.
  unfold renderScalar, raw_of, rendered, argFromJSON, xml_arg, same_raw, Value_String, Value_Decimal. rewrite HK. destruct (fd_Kind d) eqn:EK; try done.
  - cbn. split; [done|]. split; [left; eexists; split; [by apply HT; left|done]|].
    intros raw' d' (H1 & _) ->%HX. rewrite EK, <- H1, string_survives by (apply HT; by left). done.
  - cbn. split; [done|]. split; [left; eexists; split; [by apply HT; right|done]|].
    intros raw' d' (H1 & _) ->%HX. rewrite EK, <- H1, string_survives by (apply HT; by right). done.
  - split; [done|]. split; [left; eexists; split; [apply hexUpper_printable|done]|].
    intros raw' d' (H1 & _) ->%HX. rewrite EK, <- H1, string_survives by apply hexUpper_printable. unfold hexUpper. by rewrite hex_decode_upper.
  - destruct HV as ([HU HS] & _). cbn [jlift rmap_err rbind].
    split; [done|]. split; [right; eexists; split; [|split; [|done]]; done|].
    intros raw' d' (_ & H2 & _) ->%HX. rewrite EK, <- H2, amount_survives by done. by destruct (v_dec v).
Qed.

(** A field of the renderer holds no message. *)
Lemma json_field_scalar s p : json_field s p -> v_kind p.2 <> KindComposite.
Proof. intros [(_ & _ & d & _ & -> & HV) _]. by destruct (fd_Kind d). Qed.

Definition scalar_json (p : Z * Value) : fieldJSON := mkFieldJSON [] (Some (raw_of p.2)) None.

Lemma json_field_int64 s p : json_field s p -> int64 p.1.
Proof. intros [(? & ? & _) _]. unfold int64. lia. Qed.

Lemma FormatInt_inj x y : int64 x -> int64 y -> FormatInt x = FormatInt y -> x = y.
Proof. intros Hx Hy HE. pose proof (ParseInt_FormatInt x Hx) as H1. rewrite HE, ParseInt_FormatInt in H1 by done. congruence. Qed.

(** Rendering puts every field under its number. *)
Lemma render_fields_scalars s ps out : Forall (json_field s) ps -> NoDup (ps.*1) ->
  exists out', render_fields no_options (Some s) ((fun p => (DE p.1, mkNode p.2 None)) <$> ps) out = Ok out' /\
    (forall p, p ∈ ps -> out' !! FormatInt p.1 = Some (scalar_json p)) /\
    (forall k, (forall p, p ∈ ps -> k <> FormatInt p.1) -> out' !! k = out !! k).
Proof.
  intros HF. revert out. induction HF as [|[de v] ps Hp HFs IH]; intros out HN; cbn [fmap list_fmap render_fields].
  { exists out. split; [done|]. split; [by intros p ?%elem_of_nil|done]. }
  cbn [fst snd] in *. apply list.NoDup_cons in HN as [Hnot HN]. pose proof Hp as [(Hde & Hb & d & HD & HV) _]. cbn [fst snd] in *.
  assert (HE : head_DE (DE de) = de) by (unfold head_DE, DE; cbn; apply int32_id; lia).
  destruct (json_field_raw s (de, v) Hp) as (HR & _). cbn [fst snd] in HR.
  pose proof (json_field_scalar s _ Hp) as HK. cbn [snd] in HK.
  rewrite HE. unfold render_field. cbn [nd_value no_options xo_useNames xo_maskPAN]. rewrite bool_decide_false, HR by done. cbn [rbind].
  destruct (IH (<[FormatInt de := mkFieldJSON [] (Some (raw_of v)) None]> out) HN) as (out' & EO & HI & HO). exists out'. split; [done|]. split.
  - intros p [-> |Hp']%elem_of_cons; [|by apply HI]. cbn [fst snd]. rewrite HO; [apply lookup_insert_eq|].
    intros q Hq HE2. apply Hnot. apply list_elem_of_fmap. exists q. split; [|done]. cbn. apply FormatInt_inj in HE2; [done|unfold int64; lia|].
    rewrite list.Forall_forall in HFs. by eapply json_field_int64, HFs.
  - intros k Hk. rewrite HO by set_solver. apply lookup_insert_ne. intros <-. by eapply (Hk (de, v)); [constructor|].
Qed.

(** An entry of a document that holds a field. *)
Definition holds_field (e : bytes * fieldJSON) (p : Z * Value) : Prop :=
  e.1 = FormatInt p.1 /\ fj_TLV e.2 = None /\ exists raw, fj_Value e.2 = Some raw /\ same_raw (raw_of p.2) raw.

Lemma read_fields_building s es ps (h : heap) m : building s m -> Forall (json_field s) ps -> Forall2 holds_field es ps -> NoDup (ps.*1) ->
  exists m', read_fields (length h) s es (h ++ [m]) = (Ok tt, h ++ [m']) /\ building s m' /\
    (forall e v, (e, v) ∈ ps -> shown m' e = Some (canon_at s e v)) /\ (forall e, e ∉ ps.*1 -> shown m' e = shown m e).
Proof.
  intros HB HF HE. revert m HB HF. induction HE as [|[k fj] [de v] es ps (Hk & Ht & raw & Hr & Hs) _ IH]; intros m HB HF HN; cbn [read_fields fmap list_fmap].
  { exists m. split; [done|]. split; [done|]. split; [by intros e v ?%elem_of_nil|done]. }
  cbn [fst snd] in *. apply list.NoDup_cons in HN as [Hnot HN]. apply list.Forall_cons in HF as [Hp HF].
  destruct (json_field_raw s (de, v) Hp) as (_ & HR & HA). pose proof Hp as [(Hde & Hb & d & HD & HV) _]. cbn [fst snd] in *.
  destruct (scalar_arg s (de, v) d HD HV) as (_ & v0 & HM & HC). cbn [fst snd] in *.
  destruct (SetDE_building s d v0 de (xml_arg v) h m HB HD Hde HM) as (m1 & E1 & HB1 & HS1). rewrite HC in HS1.
  assert (Hne : raw <> []) by (intros ->; apply (raw_not_empty _ HR), Hs; done).
  assert (HRF : read_field (length h) s k fj (h ++ [m]) = (Ok tt, h ++ [m1])).
  { unfold read_field, Atoi. rewrite Hk, ParseInt_FormatInt by (unfold int64; lia). rewrite HD, Ht, Hr. destruct raw as [|c raw]; [done|].
    unfold jbind, jpure. rewrite (HA _ d Hs HD). unfold jmsg. by rewrite E1. }
  unfold jbind at 1. rewrite HRF. destruct (IH m1 HB1 HF HN) as (m2 & E2 & HB2 & HI & HO). exists m2. split; [exact E2|]. split; [done|]. split.
  - intros e w [[= -> ->]|He]%elem_of_cons; [|by apply HI]. rewrite HO, HS1, Z.eqb_refl by done. unfold canon_at. by rewrite HD.
  - intros e He. rewrite HO by set_solver. rewrite HS1. replace (e =? de) with false; [done|]. symmetry. apply Z.eqb_neq. set_solver.
Qed.

Lemma Forall2_choice {A B} (R : A -> B -> Prop) l : Forall (fun a => exists b, R a b) l -> exists bs, Forall2 R l bs.
Proof. induction 1 as [|a l [b Hb] _ [bs IH]]; [by exists []|]. exists (b :: bs). by constructor. Qed.

(** The fields of a decoded document, in any order, are the fields rendered. *)
Lemma decoded_entries (s : Schema) (ps : list (Z * Value)) (fields fields' : gmap bytes fieldJSON) (es : list (bytes * fieldJSON)) :
  Forall (json_field s) ps -> NoDup (ps.*1) ->
  (forall p, p ∈ ps -> fields !! FormatInt p.1 = Some (scalar_json p)) -> (forall k, (forall p, p ∈ ps -> k <> FormatInt p.1) -> fields !! k = None) ->
  dom fields' = dom fields ->
  (forall k f f', fields !! k = Some f -> fields' !! k = Some f' ->
    fj_TLV f' = None /\ exists raw raw', fj_Value f = Some raw /\ fj_Value f' = Some raw' /\ same_raw raw raw') ->
  es ≡ₚ map_to_list fields' ->
  exists qs, Forall2 holds_field es qs /\ Forall (json_field s) qs /\ NoDup (qs.*1) /\ forall p, p ∈ qs <-> p ∈ ps.
Proof.
  intros HJ HND HI HO HD HR HP.
  assert (HX : Forall (fun e => exists p, holds_field e p /\ p ∈ ps) es).
  { apply list.Forall_forall. intros [k f'] He. rewrite HP in He. apply elem_of_map_to_list in He.
    assert (Hin : k ∈ dom fields) by (rewrite <- HD; eapply elem_of_dom_2, He). apply elem_of_dom in Hin as [f Hf].
    destruct (decide (Exists (fun p => k = FormatInt p.1) ps)) as [HEx|HN].
    - apply list.Exists_exists in HEx as (p & Hp & ->). exists p. split; [|done]. rewrite (HI p Hp) in Hf. injection Hf as <-.
      destruct (HR _ _ _ (HI p Hp) He) as (Ht & raw & raw' & [= <-] & Hr' & Hs). split; [done|]. split; [done|]. by exists raw'.
    - rewrite HO in Hf; [done|]. intros p Hp ->. apply HN, list.Exists_exists. by exists p. }
  apply Forall2_choice in HX as [qs HQ].
  assert (HQ1 : Forall2 holds_field es qs) by (eapply list.Forall2_impl; [exact HQ|]; by intros ? ? [? _]).
  assert (HQ2 : Forall (fun p => p ∈ ps) qs) by (clear -HQ; induction HQ as [|? ? ? ? [_ ?] _ IH]; by constructor).
  assert (HK : es.*1 = FormatInt <$> qs.*1) by (clear -HQ1; induction HQ1 as [|? ? ? ? (Hk & _) _ IH]; [done|]; cbn; by rewrite Hk, IH).
  exists qs. split; [done|]. split; [|split].
  - eapply list.Forall_impl; [exact HQ2|]. intros p Hp. rewrite list.Forall_forall in HJ. by apply HJ.
  - apply (NoDup_fmap_1 FormatInt). rewrite <- HK, HP. apply NoDup_fst_map_to_list.
  - intros p. split; [rewrite list.Forall_forall in HQ2; apply HQ2|]. intros Hp.
    assert (Hin : FormatInt p.1 ∈ dom fields') by (rewrite HD; eapply elem_of_dom_2; by apply HI).
    apply elem_of_dom in Hin as [f' Hf']. assert (He : (FormatInt p.1, f') ∈ es) by (rewrite HP; by apply elem_of_map_to_list).
    assert (HK1 : FormatInt p.1 ∈ es.*1) by (apply list_elem_of_fmap; by exists (FormatInt p.1, f')). rewrite HK in HK1.
    apply list_elem_of_fmap in HK1 as (de & HE & (q & -> & Hq)%list_elem_of_fmap). rewrite list.Forall_forall in HJ, HQ2.
    pose proof (HJ _ (HQ2 _ Hq)) as J2. apply FormatInt_inj in HE; [|by eapply json_field_int64, HJ|by eapply json_field_int64].
    apply list_elem_of_lookup in Hp as [i Hi]. pose proof (HQ2 _ Hq) as [j Hj]%list_elem_of_lookup.
    assert (i = j) as ->; [|by replace p with q by congruence].
    eapply NoDup_lookup; [exact HND|rewrite list_lookup_fmap, Hi; reflexivity|rewrite list_lookup_fmap, Hj; cbn; by rewrite HE].
Qed.

(** The MTI: a text that is not empty. *)
Definition json_mti (s : Schema) (v : Value) : Prop := v_kind v <> KindAmount /\ printable_text (v_raw v) = true /\ v_raw v <> [].

Lemma mti_set s v (h : heap) m : building s m -> scalar_field s (0, v) -> json_mti s v ->
  Value_String v = Ok (v_raw v) /\
  exists m', SetDE (length h) 0 (anyString (v_raw v)) (h ++ [m]) = (Ok tt, h ++ [m']) /\ building s m' /\
    forall e, shown m' e = if e =? 0 then Some (canon_at s 0 v) else shown m e.
Proof.
  intros HB (Hde & _ & d & HD & HKd & HV) (HK & _ & _). cbn [fst snd] in *.
  assert (HT : fd_Kind d = KindString \/ fd_Kind d = KindNumeric \/ fd_Kind d = KindBytes) by (destruct (fd_Kind d); try tauto; by rewrite HKd in HK).
  split; [unfold Value_String; rewrite HKd; by destruct HT as [->|[->| ->]]|].
  assert (HM : exists v0, makeValue (Some d) (anyString (v_raw v)) = Ok v0 /\ set_v_codec v0 (fd_Codec d) = canon d v).
  { unfold makeValue, scalarFromBytes, canon. rewrite HKd. destruct HT as [EK|[EK|EK]]; rewrite EK; cbn; by eexists. }
  destruct HM as (v0 & HM & HC). destruct (SetDE_building s d v0 0 (anyString (v_raw v)) h m HB HD Hde HM) as (m' & E & HB' & HS). exists m'.
  rewrite HC in HS. unfold canon_at. by rewrite HD.
Qed.

(** The document of a message. *)
Definition json_doc (m : Message) (fields : gmap bytes fieldJSON) : jdocument :=
  mkJDocument (match shown m 0 with Some v => v_raw v | None => [] end) fields.

Lemma json_doc_flat s m fields : Forall (json_field s) (present_values m) -> (forall v, shown m 0 = Some v -> json_mti s v) ->
  (forall p, p ∈ present_values m -> fields !! FormatInt p.1 = Some (scalar_json p)) ->
  (forall k, (forall p, p ∈ present_values m -> k <> FormatInt p.1) -> fields !! k = None) -> flat_doc (json_doc m fields).
Proof.
  intros HV HZ HI HO. split.
  - cbn. destruct (shown m 0) as [v|] eqn:E0; [|done]. by destruct (HZ v eq_refl) as (_ & ? & _).
  - intros k f Hf. cbn [json_doc jd_Fields] in Hf. destruct (decide (Exists (fun p => k = FormatInt p.1) (present_values m))) as [HEx|HNx].
    + apply list.Exists_exists in HEx as (p & Hp & ->). rewrite (HI p Hp) in Hf. injection Hf as <-. rewrite list.Forall_forall in HV.
      split; [|split; [done|split; [done|]]]; [apply FormatInt_printable; destruct (HV p Hp) as [(Hde & _) _]; lia|].
      eexists. split; [done|]. by apply (json_field_raw s p), HV.
    + rewrite HO in Hf; [done|]. intros p Hp ->. apply HNx, list.Exists_exists. by exists p.
Qed.

Lemma json_mti_read s m (h : heap) : 0 <= s_maxDE s -> (forall v, shown m 0 = Some v -> scalar_field s (0, v) /\ json_mti s v) ->
  let mti := jd_MTI (json_doc m ∅) in
  exists m1, (if bool_decide (mti = []) then jret tt else jmsg (SetDE (length h) 0 (anyString mti))) (h ++ [New s]) = (Ok tt, h ++ [m1]) /\
    building s m1 /\ forall e, shown m1 e = if e =? 0 then canon_at s 0 <$> shown m 0 else None.
Proof.
  intros HM HZ. cbn. destruct (shown m 0) as [v|] eqn:E0.
  - destruct (HZ v eq_refl) as (HF & HK & HPr & Hne). rewrite bool_decide_false by done.
    destruct (mti_set s v h (New s) (New_building s HM) HF ltac:(done)) as (_ & m1 & E & HB & Hs). exists m1. unfold jmsg. rewrite E.
    split; [done|]. split; [done|]. intros e. rewrite Hs. by destruct (e =? 0); [|apply shown_New].
  - exists (New s). split; [done|]. split; [by apply New_building|]. intros e. rewrite shown_New. by destruct (e =? 0).
Qed.

Lemma json_Marshal_doc s m fields : m_schema m = Some s -> (forall v, shown m 0 = Some v -> scalar_field s (0, v) /\ json_mti s v) -> 0 <= s_maxDE s ->
  render_fields no_options (Some s) ((fun p => (DE p.1, mkNode p.2 None)) <$> present_values m) ∅ = Ok fields ->
  json_Marshal (scalar_view m) no_options = Ok (json_MarshalIndent (json_doc m fields)).
Proof.
  intros HS HZ HM EF. unfold json_Marshal, scalar_view, json_doc. cbn [vw_MTI vw_Fields vw_Schema]. rewrite HS, EF. cbn [rbind].
  destruct (shown m 0) as [v|] eqn:E0; [|done]. destruct (HZ v eq_refl) as [HF HJ].
  by destruct (mti_set s v [] (New s) (New_building s HM) HF HJ) as (-> & _).
Qed.

(** C18: Rendering to JSON loses nothing.  Take any message without TLV tags over a
    schema, parsed from the wire or assembled by [Set], of which every present
    element, numbered below 2^31, decodes to
    a printable text or number, to bytes, or to an amount (the least int64 apart;
    no composites) of its field's kind, with an MTI that is a text and not empty
    if it is there, and let the map of fields be iterated in any order.
    [Marshal], without options, succeeds and changes nothing a reader sees of the
    message; [Unmarshal] of what it wrote, over the same schema and with an
    encoding package that keeps printable texts, numbers and documents of them,
    succeeds and gives a new message with the same elements present, in which
    [Get] answers with the same kind and the same text or amount, or with
    nothing, as on the original. *)
Theorem jsonio_roundtrip order depth s l m (h : heap) :
  (forall fields, order fields ≡ₚ map_to_list fields) ->
  h !! l = Some m -> m_schema m = Some s -> 0 <= s_maxDE s -> (forall de, legible m de) -> TagSeq m = [] ->
  (forall de v, shown m de = Some v -> json_field s (de, v)) -> (forall v, shown m 0 = Some v -> json_mti s v) ->
  exists view wire m1 m', view_of depth l h = (Ok view, <[l := m1]> h) /\ alike m m1 /\ json_Marshal view no_options = Ok wire /\
    json_Unmarshal order wire s (<[l := m1]> h) = (Ok (length h), <[l := m1]> h ++ [m']) /\
    forall de, same_answer (fst (Get l de h)) (fst (Get (length h) de (<[l := m1]> h ++ [m']))) /\ Has m' de = Has m de.
Proof.
  intros Hord HL HS HM HG HTag HR HZ.
  assert (HC : forall de v, shown m de = Some v -> Value_Composite v = None).
  { intros de v Hs. unfold Value_Composite. rewrite bool_decide_false; [done|]. by apply (json_field_scalar s (de, v)), HR. }
  assert (HZ2 : forall v, shown m 0 = Some v -> scalar_field s (0, v) /\ json_mti s v) by (intros v Hv; split; [by apply HR|by apply HZ]).
  assert (HV : Forall (json_field s) (present_values m)).
  { apply list.Forall_forall. intros [de v] [_ HI]%elem_present_values. by apply HR. }
  assert (HN : NoDup ((present_values m).*1)).
  { pose proof (NoDup_all_values m) as HN. unfold all_values in HN. rewrite fmap_app in HN. by apply list.NoDup_app in HN as (_ & _ & ?). }
  destruct (view_of_scalars depth l m h HL HG HTag HC) as (mv & HW & HA). set (h1 := <[l := mv]> h) in *. assert (HLen : length h1 = length h) by apply length_insert.
  destruct (render_fields_scalars s (present_values m) ∅ HV HN) as (fields & EF & HI & HO).
  assert (HO2 : forall k, (forall p, p ∈ present_values m -> k <> FormatInt p.1) -> fields !! k = None) by (intros k Hk; rewrite HO by done; apply lookup_empty).
  destruct (document_survives _ (json_doc_flat s m fields HV HZ HI HO2)) as (d' & ED & EM & Hdom & Hraw). cbn [json_doc jd_Fields] in Hdom, Hraw.
  destruct (decoded_entries s (present_values m) fields (jd_Fields d') (order (jd_Fields d')) HV HN HI HO2 Hdom Hraw (Hord _)) as (qs & HQ & HJ & HNq & HEq).
  destruct (json_mti_read s m h1 HM HZ2) as (m1 & E1 & HB1 & HS1).
  destruct (read_fields_building s (order (jd_Fields d')) qs h1 m1 HB1 HJ HQ HNq) as (m' & E2 & HB2 & HIn & HOut).
  exists (scalar_view m), (json_MarshalIndent (json_doc m fields)), mv, m'. split; [exact HW|]. split; [exact HA|]. split; [by eapply json_Marshal_doc|]. split.
  - fold h1. unfold json_Unmarshal. rewrite ED. cbv zeta. rewrite EM. unfold jbind. cbn [json_doc jd_MTI] in E1 |- *. rewrite E1, E2. by rewrite HLen.
  - fold h1. eapply rebuilt_answers; [done|done|rewrite <- HLen; by rewrite lookup_app_r, Nat.sub_diag|apply HB2|]. intros de.
    destruct (decide (de ∈ qs.*1)) as [([e v] & -> & Hq)%list_elem_of_fmap|Hno].
    + cbn [fst]. rewrite (HIn _ _ Hq). apply HEq, elem_present_values in Hq as [_ Hq]. by rewrite Hq.
    + rewrite HOut by done. rewrite HS1. destruct (Z.eqb_spec de 0) as [->|Hne]; [done|]. destruct (shown m de) as [v|] eqn:Es; [|done].
      exfalso. apply Hno, list_elem_of_fmap. exists (de, v). split; [done|]. apply HEq, elem_present_values. split; [|done].
      destruct (HR _ _ Es) as [(Hde & _) _]. cbn in Hde. apply shown_has in Es. rewrite Has_present in Es. destruct (slot_at m de) as [sl| |] eqn:Hsl; [|done|done].
      apply slot_at_lookup in Hsl as [_ Hsl%lookup_lt_Some]. unfold len. lia.
Qed.
End RoundTrip.

(** ** A concrete encoder *)

(** Values are written as the bits of their number in an enumeration. *)
Fixpoint bits_of_pos (p : positive) : bytes :=
  match p with xH => [] | xO p => x00 :: bits_of_pos p | xI p => x01 :: bits_of_pos p end.
Fixpoint pos_of_bits (b : bytes) : positive :=
  match b with [] => xH | c :: b => if bool_decide (c = x00) then xO (pos_of_bits b) else xI (pos_of_bits b) end.

Lemma pos_of_bits_of p : pos_of_bits (bits_of_pos p) = p.
Proof. induction p as [p IH|p IH|]; cbn; by rewrite ?IH. Qed.

Definition bits_code `{Countable A} (a : A) : bytes := x02 :: bits_of_pos (encode a).
Definition bits_decode `{Countable A} (b : bytes) : option A := match b with [] => None | _ :: b => decode (pos_of_bits b) end.

Lemma bits_code_decode `{Countable A} (a : A) : bits_decode (bits_code a) = Some a.
Proof. unfold bits_decode, bits_code. rewrite pos_of_bits_of. apply decode_encode. Qed.

Definition field_tuple (f : fieldJSON) : bytes * option bytes * option (gmap bytes bytes) := (fj_Name f, fj_Value f, fj_TLV f).
Definition tuple_field (t : bytes * option bytes * option (gmap bytes bytes)) : fieldJSON := mkFieldJSON t.1.1 t.1.2 t.2.

#[export] Instance bits_json : JSON := {
  json_string := bits_code;
  json_amount := fun a => bits_code (aj_Unscaled a, aj_Scale a);
  json_MarshalIndent := fun d => bits_code (jd_MTI d, field_tuple <$> jd_Fields d);
  dec_string := bits_decode;
  dec_amount := fun b => (fun p => mkAmountJSON p.1 p.2) <$> bits_decode b;
  dec_document := fun b => (fun p => mkJDocument p.1 (tuple_field <$> p.2)) <$> bits_decode b;
}.

#[export] Instance bits_json_laws : JSONLaws.
Proof.
  split.
  - intros t _. apply bits_code_decode.
  - intros [u s] _ _. cbn -[bits_decode bits_code]. by rewrite bits_code_decode.
  - intros raw [(t & _ & ->)|(a & _ & _ & ->)]; done.
  - intros d HF. exists d. cbn -[bits_decode bits_code]. rewrite bits_code_decode. cbn. split.
    { destruct d as [mti fields]. cbn. f_equal. f_equal. rewrite <- map_fmap_compose. rewrite <- (map_fmap_id fields) at 2. apply map_fmap_ext.
      by intros k [n v t] _. }
    split; [done|]. split; [done|]. intros k f f' Hf Hf'. rewrite Hf in Hf'. injection Hf' as <-. destruct HF as [_ HF].
    destruct (HF k f Hf) as (_ & _ & Ht & raw & Hr & _). split; [done|]. exists raw, raw. split; [done|]. split; [done|]. by split.
Qed.

Lemma jsonio_roundtrip_witness : exists view wire h1 h2 v,
  view_of 1 0 [rendered_message] = (Ok view, h1) /\ json_Marshal view no_options = Ok wire /\
  json_Unmarshal map_to_list wire sample_schema h1 = (Ok 1%nat, h2) /\
  fst (Get 1 4 h2) = Ok (Some v) /\ v_kind v = KindAmount /\ v_dec v = mkDecimal 1099 2.
Proof.
  destruct (jsonio_roundtrip map_to_list 1 sample_schema 0 rendered_message [rendered_message]) as (view & wire & m1 & m' & HV & _ & HM & HU & HG).
  - reflexivity.
  - reflexivity.
  - vm_compute. reflexivity.
  - vm_compute. discriminate.
  - exact rendered_legible.
  - vm_compute. reflexivity.
  - intros de v Hs. apply (rendered_all (fun p => json_field sample_schema p)) in Hs; [exact Hs|]. unfold rendered_values.
    do 4 (constructor; [split; [split; [vm_compute; split; discriminate|]; split; [vm_compute; reflexivity|]; eexists; split; [vm_compute; reflexivity|];
      split; [vm_compute; reflexivity|]; vm_compute; first [exact I|repeat split; discriminate]|intros _; vm_compute; reflexivity]|]). constructor.
  - intros v Hs. refine (rendered_all (fun p => p.1 = 0 -> json_mti sample_schema p.2) _ 0 v Hs eq_refl). unfold rendered_values. repeat constructor; discriminate.
  - exists view, wire. eexists _, _. destruct (HG 4) as [HA _]. revert HA. replace (fst (Get 0 4 [rendered_message]))
      with (Ok (E := error) (Some (mkValue (go "000000001099") KindAmount (Some amountASCII) 30 None (mkDecimal 1099 2)))) by (vm_compute; reflexivity).
    unfold same_answer. destruct (fst (Get (length [rendered_message]) 4 _)) as [[v|]| |] eqn:EV; intros HA; [|destruct HA..].
    exists v. split; [exact HV|]. split; [exact HM|]. split; [exact HU|]. split; [exact EV|]. exact HA.
Defined.

(** A composite of positional subfields has no tags: it is rendered as an empty
    field, and reading it sets nothing. *)
Lemma subfields_dropped `{JSON} s de d c fs bm sub l (h : heap) :
  Schema_Field s de = Some d -> int64 de ->
  exists fj, render_field no_options (Some s) de (mkNode (mkValue [] KindComposite c 0 None zeroDecimal) (Some (mkView (Some sub) bm None fs []))) = Ok fj /\
    fj = mkFieldJSON [] None (Some ∅) /\
    read_field l s (FormatInt de) (mkFieldJSON [] None None) h = (Ok tt, h).
Proof.
  intros HD Hde. eexists. split; [reflexivity|]. split; [reflexivity|]. unfold read_field, Atoi. rewrite ParseInt_FormatInt by done. by rewrite HD.
Qed.
