(* ===== verification/Listener.v ===== *)
(** * Links and the listener ([link/link.go], [listener/listener.go])

    A link frames messages and runs filters around them.  The listener accepts
    connections, serves each in a goroutine and shuts down: its accept loop, its
    handlers and its [Close] calls are interleaved by a step relation, one step
    per lock section, channel or socket operation.  A link is the number of the
    [Accept] that made it. *)

From S2P Require Import Prelude Errors Strconv Framer.

(** ** Links *)

Section Link.
(** A filter: the message, and whether it goes out. *)
Context {E : Type}.
Definition Filter : Type := bytes -> bool -> res E bytes.

Inductive send_error := ErrClosed | FilterError (e : E) | FrameError (e : link_error).

(** The configuration of a link without TLS; periods in nanoseconds. *)
Record link_config := mkLinkConfig { lc_framer : lengthPrefix; lc_filters : list Filter; lc_keepAlive : Z; lc_dialTimeout : Z }.

Inductive link_option := WithFramer (f : lengthPrefix) | WithFilters (fs : list Filter) | WithKeepAlive (d : Z) | WithDialTimeout (d : Z).

Definition link_opt (c : link_config) (o : link_option) : link_config :=
  match o with
  | WithFramer f => mkLinkConfig f (lc_filters c) (lc_keepAlive c) (lc_dialTimeout c)
  | WithFilters fs => mkLinkConfig (lc_framer c) (lc_filters c ++ fs) (lc_keepAlive c) (lc_dialTimeout c)
  | WithKeepAlive d => mkLinkConfig (lc_framer c) (lc_filters c) d (lc_dialTimeout c)
  | WithDialTimeout d => mkLinkConfig (lc_framer c) (lc_filters c) (lc_keepAlive c) d
  end.

Definition newConfig (opts : list link_option) : res link_error link_config :=
  let! framer := LengthPrefix 2 in
  Ok (fold_left link_opt opts (mkLinkConfig framer [] 30000000000 10000000000)).

(** A link: its configuration, and whether it was closed. *)
Record Link := mkLink { lk_cfg : link_config; lk_closed : bool }.
Definition lk_framer (l : Link) : lengthPrefix := lc_framer (lk_cfg l).
Definition lk_filters (l : Link) : list Filter := lc_filters (lk_cfg l).

Definition link_New (opts : list link_option) : res link_error Link := let! cfg := newConfig opts in Ok (mkLink cfg false).

Fixpoint apply_filters (fs : list Filter) (outgoing : bool) (msg : bytes) : res E bytes :=
  match fs with
  | [] => Ok msg
  | f :: fs => let! msg := f msg outgoing in apply_filters fs outgoing msg
  end.

(** The connection is the bytes written to it. *)
Definition link_Send (l : Link) (msg conn : bytes) : res send_error unit * bytes :=
  if lk_closed l then (Err ErrClosed, conn) else
  match apply_filters (lk_filters l) true msg with
  | Ok out =>
      match WriteFrame (lk_framer l) conn out with
      | Ok conn => (Ok tt, conn)
      | Err e => (Err (FrameError e), conn)
      | Panic => (Panic, conn)
      end
  | Err e => (Err (FilterError e), conn)
  | Panic => (Panic, conn)
  end.

(** Filters run in reverse on what is received. *)
Definition link_Receive (l : Link) (conn : bytes) : res send_error bytes * bytes :=
  match ReadFrame (lk_framer l) conn with
  | (Ok msg, conn) => (rmap_err FilterError (apply_filters (rev (lk_filters l)) false msg), conn)
  | (Err e, conn) => (Err (FrameError e), conn)
  | (Panic, conn) => (Panic, conn)
  end.

Definition Link_Close (l : Link) : Link := mkLink (lk_cfg l) true.

Lemma apply_filters_app fs gs o msg : apply_filters (fs ++ gs) o msg = let! m := apply_filters fs o msg in apply_filters gs o m.
Proof. revert msg. induction fs as [|f fs IH]; intros msg; cbn; [done|]. destruct (f msg o); cbn; [apply IH|done|done]. Qed.

(** A filter that undoes on the way in what it does on the way out. *)
Definition undoes (f : Filter) : Prop := forall msg out, f msg true = Ok out -> f out false = Ok msg.

Lemma filters_symmetric fs msg out : Forall undoes fs -> apply_filters fs true msg = Ok out -> apply_filters (rev fs) false out = Ok msg.
Proof.
  intros HF. revert msg. induction HF as [|f fs Hf _ IH]; intros msg; cbn [apply_filters rev]; [by intros [= ->]|].
  destruct (f msg true) as [mid| |] eqn:EM; [|done|done]. cbn [rbind]. intros HM%IH.
  rewrite apply_filters_app, HM. cbn. by rewrite (Hf _ _ EM).
Qed.

(** What a peer with the same framer and filters receives is what was sent, and
    the rest of the stream is left for the next message. *)
Lemma Send_Receive l msg conn conn' rest : lp_ok (lk_framer l) -> Forall undoes (lk_filters l) ->
  link_Send l msg conn = (Ok tt, conn') -> exists frame, conn' = conn ++ frame /\ link_Receive l (frame ++ rest) = (Ok msg, rest).
Proof.
  intros HL HF. unfold link_Send, link_Receive. destruct (lk_closed l); [done|].
  destruct (apply_filters (lk_filters l) true msg) as [out| |] eqn:EA; [|done|done].
  unfold WriteFrame. destruct (Z.ltb_spec (lp_max (lk_framer l)) (len out)); [done|]. intros [= <-]. eexists. split; [reflexivity|].
  rewrite ReadFrame_frame by (done || lia). by rewrite (filters_symmetric _ _ _ HF EA).
Qed.
End Link.

(** ** The listener *)

(** Where the accept loop stands. *)
Inductive serve_phase :=
| Accepting
| Accepted (l : nat)            (* about to track the link *)
| Tracked (l : nat)             (* tracked, about to add to the group and start the handler *)
| Refusing (l : nat)            (* not tracked, about to close it and return *)
| ServeReturned (ok : bool).    (* without an error, or with the accept error *)

(** Where a handler's goroutine stands; it leaves [ls_handlers] with [wg.Done]. *)
Inductive handler_phase :=
| Running
| HandlerClosed      (* its deferred [l.Close] done *)
| HandlerUntracked.  (* its deferred [untrack] done *)

(** Where the first call of [Close] stands. *)
Inductive close_phase := NotCalled | Swapped | LnClosed | Swept | CloseReturned.

Record Listener := mkListener {
  ls_closed : bool;
  ls_accepts : bool;                      (* the socket listens *)
  ls_conns : gset nat;
  ls_made : nat;                          (* links accepted so far *)
  ls_shut : gset nat;                     (* links closed so far *)
  ls_serve : serve_phase;
  ls_handlers : gmap nat handler_phase;   (* the wait group counts them *)
  ls_closer : close_phase;
  ls_waiting : nat;                       (* later calls of [Close], in [wg.Wait] *)
}.

(** A listener about to serve. *)
Definition Listen : Listener := mkListener false true ∅ 0 ∅ Accepting ∅ NotCalled 0.

Definition with_serve (s : Listener) (p : serve_phase) : Listener :=
  mkListener (ls_closed s) (ls_accepts s) (ls_conns s) (ls_made s) (ls_shut s) p (ls_handlers s) (ls_closer s) (ls_waiting s).
Definition with_conns (s : Listener) (c : gset nat) : Listener :=
  mkListener (ls_closed s) (ls_accepts s) c (ls_made s) (ls_shut s) (ls_serve s) (ls_handlers s) (ls_closer s) (ls_waiting s).
Definition with_handlers (s : Listener) (h : gmap nat handler_phase) : Listener :=
  mkListener (ls_closed s) (ls_accepts s) (ls_conns s) (ls_made s) (ls_shut s) (ls_serve s) h (ls_closer s) (ls_waiting s).
Definition with_shut (s : Listener) (c : gset nat) : Listener :=
  mkListener (ls_closed s) (ls_accepts s) (ls_conns s) (ls_made s) (c ∪ ls_shut s) (ls_serve s) (ls_handlers s) (ls_closer s) (ls_waiting s).
Definition with_closer (s : Listener) (p : close_phase) : Listener :=
  mkListener (ls_closed s) (ls_accepts s) (ls_conns s) (ls_made s) (ls_shut s) (ls_serve s) (ls_handlers s) p (ls_waiting s).
Definition with_waiting (s : Listener) (n : nat) : Listener :=
  mkListener (ls_closed s) (ls_accepts s) (ls_conns s) (ls_made s) (ls_shut s) (ls_serve s) (ls_handlers s) (ls_closer s) n.

Definition track (s : Listener) (l : nat) : bool * Listener :=
  if ls_closed s then (false, s) else (true, with_conns s ({[l]} ∪ ls_conns s)).
Definition untrack (s : Listener) (l : nat) : Listener := with_conns s (ls_conns s ∖ {[l]}).

(** [ln.Accept] returned a connection, and [link.New]. *)
Definition accept (s : Listener) : Listener :=
  mkListener (ls_closed s) (ls_accepts s) (ls_conns s) (S (ls_made s)) (ls_shut s) (Accepted (ls_made s)) (ls_handlers s) (ls_closer s) (ls_waiting s).

(** [s.closed.Swap(true)] of the first call, and [ln.Close]. *)
Definition swap (s : Listener) : Listener :=
  mkListener true (ls_accepts s) (ls_conns s) (ls_made s) (ls_shut s) (ls_serve s) (ls_handlers s) Swapped (ls_waiting s).
Definition close_ln (s : Listener) : Listener :=
  mkListener (ls_closed s) false (ls_conns s) (ls_made s) (ls_shut s) (ls_serve s) (ls_handlers s) LnClosed (ls_waiting s).

(** The loop over the tracked links. *)
Definition sweep_conns (s : Listener) : Listener := with_shut s (ls_conns s).

Inductive listener_step (s : Listener) : Listener -> Prop :=
| step_accept : ls_serve s = Accepting -> ls_accepts s = true -> listener_step s (accept s)
| step_accept_err : ls_serve s = Accepting -> listener_step s (with_serve s (ServeReturned (ls_closed s)))
| step_track l : ls_serve s = Accepted l -> (track s l).1 = true -> listener_step s (with_serve (track s l).2 (Tracked l))
| step_refuse l : ls_serve s = Accepted l -> (track s l).1 = false -> listener_step s (with_serve s (Refusing l))
| step_refused l : ls_serve s = Refusing l -> listener_step s (with_serve (with_shut s {[l]}) (ServeReturned true))
| step_spawn l : ls_serve s = Tracked l -> listener_step s (with_serve (with_handlers s (<[l := Running]> (ls_handlers s))) Accepting)
| step_hangup l : ls_handlers s !! l = Some Running -> listener_step s (with_shut s {[l]})   (* the handler closes its link *)
| step_return l : ls_handlers s !! l = Some Running ->
    listener_step s (with_handlers (with_shut s {[l]}) (<[l := HandlerClosed]> (ls_handlers s)))
| step_untrack l : ls_handlers s !! l = Some HandlerClosed ->
    listener_step s (with_handlers (untrack s l) (<[l := HandlerUntracked]> (ls_handlers s)))
| step_done l : ls_handlers s !! l = Some HandlerUntracked -> listener_step s (with_handlers s (delete l (ls_handlers s)))
| step_swap : ls_closed s = false -> listener_step s (swap s)
| step_close_ln : ls_closer s = Swapped -> listener_step s (close_ln s)
| step_sweep : ls_closer s = LnClosed -> listener_step s (with_closer (sweep_conns s) Swept)
| step_wait : ls_closer s = Swept -> ls_handlers s = ∅ -> listener_step s (with_closer s CloseReturned)
| step_later : ls_closed s = true -> listener_step s (with_waiting s (S (ls_waiting s)))
| step_later_wait n : ls_waiting s = S n -> ls_handlers s = ∅ -> listener_step s (with_waiting s n).

Definition listener_reachable (s : Listener) : Prop := rtc listener_step Listen s.

(** ** The invariant *)

Definition stopping (p : close_phase) : bool := match p with LnClosed | Swept | CloseReturned => true | _ => false end.
Definition swept (p : close_phase) : bool := match p with Swept | CloseReturned => true | _ => false end.

(** The link the accept loop holds before it is tracked. *)
Definition in_hand (p : serve_phase) (l : nat) : Prop := p = Accepted l \/ p = Refusing l.

Definition handler_ok (s : Listener) (l : nat) (p : handler_phase) : Prop :=
  (l < ls_made s)%nat /\ ~ in_hand (ls_serve s) l /\ ls_serve s <> Tracked l /\
  match p with
  | Running => l ∈ ls_conns s
  | HandlerClosed => l ∈ ls_conns s /\ l ∈ ls_shut s
  | HandlerUntracked => (l ∉ ls_conns s) /\ l ∈ ls_shut s
  end.

Record listener_inv (s : Listener) : Prop := {
  li_flag : ls_closed s = false <-> ls_closer s = NotCalled;
  li_socket : stopping (ls_closer s) = true -> ls_accepts s = false;
  li_conns l : l ∈ ls_conns s -> (l < ls_made s)%nat /\
    (ls_serve s = Tracked l \/ ls_handlers s !! l = Some Running \/ ls_handlers s !! l = Some HandlerClosed);
  li_handlers l p : ls_handlers s !! l = Some p -> handler_ok s l p;
  li_hand l : in_hand (ls_serve s) l -> (l < ls_made s)%nat /\ l ∉ ls_conns s;
  li_tracked l : ls_serve s = Tracked l -> (l < ls_made s)%nat /\ l ∈ ls_conns s;
  li_all l : (l < ls_made s)%nat -> l ∈ ls_shut s \/ l ∈ ls_conns s \/ in_hand (ls_serve s) l;
  li_swept : swept (ls_closer s) = true -> ls_conns s ⊆ ls_shut s;
  li_returned : ls_closer s = CloseReturned -> ls_handlers s = ∅ \/
    exists l p, ls_handlers s = {[l := p]} /\ forall k, ls_serve s <> Tracked k;
}.

Lemma Listen_inv : listener_inv Listen.
Proof.
  split; cbn; try done; try (intros l; set_solver || lia).
  - intros l [?|?]; done.
Qed.

Lemma accept_inv s : listener_inv s -> ls_serve s = Accepting -> ls_accepts s = true -> listener_inv (accept s).
Proof.
  intros [I1 I2 I3 I4 I5 I6 I7 I8 I9] ES EA.
  assert (HNC : ls_made s ∉ ls_conns s) by (intros [? _]%I3; lia).
  split; cbn; try done.
  - intros l [HM HP]%I3. split; [lia|]. destruct HP as [HP|HP]; [congruence|by right].
  - intros l p HL. destruct (I4 l p HL) as (HM & HH & HT & HP). unfold handler_ok, in_hand. cbn. split; [lia|]. split; [|split; [done|done]].
    intros [[= <-]|?]; [lia|done].
  - intros l [[= <-]|?]; [|done]. split; [lia|done].
  - intros l HM. destruct (decide (l = ls_made s)) as [->|Hne]; [right; right; by left|].
    destruct (I7 l ltac:(lia)) as [?|[?|[?|?]]]; [by left|by right; left|congruence..].
  - intros HC. rewrite I2 in EA; [done|]. by rewrite HC.
Qed.

Lemma serve_returned_inv s ok : listener_inv s -> ls_serve s = Accepting -> listener_inv (with_serve s (ServeReturned ok)).
Proof.
  intros [I1 I2 I3 I4 I5 I6 I7 I8 I9] ES. split; cbn; try done.
  - intros l [HM HP]%I3. split; [done|]. destruct HP as [HP|HP]; [congruence|by right].
  - intros l p HL. destruct (I4 l p HL) as (HM & HH & HT & HP). split; [done|]. split; [by intros [?|?]|]. by split.
  - by intros l [?|?].
  - intros l HM. destruct (I7 l HM) as [?|[?|[?|?]]]; [by left|by right; left|congruence..].
  - intros HC. destruct (I9 HC) as [?|(l & p & HE & _)]; [by left|right]. by exists l, p.
Qed.

Lemma track_inv s l : listener_inv s -> ls_serve s = Accepted l -> ls_closed s = false -> listener_inv (with_serve (with_conns s ({[l]} ∪ ls_conns s)) (Tracked l)).
Proof.
  intros [I1 I2 I3 I4 I5 I6 I7 I8 I9] ES EC. destruct (I5 l (or_introl ES)) as [HM HN]. apply I1 in EC. rewrite EC in *. split; cbn; rewrite ?EC; try done.
  - intros k [->%elem_of_singleton|[HK HP]%I3]%elem_of_union; [split; [done|by left]|]. split; [done|]. right. destruct HP; [congruence|done].
  - intros k p HL. destruct (I4 k p HL) as (HK & HH & HT & HP). assert (k <> l) by (intros ->; apply HH; by left).
    split; [done|]. split; [by intros [?|?]|]. split; [cbn; congruence|]. destruct p; cbn in *; set_solver.
  - by intros k [?|?].
  - intros k [= <-]. split; [done|set_solver].
  - intros k HK. destruct (I7 k HK) as [?|[?|[?|?]]]; [by left|right; left; set_solver| |congruence]. right; left. assert (k = l) as -> by congruence. set_solver.
Qed.

Lemma refuse_inv s l : listener_inv s -> ls_serve s = Accepted l -> listener_inv (with_serve s (Refusing l)).
Proof.
  intros [I1 I2 I3 I4 I5 I6 I7 I8 I9] ES. destruct (I5 l (or_introl ES)) as [HM HN]. split; cbn; try done.
  - intros k [HK HP]%I3. split; [done|]. destruct HP as [HP|HP]; [congruence|by right].
  - intros k p HL. destruct (I4 k p HL) as (HK & HH & HT & HP). split; [done|]. split; [|by split]. intros [?|[= <-]]; [done|]. apply HH. by left.
  - by intros k [?|[= <-]].
  - intros k HK. destruct (I7 k HK) as [?|[?|[?|?]]]; [by left|by right; left| |congruence]. right; right; right. cbn. congruence.
  - intros HC. destruct (I9 HC) as [?|(k & p & HE & _)]; [by left|right]. by exists k, p.
Qed.

Lemma refused_inv s l : listener_inv s -> ls_serve s = Refusing l -> listener_inv (with_serve (with_shut s {[l]}) (ServeReturned true)).
Proof.
  intros [I1 I2 I3 I4 I5 I6 I7 I8 I9] ES. split; cbn; try done.
  - intros k [HK HP]%I3. split; [done|]. destruct HP as [HP|HP]; [congruence|by right].
  - intros k p HL. destruct (I4 k p HL) as (HK & HH & HT & HP). split; [done|]. split; [by intros [?|?]|]. split; [done|]. destruct p; cbn in *; set_solver.
  - by intros k [?|?].
  - intros k HK. destruct (I7 k HK) as [?|[?|[?|?]]]; [left; set_solver|by right; left|congruence|]. left. assert (k = l) as -> by congruence. set_solver.
  - intros HC. specialize (I8 HC). set_solver.
  - intros HC. destruct (I9 HC) as [?|(k & p & HE & _)]; [by left|right]. by exists k, p.
Qed.

Lemma spawn_inv s l : listener_inv s -> ls_serve s = Tracked l -> listener_inv (with_serve (with_handlers s (<[l := Running]> (ls_handlers s))) Accepting).
Proof.
  intros [I1 I2 I3 I4 I5 I6 I7 I8 I9] ES. destruct (I6 l ES) as [HM HC]. split; cbn; try done.
  - intros k [HK HP]%I3. split; [done|]. right. destruct (decide (k = l)) as [->|Hne]; [left; apply lookup_insert_eq|].
    rewrite lookup_insert_ne by done. destruct HP; [congruence|done].
  - intros k p. rewrite lookup_insert_Some. intros [[<- <-]|[Hne HL]].
    + split; [done|]. split; [by intros [?|?]|]. by split.
    + destruct (I4 k p HL) as (HK & HH & HT & HP). split; [done|]. split; [by intros [?|?]|]. by split.
  - by intros k [?|?].
  - intros k HK. destruct (I7 k HK) as [?|[?|[?|?]]]; [by left|by right; left|congruence..].
  - intros HR. right. destruct (I9 HR) as [HE|(k & p & _ & HN)]; [|by destruct (HN l)]. exists l, Running. split; [|done].
    by rewrite HE.
Qed.

(** More links closed. *)
Lemma shut_inv s c : listener_inv s -> listener_inv (with_shut s c).
Proof.
  intros [I1 I2 I3 I4 I5 I6 I7 I8 I9]. split; cbn; try done.
  - intros k p HL. destruct (I4 k p HL) as (HK & HH & HT & HP). split; [done|]. split; [done|]. split; [done|]. destruct p; cbn in *; set_solver.
  - intros k HK. destruct (I7 k HK) as [?|[?|?]]; [left; set_solver|by right; left|by right; right].
  - intros HC. specialize (I8 HC). set_solver.
Qed.

(** Replacing the phase of a handler of a map that has at most that one. *)
Lemma singleton_update (m : gmap nat handler_phase) l q : (m = ∅ \/ exists k p, m = {[k := p]}) -> is_Some (m !! l) ->
  (exists k p, <[l := q]> m = {[k := p]}) /\ (delete l m = ∅).
Proof.
  intros [->|(k & p & ->)] [x HX]; [by rewrite lookup_empty in HX|]. apply lookup_singleton_Some in HX as [<- <-].
  split; [exists k, q; apply insert_singleton_eq|apply delete_singleton_eq].
Qed.

Lemma handler_return_inv s l : listener_inv s -> l ∈ ls_shut s -> ls_handlers s !! l = Some Running ->
  listener_inv (with_handlers s (<[l := HandlerClosed]> (ls_handlers s))).
Proof.
  intros [I1 I2 I3 I4 I5 I6 I7 I8 I9] HS HL. destruct (I4 l _ HL) as (HM & HH & HT & HP). split; cbn; try done.
  - intros k [HK HQ]%I3. split; [done|]. destruct (decide (k = l)) as [->|Hne]; [right; right; apply lookup_insert_eq|]. by rewrite lookup_insert_ne.
  - intros k p. rewrite lookup_insert_Some. intros [[<- <-]|[_ Hk]]; [by repeat split|by apply I4].
  - intros HR. right. destruct (singleton_update (ls_handlers s) l HandlerClosed) as [(k & p & HE) _]; [|by eexists|].
    + destruct (I9 HR) as [?|(k & p & HE & _)]; [by left|right; by exists k, p].
    + exists k, p. split; [done|]. destruct (I9 HR) as [HE2|(? & ? & _ & ?)]; [by rewrite HE2 in HL|done].
Qed.

Lemma untrack_inv s l : listener_inv s -> ls_handlers s !! l = Some HandlerClosed ->
  listener_inv (with_handlers (untrack s l) (<[l := HandlerUntracked]> (ls_handlers s))).
Proof.
  intros [I1 I2 I3 I4 I5 I6 I7 I8 I9] HL. destruct (I4 l _ HL) as (HM & HH & HT & HC & HS). split; cbn; try done.
  - intros k [Hk Hne%not_elem_of_singleton]%elem_of_difference. destruct (I3 k Hk) as [HK HQ]. split; [done|]. by rewrite lookup_insert_ne.
  - intros k p. rewrite lookup_insert_Some. intros [[<- <-]|[Hne Hk]].
    + split; [done|]. split; [done|]. split; [done|]. cbn. set_solver.
    + destruct (I4 k p Hk) as (HK & HH' & HT' & HP). split; [done|]. split; [done|]. split; [done|]. destruct p; cbn in *; set_solver.
  - intros k Hk. destruct (I5 k Hk). split; [done|set_solver].
  - intros k Hk. destruct (I6 k Hk). split; [done|]. assert (k <> l) by congruence. set_solver.
  - intros k HK. destruct (decide (k = l)) as [->|Hne]; [by left|]. destruct (I7 k HK) as [?|[?|?]]; [by left|right; left; set_solver|by right; right].
  - intros HR. specialize (I8 HR). set_solver.
  - intros HR. right. destruct (singleton_update (ls_handlers s) l HandlerUntracked) as [(k & p & HE) _]; [|by eexists|].
    + destruct (I9 HR) as [?|(k & p & HE & _)]; [by left|right; by exists k, p].
    + exists k, p. split; [done|]. destruct (I9 HR) as [HE2|(? & ? & _ & ?)]; [by rewrite HE2 in HL|done].
Qed.

Lemma done_inv s l : listener_inv s -> ls_handlers s !! l = Some HandlerUntracked -> listener_inv (with_handlers s (delete l (ls_handlers s))).
Proof.
  intros [I1 I2 I3 I4 I5 I6 I7 I8 I9] HL. destruct (I4 l _ HL) as (HM & HH & HT & HC & HS). split; cbn; try done.
  - intros k Hk. destruct (I3 k Hk) as [HK HQ]. split; [done|]. assert (k <> l) by set_solver. by rewrite lookup_delete_ne.
  - intros k p [_ Hk]%lookup_delete_Some. by apply I4.
  - intros HR. left. apply (singleton_update (ls_handlers s) l Running); [|by eexists].
    destruct (I9 HR) as [?|(k & p & HE & _)]; [by left|right; by exists k, p].
Qed.

Lemma closer_inv s : listener_inv s ->
  (ls_closed s = false -> listener_inv (swap s)) /\ (ls_closer s = Swapped -> listener_inv (close_ln s)) /\
  (ls_closer s = LnClosed -> listener_inv (with_closer (sweep_conns s) Swept)) /\
  (ls_closer s = Swept -> ls_handlers s = ∅ -> listener_inv (with_closer s CloseReturned)).
Proof.
  intros HI. pose proof HI as [I1 I2 I3 I4 I5 I6 I7 I8 I9]. split; [|split; [|split]].
  - intros EC. apply I1 in EC. split; cbn; done.
  - intros EC. split; cbn; try done. split; [|done]. intros HF. apply I1 in HF. congruence.
  - intros EC. destruct (shut_inv s (ls_conns s) HI) as [J1 J2 J3 J4 J5 J6 J7 J8 J9]. cbn in *. rewrite EC in *.
    split; cbn; try done; first [by split; [intros ?%J1|]|by apply J2|set_solver].
  - intros EC EH. rewrite EC in *. split; cbn; try done; first [by split; [intros ?%I1|]|by apply I2|by apply I8|by left].
Qed.

Lemma listener_step_inv s s' : listener_inv s -> listener_step s s' -> listener_inv s'.
Proof.
  intros HI HS. destruct HS as [ES EA|ES|l ES ET|l ES ET|l ES|l ES|l EH|l EH|l EH|l EH|EC|EC|EC|EC EH|EC|n EW EH].
  - by apply accept_inv.
  - by apply serve_returned_inv.
  - unfold track in *. destruct (ls_closed s) eqn:EC; [done|]. by apply track_inv.
  - by apply refuse_inv.
  - by apply refused_inv.
  - by apply spawn_inv.
  - by apply shut_inv.
  - apply (handler_return_inv (with_shut s {[l]})); [by apply shut_inv|cbn; set_solver|done].
  - by apply untrack_inv.
  - by apply done_inv.
  - by apply closer_inv.
  - by apply closer_inv.
  - by apply closer_inv.
  - by apply closer_inv.
  - destruct HI as [I1 I2 I3 I4 I5 I6 I7 I8 I9]. by split.
  - destruct HI as [I1 I2 I3 I4 I5 I6 I7 I8 I9]. by split.
Qed.

Lemma listener_reachable_inv s : listener_reachable s -> listener_inv s.
Proof.
  intros HR. unfold listener_reachable in HR. assert (H0 := Listen_inv). revert H0. induction HR as [|x y z HS _ IH]; [done|]. intros HI. by apply IH, (listener_step_inv x).
Qed.

(** C6: No connection is leaked, and a shutdown leaves none open.  In every
    reachable state an accepted link that is open is tracked, with a handler
    that runs or is about to be started for it, or is the one link the accept
    loop has just been given.  Once the first [Close] has returned, the socket
    accepts nothing, every tracked link is closed, at most one handler is left,
    on a closed link, and an open link is the one in the hands of the accept
    loop, which never gets a handler; when the loop has returned too, every
    accepted link is closed. *)
Theorem listener_shutdown s : listener_reachable s ->
  (forall l, (l < ls_made s)%nat -> l ∉ ls_shut s ->
     in_hand (ls_serve s) l \/ (l ∈ ls_conns s /\ (ls_serve s = Tracked l \/ ls_handlers s !! l = Some Running))) /\
  (ls_closer s = CloseReturned ->
     ls_accepts s = false /\ ls_conns s ⊆ ls_shut s /\ (size (ls_handlers s) <= 1)%nat /\
     (forall l p, ls_handlers s !! l = Some p -> l ∈ ls_shut s) /\
     (forall l, (l < ls_made s)%nat -> l ∉ ls_shut s -> in_hand (ls_serve s) l /\ ls_handlers s !! l = None /\ (track s l).1 = false) /\
     (forall ok, ls_serve s = ServeReturned ok -> forall l, (l < ls_made s)%nat -> l ∈ ls_shut s)).
Proof.
  intros [I1 I2 I3 I4 I5 I6 I7 I8 I9]%listener_reachable_inv. split.
  - intros l HM HN. destruct (I7 l HM) as [?|[HC|?]]; [done| |by left]. right. split; [done|]. destruct (I3 l HC) as [_ [?|[?|HL]]]; [by left|by right|].
    destruct (I4 _ _ HL) as (_ & _ & _ & _ & ?). done.
  - intros HR. rewrite HR in *. specialize (I8 eq_refl).
    assert (HO : forall l, (l < ls_made s)%nat -> l ∉ ls_shut s -> in_hand (ls_serve s) l) by (intros l HM HN; destruct (I7 l HM) as [?|[?|?]]; set_solver).
    split; [by apply I2|]. split; [done|]. split; [|split; [|split]].
    + destruct (I9 eq_refl) as [->|(l & p & -> & _)]; [by rewrite map_size_empty; lia|by rewrite map_size_singleton].
    + intros l p HL. destruct (I4 l p HL) as (_ & _ & _ & HP). destruct p; set_solver.
    + intros l HM HN. specialize (HO l HM HN). split; [done|]. split.
      * destruct (ls_handlers s !! l) as [p|] eqn:HL; [|done]. destruct (I4 l p HL) as (_ & HH & _). done.
      * unfold track. destruct (ls_closed s); [done|]. discriminate (proj1 I1 eq_refl).
    + intros ok ES l HM. destruct (decide (l ∈ ls_shut s)) as [|HN]; [done|]. destruct (HO l HM HN) as [HX|HX]; congruence.
Qed.

(** ** Runs *)

(** A connection is served and the listener shut down. *)
Lemma listener_shutdown_witness : exists s, ls_closer s = CloseReturned /\ ls_serve s = ServeReturned true /\ forall l, (l < ls_made s)%nat -> l ∈ ls_shut s.
Proof.
  assert (HR : exists s, listener_reachable s /\ ls_closer s = CloseReturned /\ ls_serve s = ServeReturned true).
  { eexists. split.
    - eapply rtc_l; [by apply step_accept|]. eapply rtc_l; [by eapply step_track|]. eapply rtc_l; [by eapply step_spawn|].
      eapply rtc_l; [by apply step_swap|]. eapply rtc_l; [by apply step_close_ln|]. eapply rtc_l; [by apply step_sweep|].
      eapply rtc_l; [by apply step_accept_err|]. eapply rtc_l; [by apply (step_return _ 0)|]. eapply rtc_l; [by apply (step_untrack _ 0)|].
      eapply rtc_l; [by apply (step_done _ 0)|]. eapply rtc_l; [by apply step_wait|]. apply rtc_refl.
    - split; reflexivity. }
  destruct HR as (s & HR & HC & HS). exists s. split; [exact HC|]. split; [exact HS|].
  destruct (proj2 (listener_shutdown s HR) HC) as (_ & _ & _ & _ & _ & HA). exact (HA true HS).
Defined.

(** [Close] can return before a handler starts: the link was tracked, and the
    group not yet added to, when [Close] found no one to wait for. *)
Lemma close_returns_early : exists s, listener_reachable s /\ ls_closer s = CloseReturned /\ ls_handlers s !! 0%nat = Some Running.
Proof.
  eexists. split.
  - eapply rtc_l; [by apply step_accept|]. eapply rtc_l; [by eapply step_track|]. eapply rtc_l; [by apply step_swap|].
    eapply rtc_l; [by apply step_close_ln|]. eapply rtc_l; [by apply step_sweep|]. eapply rtc_l; [by apply step_wait|].
    eapply rtc_l; [by eapply step_spawn|]. apply rtc_refl.
  - split; reflexivity.
Qed.
