(* ===== verification/Ops.v ===== *)
(** * Operations: health, metrics, membership and the admin endpoint ([ops])

    The registry of readiness checks (health.go), the metrics registry with its
    text exposition (metrics.go), the static membership list (cluster.go) and
    the routes of the admin endpoint with their protection (api.go).  A request
    is the credentials it carries; the value of an attribute is its text;
    [strconv.FormatFloat] is a parameter. *)

From Stdlib Require Import SpecFloat.
From stdpp Require Import sorting.
From S2P Require Import Prelude Errors Strconv Path Framer Validate GoStrings Describe Rbac.

(** ** Health *)

(** A check answers with an error text or with none. *)
Definition CheckFunc : Type := unit -> option bytes.
Record CheckResult := mkCheckResult { cr_OK : bool; cr_Error : bytes }.
Inductive Status := StatusHealthy | StatusUnhealthy.
Record Report := mkReport { rp_Status : Status; rp_Checks : gmap bytes CheckResult }.
Record Health := mkHealth { he_checks : gmap bytes CheckFunc }.

Definition NewHealth : Health := mkHealth ∅.
Definition health_Register (h : Health) (name : bytes) (fn : CheckFunc) : Health := mkHealth (<[name := fn]> (he_checks h)).
Definition health_Deregister (h : Health) (name : bytes) : Health := mkHealth (delete name (he_checks h)).

(** The loop of [Check], in the order of the iteration over the map. *)
Fixpoint check_loop (checks : list (bytes * CheckFunc)) (r : Report) : Report :=
  match checks with
  | [] => r
  | (name, fn) :: checks =>
      match fn tt with
      | Some err => check_loop checks (mkReport StatusUnhealthy (<[name := mkCheckResult false err]> (rp_Checks r)))
      | None => check_loop checks (mkReport (rp_Status r) (<[name := mkCheckResult true []]> (rp_Checks r)))
      end
  end.

Definition health_Check (order : gmap bytes CheckFunc -> list (bytes * CheckFunc)) (h : Health) : Report :=
  check_loop (order (he_checks h)) (mkReport StatusHealthy ∅).

Definition health_Names (h : Health) : list bytes := merge_sort bytes_le (elements (dom (he_checks h))).

Definition result_of (fn : CheckFunc) : CheckResult := match fn tt with Some err => mkCheckResult false err | None => mkCheckResult true [] end.

Lemma check_loop_results l r : NoDup (l.*1) ->
  (forall name, rp_Checks (check_loop l r) !! name = match (list_to_map l : gmap bytes CheckFunc) !! name with Some fn => Some (result_of fn) | None => rp_Checks r !! name end) /\
  (rp_Status (check_loop l r) = StatusHealthy <-> rp_Status r = StatusHealthy /\ Forall (fun c => cr_OK (result_of c.2) = true) l).
Proof.
  revert r. induction l as [|[name fn] l IH]; intros r HN; cbn [fmap list_fmap check_loop list_to_map foldr].
  { split; [|by split; [split|intros [? _]]]. intros k. by rewrite lookup_empty. }
  cbn [fst] in HN. apply list.NoDup_cons in HN as [Hnot HN].
  assert (HL : (list_to_map l : gmap bytes CheckFunc) !! name = None) by (by apply not_elem_of_list_to_map_1).
  rewrite list.Forall_cons. unfold result_of at 2. cbn [snd]. destruct (fn tt) as [err|] eqn:EF;
    (edestruct IH as [I1 I2]; [exact HN|]); rewrite I2; cbn [rp_Status rp_Checks cr_OK]; (split; [|naive_solver]); intros k; rewrite I1;
    cbn [rp_Checks]; (destruct (decide (k = name)) as [->|Hne]; [rewrite HL, !lookup_insert_eq; unfold result_of; by rewrite EF|by rewrite !lookup_insert_ne]).
Qed.

(** A report says of every check what it answered, and is healthy exactly when
    all passed, in whatever order they ran. *)
Lemma health_Check_exact order h : (forall m, order m ≡ₚ map_to_list m) ->
  rp_Checks (health_Check order h) = result_of <$> he_checks h /\
  (rp_Status (health_Check order h) = StatusHealthy <-> forall name fn, he_checks h !! name = Some fn -> fn tt = None).
Proof.
  intros HO. unfold health_Check. destruct (check_loop_results (order (he_checks h)) (mkReport StatusHealthy ∅)) as [H1 H2].
  { rewrite HO. apply NoDup_fst_map_to_list. }
  assert (HM : (list_to_map (order (he_checks h)) : gmap bytes CheckFunc) = he_checks h).
  { rewrite (list_to_map_proper _ (map_to_list (he_checks h))); [apply list_to_map_to_list| |by apply HO]. rewrite HO. apply NoDup_fst_map_to_list. }
  split.
  - apply map_eq. intros k. rewrite H1, HM, lookup_fmap. cbn [rp_Checks]. rewrite lookup_empty. by destruct (he_checks h !! k).
  - rewrite H2. cbn [rp_Status]. rewrite HO, list.Forall_forall. split.
    + intros [_ HF] name fn HL. specialize (HF (name, fn) (proj2 (elem_of_map_to_list _ _ _) HL)). unfold result_of in HF. cbn in HF. by destruct (fn tt).
    + intros HA. split; [done|]. intros [name fn] HL%elem_of_map_to_list. unfold result_of. cbn. by rewrite (HA name fn HL).
Qed.

(** ** Membership *)

Record Member := mkMember { mb_ID : bytes; mb_Addr : bytes; mb_Self : bool }.
Record StaticCluster := mkCluster { cl_self : Member; cl_members : list Member }.
Definition id_le (a b : Member) : Prop := bytes_le (mb_ID a) (mb_ID b).
#[export] Instance id_le_dec a b : Decision (id_le a b) := bytes_le_dec _ _.

Definition set_self (m : Member) (b : bool) : Member := mkMember (mb_ID m) (mb_Addr m) b.

Definition NewStaticCluster (self : Member) (peers : list Member) : StaticCluster :=
  let self := set_self self true in
  mkCluster self (merge_sort id_le (self :: ((fun p => set_self p false) <$> peers))).
Definition Members (c : StaticCluster) : list Member := cl_members c.

Lemma Members_exact self peers : Members (NewStaticCluster self peers) ≡ₚ set_self self true :: ((fun p => set_self p false) <$> peers) /\
  Sorted id_le (Members (NewStaticCluster self peers)).
Proof.
  split; [apply merge_sort_Permutation|]. apply Sorted_merge_sort. intros a b. unfold id_le. apply bytes_le_total.
Qed.

(** ** Metrics *)

(** An attribute: its key and the text of its value ([fmt.Sprint]). *)
Record Attr := mkAttr { at_Key : bytes; at_Value : bytes }.
#[export] Instance Attr_EqDecision : EqDecision Attr.
Proof. solve_decision. Defined.

Inductive metricKind := kindCounter | kindGauge | kindSummary.
#[export] Instance metricKind_EqDecision : EqDecision metricKind.
Proof. solve_decision. Defined.

Definition metricKind_String (k : metricKind) : bytes := match k with kindGauge => go "gauge" | kindSummary => go "summary" | kindCounter => go "counter" end.

Record series := mkSeries { se_name : bytes; se_kind : metricKind; se_labels : list Attr; se_value : spec_float; se_count : Z; se_sum : spec_float }.
Record Metrics := mkMetrics { me_series : gmap bytes series; me_kinds : gmap bytes metricKind }.

Definition NewMetrics : Metrics := mkMetrics ∅ ∅.

Definition float_add : spec_float -> spec_float -> spec_float := SFadd 53 1024.
Definition float_of_int (n : Z) : spec_float := binary_normalize 53 1024 n 0 false.

(** [sort.Slice] by key.  Attributes with different keys have one sorted order;
    those of equal keys stay in their order here, as they do in the code for up to
    twelve attributes, which [sort.Slice] sorts by insertion; beyond that it is not
    stable. *)
Definition key_le (a b : Attr) : Prop := bytes_le (at_Key a) (at_Key b).
#[export] Instance key_le_dec a b : Decision (key_le a b) := bytes_le_dec _ _.
Definition sortedAttrs (attrs : list Attr) : list Attr := merge_sort key_le attrs.

Definition attr_key (a : Attr) : bytes := x00 :: at_Key a ++ x01 :: at_Value a.
Definition seriesKey (name : bytes) (sorted : list Attr) : bytes := name ++ concat (attr_key <$> sorted).

(** Registering under another kind panics. *)
Definition update (m : Metrics) (kind : metricKind) (name : bytes) (attrs : list Attr) (fn : series -> series) : res unit Metrics :=
  let sorted := sortedAttrs attrs in
  let key := seriesKey name sorted in
  let s := default (mkSeries name kind sorted (S754_zero false) 0 (S754_zero false)) (me_series m !! key) in
  match me_kinds m !! name with
  | Some existing => if bool_decide (existing = kind) then Ok (mkMetrics (<[key := fn s]> (me_series m)) (me_kinds m)) else Panic
  | None => Ok (mkMetrics (<[key := fn s]> (me_series m)) (<[name := kind]> (me_kinds m)))
  end.

Definition set_value (s : series) (v : spec_float) : series := mkSeries (se_name s) (se_kind s) (se_labels s) v (se_count s) (se_sum s).
Definition observe (s : series) (v : spec_float) : series :=
  mkSeries (se_name s) (se_kind s) (se_labels s) (se_value s) (wrapu64 (se_count s + 1)) (float_add (se_sum s) v).

(** The calls of the instruments; a span observes its duration in seconds. *)
Inductive measurement :=
| CounterAdd (n : Z)
| HistogramObserve (v : spec_float)
| GaugeSet (v : spec_float)
| GaugeAdd (v : spec_float)
| SpanEnd (seconds : spec_float).

Record metric_op := mkOp { mo_name : bytes; mo_attrs : list Attr; mo_what : measurement }.

Definition op_name (o : metric_op) : bytes := match mo_what o with SpanEnd _ => mo_name o ++ go "_duration_seconds" | _ => mo_name o end.
Definition op_kind (o : metric_op) : metricKind :=
  match mo_what o with CounterAdd _ => kindCounter | HistogramObserve _ | SpanEnd _ => kindSummary | GaugeSet _ | GaugeAdd _ => kindGauge end.
Definition op_apply (o : metric_op) (s : series) : series :=
  match mo_what o with
  | CounterAdd n => set_value s (float_add (se_value s) (float_of_int n))
  | HistogramObserve v | SpanEnd v => observe s v
  | GaugeSet v => set_value s v
  | GaugeAdd v => set_value s (float_add (se_value s) v)
  end.

Definition record_op (m : Metrics) (o : metric_op) : res unit Metrics := update m (op_kind o) (op_name o) (mo_attrs o) (op_apply o).

Fixpoint record_all (m : Metrics) (ops : list metric_op) : res unit Metrics :=
  match ops with
  | [] => Ok m
  | o :: ops => let! m := record_op m o in record_all m ops
  end.

(** *** Exposition *)

Inductive line := TypeLine (name : bytes) (kind : metricKind) | SampleLine (s : series).

Fixpoint expose (lastName : bytes) (all : list series) : list line :=
  match all with
  | [] => []
  | s :: all =>
      if bool_decide (se_name s = lastName) then SampleLine s :: expose lastName all
      else TypeLine (se_name s) (se_kind s) :: SampleLine s :: expose (se_name s) all
  end.

Section Text.
Context (isPrint : Z -> bool) (formatFloat : spec_float -> bytes).

Fixpoint join_comma (parts : list bytes) : bytes :=
  match parts with [] => [] | [p] => p | p :: parts => p ++ go "," ++ join_comma parts end.

Definition renderLabels (sorted : list Attr) : bytes :=
  match sorted with
  | [] => []
  | _ => go "{" ++ join_comma ((fun a => at_Key a ++ go "=" ++ Quote isPrint (at_Value a)) <$> sorted) ++ go "}"
  end.

(** By name, then by labels. *)
Definition series_le (a b : series) : Prop :=
  if bool_decide (se_name a = se_name b) then bytes_le (renderLabels (se_labels a)) (renderLabels (se_labels b)) else bytes_le (se_name a) (se_name b).
#[export] Instance series_le_dec a b : Decision (series_le a b).
Proof. unfold series_le. destruct (bool_decide _); apply _. Defined.

Definition line_text (l : line) : bytes :=
  match l with
  | TypeLine name kind => go "# TYPE " ++ name ++ go " " ++ metricKind_String kind ++ [x0a]
  | SampleLine s =>
      let lbl := renderLabels (se_labels s) in
      match se_kind s with
      | kindSummary =>
          se_name s ++ go "_count" ++ lbl ++ go " " ++ FormatUint (se_count s) ++ [x0a] ++
          se_name s ++ go "_sum" ++ lbl ++ go " " ++ formatFloat (se_sum s) ++ [x0a]
      | _ => se_name s ++ lbl ++ go " " ++ formatFloat (se_value s) ++ [x0a]
      end
  end.

Definition exposition (m : Metrics) : list line := expose [] (merge_sort series_le (snd <$> map_to_list (me_series m))).
Definition WriteText (m : Metrics) : bytes := concat (line_text <$> exposition m).
End Text.

(** *** Keys *)

(** Texts without the two separators, where they would be misread. *)
Definition clean_attr (a : Attr) : Prop := (x00 ∉ at_Key a) /\ (x01 ∉ at_Key a) /\ (x00 ∉ at_Value a).
Definition clean (name : bytes) (ls : list Attr) : Prop := (x00 ∉ name) /\ Forall clean_attr ls.

(** What follows a text without zeros is empty or begins with one. *)
Lemma split_zero a b (ls ls' : list Attr) : x00 ∉ a -> x00 ∉ b -> a ++ concat (attr_key <$> ls) = b ++ concat (attr_key <$> ls') ->
  a = b /\ concat (attr_key <$> ls) = concat (attr_key <$> ls').
Proof.
  intros Ha Hb. destruct ls as [|l ls], ls' as [|l' ls']; cbn [fmap list_fmap concat]; rewrite ?app_nil_r.
  - by intros ->.
  - unfold attr_key at 1. cbn. intros ->. set_solver.
  - unfold attr_key at 1. cbn. intros <-. set_solver.
  - unfold attr_key at 1 3. cbn [app]. intros HE. destruct (split_first x00 a b _ _ Ha Hb HE) as [-> HR]. split; [done|].
    unfold attr_key at 1 3. cbn [app]. by f_equal.
Qed.

Lemma attrs_inj ls ls' : Forall clean_attr ls -> Forall clean_attr ls' -> concat (attr_key <$> ls) = concat (attr_key <$> ls') -> ls = ls'.
Proof.
  intros HF. revert ls'. induction HF as [|[k v] ls (K0 & K1 & V0) _ IH]; intros ls' HF' HE; destruct HF' as [|[k' v'] ls' (K0' & K1' & V0') HF']; try done.
  cbn [fmap list_fmap concat] in HE. unfold attr_key at 1 3 in HE. cbn [app at_Key at_Value] in *. injection HE as HE.
  rewrite <- !app_assoc in HE. cbn [app] in HE. destruct (split_first x01 k k' _ _ K1 K1' HE) as [-> HE2].
  destruct (split_zero v v' ls ls' V0 V0' HE2) as [-> HE3]. f_equal. by apply IH.
Qed.

Lemma seriesKey_inj name ls name' ls' : clean name ls -> clean name' ls' -> seriesKey name ls = seriesKey name' ls' -> name = name' /\ ls = ls'.
Proof.
  intros [N1 L1] [N2 L2] HE. unfold seriesKey in HE. destruct (split_zero name name' ls ls' N1 N2 HE) as [-> HE2]. split; [done|]. by apply attrs_inj.
Qed.

(** Beyond them two label sets can share a series. *)
Lemma seriesKey_collides : seriesKey (go "tx") [mkAttr (go "a") (go "x" ++ [x00] ++ go "b" ++ [x01] ++ go "y")] =
  seriesKey (go "tx") [mkAttr (go "a") (go "x"); mkAttr (go "b") (go "y")].
Proof. reflexivity. Qed.

(** *** What a history leaves *)

Definition op_labels (o : metric_op) : list Attr := sortedAttrs (mo_attrs o).
Definition kind_of (hist : list metric_op) (name : bytes) : option metricKind := head (op_kind <$> filter (fun o => op_name o = name) hist).

Definition new_series (name : bytes) (kind : metricKind) (ls : list Attr) : series := mkSeries name kind ls (S754_zero false) 0 (S754_zero false).

(** The measurements of a name under a label set, applied in order. *)
Definition series_of (hist : list metric_op) (name : bytes) (ls : list Attr) : option series :=
  match filter (fun o => op_name o = name /\ op_labels o = ls) hist with
  | [] => None
  | o :: mine => Some (fold_left (fun s o => op_apply o s) (o :: mine) (new_series name (op_kind o) ls))
  end.

Definition one_kind (hist : list metric_op) : Prop := forall o o', o ∈ hist -> o' ∈ hist -> op_name o = op_name o' -> op_kind o = op_kind o'.
Definition clean_op (o : metric_op) : Prop := clean (op_name o) (op_labels o).

Lemma record_all_snoc m hist o : record_all m (hist ++ [o]) = let! m := record_all m hist in record_op m o.
Proof.
  revert m. induction hist as [|o' hist IH]; intros m; cbn.
  - by destruct (record_op m o).
  - destruct (record_op m o') as [m'| |]; cbn; [apply IH|done|done].
Qed.

Lemma kind_of_snoc hist o name : kind_of (hist ++ [o]) name =
  match kind_of hist name with Some k => Some k | None => if bool_decide (op_name o = name) then Some (op_kind o) else None end.
Proof.
  unfold kind_of. rewrite list.filter_app, fmap_app. destruct (filter (fun o0 => op_name o0 = name) hist) as [|x l]; [|done].
  cbn [fmap list_fmap app]. rewrite list.filter_cons, list.filter_nil. case_bool_decide; case_decide; done.
Qed.

Lemma series_of_snoc hist o name ls : series_of (hist ++ [o]) name ls =
  if bool_decide (op_name o = name /\ op_labels o = ls) then Some (op_apply o (default (new_series name (op_kind o) ls) (series_of hist name ls)))
  else series_of hist name ls.
Proof.
  unfold series_of. rewrite list.filter_app, list.filter_cons, list.filter_nil. case_bool_decide as HC; case_decide; try done.
  - destruct (filter _ hist) as [|x l]; [done|]. cbn [app]. by rewrite app_comm_cons, fold_left_app.
  - by rewrite app_nil_r.
Qed.

Lemma record_all_kinds hist m : record_all NewMetrics hist = Ok m -> forall name, me_kinds m !! name = kind_of hist name.
Proof.
  revert m. induction hist as [|o hist IH] using rev_ind; [by intros m [= <-]|]. intros m. rewrite record_all_snoc.
  destruct (record_all NewMetrics hist) as [m0| |] eqn:E0; [|done|done]. specialize (IH m0 eq_refl). cbn [rbind]. unfold record_op, update.
  rewrite IH. intros HU name. rewrite kind_of_snoc. destruct (kind_of hist (op_name o)) as [k|] eqn:EK.
  - case_bool_decide; [|done]. injection HU as <-. cbn [me_kinds]. rewrite IH. destruct (kind_of hist name) eqn:EN; [done|]. rewrite bool_decide_false; [done|]. congruence.
  - injection HU as <-. cbn [me_kinds]. destruct (decide (name = op_name o)) as [->|Hne].
    + rewrite lookup_insert_eq, EK. by rewrite bool_decide_true.
    + rewrite lookup_insert_ne, IH by done. destruct (kind_of hist name); [done|]. by rewrite bool_decide_false.
Qed.

Lemma kind_of_some hist name k : kind_of hist name = Some k -> exists o, o ∈ hist /\ op_name o = name /\ op_kind o = k.
Proof.
  unfold kind_of. destruct (filter (fun o => op_name o = name) hist) as [|o l] eqn:EF; [done|]. intros [= <-]. exists o.
  assert (HI : o ∈ filter (fun o => op_name o = name) hist) by (rewrite EF; constructor). by apply list_elem_of_filter in HI as [? ?].
Qed.

Lemma kind_of_elem hist o : one_kind hist -> o ∈ hist -> kind_of hist (op_name o) = Some (op_kind o).
Proof.
  intros HO Ho. destruct (kind_of hist (op_name o)) as [k|] eqn:EK.
  - apply kind_of_some in EK as (o' & Ho' & HN & <-). f_equal. by apply HO.
  - unfold kind_of in EK. assert (HI : o ∈ filter (fun o' => op_name o' = op_name o) hist) by (by apply list_elem_of_filter).
    by destruct (filter (fun o' => op_name o' = op_name o) hist); [apply elem_of_nil in HI|].
Qed.

(** A history is recorded exactly when no name changes its kind. *)
Lemma record_all_ok hist : (exists m, record_all NewMetrics hist = Ok m) <-> one_kind hist.
Proof.
  induction hist as [|o hist IH] using rev_ind; [split; [intros _ ? ? ?%elem_of_nil; done|by eexists]|]. rewrite record_all_snoc. split.
  - intros [m HM]. destruct (record_all NewMetrics hist) as [m0| |] eqn:E0; [|done|done]. cbn [rbind] in HM. pose proof (record_all_kinds _ _ E0) as HK.
    assert (HO : one_kind hist) by (apply IH; by eexists). unfold record_op, update in HM. rewrite HK in HM.
    assert (HX : forall o', o' ∈ hist -> op_name o' = op_name o -> op_kind o' = op_kind o).
    { intros o' Ho' HN. pose proof (kind_of_elem hist o' HO Ho') as HE. rewrite HN in HE. rewrite HE in HM. by case_bool_decide. }
    intros o1 o2 [H1| ->%list_elem_of_singleton]%elem_of_app [H2| ->%list_elem_of_singleton]%elem_of_app HN; [by apply HO|by apply HX|symmetry; by apply HX|done].
  - intros HO. destruct (proj2 IH) as [m0 HM]; [intros o1 o2 H1 H2; apply HO; apply elem_of_app; by left|]. rewrite HM. cbn [rbind].
    unfold record_op, update. rewrite (record_all_kinds _ _ HM). destruct (kind_of hist (op_name o)) as [k|] eqn:EK; [|by eexists].
    apply kind_of_some in EK as (o' & Ho' & HN & <-). rewrite bool_decide_true; [by eexists|]. apply HO; [set_solver|set_solver|done].
Qed.

Lemma op_apply_same o s : se_name (op_apply o s) = se_name s /\ se_kind (op_apply o s) = se_kind s.
Proof. unfold op_apply. by destruct (mo_what o). Qed.

Lemma ops_apply_same l s : se_name (fold_left (fun s o => op_apply o s) l s) = se_name s /\ se_kind (fold_left (fun s o => op_apply o s) l s) = se_kind s.
Proof.
  revert s. induction l as [|o l IH]; intros s; [done|]. cbn [fold_left]. destruct (IH (op_apply o s)) as [E1 E2].
  rewrite E1, E2. apply op_apply_same.
Qed.

Lemma record_all_series hist m : record_all NewMetrics hist = Ok m -> Forall clean_op hist ->
  (forall name ls, clean name ls -> me_series m !! seriesKey name ls = series_of hist name ls) /\
  (forall key s, me_series m !! key = Some s -> exists o, o ∈ hist /\ se_name s = op_name o /\ se_kind s = op_kind o).
Proof.
  revert m. induction hist as [|o hist IH] using rev_ind; [intros m [= <-] _; split; [done|intros key s HL; cbn [NewMetrics me_series] in HL; by rewrite lookup_empty in HL]|].
  intros m. rewrite record_all_snoc, list.Forall_app, list.Forall_singleton.
  destruct (record_all NewMetrics hist) as [m0| |] eqn:E0; [|done|done]. cbn [rbind]. intros HU [HF HC]. destruct (IH m0 eq_refl HF) as [IS IN].
  set (key := seriesKey (op_name o) (op_labels o)).
  assert (HS : me_series m = <[key := op_apply o (default (new_series (op_name o) (op_kind o) (op_labels o)) (series_of hist (op_name o) (op_labels o)))]> (me_series m0)).
  { pose proof (IS _ _ HC) as HKey. fold key in HKey. unfold record_op, update in HU. change (sortedAttrs (mo_attrs o)) with (op_labels o) in HU.
    fold key in HU. rewrite HKey in HU.
    destruct (me_kinds m0 !! op_name o); [case_bool_decide; [|done]|]; by injection HU as <-. }
  split.
  - intros name ls HCl. rewrite HS, series_of_snoc. case_bool_decide as HE.
    + destruct HE as [<- <-]. unfold key. by rewrite lookup_insert_eq.
    + rewrite lookup_insert_ne; [by apply IS|]. intros HK. apply HE. by apply seriesKey_inj.
  - intros k s. rewrite HS, lookup_insert_Some. intros [[<- <-]|[_ HL]].
    + exists o. split; [set_solver|]. rewrite (proj1 (op_apply_same o _)), (proj2 (op_apply_same o _)). rewrite <- (IS _ _ HC). destruct (me_series m0 !! seriesKey (op_name o) (op_labels o)) as [s|] eqn:EL; [|done].
      rewrite (IS _ _ HC) in EL. unfold series_of in EL. destruct (filter _ hist) as [|x l] eqn:EF; [done|]. injection EL as <-.
      assert (Hx : x ∈ filter (fun o0 => op_name o0 = op_name o /\ op_labels o0 = op_labels o) hist) by (rewrite EF; constructor).
      apply list_elem_of_filter in Hx as [[HN _] Hx].
      cbn [default from_option id]. rewrite (proj1 (ops_apply_same _ _)), (proj2 (ops_apply_same _ _)).
      rewrite (proj1 (op_apply_same _ _)), (proj2 (op_apply_same _ _)). split; [done|].
      assert (HO : one_kind (hist ++ [o])) by (apply record_all_ok; exists m; by rewrite record_all_snoc, E0). change (op_kind x = op_kind o). apply HO; [set_solver|set_solver|done].
    + destruct (IN _ _ HL) as (o' & ? & ?). exists o'. split; [set_solver|done].
Qed.

(** *** One type line per name *)

Definition type_names (ls : list line) : list bytes := omap (fun l => match l with TypeLine n _ => Some n | _ => None end) ls.

Lemma expose_types (all : list series) last : StronglySorted (fun a b => bytes_le (se_name a) (se_name b)) all ->
  Forall (fun s => bytes_le last (se_name s)) all ->
  NoDup (type_names (expose last all)) /\ forall n, n ∈ type_names (expose last all) <-> n <> last /\ exists s, s ∈ all /\ se_name s = n.
Proof.
  intros HS. revert last. induction HS as [|s all HS IH HA]; intros last HL; cbn [expose].
  { split; [apply NoDup_nil_2|]. intros n. split; [by intros ?%elem_of_nil|by intros (_ & s & ?%elem_of_nil & _)]. }
  apply list.Forall_cons in HL as [H1 HL]. case_bool_decide as HE.
  - destruct (IH last HL) as [I1 I2]. split; [exact I1|]. intros n. cbn. rewrite I2. split.
    + intros (Hn & s' & Hs' & <-). split; [done|]. exists s'. split; [by constructor|done].
    + intros (Hn & s' & [-> |Hs']%elem_of_cons & <-); [done|]. split; [done|]. by exists s'.
  - destruct (IH (se_name s) HA) as [I1 I2]. cbn [type_names omap list_omap]. split.
    + apply list.NoDup_cons. split; [|exact I1]. by intros [? _]%I2.
    + intros n. rewrite elem_of_cons, I2. split.
      * intros [->|(Hn & s' & Hs' & <-)]; [split; [done|]; exists s; split; [constructor|done]|]. split; [|exists s'; split; [by constructor|done]].
        intros HX. apply HE. apply (anti_symm bytes_le); [|done]. rewrite <- HX. rewrite list.Forall_forall in HA. by apply HA.
      * intros (Hn & s' & [-> |Hs']%elem_of_cons & <-); [by left|]. destruct (decide (se_name s' = se_name s)) as [HX|HX]; [by left|right]. split; [done|]. by exists s'.
Qed.

Lemma series_le_total isPrint : Total (series_le isPrint).
Proof.
  intros a b. unfold series_le. case_bool_decide as H1; case_bool_decide as H2; try congruence; apply bytes_le_total.
Qed.

Lemma series_le_trans isPrint : Transitive (series_le isPrint).
Proof.
  intros a b c. unfold series_le. destruct (decide (se_name a = se_name b)) as [H1|H1].
  - rewrite (bool_decide_true _ H1), H1. case_bool_decide; [apply transitivity|by intros _].
  - rewrite (bool_decide_false _ H1). destruct (decide (se_name b = se_name c)) as [H2|H2].
    + rewrite (bool_decide_true _ H2). rewrite <- H2. rewrite (bool_decide_false _ H1). by intros X _.
    + rewrite (bool_decide_false _ H2). intros X Y. case_bool_decide as H3; [|by apply (transitivity X)].
      exfalso. apply H1, (anti_symm bytes_le); [done|]. by rewrite H3.
Qed.

Lemma bytes_le_refl a : bytes_le a a.
Proof. unfold bytes_le. induction a as [|c a IH]; [done|]. cbn. by rewrite IH, Z.eqb_refl, orb_true_r. Qed.

Lemma sorted_names isPrint l : StronglySorted (fun a b => bytes_le (se_name a) (se_name b)) (merge_sort (series_le isPrint) l).
Proof.
  pose proof (series_le_trans isPrint). pose proof (series_le_total isPrint).
  assert (HS : StronglySorted (series_le isPrint) (merge_sort (series_le isPrint) l)) by (apply StronglySorted_merge_sort; apply _).
  induction HS as [|s l' HS IH HF]; [constructor|]. constructor; [done|]. eapply list.Forall_impl; [exact HF|]. intros s'. unfold series_le.
  case_bool_decide as HE; [|done]. intros _. rewrite HE. apply bytes_le_refl.
Qed.

(** C8: The metrics registry records every measurement once, where it belongs,
    and its exposition is well formed.  A history of instrument calls is
    recorded exactly when no name is used with two kinds (else the call panics);
    the series under a name and a label set is the measurements of that name
    and those labels, in order, and is absent when there is none, provided that
    names and labels do not hold the separator bytes; and when no name is empty,
    the exposition has exactly one type line for every name that has a series. *)
Theorem metrics_exact isPrint hist :
  ((exists m, record_all NewMetrics hist = Ok m) <-> one_kind hist) /\
  forall m, record_all NewMetrics hist = Ok m -> Forall clean_op hist ->
    (forall name ls, clean name ls -> me_series m !! seriesKey name ls = series_of hist name ls) /\
    (Forall (fun o => op_name o <> []) hist ->
       NoDup (type_names (exposition isPrint m)) /\
       forall n, n ∈ type_names (exposition isPrint m) <-> exists o, o ∈ hist /\ op_name o = n).
Proof.
  split; [apply record_all_ok|]. intros m HM HC. destruct (record_all_series hist m HM HC) as [HS HN]. split; [exact HS|]. intros HE.
  destruct (expose_types (merge_sort (series_le isPrint) (snd <$> map_to_list (me_series m))) []) as [H1 H2]; [apply sorted_names|by apply list.Forall_forall|].
  split; [exact H1|]. intros n. unfold exposition. rewrite H2. rewrite list.Forall_forall in HE, HC.
  assert (HEl : forall s, s ∈ merge_sort (series_le isPrint) (snd <$> map_to_list (me_series m)) <-> exists k, me_series m !! k = Some s).
  { intros s. rewrite merge_sort_Permutation, list_elem_of_fmap. split.
    - intros ([k s'] & -> & HL%elem_of_map_to_list). by exists k.
    - intros [k HL]. exists (k, s). split; [done|]. by apply elem_of_map_to_list. }
  split.
  - intros (_ & s & [k HL]%HEl & <-). destruct (HN _ _ HL) as (o & Ho & HNm & _). by exists o.
  - intros (o & Ho & <-). split; [by apply HE|].
    destruct (series_of hist (op_name o) (op_labels o)) as [s|] eqn:ES.
    + exists s. split; [apply HEl; eexists; rewrite HS; [exact ES|by apply HC]|].
      unfold series_of in ES. destruct (filter _ hist) as [|x l]; [done|]. injection ES as <-. by rewrite (proj1 (ops_apply_same _ _)), (proj1 (op_apply_same _ _)).
    + exfalso. unfold series_of in ES. assert (HI : o ∈ filter (fun o0 => op_name o0 = op_name o /\ op_labels o0 = op_labels o) hist) by (by apply list_elem_of_filter).
      by destruct (filter _ hist); [apply elem_of_nil in HI|].
Qed.

Definition sample_ops_hist : list metric_op :=
  [mkOp (go "tx") [mkAttr (go "mti") (go "0200")] (CounterAdd 1); mkOp (go "tx") [mkAttr (go "mti") (go "0800")] (CounterAdd 1);
   mkOp (go "auth") [] (SpanEnd (S754_zero false)); mkOp (go "tx") [mkAttr (go "mti") (go "0200")] (CounterAdd 2)].

Lemma metrics_exact_witness : exists m, record_all NewMetrics sample_ops_hist = Ok m /\
  se_value <$> me_series m !! seriesKey (go "tx") [mkAttr (go "mti") (go "0200")] = Some (float_of_int 3).
Proof.
  destruct (metrics_exact (fun _ => false) sample_ops_hist) as [HO HM].
  assert (HK : forallb (fun o => forallb (fun o' => implb (bool_decide (op_name o = op_name o')) (bool_decide (op_kind o = op_kind o'))) sample_ops_hist) sample_ops_hist = true)
    by (vm_compute; reflexivity).
  destruct (proj2 HO) as [m HR].
  { intros o o' Ho Ho' HN. rewrite forallb_forall in HK. specialize (HK o (proj1 (list_elem_of_In _ _) Ho)). rewrite forallb_forall in HK.
    specialize (HK o' (proj1 (list_elem_of_In _ _) Ho')). rewrite (bool_decide_true _ HN) in HK. by apply bool_decide_eq_true in HK. }
  exists m. split; [exact HR|].
  assert (HC : Forall clean_op sample_ops_hist).
  { apply (bool_decide_unpack _). unfold clean_op, clean, clean_attr. vm_compute. exact I. }
  rewrite (proj1 (HM m HR HC)).
  - vm_compute. reflexivity.
  - apply (bool_decide_unpack _). unfold clean, clean_attr. vm_compute. exact I.
Defined.

(** ** The admin endpoint *)

Inductive response :=
| Served (code : Z) (body : bytes)
| Denied (code : Z).

(** What a value of the map of [handleInfo] holds. *)
Inductive info_value := InfoText (v : bytes) | InfoComponents (names : list bytes) | InfoMembers (ms : list Member).

Section Api.
Context `{KDF}.

(** The introspector and the cluster are what they answer. *)
Record API := mkAPI {
  api_health : option Health;
  api_metrics : option Metrics;
  api_policy : option Policy;
  api_introspector : option (list bytes);
  api_cluster : option (list Member);
  api_info : gmap bytes bytes;
}.

Inductive APIOption :=
| WithHealth (h : Health)
| WithMetrics (m : Metrics)
| WithAuth (p : Policy)
| WithIntrospector (components : list bytes)
| WithCluster (members : list Member)
| WithInfo (info : gmap bytes bytes).

Definition api_option (a : API) (o : APIOption) : API :=
  match o with
  | WithHealth h => mkAPI (Some h) (api_metrics a) (api_policy a) (api_introspector a) (api_cluster a) (api_info a)
  | WithMetrics m => mkAPI (api_health a) (Some m) (api_policy a) (api_introspector a) (api_cluster a) (api_info a)
  | WithAuth p => mkAPI (api_health a) (api_metrics a) (Some p) (api_introspector a) (api_cluster a) (api_info a)
  | WithIntrospector i => mkAPI (api_health a) (api_metrics a) (api_policy a) (Some i) (api_cluster a) (api_info a)
  | WithCluster c => mkAPI (api_health a) (api_metrics a) (api_policy a) (api_introspector a) (Some c) (api_info a)
  | WithInfo info => mkAPI (api_health a) (api_metrics a) (api_policy a) (api_introspector a) (api_cluster a) info
  end.

Definition NewAPI (opts : list APIOption) : API := fold_left api_option opts (mkAPI None None None None None ∅).

(** [credentials] is what [r.BasicAuth] finds; [next] the handler it protects. *)
Definition protect (policy : option Policy) (perm : bytes) (credentials : option (bytes * bytes)) (next : response) : response :=
  match policy with
  | None => next
  | Some p =>
      match credentials with
      | None => Denied 401
      | Some (user, pass) =>
          if negb (fst (Authenticate p user pass)) then Denied 401
          else if negb (Can p user perm) then Denied 403
          else next
      end
  end.

(** [json] and [json_info] are the encoder of [writeJSON]. *)
Section Routes.
Context (order : gmap bytes CheckFunc -> list (bytes * CheckFunc)) (json : Report -> bytes) (json_info : gmap bytes info_value -> bytes)
  (isPrint : Z -> bool) (formatFloat : spec_float -> bytes).

Definition handleLiveness : response := Served 200 (go "ok" ++ [x0a]).

Definition handleReadiness (a : API) : response :=
  let report := match api_health a with Some h => health_Check order h | None => mkReport StatusHealthy ∅ end in
  let code := match rp_Status report with StatusHealthy => 200 | StatusUnhealthy => 503 end in
  Served code (json report).

Definition handleMetrics (a : API) : response :=
  Served 200 (match api_metrics a with Some m => WriteText isPrint formatFloat m | None => [] end).

Definition info_of (a : API) : gmap bytes info_value :=
  let out := InfoText <$> api_info a in
  let out := match api_introspector a with Some names => <[go "components" := InfoComponents names]> out | None => out end in
  match api_cluster a with Some ms => <[go "cluster" := InfoMembers ms]> out | None => out end.
Definition handleInfo (a : API) : response := Served 200 (json_info (info_of a)).

Inductive route := Healthz | Readyz | MetricsRoute | Info.

Definition Handler (a : API) (r : route) (credentials : option (bytes * bytes)) : response :=
  match r with
  | Healthz => handleLiveness
  | Readyz => handleReadiness a
  | MetricsRoute => handleMetrics a
  | Info => protect (api_policy a) (go "admin:read") credentials (handleInfo a)
  end.

(** When there is a policy, the information is served to no one but a user with
    the right password who holds the permission; an unknown user and a wrong
    password are answered alike. *)
Lemma info_protected a p credentials : api_policy a = Some p ->
  (Handler a Info credentials = handleInfo a <->
     exists user pass, credentials = Some (user, pass) /\ fst (Authenticate p user pass) = true /\ Can p user (go "admin:read") = true) /\
  (forall user pass user' pass', fst (Authenticate p user pass) = false -> fst (Authenticate p user' pass') = false ->
     Handler a Info (Some (user, pass)) = Handler a Info (Some (user', pass'))).
Proof.
  intros HP. unfold Handler, protect, handleInfo. rewrite HP. split.
  - destruct credentials as [[user pass]|]; [|split; [discriminate|by intros (? & ? & ? & _)]].
    destruct (fst (Authenticate p user pass)) eqn:EA; cbn [negb]; [|split; [done|intros (? & ? & [= -> ->] & ? & _); congruence]].
    destruct (Can p user (go "admin:read")) eqn:EC; cbn [negb]; [|split; [done|intros (? & ? & [= -> ->] & _ & ?); congruence]].
    split; [intros _; by exists user, pass|done].
  - intros user pass user' pass' -> ->. done.
Qed.

(** Readiness is refused exactly when a registered check fails. *)
Lemma readiness_exact a h : (forall m, order m ≡ₚ map_to_list m) -> api_health a = Some h ->
  (exists body, handleReadiness a = Served 200 body) <-> forall name fn, he_checks h !! name = Some fn -> fn tt = None.
Proof.
  intros HO HH. rewrite <- (proj2 (health_Check_exact order h HO)). unfold handleReadiness. rewrite HH.
  destruct (rp_Status (health_Check order h)); split; try done; [by eexists|by intros [? [=]]].
Qed.
End Routes.
End Api.
