(* ===== verification/Teq.v ===== *)
(** * The container ([teq/teq.go], [teq/descriptor.go])

    A container is a component host with a name registrar and a shared space:
    switches, gateways and components are deployed on the host and found by
    name.  Descriptors of a deploy directory are turned into connectors and
    gateways; the sign-on and echo messages they describe are built over the
    message store.  Components are the host's ([Host]). *)

From S2P Require Import Prelude Errors Strconv Bitmap Decimal Path Schema LengthCodec BitmapCodec Value FieldCodec Message BerTlv Engine Layout Wire Access Invariant Store Framer Mux Packager Host Gateway Connector.

(** ** The registrar *)

Section Container.
Context {Comp E W Obj : Type} (cname : Comp -> bytes) (cstart cstop : Comp -> W -> option E * W) (is_connector : Comp -> bool).

#[local] Abbreviation host := (Host (Comp := Comp)).

(** Names are bound to components or to anything else that was put there;
    [q_deployer] is the watcher of the deploy directory, if there is one. *)
Record Q := mkQ {
  q_host : host;
  q_objects : gmap bytes (Comp + Obj);
  q_deployer : option Comp;
  q_deployOnce : bool;
  q_spaceOpen : bool;
}.

Inductive q_error :=
| QNew                        (* the configuration is refused *)
| QDuplicate (name : bytes)
| QHost (e : host_error (E := E)).

Definition q_New (deployer : option Comp) : Q := mkQ host_New ∅ deployer false true.

Definition with_host (q : Q) (h : host) : Q := mkQ h (q_objects q) (q_deployer q) (q_deployOnce q) (q_spaceOpen q).
Definition with_objects (q : Q) (o : gmap bytes (Comp + Obj)) : Q := mkQ (q_host q) o (q_deployer q) (q_deployOnce q) (q_spaceOpen q).

Definition q_Put (q : Q) (name : bytes) (x : Comp + Obj) : Q := with_objects q (<[name := x]> (q_objects q)).
Definition q_Get (q : Q) (name : bytes) : option (Comp + Obj) := q_objects q !! name.
Definition q_remove (q : Q) (name : bytes) : Q := with_objects q (delete name (q_objects q)).

Definition putUnique (q : Q) (name : bytes) (x : Comp + Obj) : option q_error * Q :=
  match q_objects q !! name with Some _ => (Some (QDuplicate name), q) | None => (None, q_Put q name x) end.

Definition q_To (q : Q) (name : bytes) : option Comp :=
  match q_Get q name with Some (inl c) => if is_connector c then Some c else None | _ => None end.

Definition q_Names (q : Q) : gset bytes := dom (q_objects q).
Definition q_Switches (q : Q) : gset bytes := filter (fun n => is_Some (q_To q n)) (q_Names q).

(** [Switch] and [Gateway]: [made] is what [connector.New] or [gateway.New]
    returns, named by its configuration. *)
Definition q_Supervise (q : Q) (made : option Comp) (w : W) : option (option q_error * Q * W) :=
  match made with
  | None => Some (Some QNew, q, w)
  | Some c =>
      match putUnique q (cname c) (inl c) with
      | (Some e, q) => Some (Some e, q, w)
      | (None, q) =>
          '(err, h, w) ← Deploy cname cstart (q_host q) c w;
          let q := with_host q h in
          match err with
          | Some e => Some (Some (QHost e), q_remove q (cname c), w)
          | None => Some (None, q, w)
          end
      end
  end.

Definition q_Register (q : Q) (c : Comp) (w : W) : option (option q_error * Q * W) :=
  '(err, h, w) ← Deploy cname cstart (q_host q) c w;
  let q := with_host q h in
  match err with
  | Some e => Some (Some (QHost e), q, w)
  | None => Some (None, q_Put q (cname c) (inl c), w)
  end.

(** The deploy watcher is registered once, whatever the outcome. *)
Definition ensureDeployer (q : Q) : option q_error * Q :=
  match q_deployer q with
  | None => (None, q)
  | Some dep =>
      if q_deployOnce q then (None, q) else
      let '(err, h) := host_Register cname (q_host q) dep in
      (option_map QHost err, mkQ h (q_objects q) (q_deployer q) true (q_spaceOpen q))
  end.

Definition q_Start (q : Q) (w : W) : option (option q_error * Q * W) :=
  match ensureDeployer q with
  | (Some e, q) => Some (Some e, q, w)
  | (None, q) => '(err, h, w) ← host_Start cstart cstop (q_host q) w; Some (option_map QHost err, with_host q h, w)
  end.

Definition q_Stop (q : Q) (w : W) : option (option q_error * Q * W) :=
  '(err, h, w) ← host_Stop cstop (q_host q) w;
  Some (option_map QHost err, mkQ h (q_objects q) (q_deployer q) (q_deployOnce q) false, w).

(** [Run], whose context is cancelled while it waits. *)
Definition q_Run (q : Q) (w : W) : option (option q_error * Q * W) :=
  '(err, q, w) ← q_Start q w;
  match err with Some e => Some (Some e, q, w) | None => q_Stop q w end.

(** ** Names and components agree *)

Inductive q_op := QSupervise (made : option Comp) | QRegister (c : Comp) | QStart | QStop | QRun.

Definition q_step (o : q_op) (q : Q) (w : W) : option (option q_error * Q * W) :=
  match o with
  | QSupervise made => q_Supervise q made w
  | QRegister c => q_Register q c w
  | QStart => q_Start q w
  | QStop => q_Stop q w
  | QRun => q_Run q w
  end.

Fixpoint q_run (os : list q_op) (q : Q) (w : W) : option (list (option q_error) * Q * W) :=
  match os with
  | [] => Some ([], q, w)
  | o :: os => '(err, q, w) ← q_step o q w; '(errs, q, w) ← q_run os q w; Some (err :: errs, q, w)
  end.

(** Without a deploy directory the registrar is the host's own map. *)
Record registered (q : Q) : Prop := {
  rg_host : exists a, represents cname (q_host q) a;
  rg_objects : q_objects q = inl <$> h_comps (q_host q);
  rg_none : q_deployer q = None;
}.

Lemma comps_of_represents h a : represents cname h a -> forall n, h_comps h !! n = List.find (named cname n) (a_comps a).
Proof. intros HR n. by apply rp_find. Qed.

(** What [Deploy] does to the map of components. *)
Lemma Deploy_comps h a c w : represents cname h a ->
  exists err h' w', Deploy cname cstart h c w = Some (err, h', w') /\ (exists a', represents cname h' a') /\
    match err with
    | Some _ => h_comps h' = h_comps h
    | None => h_comps h !! cname c = None /\ h_comps h' = <[cname c := c]> (h_comps h)
    end.
Proof.
  intros HR. destruct (Deploy_agrees cname cstart cstop h a c w HR) as (h0 & ED & HR').
  destruct (Deploy cname cstart h c w) as [[[err h'] w']|] eqn:EX; [|done]. exists err, h', w'. split; [done|].
  split; [injection ED as _ -> _; by eexists|]. clear ED HR'. revert EX. unfold Deploy, host_add. destruct (h_comps h !! cname c) as [c'|] eqn:EC; [by intros [= <- <- _]|]. cbn [h_started].
  destruct (h_started h).
  - unfold startOne. cbn [h_comps]. rewrite lookup_insert_eq. cbn [mbind option_bind]. destruct (cstart c w) as [[e|] w1]; intros [= <- <- _]; cbn.
    + by apply delete_insert_id.
    + done.
  - intros [= <- <- _]. done.
Qed.

Lemma stop_loop_comps names h w errs h' w' : stop_loop cstop names h w = Some (errs, h', w') -> h_comps h' = h_comps h.
Proof.
  revert h w errs h' w'. induction names as [|n names IH]; intros h w errs h' w'; cbn [stop_loop]; [by intros [= _ <- _]|].
  case_bool_decide; [|apply IH]. unfold stopOne. destruct (h_comps h !! n) as [c|] eqn:EC; [|done]. cbn [mbind option_bind].
  destruct (cstop c w) as [err w1]. cbn [mbind option_bind].
  destruct (stop_loop cstop names _ w1) as [[[es h2] w2]|] eqn:ES; [|done]. intros [= _ <- _]. apply IH in ES. by rewrite ES.
Qed.

Lemma host_Stop_comps h w err h' w' : host_Stop cstop h w = Some (err, h', w') -> h_comps h' = h_comps h.
Proof.
  unfold host_Stop. destruct (stop_loop cstop _ h w) as [[[es h2] w2]|] eqn:ES; [|done]. intros [= _ <- _]. by apply stop_loop_comps in ES.
Qed.

Lemma host_Start_comps h w err h' w' : host_Start cstart cstop h w = Some (err, h', w') -> h_comps h' = h_comps h.
Proof.
  unfold host_Start. destruct (h_started h); [by intros [= _ <- _]|]. generalize (h_order h). intros names. revert h w.
  induction names as [|n names IH]; intros h w; cbn [start_loop]; [by intros [= _ <- _]|].
  unfold startOne. destruct (h_comps h !! n) as [c|]; [|done]. cbn [mbind option_bind]. destruct (cstart c w) as [[e|] w1]; cbn [mbind option_bind].
  - unfold stopStarted. destruct (stop_loop cstop _ h w1) as [[[es h2] w2]|] eqn:ES; [|done]. intros [= _ <- _]. by apply stop_loop_comps in ES.
  - intros HS. by apply IH in HS.
Qed.

Lemma supervise_registered q made w : registered q ->
  exists err q' w', q_Supervise q made w = Some (err, q', w') /\ registered q' /\ (err <> None -> q_objects q' = q_objects q).
Proof.
  intros [[a HR] HO HN]. unfold q_Supervise. destruct made as [c|]; [|eexists _, q, w; split; [done|]; split; [by split; [exists a|..]|done]].
  unfold putUnique. destruct (q_objects q !! cname c) as [x|] eqn:EO; [eexists _, q, w; split; [done|]; split; [by split; [exists a|..]|done]|].
  destruct (Deploy_comps (q_host q) a c w HR) as (err & h' & w' & ED & HR' & HC). cbn [q_Put with_objects q_host]. rewrite ED. cbn [mbind option_bind].
  destruct err as [e|].
  - eexists _, _, _. split; [reflexivity|]. cbn. split; [|intros _; by apply delete_insert_id]. split; cbn; [done| |done].
    rewrite delete_insert_id by done. by rewrite HO, HC.
  - destruct HC as [HF HC]. eexists _, _, _. split; [reflexivity|]. cbn. split; [|done]. split; cbn; [done| |done]. by rewrite HO, HC, fmap_insert.
Qed.

Lemma register_registered q c w : registered q ->
  exists err q' w', q_Register q c w = Some (err, q', w') /\ registered q' /\ (err <> None -> q_objects q' = q_objects q).
Proof.
  intros [[a HR] HO HN]. unfold q_Register. destruct (Deploy_comps (q_host q) a c w HR) as (err & h' & w' & ED & HR' & HC). rewrite ED. cbn [mbind option_bind].
  destruct err as [e|]; eexists _, _, _; (split; [reflexivity|]); cbn.
  - split; [|done]. split; cbn; [done| |done]. by rewrite HO, HC.
  - destruct HC as [HF HC]. split; [|done]. split; cbn; [done| |done]. by rewrite HO, HC, fmap_insert.
Qed.

Lemma start_registered q w : registered q -> exists err q' w', q_Start q w = Some (err, q', w') /\ registered q' /\ q_objects q' = q_objects q.
Proof.
  intros [[a HR] HO HN]. unfold q_Start, ensureDeployer. rewrite HN. destruct (Start_agrees cname cstart cstop (q_host q) a w HR) as (h' & ES & HR').
  rewrite ES. cbn [mbind option_bind]. eexists _, _, _. split; [reflexivity|]. cbn. split; [|done]. split; cbn; [by eexists| |done].
  by rewrite HO, (host_Start_comps _ _ _ _ _ ES).
Qed.

Lemma stop_registered q w : registered q -> exists err q' w', q_Stop q w = Some (err, q', w') /\ registered q' /\ q_objects q' = q_objects q.
Proof.
  intros [[a HR] HO HN]. unfold q_Stop. destruct (Stop_agrees cname cstart cstop (q_host q) a w HR) as (h' & ES & HR').
  rewrite ES. cbn [mbind option_bind]. eexists _, _, _. split; [reflexivity|]. cbn. split; [|done]. split; cbn; [by eexists| |done].
  by rewrite HO, (host_Stop_comps _ _ _ _ _ ES).
Qed.

Lemma step_registered o q w : registered q -> exists err q' w', q_step o q w = Some (err, q', w') /\ registered q' /\ (err <> None -> q_objects q' = q_objects q).
Proof.
  intros HR. destruct o as [made|c| | |]; cbn [q_step].
  - by apply supervise_registered.
  - by apply register_registered.
  - destruct (start_registered q w HR) as (err & q' & w' & ? & ? & ?). by exists err, q', w'.
  - destruct (stop_registered q w HR) as (err & q' & w' & ? & ? & ?). by exists err, q', w'.
  - unfold q_Run. destruct (start_registered q w HR) as (err & q1 & w1 & -> & HR1 & HO1). cbn [mbind option_bind]. destruct err as [e|]; [by exists (Some e), q1, w1|].
    destruct (stop_registered q1 w1 HR1) as (err & q' & w' & ? & ? & HO2). exists err, q', w'. split; [done|]. split; [done|]. intros _. by rewrite HO2.
Qed.

Lemma run_registered os q w : registered q -> exists errs q' w', q_run os q w = Some (errs, q', w') /\ registered q'.
Proof.
  revert q w. induction os as [|o os IH]; intros q w HR; cbn [q_run]; [by exists [], q, w|].
  destruct (step_registered o q w HR) as (err & q1 & w1 & -> & HR1 & _). cbn [mbind option_bind].
  destruct (IH q1 w1 HR1) as (errs & q2 & w2 & -> & HR2). cbn [mbind option_bind]. by eexists _, q2, w2.
Qed.

Lemma New_registered : registered (q_New None).
Proof. split; [eexists; apply represents_New| |done]. cbn. by rewrite fmap_empty. Qed.
End Container.

(** C13: Names and components agree.  After any sequence of [Switch], [Gateway],
    [Register], [Start], [Stop] and [Run] calls on a container without a deploy
    directory, whatever the components' [Start] and [Stop] do or report, no call
    reaches a missing component; a name is found exactly when the host holds a
    component of that name, and then it is that component; [To] finds it exactly
    when it is a connector; and a call that fails leaves the names as they were. *)
Theorem registrar_agrees {Comp E W Obj} (cname : Comp -> bytes) (cstart cstop : Comp -> W -> option E * W) (is_connector : Comp -> bool) os w :
  exists errs (q : Q (Obj := Obj)) w', q_run cname cstart cstop os (q_New None) w = Some (errs, q, w') /\
    (forall name, q_Get q name = inl <$> (h_comps (q_host q) !! name)) /\
    (forall name, q_To is_connector q name = h_comps (q_host q) !! name ≫= fun c => if is_connector c then Some c else None) /\
    Components (q_host q) ≡ₚ elements (q_Names q) /\
    (forall o err q1 w1, q_step cname cstart cstop o q w' = Some (Some err, q1, w1) -> q_objects q1 = q_objects q).
Proof.
  destruct (run_registered cname cstart cstop os (q_New (Obj := Obj) None) w (New_registered cname)) as (errs & q & w' & ER & HQ). pose proof HQ as [[a HR] HO HN].
  exists errs, q, w'. split; [done|]. assert (HG : forall name, q_Get q name = inl <$> (h_comps (q_host q) !! name)) by (intros name; unfold q_Get; by rewrite HO, lookup_fmap).
  split; [done|]. split; [|split].
  - intros name. unfold q_To. rewrite HG. by destruct (h_comps (q_host q) !! name).
  - apply NoDup_Permutation; [apply HR|apply NoDup_elements|]. intros n. unfold Components, q_Names. rewrite elem_of_elements, HO, dom_fmap, elem_of_dom. split; [|apply HR].
    rewrite (rp_order _ _ _ HR). intros (c & -> & Hc)%list_elem_of_fmap. rewrite (rp_comps _ _ _ HR c Hc). by eexists.
  - intros o err q1 w1 HS. destruct (step_registered cname cstart cstop o q w' HQ) as (err' & q' & w2 & HS' & _ & HX). rewrite HS in HS'. injection HS' as <- <- _. by apply HX.
Qed.

(** A factory of the deploy directory puts its component before it is deployed,
    and nothing takes the name back: after the component is undeployed, [To]
    still gives it out. *)
Lemma undeployed_name_stays {Comp E W Obj} (cname : Comp -> bytes) (cstart cstop : Comp -> W -> option E * W) is_connector (q : Q (Obj := Obj)) a c w :
  represents cname (q_host q) a -> is_connector c = true -> h_comps (q_host q) !! cname c = None -> h_started (q_host q) = false ->
  exists h1 h2, Deploy cname cstart (q_host (q_Put q (cname c) (inl c))) c w = Some (None, h1, w) /\
    Undeploy cstop h1 (cname c) w = Some (None, h2, w) /\ h_comps h2 !! cname c = None /\
    q_To is_connector (with_host (q_Put q (cname c) (inl c)) h2) (cname c) = Some c.
Proof.
  intros HR HC HF HS. unfold Deploy, host_add. cbn [q_Put with_objects q_host]. rewrite HF. cbn [h_started]. rewrite HS. eexists _, _. split; [reflexivity|].
  unfold Undeploy. cbn [h_comps h_running]. rewrite lookup_insert_eq. rewrite bool_decide_false.
  2:{ rewrite (rp_running _ _ _ HR). rewrite (rp_started _ _ _ HR) in HS. by rewrite HS. }
  cbn [mbind option_bind option_map]. split; [reflexivity|]. cbn. split; [apply lookup_delete_eq|].
  unfold q_To, q_Get. cbn. rewrite lookup_insert_eq. by rewrite HC.
Qed.

(** A deploy watcher that could not be registered is reported once: the next
    [Start] comes up without it. *)
Lemma deployer_lost {Comp E Obj} (cname : Comp -> bytes) (q : Q (Obj := Obj)) dep e h : q_deployer q = Some dep -> q_deployOnce q = false ->
  host_Register (E := E) cname (q_host q) dep = (Some e, h) ->
  exists q', ensureDeployer (E := E) cname q = (Some (QHost e), q') /\ ensureDeployer (E := E) cname q' = (None, q').
Proof.
  intros HD HO HR. unfold ensureDeployer. rewrite HD, HO, HR. eexists. split; [reflexivity|]. by destruct (q_deployer _).
Qed.

(** ** Descriptors *)

Record netMgmt := mkNetMgmt { nm_MTI : bytes; nm_NMIC : bytes; nm_IntervalMS : Z }.

Record connectorDesc := mkConnectorDesc {
  cd_Addr : bytes; cd_Network : bytes; cd_Packager : bytes; cd_Framer : bytes; cd_TLS : bool; cd_CorrelationDEs : list Z;
  cd_TimeoutMS : Z; cd_MinBackoffMS : Z; cd_MaxBackoffMS : Z; cd_Header : gmap bytes bytes;
  cd_SignOn : option netMgmt; cd_Echo : option netMgmt; cd_UnsolicitedQueue : bytes;
}.

(** The defaults the JSON is decoded over. *)
Definition default_connectorDesc : connectorDesc :=
  mkConnectorDesc [] (go "tcp") (go "iso87-a") (go "length2") false [11; 41] 0 0 0 ∅ None None [].

Record gatewayDesc := mkGatewayDesc { gd_Addr : bytes; gd_Network : bytes; gd_Packager : bytes; gd_Framer : bytes; gd_RouteTo : bytes; gd_TimeoutMS : Z }.
Definition default_gatewayDesc : gatewayDesc := mkGatewayDesc [] (go "tcp") (go "iso87-a") (go "length2") [] 0.

Inductive teq_error :=
| TeqConfig
| TeqAddr
| TeqRouteTo
| TeqPackager (id : bytes)
| TeqFramer (name : bytes)
| TeqNew (e : new_error)
| TeqNewGateway (e : config_error)
| TeqNMIC (s : bytes)
| TeqHeaderKey (s : bytes)
| TeqMessage (e : error).

Definition framerByName (name : bytes) : res teq_error lengthPrefix :=
  if bool_decide (name = []) || bool_decide (name = go "length2") then rmap_err (fun _ => TeqFramer name) (LengthPrefix 2)
  else if bool_decide (name = go "length4") then rmap_err (fun _ => TeqFramer name) (LengthPrefix 4)
  else Err (TeqFramer name).

Definition msDur (ms : Z) : Z := if ms <=? 0 then 0 else wrap64 (ms * 1000000).

(** [packager.Profile] at the entry points. *)
Definition profileByName (id : bytes) : res teq_error Schema :=
  match Profile id with
  | Ok (Some s) => Ok s
  | Ok None => Err (TeqPackager id)
  | Err e => Err (TeqMessage e)
  | Panic => Panic
  end.

(** What the factory hands to [connector.New], and the parts its hooks use. *)
Record connector_parts := mkParts {
  cp_config : Connector.Config; cp_connector : Connector.Connector; cp_schema : Schema; cp_framer : lengthPrefix; cp_correlation : list Z;
  cp_timeout : Z; cp_keepalive : Z; cp_queue : option bytes;
}.

(** [decode] is the decoding of the JSON block over the defaults. *)
Definition connectorFactory (decode : connectorDesc -> bytes -> option connectorDesc) (name cfg : bytes) : res teq_error connector_parts :=
  match (if len cfg =? 0 then Some default_connectorDesc else decode default_connectorDesc cfg) with
  | None => Err TeqConfig
  | Some d =>
      if bool_decide (cd_Addr d = []) then Err TeqAddr else
      let! schema := profileByName (cd_Packager d) in
      let! framer := framerByName (cd_Framer d) in
      let keepalive := match cd_Echo d with Some e => msDur (nm_IntervalMS e) | None => 0 end in
      let cc := mkConfig name (cd_Network d) (cd_Addr d) true (bool_decide (is_Some (cd_SignOn d)))
                  (bool_decide (is_Some (cd_Echo d)) && (0 <? keepalive)) (msDur (cd_MinBackoffMS d)) (msDur (cd_MaxBackoffMS d)) in
      match NewConnector cc with
      | Err e => Err (TeqNew e)
      | Panic => Panic
      | Ok (config, c) =>
          Ok (mkParts config c schema framer (cd_CorrelationDEs d) (msDur (cd_TimeoutMS d)) keepalive
                (if bool_decide (cd_UnsolicitedQueue d = []) then None else Some (cd_UnsolicitedQueue d)))
      end
  end.

(** [to] is [q.To] at the time a message is routed; [notConnected] is the error
    of a destination that is not there. *)
Definition gatewayFactory {E W} (decode : gatewayDesc -> bytes -> option gatewayDesc) (to : bytes -> W -> option (Forwarder (E := E) (W := W)))
    (notConnected : bytes -> bytes -> E) (name cfg : bytes) : res teq_error (Gateway.Gateway (E := E) (W := W) * lengthPrefix) :=
  match (if len cfg =? 0 then Some default_gatewayDesc else decode default_gatewayDesc cfg) with
  | None => Err TeqConfig
  | Some d =>
      if bool_decide (gd_Addr d = []) then Err TeqAddr else
      if bool_decide (gd_RouteTo d = []) then Err TeqRouteTo else
      let! schema := profileByName (gd_Packager d) in
      let! framer := framerByName (gd_Framer d) in
      let route (_ : loc) : hook (option Forwarder) := fun s =>
        (match to (gd_RouteTo d) s.2 with None => Err (notConnected name (gd_RouteTo d)) | Some dest => Ok (Some dest) end, s) in
      let! g := rmap_err TeqNewGateway (NewGateway (Gateway.mkConfig name (gd_Addr d) (Some (NewCodec schema [])) (Some route) None None None)) in
      Ok (g, framer)
  end.

(** ** Network management *)

(** [int64(stan.Add(1) % 1_000_000)]: the counter and the number. *)
Definition next_stan (stan : Z) : Z * Z := let stan := wrapu64 (stan + 1) in (stan, stan mod 1000000).

Definition TQ (A : Type) : Type := heap -> res teq_error A * heap.
Definition tq_bind {A B} (c : TQ A) (k : A -> TQ B) : TQ B := fun h =>
  match c h with
  | (Ok a, h) => k a h
  | (Err e, h) => (Err e, h)
  | (Panic, h) => (Panic, h)
  end.
Definition tq_msg {A} (c : ST A) : TQ A := fun h => let '(r, h) := c h in (rmap_err TeqMessage r, h).
#[local] Notation "'let%' x := c 'in' k" := (tq_bind c (fun x => k)) (at level 10, x pattern, c at level 200, k at level 200).

(** The loop over the header, in the order of the iteration over the map. *)
Fixpoint set_header (l : loc) (header : list (bytes * bytes)) : TQ unit :=
  match header with
  | [] => fun h => (Ok tt, h)
  | (deStr, v) :: header =>
      match Atoi deStr with
      | Ok de => let% _ := tq_msg (SetDE l de (anyString v)) in set_header l header
      | Err _ => fun h => (Err (TeqHeaderKey deStr), h)
      | Panic => fun h => (Panic, h)
      end
  end.

Definition set_nmic (l : loc) (nmic : bytes) : TQ unit :=
  if bool_decide (nmic = []) then fun h => (Ok tt, h) else
  match ParseInt 64 nmic with
  | Ok n => tq_msg (SetDE l 70 (anyInt64 n))
  | Err _ => fun h => (Err (TeqNMIC nmic), h)
  | Panic => fun h => (Panic, h)
  end.

(** The frame, and the counter after it. *)
Definition buildNetMgmt (codec : Codec) (schema : Schema) (mti nmic : bytes) (header : list (bytes * bytes)) (stan : Z) : TQ (bytes * Z) :=
  let% l := tq_msg (halloc (New schema)) in
  let% _ := tq_msg (SetDE l 0 (anyString mti)) in
  let '(stan, n) := next_stan stan in
  let% _ := tq_msg (SetDE l 11 (anyInt64 n)) in
  let% _ := set_nmic l nmic in
  let% _ := set_header l header in
  let% frame := tq_msg (MarshalAt codec l []) in
  fun h => (Ok (frame, stan), h).

(** [netMgmtHook], up to the request it sends. *)
Definition netMgmt_frame (codec : Codec) (schema : Schema) (nm : netMgmt) (header : list (bytes * bytes)) (stan : Z) : TQ (bytes * Z) :=
  buildNetMgmt codec schema (if bool_decide (nm_MTI nm = []) then go "0800" else nm_MTI nm) (nm_NMIC nm) header stan.

(** The numbers of a million messages in a row are different, so that their
    answers can be told apart. *)
Lemma stans_distinct stan i j : 0 <= stan -> stan + 1000000 < 2 ^ 64 -> 0 <= i < 1000000 -> 0 <= j < 1000000 -> i <> j ->
  (next_stan (stan + i)).2 <> (next_stan (stan + j)).2.
Proof.
  intros H0 HB Hi Hj Hne HE. unfold next_stan, wrapu64 in HE. cbn [snd] in HE. rewrite (Z.mod_small (stan + i + 1) (2 ^ 64)), (Z.mod_small (stan + j + 1) (2 ^ 64)) in HE by lia.
  pose proof (Z.div_mod (stan + i + 1) 1000000 ltac:(lia)). pose proof (Z.div_mod (stan + j + 1) 1000000 ltac:(lia)). lia.
Qed.

(** A descriptor is accepted exactly when it has an address, a known profile and
    a known framer, under a name that is not empty. *)
Lemma connectorFactory_accepts decode name cfg d : (if len cfg =? 0 then Some default_connectorDesc else decode default_connectorDesc cfg) = Some d ->
  (exists p, connectorFactory decode name cfg = Ok p) <->
    cd_Addr d <> [] /\ name <> [] /\ (exists s, profileByName (cd_Packager d) = Ok s) /\ (exists f, framerByName (cd_Framer d) = Ok f).
Proof.
  intros HD. unfold connectorFactory. rewrite HD. case_bool_decide as HA; [split; [by intros []|by intros (? & _)]|].
  destruct (profileByName (cd_Packager d)) as [s|e|] eqn:EP; cbn [rbind]; [|split; [by intros []|by intros (_ & _ & [? ?] & _)]..].
  destruct (framerByName (cd_Framer d)) as [f|e|] eqn:EF; cbn [rbind]; [|split; [by intros []|by intros (_ & _ & _ & [? ?])]..].
  unfold NewConnector. cbn [cf_Name cf_Addr cf_hasKeyer]. rewrite (bool_decide_false _ HA). case_bool_decide as HN; cbn [negb].
  - split; [by intros []|by intros (_ & ? & _)].
  - split; [intros _; split_and!; by eauto|intros _; by eexists].
Qed.

(** The gateway of a descriptor edits nothing and answers no error: a message
    goes to the connector of the name [route_to] at that moment. *)
Lemma gatewayFactory_routes {E W} decode (to : bytes -> W -> option (Forwarder (E := E) (W := W))) notConnected name cfg g f :
  gatewayFactory decode to notConnected name cfg = Ok (g, f) -> exists d schema,
    (if len cfg =? 0 then Some default_gatewayDesc else decode default_gatewayDesc cfg) = Some d /\
    profileByName (gd_Packager d) = Ok schema /\ g_codec g = NewCodec schema [] /\
    g_BeforeRequest g = None /\ g_BeforeResponse g = None /\ g_OnError g = None /\
    forall l s, g_Route g l s = (match to (gd_RouteTo d) s.2 with None => Err (notConnected name (gd_RouteTo d)) | Some dest => Ok (Some dest) end, s).
Proof.
  unfold gatewayFactory. destruct (if len cfg =? 0 then _ else _) as [d|]; [|done]. case_bool_decide as HA; [done|]. case_bool_decide; [done|].
  destruct (profileByName (gd_Packager d)) as [s|e|] eqn:EP; cbn [rbind]; [|done..].
  destruct (framerByName (gd_Framer d)) as [f'|e|] eqn:EF; cbn [rbind]; [|done..].
  unfold NewGateway. cbn [Gateway.gw_Name Gateway.gw_Addr]. case_bool_decide; [done|]. rewrite (bool_decide_false _ HA). cbn. intros [= <- <-]. by exists d, s.
Qed.

(** The echo a descriptor without values describes, over the default profile. *)
Definition echo_fields : result (option bytes * option bytes * option bytes) :=
  match profileByName (go "iso87-a") with
  | Ok s =>
      let c := NewCodec s [] in
      match netMgmt_frame c s (mkNetMgmt [] (go "301") 0) [(go "41", go "TERM0001")] 122 [] with
      | (Ok (frame, _), _) =>
          match (let* l := UnmarshalNew c frame in let* a := Get l 0 in let* b := Get l 11 in let* d := Get l 70 in sret (v_raw <$> a, v_raw <$> b, v_raw <$> d)) [] with
          | (r, _) => r
          end
      | (Err (TeqMessage e), _) => Err e
      | _ => Panic
      end
  | _ => Panic
  end.

Lemma echo_delivered : echo_fields = Ok (Some (go "0800"), Some (go "000123"), Some (go "301")).
Proof. vm_compute. reflexivity. Qed.
