(* ===== verification/Trace.v ===== *)
(** * Transaction traces ([trace/trace.go])

    A trace collects steps, messages and errors of one transaction and describes
    them together.  A message entry holds the message itself, in the message
    store, and is described when the trace is rendered.  Times are nanoseconds;
    their texts ([time.Format], [Duration.String]) are parameters. *)

From S2P Require Import Prelude Errors Strconv Bitmap Decimal Path Schema Value FieldCodec Message BerTlv Engine Layout Access Invariant Store Describe.

Inductive entryKind :=
| kindStep (detail : bytes)
| kindMessage (m : loc)
| kindError (err : bytes).

Record entry := mkEntry { en_when : Z; en_label : bytes; en_what : entryKind }.

Record Trace := mkTrace { tr_ID : bytes; tr_start : Z; tr_entries : list entry }.

Definition trace_New (id : bytes) (now : Z) : Trace := mkTrace id now [].

(** [strings.Builder] of [pairs]: a space before all but the first. *)
Definition pairs_sep (b : bytes) : bytes := if 0 <? len b then b ++ go " " else b.

Fixpoint pairs_loop (b : bytes) (kv : list bytes) : bytes :=
  match kv with
  | [] => b
  | [k] => pairs_sep b ++ k
  | k :: v :: kv => pairs_loop (pairs_sep b ++ k ++ go "=" ++ v) kv
  end.

(** The arguments are their texts (the verb v). *)
Definition pairs (kv : list bytes) : bytes := pairs_loop [] kv.

Definition trace_add (t : Trace) (e : entry) : Trace := mkTrace (tr_ID t) (tr_start t) (tr_entries t ++ [e]).

(** No trace ([None]) takes every call and does nothing. *)
Definition trace_Step (t : option Trace) (now : Z) (label : bytes) (kv : list bytes) : option Trace :=
  match t with None => None | Some t => Some (trace_add t (mkEntry now label (kindStep (pairs kv)))) end.
Definition trace_Message (t : option Trace) (now : Z) (title : bytes) (m : option loc) : option Trace :=
  match t, m with Some t, Some m => Some (trace_add t (mkEntry now title (kindMessage m))) | t, _ => t end.
Definition trace_Fail (t : option Trace) (now : Z) (err : option bytes) : option Trace :=
  match t, err with Some t, Some err => Some (trace_add t (mkEntry now (go "error") (kindError err))) | t, _ => t end.

(** ** Rendering *)

Record renderConfig := mkRender { rc_timestamps : bool; rc_layout : bytes; rc_color : bool; rc_msgOpts : list DescribeOption }.

Definition TraceOption : Type := renderConfig -> renderConfig.
Definition NoTimestamps : TraceOption := fun c => mkRender false (rc_layout c) (rc_color c) (rc_msgOpts c).
Definition Color (on : bool) : TraceOption := fun c => mkRender (rc_timestamps c) (rc_layout c) on (rc_msgOpts c).
Definition trace_WithColor : TraceOption := fun c => mkRender (rc_timestamps c) (rc_layout c) true (rc_msgOpts c).
Definition WithTimeLayout (layout : bytes) : TraceOption := fun c => mkRender (rc_timestamps c) layout (rc_color c) (rc_msgOpts c).
Definition WithMessageOptions (opts : list DescribeOption) : TraceOption := fun c => mkRender (rc_timestamps c) (rc_layout c) (rc_color c) (rc_msgOpts c ++ opts).
Definition trace_Unmasked : TraceOption := fun c => mkRender (rc_timestamps c) (rc_layout c) (rc_color c) (rc_msgOpts c ++ [Unmasked]).

Definition DefaultTimeLayout : bytes := go "2006-01-02 15:04:05.000000".
Definition trace_resolve (opts : list TraceOption) : renderConfig := fold_left (fun c o => o c) opts (mkRender true DefaultTimeLayout false []).

Definition ansiRed : bytes := ansi (go "31").
Definition labelColor (label : bytes) : bytes :=
  if bool_decide (label = go "received") || bool_decide (label = go "replied") then ansiGreen else ansiCyan.
Definition trace_paint (c : renderConfig) (code s : bytes) : bytes :=
  if negb (rc_color c) || bool_decide (s = []) then s else code ++ s ++ ansiReset.

(** [strings.TrimRight(line, " ")]. *)
Fixpoint drop_blanks (s : bytes) : bytes := match s with x20 :: s => drop_blanks s | _ => s end.
Definition TrimRight_blank (s : bytes) : bytes := rev (drop_blanks (rev s)).

Section Render.
Context (isPrint : Z -> bool) (format : Z -> bytes -> bytes) (duration : Z -> bytes) (depth : nat).

Definition trace_stamp (c : renderConfig) (when : Z) : bytes :=
  if negb (rc_timestamps c) then [] else trace_paint c ansiDim (format when (rc_layout c)) ++ go "  ".

Definition message_opts (c : renderConfig) (label : bytes) : list DescribeOption :=
  [WithTitle label] ++ rc_msgOpts c ++ (if rc_color c then [WithColor] else []).
Definition trace_message (c : renderConfig) (label : bytes) (v : View) : result bytes := Dump isPrint v (message_opts c label).

Definition step_line (c : renderConfig) (e : entry) (detail : bytes) : bytes :=
  let line := trace_stamp c (en_when e) ++ trace_paint c (labelColor (en_label e)) (pad_right 14 (en_label e)) in
  let line := if bool_decide (detail = []) then line else line ++ go "  " ++ detail in
  TrimRight_blank line ++ newline.
Definition error_line (c : renderConfig) (e : entry) (err : bytes) : bytes :=
  trace_stamp c (en_when e) ++ trace_paint c ansiRed (go "error") ++ go "  " ++ trace_paint c ansiRed err ++ newline.

(** One entry of the loop of [WriteTo]. *)
Definition entry_text (c : renderConfig) (e : entry) : ST bytes :=
  match en_what e with
  | kindMessage m => let* v := view_of depth m in slift (trace_message c (en_label e) v)
  | kindError err => sret (error_line c e err)
  | kindStep detail => sret (step_line c e detail)
  end.

Fixpoint entries_text (c : renderConfig) (es : list entry) : ST bytes :=
  match es with
  | [] => sret []
  | e :: es => let* a := entry_text c e in let* b := entries_text c es in sret (a ++ b)
  end.

Definition trace_total (t : Trace) : Z := match list.last (tr_entries t) with Some e => en_when e - tr_start t | None => 0 end.
Definition trace_header (c : renderConfig) (t : Trace) : bytes :=
  newline ++ trace_paint c ansiBold (go "trace " ++ tr_ID t ++ go " · total " ++ duration (trace_total t)) ++ newline.

(** [Describe], and [WriteTo] on a writer that takes everything. *)
Definition trace_Describe (t : option Trace) (opts : list TraceOption) : ST bytes :=
  match t with
  | None => sret []
  | Some t =>
      let c := trace_resolve opts in
      let* body := entries_text c (tr_entries t) in
      sret (trace_header c t ++ body)
  end.

(** ** No secret reaches the description *)

(** The views of the messages of a trace, as they are when it is rendered. *)
Fixpoint views_at (es : list entry) : ST (list View) :=
  match es with
  | [] => sret []
  | e :: es => match en_what e with
      | kindMessage m => let* v := view_of depth m in let* vs := views_at es in sret (v :: vs)
      | _ => views_at es
      end
  end.

(** An option that does not unmask: every one but [Unmasked]. *)
Definition keeps_masked (o : DescribeOption) : Prop := forall c, dc_unmask c = false -> dc_unmask (o c) = false.

Lemma fold_keeps_masked opts c : Forall keeps_masked opts -> dc_unmask c = false -> dc_unmask (fold_left (fun c o => o c) opts c) = false.
Proof. intros HF. revert c. induction HF as [|o opts HO _ IH]; intros c HC; cbn; [done|]. by apply IH, HO. Qed.

Lemma message_opts_masked c label : Forall keeps_masked (rc_msgOpts c) -> dc_unmask (describe_resolve (message_opts c label)) = false.
Proof.
  intros HF. apply fold_keeps_masked; [|done]. unfold message_opts. apply list.Forall_app. split; [by apply list.Forall_singleton; intros ? ?|].
  apply list.Forall_app. split; [done|]. destruct (rc_color c); [by apply list.Forall_singleton; intros ? ?|done].
Qed.

(** The text of the entries, given the views of their messages. *)
Fixpoint render_of (c : renderConfig) (es : list entry) (vs : list View) : result bytes :=
  match es with
  | [] => Ok []
  | e :: es =>
      match en_what e, vs with
      | kindMessage _, v :: vs => let! a := trace_message c (en_label e) v in let! b := render_of c es vs in Ok (a ++ b)
      | kindMessage _, [] => Panic
      | kindError err, _ => let! b := render_of c es vs in Ok (error_line c e err ++ b)
      | kindStep detail, _ => let! b := render_of c es vs in Ok (step_line c e detail ++ b)
      end
  end.

Lemma entries_text_of c es h vs h' : views_at es h = (Ok vs, h') ->
  exists text, entries_text c es h = (Ok text, h') /\ render_of c es vs = Ok text.
Proof.
  revert h vs. induction es as [|e es IH]; intros h vs; cbn [views_at entries_text render_of]; [by intros [= <- <-]; eexists|].
  unfold entry_text. destruct (en_what e) as [detail|m|err]; unfold sbind at 1, sret.
  - intros HV. cbn. destruct (IH h vs HV) as (b & HT & HO). unfold sbind. rewrite HT, HO. by eexists.
  - unfold sbind at 2. destruct (view_of depth m h) as [[v|e'|] h1] eqn:EV; [|done|done]. unfold sbind at 1.
    destruct (views_at es h1) as [[vs'|e'|] h2] eqn:ES; [|done|done]. intros [= <- <-].
    destruct (Dump_total isPrint v (message_opts c (en_label e))) as (a & HA). unfold trace_message, slift. rewrite HA. cbn [rbind].
    destruct (IH h1 vs' ES) as (b & HT & HO). unfold sbind. rewrite EV, HA, HT, HO. by eexists.
  - intros HV. cbn. destruct (IH h vs HV) as (b & HT & HO). unfold sbind. rewrite HT, HO. by eexists.
Qed.

Lemma text_of_redact c es vs : Forall keeps_masked (rc_msgOpts c) -> render_of c es vs = render_of c es (redact <$> vs).
Proof.
  intros HF. revert vs. induction es as [|e es IH]; intros vs; cbn [render_of]; [done|].
  destruct (en_what e); [by rewrite IH| |by rewrite IH]. destruct vs as [|v vs]; [done|]. cbn [fmap list_fmap].
  unfold trace_message. rewrite (Dump_redact isPrint v) by (by apply message_opts_masked). by rewrite IH.
Qed.

(** A trace leaks no cardholder secret of its messages.  When two runs
    record the same entries over messages whose redactions are equal when the
    trace is rendered, and no option unmasks, the descriptions exist and are
    byte for byte the same. *)
Theorem trace_masks t opts h1 h2 vs1 vs2 h1' h2' :
  views_at (tr_entries t) h1 = (Ok vs1, h1') -> views_at (tr_entries t) h2 = (Ok vs2, h2') ->
  redact <$> vs1 = redact <$> vs2 -> Forall keeps_masked (rc_msgOpts (trace_resolve opts)) ->
  exists text, (trace_Describe (Some t) opts h1).1 = Ok text /\ (trace_Describe (Some t) opts h2).1 = Ok text.
Proof.
  intros HV1 HV2 HR HF. set (c := trace_resolve opts) in *.
  destruct (entries_text_of c _ _ _ _ HV1) as (b1 & HT1 & HO1). destruct (entries_text_of c _ _ _ _ HV2) as (b2 & HT2 & HO2).
  rewrite text_of_redact, HR, <- text_of_redact, HO2 in HO1 by done. injection HO1 as <-.
  exists (trace_header c t ++ b2). unfold trace_Describe. fold c. unfold sbind. by rewrite HT1, HT2.
Qed.
End Render.

(** ** Examples *)

(** A message with a card number and a network code. *)
Definition card_message (pan nmic : bytes) : ST loc :=
  let* l := halloc (New sample_schema) in
  let* _ := SetDE l 0 (anyString (go "0800")) in
  let* _ := SetDE l 2 (anyString pan) in
  let* _ := SetDE l 70 (anyString nmic) in
  sret l.

Definition sample_trace : Trace :=
  mkTrace (go "isw-1") 0 [mkEntry 1 (go "received") (kindStep (pairs [go "bytes"; go "64"])); mkEntry 2 (go "request") (kindMessage 0%nat)].

Definition heap_of (pan nmic : bytes) : heap := (card_message pan nmic []).2.

(** The views of the trace over a store. *)
Definition sample_views (h : heap) : list View := match views_at 1 (tr_entries sample_trace) h with (Ok vs, _) => vs | _ => [] end.
Definition sample_readable (h : heap) : bool := match views_at 1 (tr_entries sample_trace) h with (Ok _, _) => true | _ => false end.

Lemma sample_views_at h : sample_readable h = true -> views_at 1 (tr_entries sample_trace) h = (Ok (sample_views h), (views_at 1 (tr_entries sample_trace) h).2).
Proof. unfold sample_readable, sample_views. by destruct (views_at 1 (tr_entries sample_trace) h) as [[]]. Qed.

Lemma trace_masks_witness : exists text,
  (trace_Describe (fun _ => true) (fun _ l => l) (fun _ => []) 1 (Some sample_trace) [] (heap_of (go "4111111111111111") (go "301"))).1 = Ok text /\
  (trace_Describe (fun _ => true) (fun _ l => l) (fun _ => []) 1 (Some sample_trace) [] (heap_of (go "4111119876541111") (go "301"))).1 = Ok text.
Proof.
  eapply trace_masks.
  - apply sample_views_at. vm_compute. reflexivity.
  - apply sample_views_at. vm_compute. reflexivity.
  - vm_cast_no_check (@eq_refl (list View) (redact <$> sample_views (heap_of (go "4111111111111111") (go "301")))).
  - constructor.
Defined.

(** An entry is not a snapshot: a field that is set after the message was
    recorded is what the description shows. *)
Definition shown_after_edit : bool :=
  let describe h := (trace_Describe (fun _ => true) (fun _ l => l) (fun _ => []) 1 (Some sample_trace) [] h).1 in
  let h := heap_of (go "4111111111111111") (go "301") in
  match describe h, describe (SetDE 0%nat 70 (anyString (go "001")) h).2, describe (heap_of (go "4111111111111111") (go "001")) with
  | Ok before, Ok after, Ok other => negb (bool_decide (before = after)) && bool_decide (after = other)
  | _, _, _ => false
  end.

Lemma trace_not_snapshot : shown_after_edit = true.
Proof. vm_compute. reflexivity. Qed.
