(* ===== verification/Keyer.v ===== *)
(** * Correlation keys and the multiplexer's link ([mux/mux.go])

    [FieldKeyer] keys a frame by the values of some of its data elements; the
    keys of what an engine marshals are computed here from the message itself,
    so that a request and its response correlate exactly when these elements
    agree.  The keyers of [Mux], its [Send] and what it reports complete the
    model of [Mux]. *)

From S2P Require Import Prelude Errors Strconv Bitmap Decimal Path Schema LengthCodec BitmapCodec Value FieldCodec Message BerTlv Engine Layout Wire Recursion Access Invariant Store EndToEnd GoStrings Framer Mux Listener.

(** ** The keyer *)

Inductive keyer_error :=
| KeyUnmarshal (e : error)
| KeyAbsent (de : Z)
| KeyString (e : error).

(** The loop over the elements; [Get] never reports an error. *)
Fixpoint key_parts (l : loc) (des : list Z) (h : heap) : res keyer_error (list bytes) * heap :=
  match des with
  | [] => (Ok [], h)
  | de :: des =>
      match Get l de h with
      | (Ok None, h) => (Err (KeyAbsent de), h)
      | (Ok (Some v), h) =>
          match Value_String v with
          | Ok s =>
              match key_parts l des h with
              | (Ok parts, h) => (Ok (s :: parts), h)
              | r => r
              end
          | Err e => (Err (KeyString e), h)
          | Panic => (Panic, h)
          end
      | (Err e, h) => (Err (KeyString e), h)
      | (Panic, h) => (Panic, h)
      end
  end.

(** [strings.Join(parts, "|")]. *)
Fixpoint join_bar (parts : list bytes) : bytes :=
  match parts with [] => [] | [p] => p | p :: parts => p ++ go "|" ++ join_bar parts end.

Definition FieldKeyer (c : Codec) (des : list Z) (msg : bytes) (h : heap) : res keyer_error bytes * heap :=
  match UnmarshalNew c msg h with
  | (Ok l, h) => let '(r, h) := key_parts l des h in (let! parts := r in Ok (join_bar parts), h)
  | (Err e, h) => (Err (KeyUnmarshal e), h)
  | (Panic, h) => (Panic, h)
  end.

(** The multiplexer's view of a keyer: the message it decodes is its own. *)
Definition keyer_of (c : Codec) (des : list Z) (msg : bytes) : option bytes :=
  match fst (FieldKeyer c des msg []) with Ok k => Some k | _ => None end.

(** ** What the keyer gives for a marshalled message *)

Lemma key_parts_reads h l m des vs ss : h !! l = Some m -> Forall2 (reads m) des vs -> Forall2 (fun v s => Value_String v = Ok s) vs ss ->
  fst (key_parts l des h) = Ok ss.
Proof.
  intros Hl HR HV. revert h m Hl ss HR HV. induction des as [|de des IH] in vs |- *; intros h m Hl ss HR HV; cbn [key_parts].
  - apply Forall2_nil_inv_l in HR as ->. by apply Forall2_nil_inv_l in HV as ->.
  - apply Forall2_cons_inv_l in HR as (v & vs' & HRd & HR & ->). apply Forall2_cons_inv_l in HV as (s & ss' & HS & HV & ->).
    destruct (reads_Get h l m de v Hl HRd) as (m' & -> & HK). rewrite HS.
    assert (Hl' : <[l:=m']> h !! l = Some m') by (apply list_lookup_insert_eq; by eapply lookup_lt_Some).
    specialize (IH vs' (<[l:=m']> h) m' Hl' ss'). destruct (key_parts l des (<[l:=m']> h)) as [r h2]. cbn [fst] in IH. rewrite IH; [done| |done].
    eapply list.Forall2_impl; [exact HR|]. intros; by apply HK.
Qed.

(** The text a correlation element of a message has on the wire. *)
Definition key_value (s : Schema) (m : Message) (de : Z) : bytes :=
  match Schema_Field s de, slot_at m de with
  | Some d, Ok sl => match fd_Codec d with Some cd => padded d (fst (codec_pad cd)) (snd (codec_pad cd)) (v_raw (sl_v sl)) | None => [] end
  | _, _ => []
  end.

Definition keyable (s : Schema) (m : Message) (de : Z) : Prop := 1 <= de /\ exists d sl cd, representable s m de d sl cd.

Lemma unit_codec_text cd v : unit_codec cd = true -> v_kind v = codec_Kind cd -> Value_String v = Ok (v_raw v).
Proof. intros HU HK. unfold Value_String. rewrite HK. by destruct cd. Qed.

Lemma FieldKeyer_wire h h' c m wire post des : sendable (c_schema c) m -> m_owned m = true \/ m_src m = None -> Marshal h c m [] = Ok wire ->
  Forall (keyable (c_schema c) m) des ->
  fst (FieldKeyer c des (wire ++ post) h') = Ok (join_bar (key_value (c_schema c) m <$> des)).
Proof.
  intros HS Ho HM HF. destruct (delivered_reads h c m wire post HS Ho HM) as (m' & HU & HR).
  assert (HV : exists vs, Forall2 (reads m') des vs /\ Forall2 (fun v s => Value_String v = Ok s) vs (key_value (c_schema c) m <$> des)).
  { induction HF as [|de des [Hde (d & sl & cd & HK)] _ (vs & I1 & I2)]; [by exists []|].
    destruct (HR de d sl cd Hde HK) as (v & HV & Hraw & HKd). exists (v :: vs). split; [by constructor|]. cbn [fmap list_fmap]. constructor; [|done].
    destruct HK as ((HFd & HSl & _) & HC & HUn & _). rewrite (unit_codec_text cd v) by done. unfold key_value. by rewrite HFd, HSl, HC, Hraw. }
  destruct HV as (vs & HV1 & HV2). unfold FieldKeyer, UnmarshalNew, sbind, slift. rewrite HU. cbn.
  assert (HP : fst (key_parts (length h') des (h' ++ [m'])) = Ok (key_value (c_schema c) m <$> des)).
  { eapply key_parts_reads; [by rewrite lookup_app_r, Nat.sub_diag|done..]. }
  destruct (key_parts (length h') des (h' ++ [m'])) as [r h2]. cbn in HP. subst r. done.
Qed.

(** ** Correlation *)

Lemma join_bar_inj ps qs : length ps = length qs -> Forall (fun p => x7c ∉ p) ps -> Forall (fun q => x7c ∉ q) qs -> join_bar ps = join_bar qs -> ps = qs.
Proof.
  revert qs. induction ps as [|p ps IH]; intros [|q qs]; try done. intros [= HL] [Hp HP]%list.Forall_cons [Hq HQ]%list.Forall_cons.
  destruct ps as [|p' ps], qs as [|q' qs]; try done; [cbn; by intros ->|]. change (join_bar (p :: p' :: ps)) with (p ++ x7c :: join_bar (p' :: ps)).
  change (join_bar (q :: q' :: qs)) with (q ++ x7c :: join_bar (q' :: qs)). intros [-> HJ]%split_first; [|done..]. f_equal. by apply IH.
Qed.

(** Without that, different values can have the same key. *)
Lemma join_bar_collides : join_bar [go "a|b"; go "c"] = join_bar [go "a"; go "b|c"].
Proof. reflexivity. Qed.

(** C32: A request and its response find each other.  Let two messages, built or
    edited by [Set], be marshalled over one codec that can deliver them
    ([sendable]): the lengths the schema declares can be written, the message is
    consistent, as [New], [Unmarshal] and [Set] leave it, its present elements lie
    within the levels of the bitmap and are not the elements 1 and 65 whose bits
    announce further levels, and each field that was set is delimited by a length
    prefix or a fixed size its codec can fill.  Let every correlation element be
    set in both to text, numbers or bytes that its codec can represent.  Then both
    frames have a key; when the elements agree, padding included, the keys are
    equal, and a response read while the request is registered is handed to that
    request; and when no element holds a bar, equal keys mean equal elements. *)
Theorem keyer_correlates h1 h2 c m1 m2 wire1 wire2 post1 post2 des :
  sendable (c_schema c) m1 -> m_owned m1 = true \/ m_src m1 = None -> Marshal h1 c m1 [] = Ok wire1 ->
  sendable (c_schema c) m2 -> m_owned m2 = true \/ m_src m2 = None -> Marshal h2 c m2 [] = Ok wire2 ->
  Forall (keyable (c_schema c) m1) des -> Forall (keyable (c_schema c) m2) des ->
  exists k1 k2, keyer_of c des (wire1 ++ post1) = Some k1 /\ keyer_of c des (wire2 ++ post2) = Some k2 /\
    ((forall de, de ∈ des -> key_value (c_schema c) m1 de = key_value (c_schema c) m2 de) ->
       k1 = k2 /\ forall mx id, mx_pending mx !! k1 = None ->
         mx_hand (readLoop_frame (keyer_of c des) (Request_register (keyer_of c des) mx id (wire1 ++ post1)) (wire2 ++ post2)) = Some (id, wire2 ++ post2)) /\
    (k1 = k2 -> (forall de, de ∈ des -> (x7c ∉ key_value (c_schema c) m1 de) /\ (x7c ∉ key_value (c_schema c) m2 de)) ->
       forall de, de ∈ des -> key_value (c_schema c) m1 de = key_value (c_schema c) m2 de).
Proof.
  intros HS1 Ho1 HM1 HS2 Ho2 HM2 HF1 HF2. exists (join_bar (key_value (c_schema c) m1 <$> des)), (join_bar (key_value (c_schema c) m2 <$> des)).
  assert (HK1 : keyer_of c des (wire1 ++ post1) = Some (join_bar (key_value (c_schema c) m1 <$> des))) by (unfold keyer_of; by rewrite (FieldKeyer_wire h1 [] c m1)).
  assert (HK2 : keyer_of c des (wire2 ++ post2) = Some (join_bar (key_value (c_schema c) m2 <$> des))) by (unfold keyer_of; by rewrite (FieldKeyer_wire h2 [] c m2)).
  split; [done|]. split; [done|]. split.
  - intros HE. assert (HEq : key_value (c_schema c) m1 <$> des = key_value (c_schema c) m2 <$> des).
    { apply list_fmap_ext. intros i de HI. apply HE. by eapply list_elem_of_lookup_2. }
    rewrite <- HEq in HK2. rewrite HEq. split; [done|]. intros mx id HN. rewrite <- HEq in HN. unfold Request_register, readLoop_frame. rewrite HK1, HK2, HN. cbn.
    by rewrite lookup_insert_eq.
  - intros HJ HB. apply join_bar_inj in HJ.
    + intros de HI. apply list_elem_of_lookup in HI as [i HI]. assert (HL : (key_value (c_schema c) m1 <$> des) !! i = (key_value (c_schema c) m2 <$> des) !! i) by (by rewrite HJ).
      rewrite !list_lookup_fmap, HI in HL. by injection HL.
    + by rewrite !length_fmap.
    + apply list.Forall_forall. intros p (de & -> & HI)%list_elem_of_fmap. by apply HB.
    + apply list.Forall_forall. intros p (de & -> & HI)%list_elem_of_fmap. by apply HB.
Qed.

(** Checking by evaluation that elements can be keyed. *)
Definition keyableb (s : Schema) (m : Message) (de : Z) : bool :=
  (1 <=? de) &&
  match Schema_Field s de, slot_at m de with
  | Some d, Ok sl =>
      sl_present sl && (match clean_src sl (m_src m) with None => true | Some _ => false end) &&
      match fd_Codec d with Some cd => unit_codec cd && encodable cd (v_raw (sl_v sl)) | None => false end &&
      negb (bool_decide (v_raw (sl_v sl) = []))
  | _, _ => false
  end.

Lemma keyableb_ok s m de : keyableb s m de = true -> keyable s m de.
Proof.
  unfold keyableb. intros [H1%Z.leb_le H2]%andb_prop. split; [done|]. destruct (Schema_Field s de) as [d|] eqn:ED; [|done].
  destruct (slot_at m de) as [sl|e|] eqn:ES; [|done|done]. apply andb_prop in H2 as [[[HP HC]%andb_prop HU]%andb_prop HN].
  destruct (fd_Codec d) as [cd|] eqn:EC; [|done]. apply andb_prop in HU as [HU HE]. exists d, sl, cd.
  split_and!; [split_and!; [done..|by right|by destruct (clean_src sl (m_src m))]|done..|]. by apply negb_true_iff, bool_decide_eq_false in HN.
Qed.

Lemma keyer_correlates_witness : exists k, keyer_of sample_codec [2] (edited_wire ++ go "request") = Some k /\
  keyer_of sample_codec [2] (edited_wire ++ go "response") = Some k /\
  mx_hand (readLoop_frame (keyer_of sample_codec [2]) (Request_register (keyer_of sample_codec [2]) NewMux 0 (edited_wire ++ go "request")) (edited_wire ++ go "response"))
    = Some (0%nat, edited_wire ++ go "response").
Proof.
  destruct edited_sample as [m|e|] eqn:E; [|vm_compute in E; discriminate..].
  destruct (edited_sample_facts m E) as (HS & HO & HM).
  assert (C : match edited_sample with Ok m => keyableb sample_schema m 2 | _ => false end = true) by (vm_compute; reflexivity).
  rewrite E in C. assert (HF : Forall (keyable sample_schema m) [2]) by (constructor; [by apply keyableb_ok|constructor]).
  destruct (keyer_correlates [] [] sample_codec m m edited_wire edited_wire (go "request") (go "response") [2]
    HS (or_introl HO) HM HS (or_introl HO) HM HF HF) as (k1 & k2 & HK1 & HK2 & HA & _).
  destruct HA as [<- HA]; [done|]. exists k1. split; [exact HK1|]. split; [exact HK2|]. apply HA. apply lookup_empty.
Defined.

(** ** The rest of the multiplexer *)

(** [responseKey]: the response keyer, or the request keyer when there is none. *)
Definition responseKey_of (key : bytes -> option bytes) (respKey : option (bytes -> option bytes)) : bytes -> option bytes := default key respKey.

Definition mux_Err (m : Mux) : option cause := mx_done m.

Inductive mux_send_error {E} := MuxClosed (c : cause) | MuxLink (e : send_error (E := E)).

Definition mux_Send {E} (m : Mux) (l : Link (E := E)) (msg conn : bytes) : res mux_send_error unit * bytes :=
  match mx_done m with
  | Some c => (Err (MuxClosed c), conn)
  | None => let '(r, conn) := link_Send l msg conn in (rmap_err MuxLink r, conn)
  end.

(** A stopped multiplexer writes nothing, and reports what stopped it first. *)
Lemma Send_stopped {E} m c c' (l : Link (E := E)) msg conn : mx_done m = None ->
  mux_Send (stop (stop m c) c') l msg conn = (Err (MuxClosed c), conn) /\ mux_Err (stop (stop m c) c') = Some c.
Proof. intros HD. unfold mux_Send, mux_Err. cbn. by rewrite HD. Qed.
